(** * strapi-auto-uuid: the identifier-assignment and reconciliation engine

    A shallow embedding of the server side of the plugin:

    - [server/src/bootstrap.js]: the lifecycle hooks [beforeCreate] and
      [beforeUpdate] with [generateUuid], [checkUuidExists], [isUuidExists],
      [generateUniqueUuid] and [getDocumentIdFromWhere];
    - the plugin service: [findDuplicatesForField], [fixDuplicatesForField],
      [autofix], [diagnose], [ensureUuid], [checkDuplicate],
      [generateMissing];
    - the migration service: [checkMigrationStatus], [runMigration],
      [exportMappings], [importMappings];
    - the auto-migration of the bootstrap, the controller, the validator
      of the plugin configuration, and [prefixPluginTranslations] of the
      admin entry point.

    JavaScript promises are awaited one after the other, so the code is
    embedded in a state-and-exception monad over a [World]: the datastore
    and the entropy source of the [uuid] package. *)

From Stdlib Require Import String Ascii List NArith ZArith Bool Lia Permutation DecimalString.
From stdpp Require Import base option list gmap strings.

Import ListNotations.
Local Open Scope string_scope.
Local Open Scope list_scope.

(* ===================================================================== *)
(** ** JavaScript values *)
(* ===================================================================== *)

Module Js.

(** A field of a record holds [null] or a string; a key that is missing
    from an object reads as [undefined], which is [None] of a lookup. *)
Inductive value : Type :=
| Null
| Str (s : string).

(** [!!v]: [undefined], [null] and the empty string are falsy. *)
Definition truthy (v : option value) : bool :=
  match v with
  | Some (Str s) => negb (String.eqb s "")
  | _ => false
  end.

(** A truthy string, the way [x || null] and [if (x)] read a string. *)
Definition truthy_str (s : string) : bool := negb (String.eqb s "").

(** [a || b] on optional strings. *)
Definition or_else (a b : option string) : option string :=
  match a with
  | Some s => if truthy_str s then Some s else b
  | None => b
  end.

(** The string of a value inside a template literal. *)
Definition show (v : option value) : string :=
  match v with
  | None => "undefined"
  | Some Null => "null"
  | Some (Str s) => s
  end.

(** Decimal rendering of a number inside a template literal. *)
Definition show_nat (n : nat) : string :=
  NilEmpty.string_of_uint (Nat.to_uint n).

(** *** Property order of an ordinary object

    [Object.entries] lists array-index keys first, in ascending numeric
    order, and then the other string keys in creation order. An array
    index is the canonical decimal string of an integer below [2^32 - 1]. *)

Definition is_digit (c : ascii) : bool :=
  let n := N_of_ascii c in ((48 <=? n) && (n <=? 57))%N.

Fixpoint digits_value (s : string) (acc : N) : N :=
  match s with
  | EmptyString => acc
  | String c s' => digits_value s' (acc * 10 + (N_of_ascii c - 48))%N
  end.

Fixpoint all_digits (s : string) : bool :=
  match s with
  | EmptyString => true
  | String c s' => is_digit c && all_digits s'
  end.

Definition array_index (k : string) : option N :=
  match k with
  | EmptyString => None
  | String c rest =>
      if all_digits k
         && (negb (Ascii.eqb c "0"%char) || String.eqb rest "")
         && (String.length k <=? 10)%nat
      then let n := digits_value k 0 in
           if (n <? 4294967295)%N then Some n else None
      else None
  end.

(** The names every ordinary object inherits from [Object.prototype]:
    reading one of them on an object that does not own it yields a
    function (or the prototype itself), which is truthy and has no
    [push]. *)
Definition object_prototype_names : list string :=
  [ "constructor"; "__defineGetter__"; "__defineSetter__"; "hasOwnProperty";
    "__lookupGetter__"; "__lookupSetter__"; "isPrototypeOf";
    "propertyIsEnumerable"; "toString"; "valueOf"; "__proto__";
    "toLocaleString" ].

Definition inherited (k : string) : bool :=
  existsb (String.eqb k) object_prototype_names.

Section Object.
Context {V : Type}.

(** Own properties in creation order. *)
Definition object := list (string * V).

Fixpoint get (o : object) (k : string) : option V :=
  match o with
  | [] => None
  | (k', v) :: o' => if String.eqb k' k then Some v else get o' k
  end.

(** [o[k] = v]: overwrite in place, or create at the end. *)
Fixpoint set (o : object) (k : string) (v : V) : object :=
  match o with
  | [] => [(k, v)]
  | (k', v') :: o' =>
      if String.eqb k' k then (k', v) :: o' else (k', v') :: set o' k v
  end.

Fixpoint insert_index (n : N) (kv : string * V)
         (l : list (N * (string * V))) : list (N * (string * V)) :=
  match l with
  | [] => [(n, kv)]
  | (m, kv') :: l' =>
      if (n <? m)%N then (n, kv) :: l else (m, kv') :: insert_index n kv l'
  end.

Fixpoint index_props (o : object) : list (N * (string * V)) :=
  match o with
  | [] => []
  | (k, v) :: o' =>
      match array_index k with
      | Some n => insert_index n (k, v) (index_props o')
      | None => index_props o'
      end
  end.

Definition named_props (o : object) : object :=
  List.filter (fun kv => match array_index (fst kv) with
                         | Some _ => false | None => true end) o.

(** [Object.entries(o)]. *)
Definition entries (o : object) : list (string * V) :=
  List.map snd (index_props o) ++ named_props o.
End Object.
Arguments object : clear implicits.

End Js.

(* ===================================================================== *)
(** ** The [uuid] package *)
(* ===================================================================== *)

Module Uuid.

Definition is_hex (c : ascii) : bool :=
  let n := N_of_ascii c in
  ((48 <=? n) && (n <=? 57) || (97 <=? n) && (n <=? 102)
   || (65 <=? n) && (n <=? 70))%N.

Definition is_hyphen (c : ascii) : bool := Ascii.eqb c "-"%char.

(** The version nibbles of the two layouts the generator produces. *)
Definition is_version (c : ascii) : bool :=
  Ascii.eqb c "4"%char || Ascii.eqb c "7"%char.

(** What stands at position [i] of the 36-character layout. *)
Definition layout_ok (i : nat) (c : ascii) : bool :=
  match i with
  | 8 | 13 | 18 | 23 => is_hyphen c
  | 14 => is_version c
  | _ => is_hex c
  end.

Fixpoint layout_from (i : nat) (s : string) : bool :=
  match s with
  | EmptyString => true
  | String c s' => layout_ok i c && layout_from (S i) s'
  end.

(** Modelled from the spec: [validate] of the [uuid] package, which is
    imported and not part of the repository. The validator checks exact
    conformance to the standard layout and rejects a wrong length, wrong
    hyphen positions, non-hex characters and a wrong version nibble. *)
Definition validate_string (s : string) : bool :=
  (String.length s =? 36)%nat && layout_from 0 s.

(** [validateUuid(v)] on a JavaScript value: only strings can pass. *)
Definition validateUuid (v : option Js.value) : bool :=
  match v with
  | Some (Js.Str s) => validate_string s
  | _ => false
  end.

Definition hex_digit (n : N) : ascii :=
  ascii_of_N (if (n <? 10)%N then 48 + n else 87 + n)%N.

(** The [i]-th of the 32 nibbles of a 128-bit number, most significant
    first. *)
Definition nibble (x : N) (i : nat) : N :=
  N.land (N.shiftr x (4 * (31 - N.of_nat i))) 15.

Fixpoint hex_of (nibbles : list N) : string :=
  match nibbles with
  | [] => EmptyString
  | n :: ns => String (hex_digit n) (hex_of ns)
  end.

(** The 8-4-4-4-12 rendering of 32 nibbles. *)
Definition render (ns : list N) : string :=
  hex_of (firstn 8 ns) +:+ "-" +:+ hex_of (firstn 4 (skipn 8 ns)) +:+ "-"
  +:+ hex_of (firstn 4 (skipn 12 ns)) +:+ "-"
  +:+ hex_of (firstn 4 (skipn 16 ns)) +:+ "-" +:+ hex_of (skipn 20 ns).

(** The nibbles of a value of the given version: the version nibble is
    forced at position 12 and the variant bits [10] at position 16. *)
Definition stamp (version : N) (x : N) : list N :=
  List.map (fun i => match i with
                     | 12 => version
                     | 16 => N.lor 8 (N.land (nibble x 16) 3)
                     | _ => nibble x i
                     end) (seq 0 32).

(** Modelled from the spec: [v4] of the [uuid] package, the purely random
    layout over 128 bits of entropy. *)
Definition v4 (random : N) : string := render (stamp 4 random).

(** Modelled from the spec: [v7] of the [uuid] package, the time-ordered
    layout: the millisecond timestamp in the 48 high-order bits, the
    remaining bits random. *)
Definition v7 (now_ms random : N) : string :=
  render (stamp 7 (N.lor (N.shiftl (N.land now_ms (2 ^ 48 - 1)) 80)
                         (N.land random (2 ^ 80 - 1)))).

End Uuid.

(* ===================================================================== *)
(** ** Exceptions and sequential effects *)
(* ===================================================================== *)

(** What the code throws: the two error classes of [@strapi/utils], the
    [TypeError] of the language, and whatever a datastore call rejects
    with. *)
Inductive Error : Type :=
| ApplicationError (message : string)
| ValidationError (message : string) (field uuid : string)
| TypeError (message : string)
| DatastoreError (message : string).

(** [err.message]. *)
Definition message_of (e : Error) : string :=
  match e with
  | ApplicationError m | ValidationError m _ _ | TypeError m
  | DatastoreError m => m
  end.

(** A computation over a mutable state [S] that returns or throws. What it
    wrote to the state before throwing stays written. *)
Definition M (S A : Type) : Type := S -> (Error + A) * S.

Definition ret {S A} (a : A) : M S A := fun s => (inr a, s).

Definition throw {S A} (e : Error) : M S A := fun s => (inl e, s).

Definition bind {S A B} (m : M S A) (k : A -> M S B) : M S B :=
  fun s => match m s with
           | (inr a, s') => k a s'
           | (inl e, s') => (inl e, s')
           end.

(** [try { m } catch (err) { h err }]. *)
Definition try_catch {S A} (m : M S A) (h : Error -> M S A) : M S A :=
  fun s => match m s with
           | (inr a, s') => (inr a, s')
           | (inl e, s') => h e s'
           end.

Definition get_state {S} : M S S := fun s => (inr s, s).

Definition modify {S} (f : S -> S) : M S unit := fun s => (inr tt, f s).

Declare Scope js_scope.
Delimit Scope js_scope with js.
Notation "x <- m ;; k" := (bind m (fun x => k))
  (at level 100, m at next level, right associativity) : js_scope.
Notation "m ;;; k" := (bind m (fun _ => k))
  (at level 100, right associativity) : js_scope.
Local Open Scope js_scope.

(** [for (const x of l) { body x }]. *)
Fixpoint for_each {S A} (l : list A) (body : A -> M S unit) : M S unit :=
  match l with
  | [] => ret tt
  | x :: l' => body x ;;; for_each l' body
  end.

(** [if (c) { m }]. *)
Definition when {S} (c : bool) (m : M S unit) : M S unit :=
  if c then m else ret tt.

(** A computation on the first component of the state, run where the state
    also carries the locals [L] of the calling function. *)
Definition on_world {W L A} (m : M W A) : M (W * L) A :=
  fun s => let '(r, w') := m (fst s) in (r, (w', snd s)).

(** A change of the locals. *)
Definition on_locals {W L} (f : L -> L) : M (W * L) unit :=
  fun s => (inr tt, (fst s, f (snd s))).

Definition locals {W L} : M (W * L) L := fun s => (inr (snd s), s).

(** Runs a function body with fresh locals [l0]; the locals are dropped
    when the body throws. *)
Definition with_locals {W L A} (l0 : L) (m : M (W * L) A) : M W A :=
  fun w => let '(r, s') := m (w, l0) in (r, fst s').

(* ===================================================================== *)
(** ** The datastore behind [strapi.documents(uid)] *)
(* ===================================================================== *)

Module Db.

(** A stored row. Several rows may share one [documentId]: they are the
    revisions (draft, published) of one record, the first of them the
    entry of the record. *)
Record Row : Type := {
  id : N;
  documentId : string;
  data : gmap string Js.value;
}.

(** The tables by content-type uid, in storage order, and the calls the
    datastore rejects: a query on a uid, with the message of the
    rejection, and the write of a value to a field of a document, with
    what the write path throws. The verdict on a write is that of the
    whole write path on the tables as they are when the write is issued:
    of the lifecycle hooks subscribed on the content type and of the
    storage itself. *)
Record Store : Type := {
  tables : gmap string (list Row);
  read_fault : string -> option string;
  write_fault : gmap string (list Row) -> string -> string -> string -> string
                -> option Error;
}.

(** The stored rows of a content type, revisions included. *)
Definition stored (st : Store) (uid : string) : list Row :=
  default [] (tables st !! uid).

(** The first row of every Record Identity that is not in [seen], in
    storage order. *)
Fixpoint entries_from (seen : list string) (l : list Row) : list Row :=
  match l with
  | [] => []
  | r :: l' =>
      if existsb (String.eqb (documentId r)) seen
      then entries_from seen l'
      else r :: entries_from (documentId r :: seen) l'
  end.

(** Modelled from the spec: the Document Service is the host's and not
    part of the repository. Called without [status] and [locale], as the
    plugin calls it, it answers records, one entry per Record Identity:
    the first stored row of the record. The further rows of a Record
    Identity are its other revisions, which no query answers. *)
Definition rows (st : Store) (uid : string) : list Row :=
  entries_from [] (stored st uid).

(** The conditions of a [filters] object, all of which must hold. *)
Inductive cond : Type :=
| FieldEq (field value : string)      (* { [field]: value } *)
| FieldEmpty (field : string)         (* $or: [{$null: true}, ''] *)
| DocumentIdEq (d : string)           (* { documentId: d } *)
| DocumentIdNe (d : string)           (* { documentId: { $ne: d } } *)
| IdEq (n : N).                       (* { id: n } *)

Definition holds (r : Row) (c : cond) : bool :=
  match c with
  | FieldEq f v =>
      match data r !! f with
      | Some (Js.Str s) => String.eqb s v
      | _ => false
      end
  | FieldEmpty f =>
      match data r !! f with
      | Some (Js.Str s) => String.eqb s ""
      | _ => true
      end
  | DocumentIdEq d => String.eqb (documentId r) d
  | DocumentIdNe d => negb (String.eqb (documentId r) d)
  | IdEq n => N.eqb (id r) n
  end.

Definition matches (filters : list cond) (r : Row) : bool :=
  forallb (holds r) filters.

Definition set_field (field value : string) (r : Row) : Row :=
  {| id := id r; documentId := documentId r;
     data := <[field := Js.Str value]> (data r) |}.

(** The entry of the document, its first stored row, receives the
    value. *)
Fixpoint write_entry (d field value : string) (l : list Row) : list Row :=
  match l with
  | [] => []
  | r :: l' =>
      if String.eqb (documentId r) d then set_field field value r :: l'
      else r :: write_entry d field value l'
  end.

Definition write (uid d field value : string) (st : Store) : Store :=
  {| tables := <[uid := write_entry d field value (stored st uid)]> (tables st);
     read_fault := read_fault st;
     write_fault := write_fault st |}.

(** A row enters the table at the end. *)
Definition insert_row (uid : string) (r : Row) (st : Store) : Store :=
  {| tables := <[uid := stored st uid ++ [r]]> (tables st);
     read_fault := read_fault st;
     write_fault := write_fault st |}.

End Db.

(** The entropy the [uuid] package draws from, and the clock. [drawn] counts
    the identifiers generated so far; [has_v7] tells whether the installed
    package exports [v7]. *)
Record Entropy : Type := {
  random : nat -> N;
  clock : nat -> N;
  drawn : nat;
  has_v7 : bool;
}.

Record World : Type := {
  store : Db.Store;
  entropy : Entropy;
}.

Definition set_store (st : Db.Store) (w : World) : World :=
  {| store := st; entropy := entropy w |}.

Definition advance (w : World) : World :=
  {| store := store w;
     entropy := {| random := random (entropy w); clock := clock (entropy w);
                   drawn := S (drawn (entropy w));
                   has_v7 := has_v7 (entropy w) |} |}.

(** [uuidv4()]. *)
Definition uuidv4 : M World string :=
  fun w => (inr (Uuid.v4 (random (entropy w) (drawn (entropy w)))), advance w).

(** [uuidLib.v7 || uuidv4]. *)
Definition uuidv7 : M World string :=
  fun w =>
    if has_v7 (entropy w)
    then (inr (Uuid.v7 (clock (entropy w) (drawn (entropy w)))
                       (random (entropy w) (drawn (entropy w)))), advance w)
    else uuidv4 w.

(** The Document Service calls the code makes. *)
Module Documents.

(** Modelled from the spec: a query of the Document Service, which is the
    host's. It is rejected or answered by content type, the same way
    throughout a run, and answers the entries of the content type. *)
Definition query {A} (uid : string) (f : list Db.Row -> A) : M World A :=
  fun w => match Db.read_fault (store w) uid with
           | Some msg => (inl (DatastoreError msg), w)
           | None => (inr (f (Db.rows (store w) uid)), w)
           end.

(** Modelled from the spec: [findMany({ filters, fields, limit: -1 })] of
    the Document Service: the entries that pass the filters, one per
    Record Identity. *)
Definition findMany (uid : string) (filters : list Db.cond)
  : M World (list Db.Row) :=
  query uid (List.filter (Db.matches filters)).

(** Modelled from the spec: [findFirst({ filters, fields })] of the
    Document Service: the first entry that passes the filters. *)
Definition findFirst (uid : string) (filters : list Db.cond)
  : M World (option Db.Row) :=
  query uid (List.find (Db.matches filters)).

(** Modelled from the spec: [update({ documentId, data: { [field]: value
    } })] of the Document Service, which is the host's. The storage layer
    invokes the lifecycle hooks subscribed on the content type with the
    pending write and commits it when none of them throws and the storage
    accepts it; what is thrown reaches the caller. [Db.write_fault] is
    that verdict; [Lifecycle.subscribed] is the store on which the
    bootstrap has subscribed [beforeUpdate]. The write goes to the entry
    of the document. *)
Definition update (uid d field value : string) : M World unit :=
  fun w => match Db.write_fault (store w) (Db.tables (store w))
                                uid d field value with
           | Some e => (inl e, w)
           | None => (inr tt, set_store (Db.write uid d field value (store w)) w)
           end.

End Documents.

(* ===================================================================== *)
(** ** Content-type schemas *)
(* ===================================================================== *)

Record Attribute : Type := {
  attr_type : string;
  customField : option string;
  (** The per-field options of the Content-Type Builder, such as
      [uuid-version] and [uuid-prefix]. *)
  options : gmap string string;
}.

Record ContentType : Type := {
  attributes : Js.object Attribute;
}.

Definition is_uuid_attribute (a : Attribute) : bool :=
  match customField a with
  | Some c => String.eqb c "plugin::field-uuid.uuid"
  | None => false
  end.

(* ===================================================================== *)
(** ** server/src/bootstrap.js *)
(* ===================================================================== *)

Module Bootstrap.

(** [strapi.config.get('plugin::field-uuid', {})]: every key may be
    missing. *)
Record PluginConfig : Type := {
  raw_defaultVersion : option string;
  raw_autoGenerate : option bool;
  raw_validateUniqueness : option bool;
  raw_maxRetryAttempts : option nat;
  raw_logLevel : option string;
  raw_autoMigrate : option bool;
}.

Record Config : Type := {
  defaultVersion : string;
  autoGenerate : bool;
  validateUniqueness : bool;
  maxRetryAttempts : nat;
  logLevel : string;
  autoMigrate : bool;
}.

Definition config_of (p : PluginConfig) : Config :=
  {| defaultVersion := default "v4" (Js.or_else (raw_defaultVersion p) None);
     autoGenerate := default true (raw_autoGenerate p);
     validateUniqueness := default true (raw_validateUniqueness p);
     maxRetryAttempts := match raw_maxRetryAttempts p with
                         | Some (S n) => S n
                         | _ => 3
                         end;
     logLevel := default "info" (Js.or_else (raw_logLevel p) None);
     autoMigrate := default false (raw_autoMigrate p) |}.

(** [generateUuid(version = config.defaultVersion)]. The attribute of the
    field, and with it the [uuid-prefix] option, is no argument. *)
Definition generateUuid (config : Config) (version : option string)
  : M World string :=
  if String.eqb (default (defaultVersion config) version) "v7"
  then uuidv7 else uuidv4.

(** [findUuidModels()]: the uuid attributes of every api content type. *)
Definition findUuidModels (contentTypes : Js.object ContentType)
  : Js.object (list string) :=
  fold_left
    (fun acc kc =>
       let '(key, contentType) := kc in
       if negb (String.prefix "api" key) then acc
       else
         let uuidAttributes :=
           List.map fst (List.filter (fun ka => is_uuid_attribute (snd ka))
                                     (Js.entries (attributes contentType))) in
         if (0 <? List.length uuidAttributes)%nat
         then Js.set acc key uuidAttributes
         else acc)
    (Js.entries contentTypes) [].

(** [checkUuidExists(uid, field, uuid, excludeDocumentId = null)]:
    the flag [exists] and the [documentId] of the row found. *)
Definition checkUuidExists (config : Config) (uid field uuid : string)
           (excludeDocumentId : option string)
  : M World (bool * option string) :=
  if negb (validateUniqueness config) then ret (false, None)
  else
    let filters :=
      Db.FieldEq field uuid
      :: match Js.or_else excludeDocumentId None with
         | Some d => [Db.DocumentIdNe d]
         | None => []
         end in
    existing <- Documents.findFirst uid filters ;;
    ret (match existing with Some _ => true | None => false end,
         match existing with
         | Some r => Js.or_else (Some (Db.documentId r)) None
         | None => None
         end).

(** [isUuidExists(uid, field, uuid, excludeDocumentId = null)]. *)
Definition isUuidExists (config : Config) (uid field uuid : string)
           (excludeDocumentId : option string) : M World bool :=
  result <- checkUuidExists config uid field uuid excludeDocumentId ;;
  ret (fst result).

Definition exhausted (config : Config) (uid field : string) : Error :=
  ApplicationError
    ("Failed to generate unique UUID for " +:+ uid +:+ "." +:+ field +:+ " after "
     +:+ Js.show_nat (maxRetryAttempts config) +:+ " attempts").

(** The [for] loop of [generateUniqueUuid] with [remaining] iterations
    left, that is [attempt = maxRetryAttempts - remaining]. *)
Fixpoint attempts (config : Config) (uid field : string) (remaining : nat)
  : M World string :=
  match remaining with
  | O => throw (exhausted config uid field)
  | S remaining' =>
      newUuid <- generateUuid config None ;;
      if negb (validateUniqueness config) then ret newUuid
      else
        exists_ <- isUuidExists config uid field newUuid None ;;
        if negb exists_ then ret newUuid
        else attempts config uid field remaining'
  end.

(** [generateUniqueUuid(uid, field)]. *)
Definition generateUniqueUuid (config : Config) (uid field : string)
  : M World string :=
  attempts config uid field (maxRetryAttempts config).

(** The [where] clause of a lifecycle event, as far as the hooks read
    it. *)
Record Where : Type := {
  where_documentId : option string;
  where_id : option N;
}.

(** [getDocumentIdFromWhere(uid, where)]. *)
Definition getDocumentIdFromWhere (uid : string) (where_ : option Where)
  : M World (option string) :=
  match where_ with
  | None => ret None
  | Some wh =>
      match Js.or_else (where_documentId wh) None with
      | Some d => ret (Some d)
      | None =>
          match where_id wh with
          | Some n =>
              if N.eqb n 0 then ret None
              else
                entity <- Documents.findFirst uid [Db.IdEq n] ;;
                ret (match entity with
                     | Some r => Js.or_else (Some (Db.documentId r)) None
                     | None => None
                     end)
          | None => ret None
          end
      end
  end.

(** A lifecycle event: [event.model.uid], [event.params.data] and
    [event.params.where]. *)
Record Event : Type := {
  model_uid : string;
  params_data : gmap string Js.value;
  params_where : option Where;
}.

(** [params.data?.documentId || params.where?.documentId]. *)
Definition currentDocumentId_of (e : Event) : option string :=
  Js.or_else
    (match params_data e !! "documentId" with
     | Some (Js.Str d) => Some d
     | _ => None
     end)
    (match params_where e with
     | Some wh => Js.or_else (where_documentId wh) None
     | None => None
     end).

(** The body of the loop of [beforeCreate] for one field; the local is
    [params.data]. *)
Definition beforeCreate_field (config : Config) (uid : string)
           (currentDocumentId : option string) (field : string)
  : M (World * gmap string Js.value) unit :=
  data <- locals ;;
  let currentValue := data !! field in
  if (negb (Js.truthy currentValue) || negb (Uuid.validateUuid currentValue))
     && autoGenerate config
  then
    newUuid <- on_world (generateUniqueUuid config uid field) ;;
    on_locals (insert field (Js.Str newUuid))
  else if Js.truthy currentValue && validateUniqueness config
  then
    found <- on_world (checkUuidExists config uid field
                                       (Js.show currentValue) None) ;;
    let '(exists_, existingDocumentId) := found in
    if exists_ then
      match currentDocumentId, existingDocumentId with
      | Some d, Some d' =>
          if String.eqb d' d then ret tt
          else
            newUuid <- on_world (generateUniqueUuid config uid field) ;;
            on_locals (insert field (Js.Str newUuid))
      | None, Some _ => ret tt
      | _, None =>
          newUuid <- on_world (generateUniqueUuid config uid field) ;;
          on_locals (insert field (Js.Str newUuid))
      end
    else ret tt
  else ret tt.

(** [beforeCreate(event)]: returns [params.data] as the hook leaves it. *)
Definition beforeCreate (config : Config) (models : Js.object (list string))
           (event : Event) : M World (gmap string Js.value) :=
  match Js.get models (model_uid event) with
  | None => ret (params_data event)
  | Some uuidFields =>
      let currentDocumentId := currentDocumentId_of event in
      with_locals (params_data event)
        (for_each uuidFields
                  (beforeCreate_field config (model_uid event)
                                      currentDocumentId) ;;;
         locals)
  end.

Definition invalid_format (field newValue : string) : Error :=
  ValidationError
    ("Invalid UUID format for field '" +:+ field +:+ "': '" +:+ newValue +:+ "'")
    field newValue.

Definition already_exists (field newValue : string) : Error :=
  ValidationError
    ("UUID '" +:+ newValue +:+ "' already exists for field '" +:+ field
     +:+ "'. Please use a unique value.")
    field newValue.

(** The body of the loop of [beforeUpdate] for one field. *)
Definition beforeUpdate_field (config : Config) (uid : string)
           (data : gmap string Js.value) (documentId : string)
           (field : string) : M World unit :=
  match data !! field with
  | None => ret tt
  | Some v =>
      let newValue := Some v in
      when (Js.truthy newValue && negb (Uuid.validateUuid newValue))
           (throw (invalid_format field (Js.show newValue))) ;;;
      when (Js.truthy newValue && validateUniqueness config)
           (exists_ <- isUuidExists config uid field (Js.show newValue)
                                    (Some documentId) ;;
            when exists_ (throw (already_exists field (Js.show newValue))))
  end.

(** [beforeUpdate(event)]. The hook reads [params.data] and never writes
    it. *)
Definition beforeUpdate (config : Config) (models : Js.object (list string))
           (event : Event) : M World unit :=
  match Js.get models (model_uid event) with
  | None => ret tt
  | Some uuidFields =>
      documentId <- getDocumentIdFromWhere (model_uid event)
                                           (params_where event) ;;
      match documentId with
      | None => ret tt
      | Some d =>
          for_each uuidFields
                   (beforeUpdate_field config (model_uid event)
                                       (params_data event) d)
      end
  end.

End Bootstrap.

(* ===================================================================== *)
(** ** The plugin service: diagnosis and auto-fix of duplicates *)
(* ===================================================================== *)

Module Service.

(** [getUuidModels()]: the same reduction as [findUuidModels] of the
    bootstrap. *)
Definition getUuidModels (contentTypes : Js.object ContentType)
  : Js.object (list string) :=
  Bootstrap.findUuidModels contentTypes.

Record DuplicateGroup : Type := {
  uuid : string;
  count : nat;
  documentIds : list string;
}.

(** One turn of the grouping loop on the plain object [uuidGroups]:
    [if (!uuidGroups[v]) uuidGroups[v] = []; uuidGroups[v].push(id)].
    A value that names an inherited property of the object reads as
    truthy and has no [push]. *)
Definition group_entry (field : string) (uuidGroups : Js.object (list string))
           (entry : Db.Row) : Error + Js.object (list string) :=
  let uuidValue := Db.data entry !! field in
  if negb (Js.truthy uuidValue) then inr uuidGroups
  else
    let key := Js.show uuidValue in
    match Js.get uuidGroups key with
    | Some ids => inr (Js.set uuidGroups key (ids ++ [Db.documentId entry]))
    | None =>
        if Js.inherited key
        then inl (TypeError "uuidGroups[uuidValue].push is not a function")
        else inr (Js.set uuidGroups key [Db.documentId entry])
    end.

Fixpoint group_entries (field : string) (entries : list Db.Row)
         (uuidGroups : Js.object (list string))
  : Error + Js.object (list string) :=
  match entries with
  | [] => inr uuidGroups
  | entry :: entries' =>
      match group_entry field uuidGroups entry with
      | inl e => inl e
      | inr uuidGroups' => group_entries field entries' uuidGroups'
      end
  end.

(** The groups with more than one entry. *)
Definition duplicates_of (groups : list (string * list string))
  : list DuplicateGroup :=
  List.map (fun g => {| uuid := fst g; count := List.length (snd g);
                        documentIds := snd g |})
           (List.filter (fun g => (1 <? List.length (snd g))%nat) groups).

(** [findDuplicatesForField(uid, field)]. *)
Definition findDuplicatesForField (uid field : string)
  : M World (list DuplicateGroup) :=
  entries <- Documents.findMany uid [] ;;
  match group_entries field entries [] with
  | inl e => throw e
  | inr uuidGroups => ret (duplicates_of (Js.entries uuidGroups))
  end.

Record FieldDiagnosis : Type := {
  duplicateGroups : nat;
  affectedEntries : nat;
  duplicates : list DuplicateGroup;
}.

Record Diagnosis : Type := {
  scannedModels : nat;
  totalDuplicates : nat;
  diagnosis_details : Js.object (Js.object FieldDiagnosis);
}.

Definition sum_of (f : DuplicateGroup -> nat) (l : list DuplicateGroup) : nat :=
  fold_left (fun sum group => sum + f group) l 0.

(** [report.details[uid].fields[field] = x]. *)
Definition set_detail {V} (uid field : string) (x : V)
           (details : Js.object (Js.object V)) : Js.object (Js.object V) :=
  Js.set details uid (Js.set (default [] (Js.get details uid)) field x).

(** [diagnose()]. *)
Definition diagnose (contentTypes : Js.object ContentType)
  : M World Diagnosis :=
  with_locals
    {| scannedModels := 0; totalDuplicates := 0; diagnosis_details := [] |}
    (for_each (Js.entries (getUuidModels contentTypes))
       (fun uf =>
          let '(uid, fields) := uf in
          on_locals (fun report =>
            {| scannedModels := S (scannedModels report);
               totalDuplicates := totalDuplicates report;
               diagnosis_details :=
                 Js.set (diagnosis_details report) uid [] |}) ;;;
          for_each fields
            (fun field =>
               dups <- on_world (findDuplicatesForField uid field) ;;
               on_locals (fun report =>
                 {| scannedModels := scannedModels report;
                    totalDuplicates :=
                      totalDuplicates report
                      + sum_of (fun group => count group - 1) dups;
                    diagnosis_details :=
                      set_detail uid field
                        {| duplicateGroups := List.length dups;
                           affectedEntries := sum_of count dups;
                           duplicates := dups |}
                        (diagnosis_details report) |}))) ;;;
     locals).

(** An entry of [fixes.changes]. *)
Record Change : Type := {
  documentId : string;
  oldUuid : string;
  newUuid : string;
  kept : string;
}.

Record Fixes : Type := {
  found : nat;
  fixed : nat;
  changes : list Change;
}.

Definition push_change (c : Change) (fixes : Fixes) : Fixes :=
  {| found := found fixes; fixed := fixed fixes;
     changes := changes fixes ++ [c] |}.

Definition count_fixed (fixes : Fixes) : Fixes :=
  {| found := found fixes; fixed := S (fixed fixes);
     changes := changes fixes |}.

(** The inner loop of [fixDuplicatesForField] for one member of a group
    that is not the first. *)
Definition fix_member (uid field : string) (dryRun : bool)
           (group : DuplicateGroup) (keepDocumentId documentId : string)
  : M (World * Fixes) unit :=
  newUuid <- on_world uuidv4 ;;
  on_locals (push_change {| documentId := documentId; oldUuid := uuid group;
                            newUuid := newUuid; kept := keepDocumentId |}) ;;;
  when (negb dryRun)
       (on_world (Documents.update uid documentId field newUuid)) ;;;
  on_locals count_fixed.

(** [const [keepDocumentId, ...duplicateDocumentIds] = group.documentIds]
    and the loop over the rest. *)
Definition fix_group (uid field : string) (dryRun : bool)
           (group : DuplicateGroup) : M (World * Fixes) unit :=
  match documentIds group with
  | [] => ret tt
  | keepDocumentId :: duplicateDocumentIds =>
      for_each duplicateDocumentIds
               (fix_member uid field dryRun group keepDocumentId)
  end.

(** [fixDuplicatesForField(uid, field, dryRun)]. *)
Definition fixDuplicatesForField (uid field : string) (dryRun : bool)
  : M World Fixes :=
  dups <- findDuplicatesForField uid field ;;
  with_locals {| found := List.length dups; fixed := 0; changes := [] |}
              (for_each dups (fix_group uid field dryRun) ;;; locals).

Record Report : Type := {
  dryRun : bool;
  fixedModels : nat;
  totalFixed : nat;
  details : Js.object (Js.object Fixes);
}.

(** The locals of [autofix]: the report and [modelFixed] of the current
    turn of the outer loop. *)
Definition autofix_field (uid : string) (dry : bool) (field : string)
  : M (World * (Report * bool)) unit :=
  fixes <- on_world (fixDuplicatesForField uid field dry) ;;
  on_locals (fun l =>
    let '(report, modelFixed) := l in
    let details' := set_detail uid field fixes (details report) in
    if (0 <? fixed fixes)%nat
    then ({| dryRun := dryRun report; fixedModels := fixedModels report;
             totalFixed := totalFixed report + fixed fixes;
             details := details' |}, true)
    else ({| dryRun := dryRun report; fixedModels := fixedModels report;
             totalFixed := totalFixed report;
             details := details' |}, modelFixed)).

Definition autofix_model (dry : bool) (uf : string * list string)
  : M (World * (Report * bool)) unit :=
  let '(uid, fields) := uf in
  on_locals (fun l =>
    ({| dryRun := dryRun (fst l); fixedModels := fixedModels (fst l);
        totalFixed := totalFixed (fst l);
        details := Js.set (details (fst l)) uid [] |}, false)) ;;;
  for_each fields (autofix_field uid dry) ;;;
  on_locals (fun l =>
    let '(report, modelFixed) := l in
    if modelFixed : bool
    then ({| dryRun := dryRun report; fixedModels := S (fixedModels report);
             totalFixed := totalFixed report;
             details := details report |}, modelFixed)
    else l).

(** [autofix({ dryRun = false } = {})]. *)
Definition autofix (contentTypes : Js.object ContentType)
           (dry : option bool) : M World Report :=
  let dry := default false dry in
  with_locals
    ({| dryRun := dry; fixedModels := 0; totalFixed := 0; details := [] |},
     false)
    (for_each (Js.entries (getUuidModels contentTypes)) (autofix_model dry) ;;;
     l <- locals ;; ret (fst l)).

(** [generate()] and [validate(uuid)]. *)
Definition generate : M World string := uuidv4.

Definition validate (uuid : option Js.value) : bool := Uuid.validateUuid uuid.

(** [ensureUuid(value)]. *)
Definition ensureUuid (value : option Js.value) : M World string :=
  if negb (Js.truthy value) || negb (Uuid.validateUuid value)
  then uuidv4
  else ret (Js.show value).

(** The answer of [checkDuplicate]: [{ exists, valid }]. *)
Record DuplicateCheck : Type := {
  check_exists : bool;
  check_valid : bool;
}.

(** [checkDuplicate({ contentType, field, uuid, excludeDocumentId })] for
    a [uuid] that is a string; [validateUuid] rejects every other value
    as it rejects a malformed string. *)
Definition checkDuplicate (contentType field uuid : string)
           (excludeDocumentId : option string) : M World DuplicateCheck :=
  let isValid := Uuid.validate_string uuid in
  if negb isValid then ret {| check_exists := false; check_valid := false |}
  else
    let filters :=
      Db.FieldEq field uuid
      :: match Js.or_else excludeDocumentId None with
         | Some d => [Db.DocumentIdNe d]
         | None => []
         end in
    existing <- Documents.findFirst contentType filters ;;
    ret {| check_exists := match existing with Some _ => true | None => false end;
           check_valid := true |}.

(** An entry of the [changes] of [generateMissing]. *)
Record Generated : Type := {
  generated_documentId : string;
  generated_newUuid : string;
}.

(** [report.details[uid].fields[field]] of [generateMissing]. *)
Record Missing : Type := {
  missing_found : nat;
  generated : nat;
  missing_changes : list Generated;
}.

Record MissingReport : Type := {
  missing_dryRun : bool;
  totalGenerated : nat;
  missing_details : Js.object (Js.object Missing);
}.

(** The body of the innermost loop of [generateMissing]; the local is the
    array [generated]. *)
Definition generate_entry (uid field : string) (dry : bool) (entry : Db.Row)
  : M (World * list Generated) unit :=
  newUuid <- on_world uuidv4 ;;
  on_locals (fun generated =>
    generated ++ [{| generated_documentId := Db.documentId entry;
                     generated_newUuid := newUuid |}]) ;;;
  when (negb dry)
       (on_world (Documents.update uid (Db.documentId entry) field newUuid)).

(** The body of the loop of [generateMissing] over the fields of a
    content type. *)
Definition generateMissing_field (uid : string) (dry : bool) (field : string)
  : M (World * MissingReport) unit :=
  entries <- on_world (Documents.findMany uid [Db.FieldEmpty field]) ;;
  generated <- on_world
                 (with_locals []
                    (for_each entries (generate_entry uid field dry) ;;;
                     locals)) ;;
  on_locals (fun report =>
    {| missing_dryRun := missing_dryRun report;
       totalGenerated := totalGenerated report + List.length generated;
       missing_details :=
         set_detail uid field
           {| missing_found := List.length entries;
              generated := List.length generated;
              missing_changes := generated |}
           (missing_details report) |}).

(** [generateMissing({ dryRun = false } = {})]. *)
Definition generateMissing (contentTypes : Js.object ContentType)
           (dry : option bool) : M World MissingReport :=
  let dry := default false dry in
  with_locals
    {| missing_dryRun := dry; totalGenerated := 0; missing_details := [] |}
    (for_each (Js.entries (getUuidModels contentTypes))
       (fun uf =>
          let '(uid, fields) := uf in
          on_locals (fun report =>
            {| missing_dryRun := missing_dryRun report;
               totalGenerated := totalGenerated report;
               missing_details := Js.set (missing_details report) uid [] |}) ;;;
          for_each fields (generateMissing_field uid dry)) ;;;
     locals).

End Service.

(* ===================================================================== *)
(** ** The migration service: status, bulk fix, export and import *)
(* ===================================================================== *)

Module Migrations.

Inductive Issue : Type :=
| InvalidIssue (documentId : string) (value : string)
| DuplicateIssue (uuid : string) (count : nat) (documentIds : list string).

(** An entry of [report.contentTypes]. The counts stay [undefined] when
    the scan of the field failed. *)
Record FieldInfo : Type := {
  uid : string;
  field : string;
  currentType : string;
  issues : list Issue;
  entryCount : option nat;
  emptyCount : option nat;
  invalidCount : option nat;
  duplicateCount : option nat;
  error : option string;
}.

Record Status : Type := {
  needsMigration : bool;
  contentTypes : list FieldInfo;
  totalFields : nat;
  totalEntries : nat;
  status_issues : list string;
}.

(** What the scan loop of [checkMigrationStatus] accumulates:
    [emptyCount], [invalidCount], the invalid issues and the [Map]
    [duplicates], whose keys keep their insertion order. *)
Record Scan : Type := {
  empties : nat;
  invalids : nat;
  invalid_issues : list Issue;
  by_uuid : list (string * list string);
}.

Definition scan_entry (attrName : string) (s : Scan) (entry : Db.Row) : Scan :=
  let uuidValue := Db.data entry !! attrName in
  let s1 :=
    if negb (Js.truthy uuidValue)
    then {| empties := S (empties s); invalids := invalids s;
            invalid_issues := invalid_issues s; by_uuid := by_uuid s |}
    else if negb (Uuid.validateUuid uuidValue)
    then {| empties := empties s; invalids := S (invalids s);
            invalid_issues :=
              invalid_issues s
              ++ [InvalidIssue (Db.documentId entry) (Js.show uuidValue)];
            by_uuid := by_uuid s |}
    else s in
  if Js.truthy uuidValue
  then {| empties := empties s1; invalids := invalids s1;
          invalid_issues := invalid_issues s1;
          by_uuid :=
            Js.set (by_uuid s1) (Js.show uuidValue)
                   (default [] (Js.get (by_uuid s1) (Js.show uuidValue))
                    ++ [Db.documentId entry]) |}
  else s1.

Definition scan (attrName : string) (entries : list Db.Row) : Scan :=
  fold_left (scan_entry attrName) entries
            {| empties := 0; invalids := 0; invalid_issues := [];
               by_uuid := [] |}.

(** The loop over the [Map]: the groups with more than one entry. *)
Definition duplicate_groups (m : list (string * list string))
  : list (string * list string) :=
  List.filter (fun g => (1 <? List.length (snd g))%nat) m.

Definition duplicate_issues (m : list (string * list string)) : list Issue :=
  List.map (fun g => DuplicateIssue (fst g) (List.length (snd g)) (snd g))
           (duplicate_groups m).

Definition duplicate_total (m : list (string * list string)) : nat :=
  fold_left (fun n g => n + (List.length (snd g) - 1)) (duplicate_groups m) 0.

(** The [fieldInfo] of a field whose entries were read. *)
Definition scanned_info (uid attrName : string) (attr : Attribute)
           (entries : list Db.Row) : FieldInfo :=
  let s := scan attrName entries in
  {| uid := uid; field := attrName; currentType := attr_type attr;
     issues := invalid_issues s ++ duplicate_issues (by_uuid s);
     entryCount := Some (List.length entries);
     emptyCount := Some (empties s);
     invalidCount := Some (invalids s);
     duplicateCount := Some (duplicate_total (by_uuid s));
     error := None |}.

Definition failed_info (uid attrName : string) (attr : Attribute)
           (err : Error) : FieldInfo :=
  {| uid := uid; field := attrName; currentType := attr_type attr;
     issues := []; entryCount := None; emptyCount := None;
     invalidCount := None; duplicateCount := None;
     error := Some (message_of err) |}.

Definition has_issues (info : FieldInfo) : bool :=
  match emptyCount info, invalidCount info, duplicateCount info with
  | Some e, Some i, Some d => (0 <? e)%nat || (0 <? i)%nat || (0 <? d)%nat
  | _, _, _ => false
  end.

(** The body of the inner loop of [checkMigrationStatus] for a uuid
    attribute: the [try] around the query and the scan, and the two
    statements after it. *)
Definition check_field (uid attrName : string) (attr : Attribute)
  : M (World * Status) unit :=
  info <- try_catch
            (entries <- on_world (Documents.findMany uid []) ;;
             on_locals (fun report =>
               let info := scanned_info uid attrName attr entries in
               {| needsMigration := needsMigration report || has_issues info;
                  contentTypes := contentTypes report;
                  totalFields := totalFields report;
                  totalEntries := totalEntries report + List.length entries;
                  status_issues := status_issues report |}) ;;;
             ret (scanned_info uid attrName attr entries))
            (fun err =>
               on_locals (fun report =>
                 {| needsMigration := needsMigration report;
                    contentTypes := contentTypes report;
                    totalFields := totalFields report;
                    totalEntries := totalEntries report;
                    status_issues :=
                      status_issues report
                      ++ ["Failed to check " +:+ uid +:+ "." +:+ attrName +:+ ": "
                          +:+ message_of err] |}) ;;;
               ret (failed_info uid attrName attr err)) ;;
  on_locals (fun report =>
    {| needsMigration := needsMigration report;
       contentTypes := contentTypes report ++ [info];
       totalFields := S (totalFields report);
       totalEntries := totalEntries report;
       status_issues := status_issues report |}).

(** [checkMigrationStatus()]. *)
Definition checkMigrationStatus (schemas : Js.object ContentType)
  : M World Status :=
  with_locals
    {| needsMigration := false; contentTypes := []; totalFields := 0;
       totalEntries := 0; status_issues := [] |}
    (for_each (Js.entries schemas)
       (fun uc =>
          let '(uid, contentType) := uc in
          when (String.prefix "api::" uid)
            (for_each (Js.entries (attributes contentType))
               (fun na =>
                  let '(attrName, attr) := na in
                  when (is_uuid_attribute attr)
                       (check_field uid attrName attr)))) ;;;
     locals).

Inductive ChangeType : Type := empty_fix | invalid_fix | duplicate_fix.

(** An entry of [result.changes]. *)
Record Change : Type := {
  type : ChangeType;
  change_uid : string;
  change_field : string;
  documentId : string;
  oldValue : option string;
  newValue : string;
  keptDocumentId : option string;
}.

(** The result of [runMigration]; [startedAt] and [completedAt] read the
    wall clock and are left out. [totalFixed] is set at the end. *)
Record Result : Type := {
  dryRun : bool;
  fixed_empty : nat;
  fixed_invalid : nat;
  fixed_duplicates : nat;
  errors : list string;
  changes : list Change;
  totalFixed : option nat;
}.

Definition push_change (c : Change) (r : Result) : Result :=
  {| dryRun := dryRun r; fixed_empty := fixed_empty r;
     fixed_invalid := fixed_invalid r; fixed_duplicates := fixed_duplicates r;
     errors := errors r; changes := changes r ++ [c];
     totalFixed := totalFixed r |}.

Definition push_error (msg : string) (r : Result) : Result :=
  {| dryRun := dryRun r; fixed_empty := fixed_empty r;
     fixed_invalid := fixed_invalid r; fixed_duplicates := fixed_duplicates r;
     errors := errors r ++ [msg]; changes := changes r;
     totalFixed := totalFixed r |}.

Definition count_empty (r : Result) : Result :=
  {| dryRun := dryRun r; fixed_empty := S (fixed_empty r);
     fixed_invalid := fixed_invalid r; fixed_duplicates := fixed_duplicates r;
     errors := errors r; changes := changes r; totalFixed := totalFixed r |}.

Definition count_invalid (r : Result) : Result :=
  {| dryRun := dryRun r; fixed_empty := fixed_empty r;
     fixed_invalid := S (fixed_invalid r);
     fixed_duplicates := fixed_duplicates r;
     errors := errors r; changes := changes r; totalFixed := totalFixed r |}.

Definition count_duplicate (r : Result) : Result :=
  {| dryRun := dryRun r; fixed_empty := fixed_empty r;
     fixed_invalid := fixed_invalid r;
     fixed_duplicates := S (fixed_duplicates r);
     errors := errors r; changes := changes r; totalFixed := totalFixed r |}.

Definition set_total (r : Result) : Result :=
  {| dryRun := dryRun r; fixed_empty := fixed_empty r;
     fixed_invalid := fixed_invalid r; fixed_duplicates := fixed_duplicates r;
     errors := errors r; changes := changes r;
     totalFixed :=
       Some (fixed_empty r + fixed_invalid r + fixed_duplicates r) |}.

(** The loop body of the empty fix; it sits inside the [try] of the
    whole category. *)
Definition fix_empty_entry (uid field : string) (dry : bool) (entry : Db.Row)
  : M (World * Result) unit :=
  newUuid <- on_world uuidv4 ;;
  on_locals (push_change
    {| type := empty_fix; change_uid := uid; change_field := field;
       documentId := Db.documentId entry; oldValue := None;
       newValue := newUuid; keptDocumentId := None |}) ;;;
  when (negb dry)
       (on_world (Documents.update uid (Db.documentId entry) field newUuid)) ;;;
  on_locals count_empty.

(** [// Fix empty UUIDs]: one [try] around the query and the loop. *)
Definition fix_empty (dry : bool) (ctInfo : FieldInfo)
  : M (World * Result) unit :=
  try_catch
    (emptyEntries <- on_world (Documents.findMany (uid ctInfo)
                                 [Db.FieldEmpty (field ctInfo)]) ;;
     for_each emptyEntries (fix_empty_entry (uid ctInfo) (field ctInfo) dry))
    (fun err =>
       on_locals (push_error
         ("Failed to fix empty UUIDs in " +:+ uid ctInfo +:+ "." +:+ field ctInfo
          +:+ ": " +:+ message_of err))).

(** The loop body of the invalid fix: the [try] is around the single
    write. *)
Definition fix_invalid_issue (uid field : string) (dry : bool)
           (issue_documentId issue_value : string) : M (World * Result) unit :=
  newUuid <- on_world uuidv4 ;;
  on_locals (push_change
    {| type := invalid_fix; change_uid := uid; change_field := field;
       documentId := issue_documentId; oldValue := Some issue_value;
       newValue := newUuid; keptDocumentId := None |}) ;;;
  if negb dry
  then
    try_catch
      (on_world (Documents.update uid issue_documentId field newUuid) ;;;
       on_locals count_invalid)
      (fun err =>
         on_locals (push_error
           ("Failed to fix invalid UUID in " +:+ uid +:+ "." +:+ field +:+ " ("
            +:+ issue_documentId +:+ "): " +:+ message_of err)))
  else on_locals count_invalid.

(** [// Fix invalid UUIDs]. *)
Definition fix_invalid (dry : bool) (ctInfo : FieldInfo)
  : M (World * Result) unit :=
  for_each (issues ctInfo)
    (fun issue =>
       match issue with
       | InvalidIssue d v => fix_invalid_issue (uid ctInfo) (field ctInfo) dry d v
       | DuplicateIssue _ _ _ => ret tt
       end).

(** The inner loop body of the duplicate fix. *)
Definition fix_duplicate_member (uid field : string) (dry : bool)
           (issue_uuid keepDocId docId : string) : M (World * Result) unit :=
  newUuid <- on_world uuidv4 ;;
  on_locals (push_change
    {| type := duplicate_fix; change_uid := uid; change_field := field;
       documentId := docId; oldValue := Some issue_uuid;
       newValue := newUuid; keptDocumentId := Some keepDocId |}) ;;;
  if negb dry
  then
    try_catch
      (on_world (Documents.update uid docId field newUuid) ;;;
       on_locals count_duplicate)
      (fun err =>
         on_locals (push_error
           ("Failed to fix duplicate UUID in " +:+ uid +:+ "." +:+ field +:+ " ("
            +:+ docId +:+ "): " +:+ message_of err)))
  else on_locals count_duplicate.

(** [// Fix duplicates]: the first of [issue.documentIds] is kept. *)
Definition fix_duplicates (dry : bool) (ctInfo : FieldInfo)
  : M (World * Result) unit :=
  for_each (issues ctInfo)
    (fun issue =>
       match issue with
       | DuplicateIssue u _ (keepDocId :: fixDocIds) =>
           for_each fixDocIds
                    (fix_duplicate_member (uid ctInfo) (field ctInfo) dry
                                          u keepDocId)
       | _ => ret tt
       end).

Record Options : Type := {
  opt_dryRun : option bool;
  opt_fixEmpty : option bool;
  opt_fixInvalid : option bool;
  opt_fixDuplicates : option bool;
}.

Definition positive_count (n : option nat) : bool :=
  match n with
  | Some k => (0 <? k)%nat
  | None => false
  end.

(** The body of the loop of [runMigration] over [status.contentTypes]. *)
Definition fix_field (dry fixEmpty fixInvalid fixDuplicates : bool)
           (ctInfo : FieldInfo) : M (World * Result) unit :=
  when (fixEmpty && positive_count (emptyCount ctInfo))
       (fix_empty dry ctInfo) ;;;
  when fixInvalid (fix_invalid dry ctInfo) ;;;
  when fixDuplicates (fix_duplicates dry ctInfo).

(** [runMigration({ dryRun = true, fixEmpty = true, fixInvalid = true,
    fixDuplicates = true } = {})]. *)
Definition runMigration (schemas : Js.object ContentType) (o : Options)
  : M World Result :=
  let dry := default true (opt_dryRun o) in
  let fixEmpty := default true (opt_fixEmpty o) in
  let fixInvalid := default true (opt_fixInvalid o) in
  let fixDuplicates := default true (opt_fixDuplicates o) in
  status <- checkMigrationStatus schemas ;;
  with_locals
    {| dryRun := dry; fixed_empty := 0; fixed_invalid := 0;
       fixed_duplicates := 0; errors := []; changes := [];
       totalFixed := None |}
    (for_each (contentTypes status)
              (fix_field dry fixEmpty fixInvalid fixDuplicates) ;;;
     on_locals set_total ;;;
     locals).

(** An entry of an export: [{ documentId, uuid }]. *)
Record Mapping : Type := {
  mapping_documentId : option string;
  mapping_uuid : option Js.value;
}.

(** [{ fields: { field: [entries] } }] of one content type. *)
Record TypeMappings : Type := {
  fields : Js.object (list Mapping);
}.


Definition mapping_of (attrName : string) (e : Db.Row) : Mapping :=
  {| mapping_documentId := Some (Db.documentId e);
     mapping_uuid := Some (default Js.Null (Db.data e !! attrName)) |}.


(** An entry of the [changes] of an import. *)
Record ImportChange : Type := {
  import_uid : string;
  import_field : string;
  import_documentId : string;
  import_oldValue : option Js.value;
  import_newValue : string;
}.

Record ImportResult : Type := {
  import_dryRun : bool;
  imported : nat;
  skipped : nat;
  import_errors : list string;
  import_changes : list ImportChange;
}.

Definition skip (r : ImportResult) : ImportResult :=
  {| import_dryRun := import_dryRun r; imported := imported r;
     skipped := S (skipped r); import_errors := import_errors r;
     import_changes := import_changes r |}.

Definition import_error (msg : string) (r : ImportResult) : ImportResult :=
  {| import_dryRun := import_dryRun r; imported := imported r;
     skipped := skipped r; import_errors := import_errors r ++ [msg];
     import_changes := import_changes r |}.

Definition import_change (c : ImportChange) (r : ImportResult) : ImportResult :=
  {| import_dryRun := import_dryRun r; imported := imported r;
     skipped := skipped r; import_errors := import_errors r;
     import_changes := import_changes r ++ [c] |}.

Definition count_imported (r : ImportResult) : ImportResult :=
  {| import_dryRun := import_dryRun r; imported := S (imported r);
     skipped := skipped r; import_errors := import_errors r;
     import_changes := import_changes r |}.

(** A truthy string of a mapping entry. *)
Definition truthy_string (v : option Js.value) : option string :=
  match v with
  | Some (Js.Str s) => if Js.truthy_str s then Some s else None
  | _ => None
  end.

(** The body of the innermost loop of [importMappings]. The imported
    value goes to the write as it stands. *)
Definition import_entry (uid field : string) (dry overwrite : bool)
           (entry : Mapping) : M (World * ImportResult) unit :=
  match Js.or_else (mapping_documentId entry) None,
        truthy_string (mapping_uuid entry) with
  | Some d, Some u =>
      try_catch
        (existing <- on_world (Documents.findFirst uid [Db.DocumentIdEq d]) ;;
         match existing with
         | None =>
             on_locals skip ;;;
             on_locals (import_error ("Entry not found: " +:+ uid +:+ " " +:+ d))
         | Some row =>
             if Js.truthy (Db.data row !! field) && negb overwrite
             then on_locals skip
             else
               on_locals (import_change
                 {| import_uid := uid; import_field := field;
                    import_documentId := d;
                    import_oldValue := Db.data row !! field;
                    import_newValue := u |}) ;;;
               when (negb dry) (on_world (Documents.update uid d field u)) ;;;
               on_locals count_imported
         end)
        (fun err =>
           on_locals (import_error
             ("Failed to import " +:+ uid +:+ "." +:+ d +:+ ": "
              +:+ message_of err)))
  | _, _ => on_locals skip
  end.

Record ImportOptions : Type := {
  import_opt_dryRun : option bool;
  import_opt_overwrite : option bool;
}.

(** [importMappings(importData, { dryRun = true, overwrite = false } = {})];
    [importData?.mappings] is [None] when either is missing. *)
Definition importMappings (importData : option (Js.object TypeMappings))
           (o : ImportOptions) : M World ImportResult :=
  let dry := default true (import_opt_dryRun o) in
  let overwrite := default false (import_opt_overwrite o) in
  with_locals
    {| import_dryRun := dry; imported := 0; skipped := 0;
       import_errors := []; import_changes := [] |}
    (match importData with
     | None =>
         on_locals (import_error "Invalid import data: missing mappings") ;;;
         locals
     | Some mappings =>
         for_each (Js.entries mappings)
           (fun uc =>
              let '(uid, ctData) := uc in
              for_each (Js.entries (fields ctData))
                (fun fe =>
                   let '(field, entries) := fe in
                   for_each entries (import_entry uid field dry overwrite))) ;;;
         locals
     end).

End Migrations.

(* ===================================================================== *)
(** ** The write path of the datastore *)
(* ===================================================================== *)

Module Lifecycle.

(** The rows a [where] clause selects. *)
Definition selected (where_ : option Bootstrap.Where) (r : Db.Row) : bool :=
  match where_ with
  | None => false
  | Some wh =>
      match Bootstrap.where_documentId wh, Bootstrap.where_id wh with
      | None, None => false
      | d, n =>
          match d with Some d => String.eqb (Db.documentId r) d | None => true end
          && match n with Some n => N.eqb (Db.id r) n | None => true end
      end
  end.

(** The keys of [data] overwrite those of the row; the other fields of
    the row stay as they are. *)
Definition merge (data : gmap string Js.value) (r : Db.Row) : Db.Row :=
  {| Db.id := Db.id r; Db.documentId := Db.documentId r;
     Db.data := data ∪ Db.data r |}.

Definition with_tables (t : gmap string (list Db.Row)) (w : World) : World :=
  set_store {| Db.tables := t; Db.read_fault := Db.read_fault (store w);
               Db.write_fault := Db.write_fault (store w) |} w.

(** Modelled from the spec: the storage layer, which is the host's and
    not part of the repository, invokes the pre-commit hook synchronously
    with the pending record; a rejection aborts the write, otherwise the
    payload the hook returns is committed. A created row takes the
    [documentId] of its payload, or the fresh one of the host. *)
Definition create (config : Bootstrap.Config)
           (models : Js.object (list string)) (event : Bootstrap.Event)
           (fresh_id : N) (fresh_documentId : string) : M World unit :=
  data <- Bootstrap.beforeCreate config models event ;;
  modify (fun w =>
    set_store
      (Db.insert_row (Bootstrap.model_uid event)
         {| Db.id := fresh_id;
            Db.documentId :=
              default fresh_documentId
                      (Js.or_else (Migrations.truthy_string
                                     (data !! "documentId")) None);
            Db.data := data |}
         (store w)) w).

(** Modelled from the spec: the update of the storage layer, with the
    pre-commit hook in front; the rows the [where] clause selects take
    the keys of the payload. *)
Definition update (config : Bootstrap.Config)
           (models : Js.object (list string)) (event : Bootstrap.Event)
  : M World unit :=
  Bootstrap.beforeUpdate config models event ;;;
  modify (fun w =>
    with_tables
      (<[Bootstrap.model_uid event :=
           List.map (fun r => if selected (Bootstrap.params_where event) r
                              then merge (Bootstrap.params_data event) r
                              else r)
                    (Db.stored (store w) (Bootstrap.model_uid event))]>
         (Db.tables (store w))) w).

(** [beforeUpdate] draws no identifier: the entropy it runs with is
    immaterial. *)
Definition no_entropy : Entropy :=
  {| random := fun _ => 0%N; clock := fun _ => 0%N; drawn := 0;
     has_v7 := false |}.

(** Modelled from the spec: what the update of the Document Service hands
    to the subscribed [beforeUpdate]: the content type, the Record
    Identity of the entry in the [where] clause, and the payload. *)
Definition pending (uid d field value : string) : Bootstrap.Event :=
  {| Bootstrap.model_uid := uid;
     Bootstrap.params_data := {[field := Js.Str value]};
     Bootstrap.params_where :=
       Some {| Bootstrap.where_documentId := Some d;
               Bootstrap.where_id := None |} |}.

(** Modelled from the spec: the verdict of the pre-commit hook of the
    plugin on the update of a document: what [beforeUpdate] throws on the
    pending write. No hook runs when the document has no entry. *)
Definition verdict (config : Bootstrap.Config)
           (models : Js.object (list string)) (st : Db.Store)
           (uid d field value : string) : option Error :=
  if existsb (fun r => String.eqb (Db.documentId r) d) (Db.rows st uid)
  then match fst (Bootstrap.beforeUpdate config models
                    (pending uid d field value)
                    {| store := st; entropy := no_entropy |}) with
       | inl e => Some e
       | inr _ => None
       end
  else None.

(** Modelled from the spec: the datastore once the bootstrap has
    subscribed the hooks of the plugin on the monitored content types.
    Every update passes [beforeUpdate] first, on the tables as they are
    then, and the storage after it. *)
Definition subscribed (config : Bootstrap.Config)
           (models : Js.object (list string)) (st : Db.Store) : Db.Store :=
  {| Db.tables := Db.tables st;
     Db.read_fault := Db.read_fault st;
     Db.write_fault := fun t uid d field value =>
       match verdict config models
                     {| Db.tables := t; Db.read_fault := Db.read_fault st;
                        Db.write_fault := Db.write_fault st |}
                     uid d field value with
       | Some e => Some e
       | None => Db.write_fault st t uid d field value
       end |}.

End Lifecycle.

(* ===================================================================== *)
(** ** The auto-migration of the bootstrap *)
(* ===================================================================== *)

Module Startup.

(** The callback the bootstrap hands to [setImmediate] when
    [config.autoMigrate] is set and a content type is monitored: it runs
    after the bootstrap, inside one [try]; the log lines are left out. *)
Definition autoMigration (config : Bootstrap.Config)
           (contentTypes : Js.object ContentType) : M World unit :=
  let models := Bootstrap.findUuidModels contentTypes in
  let modelsToSubscribe := List.map fst (Js.entries models) in
  if Bootstrap.autoMigrate config && (0 <? List.length modelsToSubscribe)%nat
  then
    try_catch
      (status <- Migrations.checkMigrationStatus contentTypes ;;
       if Migrations.needsMigration status
       then
         result <- Migrations.runMigration contentTypes
                     {| Migrations.opt_dryRun := Some false;
                        Migrations.opt_fixEmpty := None;
                        Migrations.opt_fixInvalid := None;
                        Migrations.opt_fixDuplicates := None |} ;;
         ret tt
       else ret tt)
      (fun err => ret tt)
  else ret tt.

End Startup.

(* ===================================================================== *)
(** ** The controller *)
(* ===================================================================== *)

Module Controller.

(** What a handler leaves in the Koa context: a body, or the answer of
    [ctx.badRequest] or [ctx.internalServerError]. *)
Inductive Response (A : Type) : Type :=
| Body (body : A)
| BadRequest (message : string)
| InternalServerError (message : string).
Arguments Body {A} body.
Arguments BadRequest {A} message.
Arguments InternalServerError {A} message.

(** [try { ctx.body = await m } catch (error) { return
    ctx.internalServerError(message) }]. *)
Definition answer {A} (m : M World A) (message : string)
  : M World (Response A) :=
  try_catch (a <- m ;; ret (Body a))
            (fun error => ret (InternalServerError message)).

(** The body of a request to [checkDuplicate]; each parameter may be
    missing. *)
Record CheckRequest : Type := {
  req_contentType : option string;
  req_field : option string;
  req_uuid : option string;
  req_excludeDocumentId : option string;
}.

(** [const model = strapi.contentTypes[contentType]], and what the read
    of [model.attributes[field]] does with it. The property is read
    through the prototype chain: a name that every object inherits and
    that is no content type, such as [constructor], reads as a function
    (for [__proto__], as the prototype object), which is truthy and has no
    [attributes], so that the read of [attributes[field]] throws. *)
Inductive Lookup (A : Type) : Type :=
| Own (value : A)
| Inherited
| Missing.
Arguments Own {A} value.
Arguments Inherited {A}.
Arguments Missing {A}.

Definition lookup {A} (o : Js.object A) (k : string) : Lookup A :=
  match Js.get o k with
  | Some v => Own v
  | None => if Js.inherited k then Inherited else Missing
  end.

(** [checkDuplicate(ctx)]. The two lookups come before the [try]; the
    attribute is only tested for truthiness, which an inherited name
    passes. *)
Definition checkDuplicate (contentTypes : Js.object ContentType)
           (body : CheckRequest) : M World (Response Service.DuplicateCheck) :=
  match Js.or_else (req_contentType body) None,
        Js.or_else (req_field body) None,
        Js.or_else (req_uuid body) None with
  | Some contentType, Some field, Some uuid =>
      match lookup contentTypes contentType with
      | Missing =>
          ret (BadRequest ("Content type '" +:+ contentType +:+ "' not found"))
      | Inherited =>
          throw (TypeError ("Cannot read properties of undefined (reading '"
                            +:+ field +:+ "')"))
      | Own model =>
          match lookup (attributes model) field with
          | Missing =>
              ret (BadRequest ("Field '" +:+ field
                               +:+ "' not found in content type '"
                               +:+ contentType +:+ "'"))
          | Own _ | Inherited =>
              answer (Service.checkDuplicate contentType field uuid
                                             (req_excludeDocumentId body))
                     "Failed to check UUID duplicate"
          end
      end
  | _, _, _ =>
      ret (BadRequest "Missing required parameters: contentType, field, uuid")
  end.

Definition diagnose (contentTypes : Js.object ContentType)
  : M World (Response Service.Diagnosis) :=
  answer (Service.diagnose contentTypes) "Failed to diagnose UUIDs".

(** [const { dryRun = false } = ctx.request.body || {}]. *)
Definition autofix (contentTypes : Js.object ContentType)
           (dryRun : option bool) : M World (Response Service.Report) :=
  answer (Service.autofix contentTypes (Some (default false dryRun)))
         "Failed to auto-fix UUIDs".

Definition generateMissing (contentTypes : Js.object ContentType)
           (dryRun : option bool) : M World (Response Service.MissingReport) :=
  answer (Service.generateMissing contentTypes (Some (default false dryRun)))
         "Failed to generate missing UUIDs".



(** [runMigration(ctx)]: the four options are read from the body with
    their defaults and all handed to the service. *)
Definition runMigration (contentTypes : Js.object ContentType)
           (body : option Migrations.Options)
  : M World (Response Migrations.Result) :=
  let read (f : Migrations.Options -> option bool) :=
    Some (default true (body ≫= f)) in
  answer (Migrations.runMigration contentTypes
            {| Migrations.opt_dryRun := read Migrations.opt_dryRun;
               Migrations.opt_fixEmpty := read Migrations.opt_fixEmpty;
               Migrations.opt_fixInvalid := read Migrations.opt_fixInvalid;
               Migrations.opt_fixDuplicates := read Migrations.opt_fixDuplicates |})
         "Failed to run migration".

(** The parsed file a client sends as [mappings]; the service reads its
    member [mappings]. *)
Record ImportFile : Type := {
  file_mappings : option (Js.object Migrations.TypeMappings);
}.

Record ImportRequest : Type := {
  request_mappings : option ImportFile;
  request_dryRun : option bool;
  request_overwrite : option bool;
}.

(** [importMappings(ctx)]. *)
Definition importMappings (body : option ImportRequest)
  : M World (Response Migrations.ImportResult) :=
  match body ≫= request_mappings with
  | None => ret (BadRequest "Missing required parameter: mappings")
  | Some mappings =>
      answer (Migrations.importMappings
                (file_mappings mappings)
                {| Migrations.import_opt_dryRun :=
                     Some (default true (body ≫= request_dryRun));
                   Migrations.import_opt_overwrite :=
                     Some (default false (body ≫= request_overwrite)) |})
             "Failed to import UUID mappings"
  end.

Record IssueStats : Type := {
  stats_empty : nat;
  stats_invalid : nat;
  stats_duplicates : nat;
}.

(** The body of [getStats]; [lastChecked] reads the wall clock and is
    left out. *)
Record Stats : Type := {
  stats_contentTypes : nat;
  stats_totalFields : nat;
  stats_totalEntries : nat;
  stats_issues : IssueStats;
  stats_needsMigration : bool;
  stats_models : Js.object (list string);
}.

(** [list.reduce((sum, ct) => sum + (f(ct) || 0), 0)]. *)
Definition sum_or_zero {A} (f : A -> option nat) (l : list A) : nat :=
  fold_left (fun sum ct => sum + default 0 (f ct)) l 0.

(** [getStats(ctx)]. *)
Definition getStats (contentTypes : Js.object ContentType)
  : M World (Response Stats) :=
  answer
    (let models := Service.getUuidModels contentTypes in
     migrationStatus <- Migrations.checkMigrationStatus contentTypes ;;
     ret {| stats_contentTypes := List.length (Js.entries models);
            stats_totalFields :=
              fold_left (fun sum fields => sum + List.length fields)
                        (List.map snd (Js.entries models)) 0;
            stats_totalEntries := Migrations.totalEntries migrationStatus;
            stats_issues :=
              {| stats_empty :=
                   sum_or_zero Migrations.emptyCount
                               (Migrations.contentTypes migrationStatus);
                 stats_invalid :=
                   sum_or_zero Migrations.invalidCount
                               (Migrations.contentTypes migrationStatus);
                 stats_duplicates :=
                   sum_or_zero Migrations.duplicateCount
                               (Migrations.contentTypes migrationStatus) |};
            stats_needsMigration := Migrations.needsMigration migrationStatus;
            stats_models := models |})
    "Failed to get UUID statistics".

End Controller.

(* ===================================================================== *)
(** ** The schema of the plugin configuration *)
(* ===================================================================== *)

Module ConfigSchema.

(** A value of [config/plugins.js]. Numbers are the integers, which the
    template literals of the error messages print in decimal. *)
Inductive setting : Type :=
| Undefined
| Null
| Bool (b : bool)
| Num (n : Z)
| Text (s : string).

Record Settings : Type := {
  defaultVersion : setting;
  autoGenerate : setting;
  validateUniqueness : setting;
  allowManualEdit : setting;
  autoMigrate : setting;
  maxRetryAttempts : setting;
  logLevel : setting;
}.

Definition truthy (v : setting) : bool :=
  match v with
  | Undefined | Null => false
  | Bool b => b
  | Num n => negb (Z.eqb n 0)
  | Text s => negb (String.eqb s "")
  end.

(** [`${v}`]. *)
Definition show (v : setting) : string :=
  match v with
  | Undefined => "undefined"
  | Null => "null"
  | Bool true => "true"
  | Bool false => "false"
  | Num n => NilEmpty.string_of_int (Z.to_int n)
  | Text s => s
  end.

(** [list.includes(v)] for a list of strings. *)
Definition includes (l : list string) (v : setting) : bool :=
  match v with
  | Text s => existsb (String.eqb s) l
  | _ => false
  end.

(** [default]: the configuration the plugin ships. *)
Definition default_settings : Settings :=
  {| defaultVersion := Text "v4"; autoGenerate := Bool true;
     validateUniqueness := Bool true; allowManualEdit := Bool false;
     autoMigrate := Bool false; maxRetryAttempts := Num 3;
     logLevel := Text "info" |}.

(** The double quote of the messages. *)
Definition quote : string := String (ascii_of_nat 34) EmptyString.

Definition quoted (s : string) : string := quote +:+ s +:+ quote.

(** The message of the [Error] thrown for an option. *)
Definition invalid (option : string) (v : setting) (must : string) : string :=
  "[strapi-auto-uuid] Invalid " +:+ option +:+ ": " +:+ quoted (show v)
  +:+ ". Must be " +:+ must.

Definition check_version (config : Settings) : string + unit :=
  if truthy (defaultVersion config)
     && negb (includes ["v4"; "v7"] (defaultVersion config))
  then inl (invalid "defaultVersion" (defaultVersion config)
                    (quoted "v4" +:+ " or " +:+ quoted "v7" +:+ "."))
  else inr tt.

(** [typeof v !== 'number' || v < 1] under [v !== undefined]. *)
Definition check_attempts (config : Settings) : string + unit :=
  match maxRetryAttempts config with
  | Undefined => inr tt
  | Num n =>
      if (n <? 1)%Z
      then inl (invalid "maxRetryAttempts" (maxRetryAttempts config)
                        "a positive number.")
      else inr tt
  | _ => inl (invalid "maxRetryAttempts" (maxRetryAttempts config)
                      "a positive number.")
  end.

Definition check_level (config : Settings) : string + unit :=
  if truthy (logLevel config)
     && negb (includes ["debug"; "info"; "warn"; "error"] (logLevel config))
  then inl (invalid "logLevel" (logLevel config)
                    (quoted "debug" +:+ ", " +:+ quoted "info" +:+ ", "
                     +:+ quoted "warn" +:+ ", or " +:+ quoted "error" +:+ "."))
  else inr tt.

(** The loop of the validator over [booleanOptions]: the first option
    that is neither [undefined] nor a boolean throws. *)
Fixpoint check_booleans (options : list (string * setting)) : string + unit :=
  match options with
  | [] => inr tt
  | (option, v) :: options' =>
      match v with
      | Undefined | Bool _ => check_booleans options'
      | _ => inl (invalid option v "a boolean.")
      end
  end.

(** [validator(config)]: the message of the [Error] it throws, or
    nothing. *)
Definition validator (config : Settings) : string + unit :=
  match check_version config with
  | inl message => inl message
  | inr _ =>
      match check_attempts config with
      | inl message => inl message
      | inr _ =>
          match check_level config with
          | inl message => inl message
          | inr _ =>
              check_booleans
                [("autoGenerate", autoGenerate config);
                 ("validateUniqueness", validateUniqueness config);
                 ("allowManualEdit", allowManualEdit config);
                 ("autoMigrate", autoMigrate config)]
          end
      end
  end.

(** [a || b]. *)
Definition or_else (a b : setting) : setting := if truthy a then a else b.

(** [v !== false]. *)
Definition not_false (v : setting) : bool :=
  match v with
  | Bool false => false
  | _ => true
  end.

(** The object [config] of the bootstrap, as it is computed from any
    [pluginConfig]. *)
Record Effective : Type := {
  effective_defaultVersion : setting;
  effective_autoGenerate : bool;
  effective_validateUniqueness : bool;
  effective_maxRetryAttempts : setting;
  effective_logLevel : setting;
  effective_autoMigrate : setting;
}.

Definition effective (pluginConfig : Settings) : Effective :=
  {| effective_defaultVersion := or_else (defaultVersion pluginConfig) (Text "v4");
     effective_autoGenerate := not_false (autoGenerate pluginConfig);
     effective_validateUniqueness := not_false (validateUniqueness pluginConfig);
     effective_maxRetryAttempts := or_else (maxRetryAttempts pluginConfig) (Num 3);
     effective_logLevel := or_else (logLevel pluginConfig) (Text "info");
     effective_autoMigrate := or_else (autoMigrate pluginConfig) (Bool false) |}.

(** The settings as the typed [pluginConfig] of the hooks reads them. *)
Definition typed (c : Settings) : Bootstrap.PluginConfig :=
  {| Bootstrap.raw_defaultVersion :=
       match defaultVersion c with Text s => Some s | _ => None end;
     Bootstrap.raw_autoGenerate :=
       match autoGenerate c with Bool b => Some b | _ => None end;
     Bootstrap.raw_validateUniqueness :=
       match validateUniqueness c with Bool b => Some b | _ => None end;
     Bootstrap.raw_maxRetryAttempts :=
       match maxRetryAttempts c with Num n => Some (Z.to_nat n) | _ => None end;
     Bootstrap.raw_logLevel :=
       match logLevel c with Text s => Some s | _ => None end;
     Bootstrap.raw_autoMigrate :=
       match autoMigrate c with Bool b => Some b | _ => None end |}.

(** The typed configuration among the values of the bootstrap. *)
Definition of_config (c : Bootstrap.Config) : Effective :=
  {| effective_defaultVersion := Text (Bootstrap.defaultVersion c);
     effective_autoGenerate := Bootstrap.autoGenerate c;
     effective_validateUniqueness := Bootstrap.validateUniqueness c;
     effective_maxRetryAttempts := Num (Z.of_nat (Bootstrap.maxRetryAttempts c));
     effective_logLevel := Text (Bootstrap.logLevel c);
     effective_autoMigrate := Bool (Bootstrap.autoMigrate c) |}.

End ConfigSchema.

(* ===================================================================== *)
(** ** The admin entry point *)
(* ===================================================================== *)

Module Admin.

(** [prefixPluginTranslations(data, pluginId)]. *)
Definition prefixPluginTranslations (data : Js.object string)
           (pluginId : string) : Js.object string :=
  fold_left (fun prefixed kv =>
               Js.set prefixed (pluginId +:+ "." +:+ fst kv) (snd kv))
            (Js.entries data) [].

End Admin.

(* ===================================================================== *)
(** ** Notions used to state the properties *)
(* ===================================================================== *)

(** The world after [i] further identifiers were generated. *)
Definition later (i : nat) (w : World) : World := Nat.iter i advance w.

(** The identifier the [i]-th attempt from [w] generates. *)
Definition candidate (config : Bootstrap.Config) (w : World) (i : nat) : string :=
  match fst (Bootstrap.generateUuid config None (later i w)) with
  | inr v => v
  | inl _ => ""
  end.

(** A computation that only reads the store: it leaves the world as it is
    and its outcome depends on the store alone. *)
Definition reader {A} (m : M World A) : Prop :=
  (forall w, snd (m w) = w)
  /\ (forall w1 w2, store w1 = store w2 -> fst (m w1) = fst (m w2)).

(** What the replacement of a value in [beforeCreate] does to the world
    and to [params.data]. *)
Definition regenerate (config : Bootstrap.Config) (uid field : string)
           (s : World * gmap string Js.value)
  : (Error + unit) * (World * gmap string Js.value) :=
  match Bootstrap.generateUniqueUuid config uid field (fst s) with
  | (inr u, w1) => (inr tt, (w1, <[field := Js.Str u]> (snd s)))
  | (inl e, w1) => (inl e, (w1, snd s))
  end.

(* ===================================================================== *)
(** ** A small installation used in the examples *)
(* ===================================================================== *)

Module Scenario.

Definition article : string := "api::article.article".

Definition plain : Attribute :=
  {| attr_type := "string"; customField := None; options := ∅ |}.

Definition uuid_attribute (opts : gmap string string) : Attribute :=
  {| attr_type := "string"; customField := Some "plugin::field-uuid.uuid";
     options := opts |}.

(** One api content type with a title and a uuid field [uuid]. *)
Definition schemas : Js.object ContentType :=
  [(article, {| attributes := [("title", plain); ("uuid", uuid_attribute ∅)] |})].

(** The same content type with the prefix [usr_] configured for the
    field. *)
Definition prefixed_schemas : Js.object ContentType :=
  [(article,
    {| attributes :=
         [("title", plain);
          ("uuid", uuid_attribute {["uuid-prefix" := "usr_"]})] |})].

Definition models : Js.object (list string) :=
  Bootstrap.findUuidModels schemas.

(** A row of [article] holding [value] in the field [uuid]; [None] is a
    [null] field. *)
Definition row (i : N) (d : string) (value : option string) : Db.Row :=
  {| Db.id := i; Db.documentId := d;
     Db.data := match value with
                | Some s => {["uuid" := Js.Str s]}
                | None => ∅
                end |}.

(** A datastore that rejects nothing. *)
Definition sound (rows : list Db.Row) : Db.Store :=
  {| Db.tables := {[article := rows]};
     Db.read_fault := fun _ => None;
     Db.write_fault := fun _ _ _ _ _ => None |}.

(** A datastore that rejects every write to the document [d]. *)
Definition rejecting (d : string) (rows : list Db.Row) : Db.Store :=
  {| Db.tables := {[article := rows]};
     Db.read_fault := fun _ => None;
     Db.write_fault := fun _ _ d' _ _ =>
                         if String.eqb d' d
                         then Some (DatastoreError "write rejected")
                         else None |}.

(** The entropy whose [n]-th draw is the number [n]: the first
    identifiers are [00000000-0000-4000-8000-000000000000],
    [...-000000000001], and so on. *)
Definition counting : Entropy :=
  {| random := fun n => N.of_nat n; clock := fun _ => 0%N;
     drawn := 0; has_v7 := false |}.

Definition world (st : Db.Store) : World :=
  {| store := st; entropy := counting |}.

Definition uuid0 : string := "00000000-0000-4000-8000-000000000000".
Definition uuid1 : string := "00000000-0000-4000-8000-000000000001".
Definition some_uuid : string := "550e8400-e29b-41d4-a716-446655440000".

(** The default configuration, and the one with a single attempt. *)
Definition defaults : Bootstrap.Config :=
  Bootstrap.config_of
    {| Bootstrap.raw_defaultVersion := None;
       Bootstrap.raw_autoGenerate := None;
       Bootstrap.raw_validateUniqueness := None;
       Bootstrap.raw_maxRetryAttempts := None;
       Bootstrap.raw_logLevel := None;
       Bootstrap.raw_autoMigrate := None |}.

Definition single_attempt : Bootstrap.Config :=
  Bootstrap.config_of
    {| Bootstrap.raw_defaultVersion := None;
       Bootstrap.raw_autoGenerate := None;
       Bootstrap.raw_validateUniqueness := None;
       Bootstrap.raw_maxRetryAttempts := Some 1;
       Bootstrap.raw_logLevel := None;
       Bootstrap.raw_autoMigrate := None |}.

(** The default configuration with the uniqueness check switched off. *)
Definition unchecked : Bootstrap.Config :=
  Bootstrap.config_of
    {| Bootstrap.raw_defaultVersion := None;
       Bootstrap.raw_autoGenerate := None;
       Bootstrap.raw_validateUniqueness := Some false;
       Bootstrap.raw_maxRetryAttempts := None;
       Bootstrap.raw_logLevel := None;
       Bootstrap.raw_autoMigrate := None |}.

(** The datastore that rejects nothing of its own, once the bootstrap has
    subscribed the hooks of the plugin under the configuration. *)
Definition guarded (config : Bootstrap.Config) (rows : list Db.Row)
  : Db.Store :=
  Lifecycle.subscribed config models (sound rows).

(** A create of an article from the given payload. *)
Definition creation (data : gmap string Js.value) : Bootstrap.Event :=
  {| Bootstrap.model_uid := article; Bootstrap.params_data := data;
     Bootstrap.params_where := None |}.

End Scenario.

(* ===================================================================== *)
(** ** Uniqueness of the values of a field *)
(* ===================================================================== *)

(** The non-empty identifier a row holds in a field. *)
Definition value_of (field : string) (r : Db.Row) : option string :=
  match Db.data r !! field with
  | Some (Js.Str s) => if Js.truthy_str s then Some s else None
  | _ => None
  end.

(** Two rows of distinct records that hold the same identifier. *)
Definition clash (field : string) (r1 r2 : Db.Row) : bool :=
  match value_of field r1, value_of field r2 with
  | Some a, Some b =>
      String.eqb a b && negb (String.eqb (Db.documentId r1) (Db.documentId r2))
  | _, _ => false
  end.

(** No two distinct Record Identities hold the same value of the field. *)
Definition duplicate_free (st : Db.Store) (uid field : string) : Prop :=
  forall r1 r2, In r1 (Db.rows st uid) -> In r2 (Db.rows st uid) ->
                clash field r1 r2 = false.

Definition duplicate_freeb (st : Db.Store) (uid field : string) : bool :=
  forallb (fun r1 => forallb (fun r2 => negb (clash field r1 r2))
                             (Db.rows st uid))
          (Db.rows st uid).

Module Options.

(** [runMigration({ dryRun })] with the other options at their defaults. *)
Definition migration (dry : bool) : Migrations.Options :=
  {| Migrations.opt_dryRun := Some dry; Migrations.opt_fixEmpty := None;
     Migrations.opt_fixInvalid := None; Migrations.opt_fixDuplicates := None |}.

End Options.

(* ===================================================================== *)
(** ** The write-time guard, as the specification states it *)
(* ===================================================================== *)

Definition same_owner (owner : option string) (d : string) : bool :=
  match owner with
  | Some d' => String.eqb d' d
  | None => false
  end.

(** The create policy for one field whose supplied value already exists:
    kept for the same Record Identity, kept when the write carries none,
    replaced through the retry loop in every other case. *)
Definition create_policy (config : Bootstrap.Config) (event : Bootstrap.Event)
           (field : string) (w : World) : Prop :=
  let uid := Bootstrap.model_uid event in
  let data := Bootstrap.params_data event in
  forall owner,
    Js.truthy (data !! field) = true ->
    fst (Bootstrap.checkUuidExists config uid field (Js.show (data !! field))
                                  None w) = inr (true, owner) ->
    Bootstrap.beforeCreate_field config uid (Bootstrap.currentDocumentId_of event)
                                 field (w, data)
    = match Bootstrap.currentDocumentId_of event with
      | None => (inr tt, (w, data))
      | Some d => if same_owner owner d then (inr tt, (w, data))
                  else regenerate config uid field (w, data)
      end.

(** A hook outcome that is a validation failure. *)
Definition validation_failure {A} (r : Error + A) : Prop :=
  exists message field uuid, r = inl (ValidationError message field uuid).

(** Some other Record Identity than [d] holds the string [s] in the
    field. *)
Definition held_by_other (st : Db.Store) (uid field s d : string) : Prop :=
  exists r, In r (Db.rows st uid) /\ Db.documentId r <> d
            /\ Db.data r !! field = Some (Js.Str s).

(** The values of a field, row by row. *)
Definition column (st : Db.Store) (uid field : string) : list (option Js.value) :=
  List.map (fun r => Db.data r !! field) (Db.rows st uid).

(** The update policy for the monitored fields of an event. *)
Definition update_policy (config : Bootstrap.Config)
           (models : Js.object (list string)) (event : Bootstrap.Event)
           (w : World) : Prop :=
  let uid := Bootstrap.model_uid event in
  forall fields field, Js.get models uid = Some fields -> In field fields ->
    (forall v, Bootstrap.params_data event !! field = Some v ->
               Uuid.validateUuid (Some v) = false ->
               validation_failure (fst (Bootstrap.beforeUpdate config models event w)))
    /\ (forall s d, Bootstrap.params_data event !! field = Some (Js.Str s) ->
                    Bootstrap.validateUniqueness config = true ->
                    fst (Bootstrap.getDocumentIdFromWhere uid
                           (Bootstrap.params_where event) w) = inr (Some d) ->
                    held_by_other (store w) uid field s d ->
                    validation_failure (fst (Bootstrap.beforeUpdate config models event w)))
    /\ (Bootstrap.params_data event !! field = None ->
        column (store (snd (Lifecycle.update config models event w))) uid field
        = column (store w) uid field).

Module UpdateScenario.

(** An update of an article that the [where] clause selects by other
    columns than [id] and [documentId]. *)
Definition unresolved (data : gmap string Js.value) : Bootstrap.Event :=
  {| Bootstrap.model_uid := Scenario.article; Bootstrap.params_data := data;
     Bootstrap.params_where :=
       Some {| Bootstrap.where_documentId := None;
               Bootstrap.where_id := None |} |}.

(** An update of the document [d]. *)
Definition of_document (d : string) (data : gmap string Js.value)
  : Bootstrap.Event :=
  {| Bootstrap.model_uid := Scenario.article; Bootstrap.params_data := data;
     Bootstrap.params_where :=
       Some {| Bootstrap.where_documentId := Some d;
               Bootstrap.where_id := None |} |}.

End UpdateScenario.

(* ===================================================================== *)
(** ** What the reconciliation reads of the rows *)
(* ===================================================================== *)

(** The Record Identity of a row and its value of the field. *)
Definition key (field : string) (r : Db.Row) : string * option Js.value :=
  (Db.documentId r, Db.data r !! field).

(** The entry holds the non-empty value [k] in the field. *)
Definition holds_value (field k : string) (e : Db.Row) : bool :=
  Js.truthy (Db.data e !! field) && String.eqb (Js.show (Db.data e !! field)) k.

(** The Record Identities of the entries that hold [k], in scan order. *)
Definition members (field k : string) (entries : list Db.Row) : list string :=
  List.map Db.documentId (List.filter (holds_value field k) entries).

(** The grouping of the entries scanned so far: every key once, and under
    each value the members that hold it. *)
Definition grouped (field : string) (scanned : list Db.Row)
           (groups : list (string * list string)) : Prop :=
  List.NoDup (List.map fst groups)
  /\ forall k, Js.get groups k = match members field k scanned with
                                 | [] => None
                                 | ids => Some ids
                                 end.

(** At least two distinct Record Identities. *)
Definition distinct_identities (ids : list string) : Prop :=
  exists a b, In a ids /\ In b ids /\ a <> b.

(** Every duplicate group that [findDuplicatesForField] reports has two
    distinct Record Identities. *)
Definition groups_are_distinct (uid field : string) (w : World) : Prop :=
  forall dups w',
    Service.findDuplicatesForField uid field w = (inr dups, w') ->
    forall g, In g dups -> distinct_identities (Service.documentIds g).

(** The monitored fields in the order [checkMigrationStatus] visits them:
    the uuid attributes of the content types whose uid starts with
    [api::]. *)
Definition monitored (schemas : Js.object ContentType)
  : list (string * string * Attribute) :=
  List.flat_map
    (fun uc =>
       if String.prefix "api::" (fst uc)
       then List.map (fun na => (fst uc, fst na, snd na))
                     (List.filter (fun na => is_uuid_attribute (snd na))
                                  (Js.entries (attributes (snd uc))))
       else [])
    (Js.entries schemas).

(** The [fieldInfo] of a monitored field on a store. *)
Definition info_of (st : Db.Store) (m : string * string * Attribute)
  : Migrations.FieldInfo :=
  let '(uid, attrName, attr) := m in
  match Db.read_fault st uid with
  | None => Migrations.scanned_info uid attrName attr (Db.rows st uid)
  | Some msg => Migrations.failed_info uid attrName attr (DatastoreError msg)
  end.

(** The duplicate issues of a status report have two distinct Record
    Identities each. *)
Definition issues_are_distinct (schemas : Js.object ContentType) (w : World)
  : Prop :=
  forall status w',
    Migrations.checkMigrationStatus schemas w = (inr status, w') ->
    forall info u c ids,
      In info (Migrations.contentTypes status) ->
      In (Migrations.DuplicateIssue u c ids) (Migrations.issues info) ->
      distinct_identities ids.

(* ===================================================================== *)
(** ** The writes of a reconciliation *)
(* ===================================================================== *)

(** The datastore rejects no write, whatever the tables hold. *)
Definition accepts_writes (st : Db.Store) : Prop :=
  forall tables uid d field value,
    Db.write_fault st tables uid d field value = None.

(** One fix: an identifier is drawn, and the committed run writes it. *)
Definition commit (dry : bool) (uid field d value : string) (w : World) : World :=
  if dry then advance w
  else set_store (Db.write uid d field value (store w)) (advance w).

Definition commit_all (dry : bool) (uid field : string)
           (writes : list (string * string)) (w : World) : World :=
  fold_left (fun w dv => commit dry uid field (fst dv) (snd dv) w) writes w.

(** The changes of the duplicate repair of the service, computed from the
    groups: the members after the first receive the identifiers drawn from
    the [n]-th on, one each. *)
Module Plan.

Fixpoint members (rnd : nat -> N) (n : nat) (u keep : string)
         (rest : list string) : list Service.Change :=
  match rest with
  | [] => []
  | d :: rest' =>
      {| Service.documentId := d; Service.oldUuid := u;
         Service.newUuid := Uuid.v4 (rnd n); Service.kept := keep |}
      :: members rnd (S n) u keep rest'
  end.

Definition group (rnd : nat -> N) (n : nat) (g : Service.DuplicateGroup)
  : list Service.Change :=
  match Service.documentIds g with
  | [] => []
  | keep :: rest => members rnd n (Service.uuid g) keep rest
  end.

Fixpoint groups (rnd : nat -> N) (n : nat) (dups : list Service.DuplicateGroup)
  : list Service.Change :=
  match dups with
  | [] => []
  | g :: dups' =>
      group rnd n g ++ groups rnd (n + List.length (group rnd n g)) dups'
  end.

Definition writes (plan : list Service.Change) : list (string * string) :=
  List.map (fun c => (Service.documentId c, Service.newUuid c)) plan.

(** The fixes with the planned changes added. *)
Definition added (plan : list Service.Change) (fixes : Service.Fixes)
  : Service.Fixes :=
  {| Service.found := Service.found fixes;
     Service.fixed := Service.fixed fixes + List.length plan;
     Service.changes := Service.changes fixes ++ plan |}.

End Plan.




(** The changes of [runMigration] for one monitored field, computed from
    the status of the field and the Record Identities of its empty
    entries. *)
Module MigrationPlan.

Fixpoint empty (rnd : nat -> N) (n : nat) (uid field : string)
         (targets : list string) : list Migrations.Change :=
  match targets with
  | [] => []
  | d :: targets' =>
      {| Migrations.type := Migrations.empty_fix; Migrations.change_uid := uid;
         Migrations.change_field := field; Migrations.documentId := d;
         Migrations.oldValue := None; Migrations.newValue := Uuid.v4 (rnd n);
         Migrations.keptDocumentId := None |}
      :: empty rnd (S n) uid field targets'
  end.

Fixpoint invalid (rnd : nat -> N) (n : nat) (uid field : string)
         (issues : list Migrations.Issue) : list Migrations.Change :=
  match issues with
  | [] => []
  | Migrations.InvalidIssue d v :: issues' =>
      {| Migrations.type := Migrations.invalid_fix; Migrations.change_uid := uid;
         Migrations.change_field := field; Migrations.documentId := d;
         Migrations.oldValue := Some v; Migrations.newValue := Uuid.v4 (rnd n);
         Migrations.keptDocumentId := None |}
      :: invalid rnd (S n) uid field issues'
  | Migrations.DuplicateIssue _ _ _ :: issues' => invalid rnd n uid field issues'
  end.

Fixpoint members (rnd : nat -> N) (n : nat) (uid field u keep : string)
         (rest : list string) : list Migrations.Change :=
  match rest with
  | [] => []
  | d :: rest' =>
      {| Migrations.type := Migrations.duplicate_fix; Migrations.change_uid := uid;
         Migrations.change_field := field; Migrations.documentId := d;
         Migrations.oldValue := Some u; Migrations.newValue := Uuid.v4 (rnd n);
         Migrations.keptDocumentId := Some keep |}
      :: members rnd (S n) uid field u keep rest'
  end.

Definition issue (rnd : nat -> N) (n : nat) (uid field : string)
           (i : Migrations.Issue) : list Migrations.Change :=
  match i with
  | Migrations.DuplicateIssue u _ (keep :: rest) =>
      members rnd n uid field u keep rest
  | _ => []
  end.

Fixpoint duplicates (rnd : nat -> N) (n : nat) (uid field : string)
         (issues : list Migrations.Issue) : list Migrations.Change :=
  match issues with
  | [] => []
  | i :: issues' =>
      issue rnd n uid field i
      ++ duplicates rnd (n + List.length (issue rnd n uid field i)) uid field
                    issues'
  end.

Definition writes (plan : list Migrations.Change) : list (string * string) :=
  List.map (fun c => (Migrations.documentId c, Migrations.newValue c)) plan.

(** The result with the changes of one category added, all of them
    counted as fixed. *)
Definition added (category : Migrations.ChangeType)
           (plan : list Migrations.Change) (r : Migrations.Result)
  : Migrations.Result :=
  {| Migrations.dryRun := Migrations.dryRun r;
     Migrations.fixed_empty :=
       Migrations.fixed_empty r
       + match category with Migrations.empty_fix => List.length plan | _ => 0 end;
     Migrations.fixed_invalid :=
       Migrations.fixed_invalid r
       + match category with Migrations.invalid_fix => List.length plan | _ => 0 end;
     Migrations.fixed_duplicates :=
       Migrations.fixed_duplicates r
       + match category with Migrations.duplicate_fix => List.length plan | _ => 0 end;
     Migrations.errors := Migrations.errors r;
     Migrations.changes := Migrations.changes r ++ plan;
     Migrations.totalFixed := Migrations.totalFixed r |}.

(** The Record Identities of the entries with an empty field. *)
Definition empty_targets (st : Db.Store) (uid field : string) : list string :=
  List.map Db.documentId
           (List.filter (Db.matches [Db.FieldEmpty field]) (Db.rows st uid)).

End MigrationPlan.

(** What [runMigration] does for one monitored field when no write is
    rejected: the three categories in turn, each drawing its identifiers
    after the previous one. *)
Module Outcome.

Definition fixes_empty (fixEmpty : bool) (info : Migrations.FieldInfo) : bool :=
  fixEmpty && Migrations.positive_count (Migrations.emptyCount info).

Definition empty_plan (fixEmpty : bool) (info : Migrations.FieldInfo) (w : World)
  : list Migrations.Change :=
  if fixes_empty fixEmpty info then
    match Db.read_fault (store w) (Migrations.uid info) with
    | None =>
        MigrationPlan.empty (random (entropy w)) (drawn (entropy w))
          (Migrations.uid info) (Migrations.field info)
          (MigrationPlan.empty_targets (store w) (Migrations.uid info)
                                       (Migrations.field info))
    | Some _ => []
    end
  else [].

Definition empty_errors (fixEmpty : bool) (info : Migrations.FieldInfo) (w : World)
  : list string :=
  if fixes_empty fixEmpty info then
    match Db.read_fault (store w) (Migrations.uid info) with
    | None => []
    | Some msg =>
        ["Failed to fix empty UUIDs in " +:+ Migrations.uid info +:+ "."
         +:+ Migrations.field info +:+ ": " +:+ msg]
    end
  else [].

Definition invalid_plan (fixInvalid : bool) (info : Migrations.FieldInfo)
           (w : World) : list Migrations.Change :=
  if fixInvalid
  then MigrationPlan.invalid (random (entropy w)) (drawn (entropy w))
         (Migrations.uid info) (Migrations.field info) (Migrations.issues info)
  else [].

Definition duplicates_plan (fixDuplicates : bool) (info : Migrations.FieldInfo)
           (w : World) : list Migrations.Change :=
  if fixDuplicates
  then MigrationPlan.duplicates (random (entropy w)) (drawn (entropy w))
         (Migrations.uid info) (Migrations.field info) (Migrations.issues info)
  else [].

Definition with_errors (msgs : list string) (r : Migrations.Result)
  : Migrations.Result :=
  {| Migrations.dryRun := Migrations.dryRun r;
     Migrations.fixed_empty := Migrations.fixed_empty r;
     Migrations.fixed_invalid := Migrations.fixed_invalid r;
     Migrations.fixed_duplicates := Migrations.fixed_duplicates r;
     Migrations.errors := Migrations.errors r ++ msgs;
     Migrations.changes := Migrations.changes r;
     Migrations.totalFixed := Migrations.totalFixed r |}.

Definition run (dry : bool) (info : Migrations.FieldInfo)
           (plan : list Migrations.Change) (w : World) : World :=
  commit_all dry (Migrations.uid info) (Migrations.field info)
             (MigrationPlan.writes plan) w.

Definition field (dry fixEmpty fixInvalid fixDuplicates : bool)
           (info : Migrations.FieldInfo) (s : World * Migrations.Result)
  : World * Migrations.Result :=
  let w := fst s in
  let pe := empty_plan fixEmpty info w in
  let w1 := run dry info pe w in
  let r1 := with_errors (empty_errors fixEmpty info w)
                        (MigrationPlan.added Migrations.empty_fix pe (snd s)) in
  let pi := invalid_plan fixInvalid info w1 in
  let w2 := run dry info pi w1 in
  let r2 := MigrationPlan.added Migrations.invalid_fix pi r1 in
  let pd := duplicates_plan fixDuplicates info w2 in
  (run dry info pd w2, MigrationPlan.added Migrations.duplicate_fix pd r2).

Definition fields (dry fixEmpty fixInvalid fixDuplicates : bool)
           (infos : list Migrations.FieldInfo) (s : World * Migrations.Result)
  : World * Migrations.Result :=
  fold_left (fun s info => field dry fixEmpty fixInvalid fixDuplicates info s)
            infos s.

Definition initial (dry : bool) : Migrations.Result :=
  {| Migrations.dryRun := dry; Migrations.fixed_empty := 0;
     Migrations.fixed_invalid := 0; Migrations.fixed_duplicates := 0;
     Migrations.errors := []; Migrations.changes := [];
     Migrations.totalFixed := None |}.

End Outcome.

(* ===================================================================== *)
(** ** Dry run and committed run *)
(* ===================================================================== *)







Definition autofix_fields (schemas : Js.object ContentType)
  : list (string * string) :=
  List.flat_map (fun uf => List.map (pair (fst uf)) (snd uf))
                (Js.entries (Service.getUuidModels schemas)).



(** The schemas are objects: a content type is listed once, and so is an
    attribute of a content type. *)
Definition well_formed (schemas : Js.object ContentType) : Prop :=
  List.NoDup (List.map fst schemas)
  /\ forall uid ct, In (uid, ct) schemas ->
                    List.NoDup (List.map fst (attributes ct)).

(* ===================================================================== *)
(** ** The rows after a repair *)
(* ===================================================================== *)

(** A row after the writes [(documentId, value)] to the field, in order. *)
Definition rewrite_row (field : string) (writes : list (string * string))
           (r : Db.Row) : Db.Row :=
  fold_left (fun r dv => if String.eqb (Db.documentId r) (fst dv)
                         then Db.set_field field (snd dv) r else r)
            writes r.

(** The members of the groups after the first of each. *)
Definition rest_of (idss : list (list string)) : list string :=
  List.flat_map (@List.tl string) idss.

(** The Record Identities of an issue of the status report. *)
Definition ids_of (i : Migrations.Issue) : list string :=
  match i with
  | Migrations.DuplicateIssue _ _ ids => ids
  | Migrations.InvalidIssue _ _ => []
  end.

(** One repaired member of a duplicate group, from the world [w] to the
    world [w']: the rows of the record [keep] are as they were, the rows
    of the record [doc] hold the value [new], and [new] is one of the
    identifiers generated in between. *)
Definition repaired (uid field : string) (w w' : World)
           (keep doc new : string) : Prop :=
  (forall r, Db.documentId r = keep ->
             (In r (Db.rows (store w) uid) <-> In r (Db.rows (store w') uid)))
  /\ (forall r, In r (Db.rows (store w') uid) -> Db.documentId r = doc ->
                Db.data r !! field = Some (Js.Str new))
  /\ exists i, drawn (entropy w) <= i < drawn (entropy w')
               /\ new = Uuid.v4 (random (entropy w) i).




(* ===================================================================== *)
(** ** Uniqueness, as the specification states it *)
(* ===================================================================== *)




(* ===================================================================== *)
(** ** The repairs of [autofix] *)
(* ===================================================================== *)



(* ===================================================================== *)
(** ** The report of the status check *)
(* ===================================================================== *)

(** The report of [checkMigrationStatus] after one more monitored field
    was checked on the store [st]. *)
Definition checked (st : Db.Store) (report : Migrations.Status)
           (m : string * string * Attribute) : Migrations.Status :=
  let info := info_of st m in
  {| Migrations.needsMigration :=
       Migrations.needsMigration report || Migrations.has_issues info;
     Migrations.contentTypes := Migrations.contentTypes report ++ [info];
     Migrations.totalFields := S (Migrations.totalFields report);
     Migrations.totalEntries :=
       Migrations.totalEntries report + default 0 (Migrations.entryCount info);
     Migrations.status_issues :=
       Migrations.status_issues report
       ++ match Migrations.error info with
          | Some msg =>
              ["Failed to check " +:+ fst (fst m) +:+ "." +:+ snd (fst m) +:+ ": "
               +:+ msg]
          | None => []
          end |}.

(** The report before the first field. *)
Definition unchecked : Migrations.Status :=
  {| Migrations.needsMigration := false; Migrations.contentTypes := [];
     Migrations.totalFields := 0; Migrations.totalEntries := 0;
     Migrations.status_issues := [] |}.

(** The value of the field is a well-formed identifier in every row, and
    no two rows hold the same one. *)
Definition clean (st : Db.Store) (uid field : string) : Prop :=
  (forall r, In r (Db.rows st uid) ->
             Uuid.validateUuid (Db.data r !! field) = true)
  /\ List.NoDup (List.map (fun r => Db.data r !! field) (Db.rows st uid)).

(* ===================================================================== *)
(** ** Computations that return, and what they keep *)
(* ===================================================================== *)

(** The computation returns from every state: it never throws. *)
Definition total {S A} (m : M S A) : Prop :=
  forall s, exists a, fst (m s) = inr a.

(** The computation keeps [P], whether it returns or throws. *)
Definition invariant {S A} (P : S -> Prop) (m : M S A) : Prop :=
  forall s, P s -> P (snd (m s)).

(** What [runMigration] keeps of its result and of the store: the echoed
    flag, no more counted fixes than changes, and in a dry run the store
    [st] and a count for every change. *)
Definition accounted (dry : bool) (st : Db.Store)
           (s : World * Migrations.Result) : Prop :=
  let fixes := Migrations.fixed_empty (snd s) + Migrations.fixed_invalid (snd s)
               + Migrations.fixed_duplicates (snd s) in
  Migrations.dryRun (snd s) = dry
  /\ fixes <= List.length (Migrations.changes (snd s))
  /\ (dry = true ->
      store (fst s) = st /\ fixes = List.length (Migrations.changes (snd s))).

(** What [importMappings] keeps of its result and of the store: the
    echoed flag, no more imports than changes, and in a dry run the store
    [st] and an import for every change. *)
Definition import_accounted (dry : bool) (st : Db.Store)
           (s : World * Migrations.ImportResult) : Prop :=
  Migrations.import_dryRun (snd s) = dry
  /\ Migrations.imported (snd s) <= List.length (Migrations.import_changes (snd s))
  /\ (dry = true ->
      store (fst s) = st
      /\ Migrations.imported (snd s)
         = List.length (Migrations.import_changes (snd s))).

(** The entries of an import file, over all content types and fields. *)
Definition import_entries (mappings : Js.object Migrations.TypeMappings)
  : list Migrations.Mapping :=
  List.flat_map
    (fun uc => List.flat_map snd (Js.entries (Migrations.fields (snd uc))))
    (Js.entries mappings).

(** The entry holds, in the field, a non-empty value that names a
    property every object inherits. *)
Definition inherited_value (field : string) (r : Db.Row) : bool :=
  Js.truthy (Db.data r !! field) && Js.inherited (Js.show (Db.data r !! field)).

(** What the grouping loop of [findDuplicatesForField] throws. *)
Definition push_error : Error :=
  TypeError "uuidGroups[uuidValue].push is not a function".

(* ===================================================================== *)
(** ** The missing values *)
(* ===================================================================== *)

(** The changes [generateMissing] lists for the entries with the Record
    Identities [targets]: the identifiers drawn from the [n]-th on, one
    each. *)
Fixpoint generated_for (rnd : nat -> N) (n : nat) (targets : list string)
  : list Service.Generated :=
  match targets with
  | [] => []
  | d :: targets' =>
      {| Service.generated_documentId := d;
         Service.generated_newUuid := Uuid.v4 (rnd n) |}
      :: generated_for rnd (S n) targets'
  end.

Definition missing_writes (plan : list Service.Generated)
  : list (string * string) :=
  List.map (fun g => (Service.generated_documentId g, Service.generated_newUuid g))
           plan.

(** The changes of [generateMissing] for a field in the world [w]. *)
Definition missing_plan (w : World) (p : string * string)
  : list Service.Generated :=
  generated_for (random (entropy w)) (drawn (entropy w))
                (MigrationPlan.empty_targets (store w) (fst p) (snd p)).

(** The world after [generateMissing] handled a field. *)
Definition filling (dry : bool) (w : World) (p : string * string) : World :=
  commit_all dry (fst p) (snd p) (missing_writes (missing_plan w p)) w.




(** The report of [generateMissing] with the changes of a field added. *)
Definition missing_reported (uid field : string) (plan : list Service.Generated)
           (report : Service.MissingReport) : Service.MissingReport :=
  {| Service.missing_dryRun := Service.missing_dryRun report;
     Service.totalGenerated := Service.totalGenerated report + List.length plan;
     Service.missing_details :=
       Service.set_detail uid field
         {| Service.missing_found := List.length plan;
            Service.generated := List.length plan;
            Service.missing_changes := plan |}
         (Service.missing_details report) |}.

(** One turn of the loop of [generateMissing] over the fields of a content
    type, on the world and the report. *)
Definition missing_field (dry : bool) (s : World * Service.MissingReport)
           (p : string * string) : World * Service.MissingReport :=
  (filling dry (fst s) p,
   missing_reported (fst p) (snd p) (missing_plan (fst s) p) (snd s)).



(** Some row holds, in the field, the identifier of the [i]-th attempt
    from [w]. *)
Definition taken (config : Bootstrap.Config) (uid field : string) (w : World)
           (i : nat) : Prop :=
  exists r, In r (Db.rows (store w) uid)
            /\ Db.data r !! field = Some (Js.Str (candidate config w i)).

(* ===================================================================== *)
(** ** Export and import *)
(* ===================================================================== *)

(** The mappings are a snapshot of the store: every list of entries is
    that of the rows of its content type, which the datastore lets read
    and which hold one row for each Record Identity. *)
Definition snapshot (st : Db.Store) (mappings : Js.object Migrations.TypeMappings)
  : Prop :=
  forall uid ct field entries,
    In (uid, ct) mappings -> In (field, entries) (Migrations.fields ct) ->
    entries = List.map (Migrations.mapping_of field) (Db.rows st uid)
    /\ Db.read_fault st uid = None
    /\ List.NoDup (List.map Db.documentId (Db.rows st uid)).


(* ===================================================================== *)
(** ** The two duplicate detectors *)
(* ===================================================================== *)

(** A duplicate group of the service as the status check lists it. *)
Definition as_issue (g : Service.DuplicateGroup) : Migrations.Issue :=
  Migrations.DuplicateIssue (Service.uuid g) (Service.count g)
                            (Service.documentIds g).

(** The issues of the status check with [type: 'duplicate']. *)
Definition is_duplicate_issue (i : Migrations.Issue) : bool :=
  match i with
  | Migrations.DuplicateIssue _ _ _ => true
  | Migrations.InvalidIssue _ _ => false
  end.

(* ===================================================================== *)
(** ** Requests that name an inherited property *)
(* ===================================================================== *)


(* ===================================================================== *)
(** ** The import on an installation of the plugin *)
(* ===================================================================== *)

(** The store of the world is one on which the bootstrap has subscribed
    the hooks. *)
Definition subscribed_world (config : Bootstrap.Config)
           (models : Js.object (list string)) (w : World) : Prop :=
  exists st, store w = Lifecycle.subscribed config models st.

(** Every entry of [w] is an entry of [w0] that holds, in the field, the
    value it held or a well-formed one. *)
Definition kept_or_valid (uid field : string) (w0 w : World) : Prop :=
  forall r', In r' (Db.rows (store w) uid) ->
    exists r, In r (Db.rows (store w0) uid)
              /\ Db.documentId r = Db.documentId r'
              /\ (Db.data r' !! field = Db.data r !! field
                  \/ Uuid.validateUuid (Db.data r' !! field) = true).

(** What a run on an installation keeps for a monitored field. *)
Definition import_guarded (config : Bootstrap.Config)
           (models : Js.object (list string)) (uid field : string)
           (w0 : World) (s : World * Migrations.ImportResult) : Prop :=
  subscribed_world config models (fst s)
  /\ kept_or_valid uid field w0 (fst s)
  /\ (Bootstrap.validateUniqueness config = true ->
      duplicate_free (store w0) uid field ->
      duplicate_free (store (fst s)) uid field).

(** [importMappings({ dryRun: false, overwrite: true })]. *)
Definition committed_import : Migrations.ImportOptions :=
  {| Migrations.import_opt_dryRun := Some false;
     Migrations.import_opt_overwrite := Some true |}.

(** The import as the claim states it, on an installation of the plugin:
    for some snapshot the committed import gives a record, in a
    monitored field, a value it did not hold and that fails the format
    validator; and for some snapshot it turns a monitored field that was
    free of duplicates into one where two distinct Record Identities
    hold the same value. *)
Definition import_unchecked : Prop :=
  (exists config models st ent mappings uid fields field r',
      let w := {| store := Lifecycle.subscribed config models st;
                  entropy := ent |} in
      let w' := snd (Migrations.importMappings (Some mappings)
                                               committed_import w) in
      Js.get models uid = Some fields /\ In field fields
      /\ In r' (Db.rows (store w') uid)
      /\ Uuid.validateUuid (Db.data r' !! field) = false
      /\ forall r, In r (Db.rows (store w) uid) ->
                   Db.documentId r = Db.documentId r' ->
                   Db.data r !! field <> Db.data r' !! field)
  /\ (exists config models st ent mappings uid fields field,
         let w := {| store := Lifecycle.subscribed config models st;
                     entropy := ent |} in
         let w' := snd (Migrations.importMappings (Some mappings)
                                                  committed_import w) in
         Js.get models uid = Some fields /\ In field fields
         /\ duplicate_free (store w) uid field
         /\ ~ duplicate_free (store w') uid field).

(* ===================================================================== *)
(** ** The repair on an installation of the plugin *)
(* ===================================================================== *)





(* ===================================================================== *)
(** ** The entries of the datastore *)
(* ===================================================================== *)

Lemma entries_from_in seen l r :
  In r (Db.entries_from seen l) ->
  In r l /\ existsb (String.eqb (Db.documentId r)) seen = false.
Proof.
  revert seen. induction l as [|x l IH]; intros seen H; [destruct H|].
  cbn [Db.entries_from] in H.
  destruct (existsb (String.eqb (Db.documentId x)) seen) eqn:E.
  - destruct (IH _ H) as [Hin Hs]. split; [now right|exact Hs].
  - destruct H as [<-|H]; [split; [now left|exact E]|].
    destruct (IH _ H) as [Hin Hs]. split; [now right|].
    cbn [existsb] in Hs. now apply orb_false_iff in Hs.
Qed.

Lemma entries_from_nodup l : forall seen,
  List.NoDup (List.map Db.documentId (Db.entries_from seen l)).
Proof.
  induction l as [|x l IH]; intros seen; [constructor|].
  cbn [Db.entries_from].
  destruct (existsb (String.eqb (Db.documentId x)) seen); [apply IH|].
  cbn [List.map]. constructor; [|apply IH].
  intros Hin. apply in_map_iff in Hin as (r & Hd & Hr).
  apply entries_from_in in Hr as [_ Hs]. cbn [existsb] in Hs.
  apply orb_false_iff in Hs as [Hs _]. rewrite Hd, String.eqb_refl in Hs.
  discriminate.
Qed.

(** The Document Service answers one entry per Record Identity. *)
Lemma rows_nodup st uid :
  List.NoDup (List.map Db.documentId (Db.rows st uid)).
Proof. apply entries_from_nodup. Qed.

Lemma rows_stored st uid r : In r (Db.rows st uid) -> In r (Db.stored st uid).
Proof. intros H. now apply entries_from_in in H. Qed.

Lemma entries_from_map (g : Db.Row -> Db.Row) l :
  (forall r, Db.documentId (g r) = Db.documentId r) ->
  forall seen,
    Db.entries_from seen (List.map g l) = List.map g (Db.entries_from seen l).
Proof.
  intros Hg. induction l as [|x l IH]; intros seen; [reflexivity|].
  cbn [List.map Db.entries_from]. rewrite Hg.
  destruct (existsb (String.eqb (Db.documentId x)) seen); [apply IH|].
  cbn [List.map]. now rewrite IH.
Qed.

Lemma entries_from_untouched d field value l : forall seen,
  existsb (String.eqb d) seen = true ->
  List.map (fun r => if String.eqb (Db.documentId r) d
                     then Db.set_field field value r else r)
           (Db.entries_from seen l)
  = Db.entries_from seen l.
Proof.
  intros seen Hd. rewrite <- (List.map_id (Db.entries_from seen l)) at 2.
  apply List.map_ext_in. intros r Hr. apply entries_from_in in Hr as [_ Hs].
  destruct (String.eqb_spec (Db.documentId r) d) as [E|_]; [|reflexivity].
  rewrite E, Hd in Hs. discriminate.
Qed.

Lemma entries_from_write d field value l : forall seen,
  Db.entries_from seen (Db.write_entry d field value l)
  = List.map (fun r => if String.eqb (Db.documentId r) d
                       then Db.set_field field value r else r)
             (Db.entries_from seen l).
Proof.
  induction l as [|x l IH]; intros seen; [reflexivity|].
  cbn [Db.write_entry].
  destruct (String.eqb_spec (Db.documentId x) d) as [E|E].
  - cbn [Db.entries_from Db.set_field Db.documentId].
    destruct (existsb (String.eqb (Db.documentId x)) seen) eqn:Es.
    + symmetry. apply entries_from_untouched. now rewrite <- E.
    + cbn [List.map]. rewrite E, String.eqb_refl. f_equal.
      symmetry. apply entries_from_untouched. cbn [existsb].
      now rewrite String.eqb_refl.
  - cbn [Db.entries_from].
    destruct (existsb (String.eqb (Db.documentId x)) seen); [apply IH|].
    cbn [List.map]. rewrite IH.
    destruct (String.eqb_spec (Db.documentId x) d); [contradiction|reflexivity].
Qed.


Lemma stored_write_same uid d field value st :
  Db.stored (Db.write uid d field value st) uid
  = Db.write_entry d field value (Db.stored st uid).
Proof. unfold Db.stored at 1, Db.write. simpl. now rewrite lookup_insert_eq. Qed.



Lemma rows_write_same uid d field value st :
  Db.rows (Db.write uid d field value st) uid
  = List.map (fun r => if String.eqb (Db.documentId r) d
                       then Db.set_field field value r else r)
             (Db.rows st uid).
Proof. unfold Db.rows. rewrite stored_write_same. apply entries_from_write. Qed.

Lemma rows_write_other uid uid' d field value st :
  uid' <> uid -> Db.rows (Db.write uid d field value st) uid' = Db.rows st uid'.
Proof.
  intros H. unfold Db.rows, Db.stored, Db.write. simpl.
  now rewrite lookup_insert_ne by congruence.
Qed.

(** The rows a storage-level update rewrites keep their Record
    Identity. *)
Lemma rows_with_tables (g : Db.Row -> Db.Row) uid w :
  (forall r, Db.documentId (g r) = Db.documentId r) ->
  Db.rows (store (Lifecycle.with_tables
                    (<[uid := List.map g (Db.stored (store w) uid)]>
                       (Db.tables (store w))) w)) uid
  = List.map g (Db.rows (store w) uid).
Proof.
  intros Hg. unfold Db.rows, Db.stored at 1, Lifecycle.with_tables, set_store.
  cbn [store Db.tables]. rewrite lookup_insert_eq. cbn [default].
  now apply entries_from_map.
Qed.

Lemma merge_documentId where_ data r :
  Db.documentId (if Lifecycle.selected where_ r then Lifecycle.merge data r
                 else r)
  = Db.documentId r.
Proof. now destruct (Lifecycle.selected where_ r). Qed.

(* ===================================================================== *)
(** ** The bounded retry of [generateUniqueUuid] *)
(* ===================================================================== *)

Section Reads.
Variable config : Bootstrap.Config.

Lemma store_advance w : store (advance w) = store w.
Proof. reflexivity. Qed.

Lemma drawn_advance w : drawn (entropy (advance w)) = S (drawn (entropy w)).
Proof. reflexivity. Qed.

Lemma store_later i w : store (later i w) = store w.
Proof. induction i as [|i IH]; [reflexivity|]. simpl. exact IH. Qed.

Lemma later_advance i w : later i (advance w) = later (S i) w.
Proof. induction i as [|i IH]; [reflexivity|]. simpl. simpl in IH. now rewrite IH. Qed.

Lemma generateUuid_advances version w :
  exists v, Bootstrap.generateUuid config version w = (inr v, advance w).
Proof.
  unfold Bootstrap.generateUuid, uuidv7, uuidv4.
  destruct (String.eqb _ "v7"); [destruct (has_v7 (entropy w))|]; eauto.
Qed.

Lemma generateUuid_candidate w :
  Bootstrap.generateUuid config None w = (inr (candidate config w 0), advance w).
Proof.
  unfold candidate. simpl.
  destruct (generateUuid_advances None w) as [v ->]. reflexivity.
Qed.

Lemma reader_ret {A} (a : A) : reader (ret a).
Proof. split; reflexivity. Qed.

Lemma reader_bind {A B} (m : M World A) (k : A -> M World B) :
  reader m -> (forall a, reader (k a)) -> reader (bind m k).
Proof.
  intros [Hm1 Hm2] Hk. split.
  - intros w. unfold bind. specialize (Hm1 w).
    destruct (m w) as [[e|a] w']; simpl in *; subst; [reflexivity|].
    apply (Hk a).
  - intros w1 w2 E. unfold bind.
    pose proof (Hm1 w1) as H1. pose proof (Hm1 w2) as H2.
    specialize (Hm2 w1 w2 E).
    destruct (m w1) as [[e1|a1] w1'], (m w2) as [[e2|a2] w2'];
      simpl in *; subst; try congruence.
    injection Hm2 as ->. now apply (Hk a2).
Qed.

Lemma reader_query {A} uid (f : list Db.Row -> A) :
  reader (Documents.query uid f).
Proof.
  split.
  - intros w. unfold Documents.query. destruct (Db.read_fault _ _); reflexivity.
  - intros w1 w2 E. unfold Documents.query. rewrite E.
    destruct (Db.read_fault _ _); reflexivity.
Qed.

Lemma reader_checkUuidExists uid field uuid x :
  reader (Bootstrap.checkUuidExists config uid field uuid x).
Proof.
  unfold Bootstrap.checkUuidExists.
  destruct (negb _); [apply reader_ret|].
  apply reader_bind; [apply reader_query|]. intros a. apply reader_ret.
Qed.

Lemma reader_isUuidExists uid field uuid x :
  reader (Bootstrap.isUuidExists config uid field uuid x).
Proof.
  apply reader_bind; [apply reader_checkUuidExists|]. intros a. apply reader_ret.
Qed.

Lemma isUuidExists_reads uid field uuid x w :
  snd (Bootstrap.isUuidExists config uid field uuid x w) = w.
Proof. apply reader_isUuidExists. Qed.

Lemma isUuidExists_store uid field uuid x w1 w2 :
  store w1 = store w2 ->
  fst (Bootstrap.isUuidExists config uid field uuid x w1)
  = fst (Bootstrap.isUuidExists config uid field uuid x w2).
Proof. apply reader_isUuidExists. Qed.

Lemma isUuidExists_disabled uid field uuid x w :
  Bootstrap.validateUniqueness config = false ->
  Bootstrap.isUuidExists config uid field uuid x w = (inr false, w).
Proof.
  intros E. unfold Bootstrap.isUuidExists, Bootstrap.checkUuidExists, bind.
  rewrite E. reflexivity.
Qed.

(** One turn of the retry loop. *)
Lemma attempts_step uid field n w :
  Bootstrap.attempts config uid field (S n) w =
  if negb (Bootstrap.validateUniqueness config)
  then (inr (candidate config w 0), advance w)
  else match Bootstrap.isUuidExists config uid field (candidate config w 0)
                                    None (advance w) with
       | (inr b, w1) =>
           if negb b then (inr (candidate config w 0), w1)
           else Bootstrap.attempts config uid field n w1
       | (inl e, w1) => (inl e, w1)
       end.
Proof.
  simpl. unfold bind at 1. rewrite generateUuid_candidate.
  destruct (negb (Bootstrap.validateUniqueness config)); [reflexivity|].
  unfold bind at 1.
  destruct (Bootstrap.isUuidExists _ _ _ _ _ _) as [[e|b] w1]; [reflexivity|].
  destruct (negb b); reflexivity.
Qed.

(** The retry loop, attempt by attempt. *)
Lemma attempts_spec uid field n : forall w,
  store (snd (Bootstrap.attempts config uid field n w)) = store w
  /\ drawn (entropy w)
     <= drawn (entropy (snd (Bootstrap.attempts config uid field n w)))
     <= drawn (entropy w) + n
  /\ (forall v, fst (Bootstrap.attempts config uid field n w) = inr v ->
        fst (Bootstrap.isUuidExists config uid field v None w) = inr false)
  /\ ((forall i, i < n ->
         fst (Bootstrap.isUuidExists config uid field (candidate config w i) None w)
         = inr true) ->
      fst (Bootstrap.attempts config uid field n w)
      = inl (Bootstrap.exhausted config uid field)).
Proof.
  induction n as [|n IH]; intros w.
  - simpl. repeat split; try lia. intros v H; discriminate.
  - rewrite attempts_step.
    destruct (Bootstrap.validateUniqueness config) eqn:EV; simpl.
    + pose proof (isUuidExists_reads uid field (candidate config w 0) None (advance w)) as Hr.
      pose proof (isUuidExists_store uid field (candidate config w 0) None (advance w) w
                    (store_advance w)) as Hs.
      destruct (Bootstrap.isUuidExists config uid field (candidate config w 0) None (advance w))
        as [[e|b] w1] eqn:EX; simpl in Hr, Hs; subst w1.
      * simpl. repeat split; try lia; try discriminate.
        intros H. specialize (H 0 ltac:(lia)). congruence.
      * destruct b; simpl.
        -- destruct (IH (advance w)) as (IH1 & IH2 & IH3 & IH4).
           rewrite drawn_advance in IH2. rewrite store_advance in IH1.
           repeat split; try lia; auto.
           ++ intros v Hv. rewrite <- (isUuidExists_store uid field v None (advance w) w
                                        (store_advance w)). auto.
           ++ intros H. apply IH4. intros i Hi.
              rewrite (isUuidExists_store uid field _ None (advance w) w (store_advance w)).
              unfold candidate. rewrite later_advance. apply (H (S i)). lia.
        -- repeat split; try lia.
           ++ intros v Hv. injection Hv as <-. symmetry. exact Hs.
           ++ intros H. specialize (H 0 ltac:(lia)). congruence.
    + repeat split; try lia.
      * intros v Hv. rewrite isUuidExists_disabled by assumption. reflexivity.
      * intros H. specialize (H 0 ltac:(lia)).
        rewrite isUuidExists_disabled in H by assumption. discriminate.
Qed.
End Reads.

Section Create.
Variable config : Bootstrap.Config.

(** A hook that throws aborts the create: no row is inserted. *)
Lemma create_rejected models event fresh_id fresh_documentId w e w1 :
  Bootstrap.beforeCreate config models event w = (inl e, w1) ->
  Lifecycle.create config models event fresh_id fresh_documentId w = (inl e, w1).
Proof. intros H. unfold Lifecycle.create, bind. rewrite H. reflexivity. Qed.

Lemma regenerate_run uid field s :
  (newUuid <- on_world (Bootstrap.generateUniqueUuid config uid field) ;;
   on_locals (insert field (Js.Str newUuid))) s
  = regenerate config uid field s.
Proof.
  unfold regenerate, bind, on_world, on_locals.
  destruct (Bootstrap.generateUniqueUuid config uid field (fst s)) as [[e|u] w1];
    reflexivity.
Qed.

Lemma beforeCreate_field_generates uid cur field s :
  (negb (Js.truthy (snd s !! field)) || negb (Uuid.validateUuid (snd s !! field)))
  && Bootstrap.autoGenerate config = true ->
  Bootstrap.beforeCreate_field config uid cur field s = regenerate config uid field s.
Proof.
  intros Hc. unfold Bootstrap.beforeCreate_field.
  unfold bind at 1. unfold locals at 1. cbv beta iota zeta.
  rewrite Hc. apply regenerate_run.
Qed.

(** The hook throws what [generateUniqueUuid] throws for the first field
    when that field is routed to generation. *)
Lemma beforeCreate_first_generated models event field rest w e w1 :
  Js.get models (Bootstrap.model_uid event) = Some (field :: rest) ->
  (negb (Js.truthy (Bootstrap.params_data event !! field))
   || negb (Uuid.validateUuid (Bootstrap.params_data event !! field)))
  && Bootstrap.autoGenerate config = true ->
  Bootstrap.generateUniqueUuid config (Bootstrap.model_uid event) field w
  = (inl e, w1) ->
  Bootstrap.beforeCreate config models event w = (inl e, w1).
Proof.
  intros Hm Hc Hg. unfold Bootstrap.beforeCreate. rewrite Hm.
  unfold with_locals. unfold bind at 1. simpl for_each. unfold bind at 1.
  rewrite beforeCreate_field_generates by exact Hc.
  unfold regenerate. simpl fst. rewrite Hg. reflexivity.
Qed.
End Create.

(** C5: [generateUniqueUuid] makes at most [maxRetryAttempts]
    generate-and-check attempts and only reads the store; a value it returns
    was not reported as existing by the uniqueness check; when every attempt
    collides it throws the application-level error, and a create that needed
    the value fails with that error and persists no record. *)
Theorem generateUniqueUuid_bounded_retry
        (config : Bootstrap.Config) (uid field : string) (w : World) :
  (* at most maxRetryAttempts attempts, and the store is only read *)
  drawn (entropy (snd (Bootstrap.generateUniqueUuid config uid field w)))
  - drawn (entropy w) <= Bootstrap.maxRetryAttempts config
  /\ store (snd (Bootstrap.generateUniqueUuid config uid field w)) = store w
  (* a returned value was not reported as existing *)
  /\ (forall v,
        fst (Bootstrap.generateUniqueUuid config uid field w) = inr v ->
        fst (Bootstrap.isUuidExists config uid field v None w) = inr false)
  (* if every attempt collides, the application-level error is thrown and
     a create that needed the value is aborted with nothing persisted *)
  /\ ((forall i, i < Bootstrap.maxRetryAttempts config ->
         fst (Bootstrap.isUuidExists config uid field (candidate config w i) None w)
         = inr true) ->
      fst (Bootstrap.generateUniqueUuid config uid field w)
      = inl (Bootstrap.exhausted config uid field)
      /\ forall models data where_ rest fresh_id fresh_documentId,
          Js.get models uid = Some (field :: rest) ->
          Js.truthy (data !! field) = false ->
          Bootstrap.autoGenerate config = true ->
          let event := {| Bootstrap.model_uid := uid;
                          Bootstrap.params_data := data;
                          Bootstrap.params_where := where_ |} in
          fst (Lifecycle.create config models event fresh_id fresh_documentId w)
          = inl (Bootstrap.exhausted config uid field)
          /\ store (snd (Lifecycle.create config models event
                                          fresh_id fresh_documentId w))
             = store w).
Proof.
  unfold Bootstrap.generateUniqueUuid.
  destruct (attempts_spec config uid field (Bootstrap.maxRetryAttempts config) w)
    as (Hstore & Hdrawn & Hret & Hthrow).
  split; [lia|]. split; [exact Hstore|]. split; [exact Hret|].
  intros H. specialize (Hthrow H). split; [exact Hthrow|].
  intros models data where_ rest fresh_id fresh_documentId Hm Ht Ha. cbv zeta.
  destruct (Bootstrap.attempts config uid field (Bootstrap.maxRetryAttempts config) w)
    as [r w1] eqn:E. simpl in Hthrow, Hstore. subst r.
  erewrite create_rejected.
  2:{ eapply beforeCreate_first_generated with (field := field) (rest := rest).
      - exact Hm.
      - simpl. rewrite Ht, Ha. reflexivity.
      - exact E. }
  simpl. auto.
Qed.

(** With a single attempt and the first identifier already stored, the
    create fails with the exhaustion error and the table is as before; with
    a free identifier the value is returned after one attempt. *)
Lemma generateUniqueUuid_bounded_retry_witness :
  (let w := Scenario.world (Scenario.sound [Scenario.row 1 "d1" (Some Scenario.uuid0)]) in
   fst (Lifecycle.create Scenario.single_attempt Scenario.models
                         (Scenario.creation ∅) 2 "d2" w)
   = inl (ApplicationError
            "Failed to generate unique UUID for api::article.article.uuid after 1 attempts")
   /\ store (snd (Lifecycle.create Scenario.single_attempt Scenario.models
                                   (Scenario.creation ∅) 2 "d2" w))
      = store w)
  /\ (let w := Scenario.world (Scenario.sound []) in
      fst (Bootstrap.isUuidExists Scenario.single_attempt Scenario.article
                                  "uuid" Scenario.uuid0 None w)
      = inr false).
Proof.
  split.
  - cbv zeta.
    apply (proj2 (proj2 (proj2 (proj2
             (generateUniqueUuid_bounded_retry
                Scenario.single_attempt Scenario.article "uuid"
                (Scenario.world (Scenario.sound [Scenario.row 1 "d1" (Some Scenario.uuid0)])))))
             ltac:(intros i Hi; assert (i = 0) as -> by (vm_compute in Hi; lia);
                   vm_compute; reflexivity))
          Scenario.models ∅ None []).
    + vm_compute; reflexivity.
    + vm_compute; reflexivity.
    + vm_compute; reflexivity.
  - cbv zeta.
    apply (proj1 (proj2 (proj2
             (generateUniqueUuid_bounded_retry
                Scenario.single_attempt Scenario.article "uuid"
                (Scenario.world (Scenario.sound [])))))).
    vm_compute; reflexivity.
Defined.

(* ===================================================================== *)
(** ** Objects and maps keyed by strings *)
(* ===================================================================== *)

Section ObjectFacts.
Context {V : Type}.
Implicit Types (o : Js.object V) (k : string) (v : V).

Lemma get_set_same o k v : Js.get (Js.set o k v) k = Some v.
Proof.
  induction o as [|[k' v'] o IH]; simpl.
  - now rewrite String.eqb_refl.
  - destruct (String.eqb k' k) eqn:E; simpl; rewrite E; [reflexivity|exact IH].
Qed.

Lemma get_set_other o k k' v : k' <> k -> Js.get (Js.set o k v) k' = Js.get o k'.
Proof.
  intros Hne. induction o as [|[k0 v0] o IH]; simpl.
  - destruct (String.eqb k k') eqn:E; [|reflexivity].
    apply String.eqb_eq in E. congruence.
  - destruct (String.eqb k0 k) eqn:E; simpl.
    + apply String.eqb_eq in E. subst k0.
      destruct (String.eqb k k') eqn:E'; [|reflexivity].
      apply String.eqb_eq in E'. congruence.
    + now rewrite IH.
Qed.

Lemma get_none_keys o k : Js.get o k = None <-> ~ In k (List.map fst o).
Proof.
  induction o as [|[k' v'] o IH]; simpl; [tauto|].
  destruct (String.eqb k' k) eqn:E.
  - apply String.eqb_eq in E. split; [discriminate|tauto].
  - apply String.eqb_neq in E. rewrite IH. tauto.
Qed.

Lemma get_in o k v : Js.get o k = Some v -> In (k, v) o.
Proof.
  induction o as [|[k' v'] o IH]; simpl; [discriminate|].
  destruct (String.eqb k' k) eqn:E.
  - apply String.eqb_eq in E. intros [= <-]. left. now subst.
  - auto.
Qed.

Lemma in_get o k v : List.NoDup (List.map fst o) -> In (k, v) o -> Js.get o k = Some v.
Proof.
  induction o as [|[k' v'] o IH]; simpl; [tauto|].
  intros Hnd [[= -> ->] | Hin].
  - now rewrite String.eqb_refl.
  - apply List.NoDup_cons_iff in Hnd as [Hk Hnd].
    destruct (String.eqb k' k) eqn:E; [|auto].
    apply String.eqb_eq in E. subst k'. exfalso. apply Hk.
    change k with (fst (k, v)). now apply in_map.
Qed.

Lemma set_keys o k v :
  List.map fst (Js.set o k v)
  = match Js.get o k with
    | Some _ => List.map fst o
    | None => List.map fst o ++ [k]
    end.
Proof.
  induction o as [|[k' v'] o IH]; simpl; [reflexivity|].
  destruct (String.eqb k' k) eqn:E; simpl; [reflexivity|].
  rewrite IH. now destruct (Js.get o k).
Qed.

Lemma set_keys_nodup o k v :
  List.NoDup (List.map fst o) -> List.NoDup (List.map fst (Js.set o k v)).
Proof.
  intros Hnd. rewrite set_keys. destruct (Js.get o k) eqn:E; [exact Hnd|].
  apply get_none_keys in E.
  apply List.NoDup_rev in Hnd. rewrite <- (rev_involutive (_ ++ _)).
  apply List.NoDup_rev. rewrite rev_app_distr. simpl.
  apply List.NoDup_cons; [|exact Hnd]. now rewrite <- in_rev.
Qed.

Lemma insert_index_permutation n (kv : string * V) l :
  Permutation (List.map snd (Js.insert_index n kv l)) (kv :: List.map snd l).
Proof.
  induction l as [|[m kv'] l IH]; simpl; [reflexivity|].
  destruct (n <? m)%N; simpl; [reflexivity|].
  rewrite IH. apply perm_swap.
Qed.

(** [Object.entries] lists every own property once. *)
Lemma entries_permutation o : Permutation (Js.entries o) o.
Proof.
  unfold Js.entries, Js.named_props.
  induction o as [|[k v] o IH]; simpl; [reflexivity|].
  destruct (Js.array_index k) as [n|]; simpl.
  - rewrite insert_index_permutation. simpl. now apply perm_skip.
  - rewrite <- Permutation_middle. now apply perm_skip.
Qed.

Lemma in_entries o kv : In kv (Js.entries o) <-> In kv o.
Proof.
  split; apply Permutation_in;
    [apply entries_permutation | symmetry; apply entries_permutation].
Qed.

Lemma entries_keys_nodup o :
  List.NoDup (List.map fst o) -> List.NoDup (List.map fst (Js.entries o)).
Proof.
  intros H. eapply Permutation_NoDup; [|exact H].
  symmetry. apply Permutation_map, entries_permutation.
Qed.

End ObjectFacts.

(* ===================================================================== *)
(** ** The grouping of the scanned entries by value *)
(* ===================================================================== *)

Lemma members_app field k l1 l2 :
  members field k (l1 ++ l2) = members field k l1 ++ members field k l2.
Proof. unfold members. now rewrite List.filter_app, List.map_app. Qed.

Lemma members_one field k e :
  members field k [e] = if holds_value field k e then [Db.documentId e] else [].
Proof. unfold members. simpl. now destruct (holds_value field k e). Qed.

Lemma grouped_nil field : grouped field [] [].
Proof. split; [constructor|reflexivity]. Qed.

Lemma grouped_default field scanned groups k :
  grouped field scanned groups ->
  default [] (Js.get groups k) = members field k scanned.
Proof. intros [_ H]. rewrite H. now destruct (members field k scanned). Qed.

(** An entry without a value leaves the grouping as it is. *)
Lemma grouped_skip field scanned groups e :
  Js.truthy (Db.data e !! field) = false ->
  grouped field scanned groups -> grouped field (scanned ++ [e]) groups.
Proof.
  intros Hf [Hnd H]. split; [exact Hnd|]. intros k.
  rewrite members_app, members_one. unfold holds_value. rewrite Hf. simpl.
  rewrite app_nil_r. apply H.
Qed.

(** An entry with a value joins the members of that value. *)
Lemma grouped_push field scanned groups e :
  Js.truthy (Db.data e !! field) = true ->
  grouped field scanned groups ->
  grouped field (scanned ++ [e])
          (Js.set groups (Js.show (Db.data e !! field))
                  (default [] (Js.get groups (Js.show (Db.data e !! field)))
                   ++ [Db.documentId e])).
Proof.
  intros Ht Hg. pose proof Hg as [Hnd H]. split; [now apply set_keys_nodup|].
  intros k. rewrite members_app, members_one. unfold holds_value. rewrite Ht.
  simpl. destruct (String.eqb (Js.show (Db.data e !! field)) k) eqn:E.
  - apply String.eqb_eq in E. subst k. rewrite get_set_same.
    rewrite (grouped_default _ _ _ _ Hg).
    now destruct (members field _ scanned).
  - apply String.eqb_neq in E. rewrite get_set_other by congruence.
    rewrite app_nil_r. apply H.
Qed.

(** A group of the grouping holds the members of its value, and there is
    at least one. *)
Lemma grouped_in field scanned groups k ids :
  grouped field scanned groups ->
  In (k, ids) groups -> ids = members field k scanned /\ ids <> [].
Proof.
  intros [Hnd H] Hin. apply (in_get _ _ _ Hnd) in Hin. rewrite H in Hin.
  destruct (members field k scanned); [discriminate|].
  injection Hin as <-. split; [reflexivity|discriminate].
Qed.

Lemma grouped_found field scanned groups k :
  grouped field scanned groups ->
  members field k scanned <> [] -> In (k, members field k scanned) groups.
Proof.
  intros [Hnd H] Hne. apply get_in. rewrite H.
  now destruct (members field k scanned).
Qed.

(** The grouping loop of [findDuplicatesForField]. *)
Lemma group_entries_grouped field entries : forall scanned uuidGroups groups,
  grouped field scanned uuidGroups ->
  Service.group_entries field entries uuidGroups = inr groups ->
  grouped field (scanned ++ entries) groups.
Proof.
  induction entries as [|e entries IH]; intros scanned acc groups Hg; simpl.
  - intros [= <-]. now rewrite app_nil_r.
  - unfold Service.group_entry.
    destruct (Js.truthy (Db.data e !! field)) eqn:Ht; simpl.
    + pose proof (grouped_push field scanned acc e Ht Hg) as Hp.
      destruct (Js.get acc (Js.show (Db.data e !! field))) as [ids|] eqn:Eg.
      * intros Hrun. replace (scanned ++ e :: entries)
          with ((scanned ++ [e]) ++ entries) by now rewrite <- app_assoc.
        eapply IH; [exact Hp | exact Hrun].
      * destruct (Js.inherited _); [discriminate|].
        intros Hrun. replace (scanned ++ e :: entries)
          with ((scanned ++ [e]) ++ entries) by now rewrite <- app_assoc.
        eapply IH; [exact Hp | exact Hrun].
    + intros Hrun. replace (scanned ++ e :: entries)
        with ((scanned ++ [e]) ++ entries) by now rewrite <- app_assoc.
      eapply IH; [|exact Hrun]. now apply grouped_skip.
Qed.

(* ===================================================================== *)
(** ** Loops *)
(* ===================================================================== *)

(** A loop whose body never throws is the fold of its body. *)
Lemma for_each_total {S A} (body : A -> M S unit) (l : list A) : forall s,
  (forall x s, fst (body x s) = inr tt) ->
  for_each l body s = (inr tt, fold_left (fun s x => snd (body x s)) l s).
Proof.
  induction l as [|x l IH]; intros s H; [reflexivity|].
  simpl. unfold bind. specialize (H x s) as Hx.
  destruct (body x s) as [[e|[]] s1]; simpl in Hx; [discriminate|].
  simpl. now apply IH.
Qed.

Lemma fold_left_invariant {S A} (f : S -> A -> S) (I : list A -> S -> Prop)
      (l : list A) : forall done s,
  I done s ->
  (forall done x s, I done s -> I (done ++ [x]) (f s x)) ->
  I (done ++ l) (fold_left f l s).
Proof.
  induction l as [|x l IH]; intros done s H0 Hstep; simpl.
  - now rewrite app_nil_r.
  - replace (done ++ x :: l) with ((done ++ [x]) ++ l)
      by now rewrite <- app_assoc.
    apply IH; auto.
Qed.

Lemma filter_all {A} (p : A -> bool) (l : list A) :
  (forall x, p x = true) -> List.filter p l = l.
Proof.
  intros H. induction l as [|x l IH]; simpl; [reflexivity|].
  now rewrite H, IH.
Qed.

(** [findMany] without filters reads the whole table. *)
Lemma findMany_all uid w :
  Documents.findMany uid [] w
  = match Db.read_fault (store w) uid with
    | Some msg => (inl (DatastoreError msg), w)
    | None => (inr (Db.rows (store w) uid), w)
    end.
Proof.
  unfold Documents.findMany, Documents.query.
  destruct (Db.read_fault _ _); [reflexivity|].
  now rewrite filter_all.
Qed.

Lemma nodup_app_inv {A} (l1 l2 : list A) :
  List.NoDup (l1 ++ l2) ->
  List.NoDup l1 /\ List.NoDup l2 /\ forall a, In a l2 -> ~ In a l1.
Proof.
  induction l1 as [|x l1 IH]; simpl; intros H.
  - repeat split; [constructor | exact H | auto].
  - apply List.NoDup_cons_iff in H as [Hx H]. destruct (IH H) as (H1 & H2 & H3).
    repeat split; [|exact H2|].
    + constructor; [|exact H1]. intros Hin. apply Hx, in_or_app. now left.
    + intros a Ha [<-|Hin]; [apply Hx, in_or_app; now right|].
      now apply (H3 a).
Qed.

Lemma nodup_map_injective {A B} (f : A -> B) (l : list A) x y :
  List.NoDup (List.map f l) -> In x l -> In y l -> f x = f y -> x = y.
Proof.
  induction l as [|a l IH]; simpl; [tauto|].
  intros H Hx Hy E. apply List.NoDup_cons_iff in H as [Ha H].
  destruct Hx as [->|Hx], Hy as [->|Hy]; auto.
  - exfalso. apply Ha. rewrite E. now apply in_map.
  - exfalso. apply Ha. rewrite <- E. now apply in_map.
Qed.

Lemma for_each_cons {S A} (body : A -> M S unit) x l s :
  for_each (x :: l) body s
  = match body x s with
    | (inr _, s') => for_each l body s'
    | (inl e, s') => (inl e, s')
    end.
Proof. reflexivity. Qed.

(* ===================================================================== *)
(** ** Duplicate-free fields, decided *)
(* ===================================================================== *)

Lemma duplicate_freeb_spec st uid field :
  duplicate_freeb st uid field = true <-> duplicate_free st uid field.
Proof.
  unfold duplicate_freeb, duplicate_free. rewrite forallb_forall. split.
  - intros H r1 r2 H1 H2. specialize (H r1 H1). rewrite forallb_forall in H.
    specialize (H r2 H2). now destruct (clash field r1 r2).
  - intros H r1 H1. rewrite forallb_forall. intros r2 H2.
    now rewrite (H r1 r2 H1 H2).
Qed.

(* ===================================================================== *)
(** ** The prefix option of a field *)
(* ===================================================================== *)

Lemma hex_digit_not_u n : (n < 16)%N -> Uuid.hex_digit n <> "u"%char.
Proof.
  intros Hn E. unfold Uuid.hex_digit in E.
  apply (f_equal N_of_ascii) in E. rewrite N_ascii_embedding in E.
  - simpl in E. destruct (n <? 10)%N eqn:L.
    + apply N.ltb_lt in L. lia.
    + lia.
  - destruct (n <? 10)%N; lia.
Qed.

Lemma nibble_bound x i : (Uuid.nibble x i < 16)%N.
Proof.
  unfold Uuid.nibble. change 15%N with (N.ones 4). rewrite N.land_ones.
  apply N.mod_lt. discriminate.
Qed.

Lemma prefix_cons a s1 b s2 :
  String.prefix (String a s1) (String b s2)
  = if ascii_dec a b then String.prefix s1 s2 else false.
Proof. reflexivity. Qed.

Lemma stamp_head version x :
  exists rest, Uuid.stamp version x = Uuid.nibble x 0 :: rest.
Proof.
  unfold Uuid.stamp. change (seq 0 32) with (0 :: seq 1 31).
  eexists. reflexivity.
Qed.

(** An identifier of either layout starts with a hexadecimal digit, so it
    never starts with [usr_]. *)
Lemma render_stamp_bare version x :
  String.prefix "usr_" (Uuid.render (Uuid.stamp version x)) = false.
Proof.
  destruct (stamp_head version x) as [rest ->].
  generalize (nibble_bound x 0). generalize (Uuid.nibble x 0). intros n Hn.
  unfold Uuid.render.
  change (firstn 8 (n :: rest)) with (n :: firstn 7 rest).
  cbn [Uuid.hex_of].
  generalize (Uuid.hex_of (firstn 7 rest)). intros s.
  generalize ("-" +:+ Uuid.hex_of (firstn 4 (skipn 8 (n :: rest))) +:+ "-"
              +:+ Uuid.hex_of (firstn 4 (skipn 12 (n :: rest))) +:+ "-"
              +:+ Uuid.hex_of (firstn 4 (skipn 16 (n :: rest))) +:+ "-"
              +:+ Uuid.hex_of (skipn 20 (n :: rest))). intros t.
  change (String.prefix (String "u" "sr_") (String (Uuid.hex_digit n) (s +:+ t))
          = false).
  rewrite prefix_cons.
  destruct (ascii_dec "u" (Uuid.hex_digit n)) as [E|E]; [|reflexivity].
  exfalso. symmetry in E. revert E. now apply hex_digit_not_u.
Qed.

(** Whatever the schema says about the field, [generateUuid] returns a bare
    identifier. *)
Lemma generateUuid_bare config version w v w' :
  Bootstrap.generateUuid config version w = (inr v, w') ->
  String.prefix "usr_" v = false.
Proof.
  unfold Bootstrap.generateUuid, uuidv7, uuidv4, Uuid.v4, Uuid.v7.
  destruct (String.eqb _ "v7"); [destruct (has_v7 (entropy w))|];
    intros E; injection E as <- _; apply render_stamp_bare.
Qed.

(** C9: the field [uuid] is configured with the prefix [usr_], and the
    value [beforeCreate] generates for it is the bare identifier: it does
    not start with the prefix. *)
Theorem beforeCreate_ignores_prefix :
  let models := Bootstrap.findUuidModels Scenario.prefixed_schemas in
  let w := Scenario.world (Scenario.sound []) in
  (exists a, Js.get (attributes (default {| attributes := [] |}
                       (Js.get Scenario.prefixed_schemas Scenario.article)))
                    "uuid" = Some a
             /\ options a !! "uuid-prefix" = Some "usr_")
  /\ Js.get models Scenario.article = Some ["uuid"]
  /\ exists data w',
      Bootstrap.beforeCreate Scenario.defaults models (Scenario.creation ∅) w
      = (inr data, w')
      /\ data !! "uuid" = Some (Js.Str "00000000-0000-4000-8000-000000000000")
      /\ String.prefix "usr_" "00000000-0000-4000-8000-000000000000" = false.
Proof.
  cbv zeta. split; [|split].
  - eexists. split; vm_compute; reflexivity.
  - vm_compute; reflexivity.
  - eexists _, _. split; [vm_compute; reflexivity|].
    split; vm_compute; reflexivity.
Qed.

(* ===================================================================== *)
(** ** Errors during a bulk fix *)
(* ===================================================================== *)

(** C7: two records have an empty field and the datastore rejects the write
    to the first one only. The committed [runMigration] records the error,
    and the second record is not processed: it gets no change-log entry and
    keeps its empty field, although its write would have been accepted. In
    the invalid category the same rejection leaves the second record
    processed. *)
Theorem runMigration_empty_fix_stops_at_first_error :
  let live := Options.migration false in
  let empty := Scenario.world
                 (Scenario.rejecting "d1" [Scenario.row 1 "d1" None;
                                           Scenario.row 2 "d2" None]) in
  let invalid := Scenario.world
                   (Scenario.rejecting "d1" [Scenario.row 1 "d1" (Some "bad-1");
                                             Scenario.row 2 "d2" (Some "bad-2")]) in
  (exists r w',
      Migrations.runMigration Scenario.schemas live empty = (inr r, w')
      /\ Migrations.errors r
         = ["Failed to fix empty UUIDs in api::article.article.uuid: write rejected"]
      /\ List.map Migrations.documentId (Migrations.changes r) = ["d1"]
      /\ Migrations.fixed_empty r = 0
      /\ Db.rows (store w') Scenario.article = Db.rows (store empty) Scenario.article
      /\ Db.write_fault (store empty) (Db.tables (store w'))
                        Scenario.article "d2" "uuid" Scenario.uuid1
         = None)
  /\ (exists r w',
         Migrations.runMigration Scenario.schemas live invalid = (inr r, w')
         /\ Migrations.errors r
            = ["Failed to fix invalid UUID in api::article.article.uuid (d1): write rejected"]
         /\ List.map Migrations.documentId (Migrations.changes r) = ["d1"; "d2"]
         /\ Migrations.fixed_invalid r = 1
         /\ Db.rows (store w') Scenario.article
            = [Scenario.row 1 "d1" (Some "bad-1");
               Scenario.row 2 "d2" (Some Scenario.uuid1)]).
Proof.
  cbv zeta. split.
  - eexists _, _. split; [vm_compute; reflexivity|].
    repeat split; vm_compute; reflexivity.
  - eexists _, _. split; [vm_compute; reflexivity|].
    repeat split; vm_compute; reflexivity.
Qed.

(* ===================================================================== *)
(** ** The write-time guard *)
(* ===================================================================== *)

Section Guard.
Variable config : Bootstrap.Config.

Lemma checkUuidExists_reads uid field uuid x w :
  snd (Bootstrap.checkUuidExists config uid field uuid x w) = w.
Proof. apply reader_checkUuidExists. Qed.

Lemma checkUuidExists_enabled uid field uuid x w owner :
  fst (Bootstrap.checkUuidExists config uid field uuid x w) = inr (true, owner) ->
  Bootstrap.validateUniqueness config = true.
Proof.
  unfold Bootstrap.checkUuidExists.
  destruct (Bootstrap.validateUniqueness config); [reflexivity|].
  simpl. discriminate.
Qed.

(** The branch of [beforeCreate] for a supplied value that is not routed
    to generation and that the uniqueness check reports as existing. *)
Lemma beforeCreate_field_existing uid current field w data owner :
  Js.truthy (data !! field) = true ->
  Uuid.validateUuid (data !! field) = true
  \/ Bootstrap.autoGenerate config = false ->
  fst (Bootstrap.checkUuidExists config uid field (Js.show (data !! field))
                                None w) = inr (true, owner) ->
  Bootstrap.beforeCreate_field config uid current field (w, data)
  = match current, owner with
    | Some d, Some d' =>
        if String.eqb d' d then (inr tt, (w, data))
        else regenerate config uid field (w, data)
    | None, Some _ => (inr tt, (w, data))
    | _, None => regenerate config uid field (w, data)
    end.
Proof.
  intros Ht Hv Hx.
  pose proof (checkUuidExists_enabled _ _ _ _ _ _ Hx) as Hu.
  pose proof (checkUuidExists_reads uid field (Js.show (data !! field)) None w) as Hr.
  unfold Bootstrap.beforeCreate_field.
  unfold bind at 1. unfold locals at 1. cbv beta iota zeta. cbn [snd].
  rewrite Ht, Hu.
  replace ((negb true || negb (Uuid.validateUuid (data !! field)))
           && Bootstrap.autoGenerate config) with false
    by (destruct Hv as [-> | ->]; [reflexivity | now rewrite andb_false_r]).
  cbn [andb]. unfold bind at 1. unfold on_world at 1. cbn [fst].
  destruct (Bootstrap.checkUuidExists config uid field (Js.show (data !! field)) None w)
    as [[e|[b o]] w1]; simpl in Hx, Hr; [discriminate|].
  injection Hx as -> ->. subst w1. cbv beta iota zeta.
  destruct current as [d|], owner as [d'|]; try reflexivity.
  - destruct (String.eqb d' d); [reflexivity|]. apply regenerate_run.
  - apply regenerate_run.
  - apply regenerate_run.
Qed.

End Guard.

(** The policy as the specification states it fails for a stored value that
    is not well-formed: the record [d1] is created again with its own value
    [legacy-1], and the hook replaces the value instead of keeping it. *)
Lemma create_policy_counterexample :
  ~ create_policy Scenario.defaults
      (Scenario.creation {["documentId" := Js.Str "d1"; "uuid" := Js.Str "legacy-1"]})
      "uuid"
      (Scenario.world (Scenario.sound [Scenario.row 1 "d1" (Some "legacy-1")])).
Proof.
  intros H. specialize (H (Some "d1")). cbv zeta in H.
  specialize (H ltac:(vm_compute; reflexivity) ltac:(vm_compute; reflexivity)).
  vm_compute in H. discriminate H.
Qed.

(** C3 (amended): on create with the uniqueness check reporting the supplied
    value as existing, and the value not routed to generation (it is
    well-formed, or auto-generation is off): the value is kept when the
    owner is the incoming Record Identity, kept when the write carries
    no Record Identity and the owner's is known, and in every other case
    replaced by the outcome of the bounded retry loop. A value that is not
    well-formed is replaced whenever auto-generation is on. *)
Theorem beforeCreate_existing_value
        (config : Bootstrap.Config) (event : Bootstrap.Event) (field : string)
        (w : World) (data : gmap string Js.value) (owner : option string) :
  Js.truthy (data !! field) = true ->
  (Uuid.validateUuid (data !! field) = true
   \/ Bootstrap.autoGenerate config = false ->
   fst (Bootstrap.checkUuidExists config (Bootstrap.model_uid event) field
                                  (Js.show (data !! field)) None w)
   = inr (true, owner) ->
   Bootstrap.beforeCreate_field config (Bootstrap.model_uid event)
                                (Bootstrap.currentDocumentId_of event)
                                field (w, data)
   = match Bootstrap.currentDocumentId_of event, owner with
     | Some d, Some d' =>
         if String.eqb d' d then (inr tt, (w, data))
         else regenerate config (Bootstrap.model_uid event) field (w, data)
     | None, Some _ => (inr tt, (w, data))
     | _, None => regenerate config (Bootstrap.model_uid event) field (w, data)
     end)
  /\ (Uuid.validateUuid (data !! field) = false ->
      Bootstrap.autoGenerate config = true ->
      Bootstrap.beforeCreate_field config (Bootstrap.model_uid event)
                                   (Bootstrap.currentDocumentId_of event)
                                   field (w, data)
      = regenerate config (Bootstrap.model_uid event) field (w, data)).
Proof.
  intros Ht. split.
  - intros Hv Hx. now apply beforeCreate_field_existing.
  - intros Hv Ha. apply beforeCreate_field_generates. simpl.
    rewrite Hv, Ha. now rewrite orb_true_r.
Qed.

(** The record [d1] is created again with its own well-formed value: the
    value is kept and nothing is written. *)
Lemma beforeCreate_existing_value_witness :
  let w := Scenario.world (Scenario.sound [Scenario.row 1 "d1" (Some Scenario.uuid0)]) in
  let data : gmap string Js.value :=
    {["documentId" := Js.Str "d1"; "uuid" := Js.Str Scenario.uuid0]} in
  Bootstrap.beforeCreate_field Scenario.defaults Scenario.article (Some "d1")
                               "uuid" (w, data)
  = (inr tt, (w, data)).
Proof.
  cbv zeta.
  destruct (beforeCreate_existing_value
              Scenario.defaults
              (Scenario.creation
                 {["documentId" := Js.Str "d1"; "uuid" := Js.Str Scenario.uuid0]})
              "uuid"
              (Scenario.world (Scenario.sound [Scenario.row 1 "d1" (Some Scenario.uuid0)]))
              {["documentId" := Js.Str "d1"; "uuid" := Js.Str Scenario.uuid0]}
              (Some "d1")) as [H _].
  - vm_compute; reflexivity.
  - apply H.
    + left. vm_compute; reflexivity.
    + vm_compute; reflexivity.
Defined.

Section UpdateGuard.
Variable config : Bootstrap.Config.

Lemma reader_when (c : bool) (m : M World unit) :
  reader m -> reader (when c m).
Proof. destruct c; [auto|]. intros _. apply reader_ret. Qed.

Lemma reader_throw {A} (e : Error) : reader (throw (A := A) e).
Proof. split; reflexivity. Qed.

Lemma reader_for_each {A} (l : list A) (body : A -> M World unit) :
  (forall x, reader (body x)) -> reader (for_each l body).
Proof.
  intros H. induction l as [|x l IH]; [apply reader_ret|].
  simpl. apply reader_bind; auto.
Qed.

Lemma reader_getDocumentIdFromWhere uid where_ :
  reader (Bootstrap.getDocumentIdFromWhere uid where_).
Proof.
  unfold Bootstrap.getDocumentIdFromWhere.
  destruct where_ as [wh|]; [|apply reader_ret].
  destruct (Js.or_else _ _); [apply reader_ret|].
  destruct (Bootstrap.where_id wh) as [n|]; [|apply reader_ret].
  destruct (N.eqb n 0); [apply reader_ret|].
  apply reader_bind; [apply reader_query|]. intros a. apply reader_ret.
Qed.

Lemma reader_beforeUpdate_field uid data d field :
  reader (Bootstrap.beforeUpdate_field config uid data d field).
Proof.
  unfold Bootstrap.beforeUpdate_field.
  destruct (data !! field) as [v|]; [|apply reader_ret].
  apply reader_bind.
  - apply reader_when, reader_throw.
  - intros _. apply reader_when, reader_bind; [apply reader_isUuidExists|].
    intros b. apply reader_when, reader_throw.
Qed.

(** The hook of the update only reads. *)
Lemma reader_beforeUpdate models event :
  reader (Bootstrap.beforeUpdate config models event).
Proof.
  unfold Bootstrap.beforeUpdate.
  destruct (Js.get models _) as [fields|]; [|apply reader_ret].
  apply reader_bind; [apply reader_getDocumentIdFromWhere|].
  intros [d|]; [|apply reader_ret].
  apply reader_for_each. intros x. apply reader_beforeUpdate_field.
Qed.

(** A resolved Record Identity is a non-empty string. *)
Lemma or_else_truthy a d : Js.or_else a None = Some d -> Js.truthy_str d = true.
Proof.
  unfold Js.or_else. destruct a as [s|]; [|discriminate].
  destruct (Js.truthy_str s) eqn:E; [|discriminate]. now intros [= <-].
Qed.

Lemma or_else_fixed d : Js.truthy_str d = true -> Js.or_else (Some d) None = Some d.
Proof. intros H. unfold Js.or_else. now rewrite H. Qed.

Lemma getDocumentIdFromWhere_truthy uid where_ w d :
  fst (Bootstrap.getDocumentIdFromWhere uid where_ w) = inr (Some d) ->
  Js.truthy_str d = true.
Proof.
  unfold Bootstrap.getDocumentIdFromWhere.
  destruct where_ as [wh|]; [|discriminate].
  destruct (Js.or_else (Bootstrap.where_documentId wh) None) as [d0|] eqn:E.
  - simpl. intros [= <-]. eapply or_else_truthy, E.
  - destruct (Bootstrap.where_id wh) as [n|]; [|discriminate].
    destruct (N.eqb n 0); [discriminate|].
    unfold bind, Documents.findFirst, Documents.query.
    destruct (Db.read_fault _ _); [discriminate|]. simpl.
    destruct (find _ _) as [r|]; [|discriminate].
    intros [= H]. apply (or_else_truthy (Some (Db.documentId r))), H.
Qed.

(** The uniqueness check of an update on a datastore that answers. *)
Lemma isUuidExists_answer uid field s d w :
  Db.read_fault (store w) uid = None ->
  Js.truthy_str d = true ->
  Bootstrap.isUuidExists config uid field s (Some d) w
  = (inr (Bootstrap.validateUniqueness config
          && match find (Db.matches [Db.FieldEq field s; Db.DocumentIdNe d])
                        (Db.rows (store w) uid) with
             | Some _ => true
             | None => false
             end), w).
Proof.
  intros Hf Hd. unfold Bootstrap.isUuidExists, Bootstrap.checkUuidExists.
  destruct (Bootstrap.validateUniqueness config); [|reflexivity].
  cbn [negb]. rewrite (or_else_fixed d Hd).
  unfold bind, Documents.findFirst, Documents.query. rewrite Hf. cbn [andb fst].
  destruct (find _ _); reflexivity.
Qed.

Lemma held_by_other_found st uid field s d :
  held_by_other st uid field s d ->
  find (Db.matches [Db.FieldEq field s; Db.DocumentIdNe d]) (Db.rows st uid)
  <> None.
Proof.
  intros (r & Hin & Hd & Hv) Hnone.
  pose proof (find_none _ _ Hnone r Hin) as H.
  unfold Db.matches in H. simpl in H. rewrite Hv in H.
  rewrite String.eqb_refl in H. simpl in H.
  rewrite andb_true_r in H. apply negb_false_iff, String.eqb_eq in H.
  contradiction.
Qed.

(** The body of the loop of [beforeUpdate], branch by branch. *)
Lemma beforeUpdate_field_run uid data d field w :
  Bootstrap.beforeUpdate_field config uid data d field w
  = match data !! field with
    | None => (inr tt, w)
    | Some v =>
        if Js.truthy (Some v) && negb (Uuid.validateUuid (Some v))
        then (inl (Bootstrap.invalid_format field (Js.show (Some v))), w)
        else if Js.truthy (Some v) && Bootstrap.validateUniqueness config
        then match Bootstrap.isUuidExists config uid field (Js.show (Some v))
                                          (Some d) w with
             | (inr true, w1) =>
                 (inl (Bootstrap.already_exists field (Js.show (Some v))), w1)
             | (inr false, w1) => (inr tt, w1)
             | (inl e, w1) => (inl e, w1)
             end
        else (inr tt, w)
    end.
Proof.
  unfold Bootstrap.beforeUpdate_field.
  destruct (data !! field) as [v|]; [|reflexivity].
  unfold bind at 1.
  destruct (Js.truthy (Some v) && negb (Uuid.validateUuid (Some v)));
    [reflexivity|].
  cbn [when]. unfold ret at 1.
  destruct (Js.truthy (Some v) && Bootstrap.validateUniqueness config);
    [|reflexivity].
  cbn [when]. unfold bind.
  destruct (Bootstrap.isUuidExists _ _ _ _ _ _) as [[e|[|]] w1]; reflexivity.
Qed.

(** One field of an update on a datastore that answers: the hook goes on
    or rejects with a validation failure. *)
Lemma beforeUpdate_field_outcome uid data d field w :
  Db.read_fault (store w) uid = None ->
  Js.truthy_str d = true ->
  Bootstrap.beforeUpdate_field config uid data d field w = (inr tt, w)
  \/ exists m f u,
      Bootstrap.beforeUpdate_field config uid data d field w
      = (inl (ValidationError m f u), w).
Proof.
  intros Hf Hd. rewrite beforeUpdate_field_run.
  destruct (data !! field) as [v|]; [|left; reflexivity].
  destruct (Js.truthy (Some v) && negb (Uuid.validateUuid (Some v))).
  { right. unfold Bootstrap.invalid_format. eauto. }
  destruct (Js.truthy (Some v) && Bootstrap.validateUniqueness config);
    [|left; reflexivity].
  rewrite isUuidExists_answer by assumption.
  destruct (_ && _); [|left; reflexivity].
  right. unfold Bootstrap.already_exists. eauto.
Qed.

(** The offending field is rejected. *)
Lemma beforeUpdate_field_rejects uid data d field w s :
  Db.read_fault (store w) uid = None ->
  Js.truthy_str d = true ->
  data !! field = Some (Js.Str s) -> s <> "" ->
  Uuid.validate_string s = false
  \/ (Bootstrap.validateUniqueness config = true
      /\ held_by_other (store w) uid field s d) ->
  exists m f u,
    Bootstrap.beforeUpdate_field config uid data d field w
    = (inl (ValidationError m f u), w).
Proof.
  intros Hf Hd Hv Hs Hbad. rewrite beforeUpdate_field_run. rewrite Hv.
  assert (Js.truthy (Some (Js.Str s)) = true) as Ht.
  { simpl. apply negb_true_iff, String.eqb_neq, Hs. }
  rewrite Ht. cbn [Uuid.validateUuid].
  destruct (Uuid.validate_string s) eqn:Ev.
  - destruct Hbad as [Hbad | [Hu Hh]]; [discriminate|].
    cbn [andb negb]. rewrite Hu.
    rewrite isUuidExists_answer by assumption. rewrite Hu.
    destruct (find _ _) eqn:Efind.
    + cbn [andb]. unfold Bootstrap.already_exists. eauto.
    + exfalso. revert Efind. now apply held_by_other_found.
  - cbn [andb negb]. unfold Bootstrap.invalid_format. eauto.
Qed.

Lemma beforeUpdate_fields_reject uid data d w :
  Db.read_fault (store w) uid = None ->
  Js.truthy_str d = true ->
  forall fields,
    (exists field m f u,
        In field fields
        /\ Bootstrap.beforeUpdate_field config uid data d field w
           = (inl (ValidationError m f u), w)) ->
    validation_failure
      (fst (for_each fields (Bootstrap.beforeUpdate_field config uid data d) w)).
Proof.
  intros Hf Hd fields. induction fields as [|x fields IH].
  - intros (field & m & f & u & [] & _).
  - intros (field & m & f & u & Hin & Hrej). simpl for_each. unfold bind.
    destruct (beforeUpdate_field_outcome uid data d x w Hf Hd)
      as [E | (m' & f' & u' & E)]; rewrite E.
    + destruct Hin as [<- | Hin]; [congruence|].
      apply IH. eauto 8.
    + simpl. unfold validation_failure. eauto.
Qed.

End UpdateGuard.

(** An update without the field leaves the column of the field as it is,
    whether the hook lets the update through or not. *)
Lemma update_without_field config models event w field :
  Bootstrap.params_data event !! field = None ->
  column (store (snd (Lifecycle.update config models event w)))
         (Bootstrap.model_uid event) field
  = column (store w) (Bootstrap.model_uid event) field.
Proof.
  intros Hnone. unfold Lifecycle.update, bind.
  pose proof (proj1 (reader_beforeUpdate config models event) w) as Hr.
  destruct (Bootstrap.beforeUpdate config models event w) as [[e|[]] w1];
    simpl in Hr; subst w1; [reflexivity|].
  unfold modify, column. cbn [snd].
  rewrite rows_with_tables by (intros r; apply merge_documentId).
  rewrite List.map_map. apply List.map_ext. intros r.
  destruct (Lifecycle.selected _ r); [|reflexivity].
  simpl. rewrite lookup_union_r by exact Hnone. reflexivity.
Qed.

(** The policy as the specification states it fails on an update whose
    [where] clause does not resolve to a Record Identity: the hook returns
    without a check and the malformed value goes through. *)
Lemma update_policy_counterexample :
  ~ update_policy Scenario.defaults Scenario.models
      (UpdateScenario.unresolved {["uuid" := Js.Str "not-a-uuid"]})
      (Scenario.world (Scenario.sound [Scenario.row 1 "d1" (Some Scenario.uuid0)])).
Proof.
  intros H.
  destruct (H ["uuid"] "uuid" ltac:(vm_compute; reflexivity) (or_introl eq_refl))
    as [Ha _].
  destruct (Ha (Js.Str "not-a-uuid") ltac:(vm_compute; reflexivity)
               ltac:(vm_compute; reflexivity)) as (m & f & u & E).
  vm_compute in E. discriminate E.
Qed.

(** C4 (amended): on update, when the [where] clause resolves to a Record
    Identity [d] and the datastore answers, every monitored field present
    in the data with a non-empty value is guarded: the hook rejects with a
    validation failure if the value fails the format check, and if
    uniqueness checking is on and a Record Identity other than [d] holds the
    value. The hook only reads, and an update whose data does not contain
    the field leaves the stored values of the field unchanged. *)
Theorem beforeUpdate_guard
        (config : Bootstrap.Config) (models : Js.object (list string))
        (event : Bootstrap.Event) (w : World) :
  let uid := Bootstrap.model_uid event in
  let data := Bootstrap.params_data event in
  (forall fields field d s,
      Js.get models uid = Some fields -> In field fields ->
      Db.read_fault (store w) uid = None ->
      fst (Bootstrap.getDocumentIdFromWhere uid (Bootstrap.params_where event) w)
      = inr (Some d) ->
      data !! field = Some (Js.Str s) -> s <> "" ->
      (Uuid.validate_string s = false ->
       validation_failure (fst (Bootstrap.beforeUpdate config models event w)))
      /\ (Bootstrap.validateUniqueness config = true ->
          held_by_other (store w) uid field s d ->
          validation_failure (fst (Bootstrap.beforeUpdate config models event w))))
  /\ snd (Bootstrap.beforeUpdate config models event w) = w
  /\ (forall field,
         data !! field = None ->
         column (store (snd (Lifecycle.update config models event w))) uid field
         = column (store w) uid field).
Proof.
  cbv zeta. split; [|split].
  - intros fields field d s Hm Hin Hf Hd Hv Hs.
    pose proof (getDocumentIdFromWhere_truthy _ _ _ _ Hd) as Ht.
    pose proof (proj1 (reader_getDocumentIdFromWhere
                         (Bootstrap.model_uid event)
                         (Bootstrap.params_where event)) w) as Hr.
    assert (forall bad,
               (bad -> Uuid.validate_string s = false
                       \/ (Bootstrap.validateUniqueness config = true
                           /\ held_by_other (store w) (Bootstrap.model_uid event)
                                            field s d)) ->
               bad ->
               validation_failure
                 (fst (Bootstrap.beforeUpdate config models event w))) as Hgo.
    { intros bad Hbad Hb. unfold Bootstrap.beforeUpdate. rewrite Hm.
      unfold bind.
      destruct (Bootstrap.getDocumentIdFromWhere _ _ w) as [r w1].
      simpl in Hd, Hr. subst r w1.
      apply beforeUpdate_fields_reject; [assumption..|].
      destruct (beforeUpdate_field_rejects config (Bootstrap.model_uid event)
                  (Bootstrap.params_data event) d field w s Hf Ht Hv Hs
                  (Hbad Hb)) as (m & f & u & E).
      exists field, m, f, u. auto. }
    split.
    + intros Hbad. apply (Hgo (Uuid.validate_string s = false)); auto.
    + intros Hu Hh.
      apply (Hgo (held_by_other (store w) (Bootstrap.model_uid event) field s d));
        auto.
  - apply reader_beforeUpdate.
  - intros field Hnone. now apply update_without_field.
Qed.

(** The document [d2] is updated to the value that [d1] holds, and the
    document [d1] to a malformed value: both updates are rejected. *)
Lemma beforeUpdate_guard_witness :
  let w := Scenario.world
             (Scenario.sound [Scenario.row 1 "d1" (Some Scenario.uuid0);
                              Scenario.row 2 "d2" (Some Scenario.uuid1)]) in
  validation_failure
    (fst (Bootstrap.beforeUpdate Scenario.defaults Scenario.models
            (UpdateScenario.of_document "d2" {["uuid" := Js.Str Scenario.uuid0]}) w))
  /\ validation_failure
       (fst (Bootstrap.beforeUpdate Scenario.defaults Scenario.models
               (UpdateScenario.of_document "d1" {["uuid" := Js.Str "not-a-uuid"]}) w)).
Proof.
  cbv zeta. split.
  - destruct (beforeUpdate_guard Scenario.defaults Scenario.models
                (UpdateScenario.of_document "d2" {["uuid" := Js.Str Scenario.uuid0]})
                (Scenario.world
                   (Scenario.sound [Scenario.row 1 "d1" (Some Scenario.uuid0);
                                    Scenario.row 2 "d2" (Some Scenario.uuid1)])))
      as [H _].
    cbv zeta in H.
    apply (proj2 (H ["uuid"] "uuid" "d2" Scenario.uuid0
                    ltac:(vm_compute; reflexivity) (or_introl eq_refl)
                    ltac:(vm_compute; reflexivity) ltac:(vm_compute; reflexivity)
                    ltac:(vm_compute; reflexivity) ltac:(discriminate))).
    + vm_compute; reflexivity.
    + exists (Scenario.row 1 "d1" (Some Scenario.uuid0)).
      split; [vm_compute; left; reflexivity|].
      split; [discriminate|vm_compute; reflexivity].
  - destruct (beforeUpdate_guard Scenario.defaults Scenario.models
                (UpdateScenario.of_document "d1" {["uuid" := Js.Str "not-a-uuid"]})
                (Scenario.world
                   (Scenario.sound [Scenario.row 1 "d1" (Some Scenario.uuid0);
                                    Scenario.row 2 "d2" (Some Scenario.uuid1)])))
      as [H _].
    cbv zeta in H.
    apply (proj1 (H ["uuid"] "uuid" "d1" "not-a-uuid"
                    ltac:(vm_compute; reflexivity) (or_introl eq_refl)
                    ltac:(vm_compute; reflexivity) ltac:(vm_compute; reflexivity)
                    ltac:(vm_compute; reflexivity) ltac:(discriminate))).
    vm_compute; reflexivity.
Defined.

(* ===================================================================== *)
(** ** Duplicate groups *)
(* ===================================================================== *)

Lemma findDuplicatesForField_run uid field w :
  Service.findDuplicatesForField uid field w
  = match Db.read_fault (store w) uid with
    | Some msg => (inl (DatastoreError msg), w)
    | None =>
        match Service.group_entries field (Db.rows (store w) uid) [] with
        | inl e => (inl e, w)
        | inr groups => (inr (Service.duplicates_of (Js.entries groups)), w)
        end
    end.
Proof.
  unfold Service.findDuplicatesForField, bind. rewrite findMany_all.
  destruct (Db.read_fault _ _); [reflexivity|].
  destruct (Service.group_entries _ _ _); reflexivity.
Qed.

Lemma duplicates_of_in groups g :
  In g (Service.duplicates_of groups) <->
  exists k ids, In (k, ids) groups /\ 1 < List.length ids
                /\ g = {| Service.uuid := k; Service.count := List.length ids;
                          Service.documentIds := ids |}.
Proof.
  unfold Service.duplicates_of. rewrite in_map_iff. split.
  - intros ([k ids] & <- & Hin). apply filter_In in Hin as [Hin Hlen].
    simpl in *. apply Nat.ltb_lt in Hlen. eauto.
  - intros (k & ids & Hin & Hlen & ->). exists (k, ids). split; [reflexivity|].
    apply filter_In. split; [exact Hin|]. simpl. now apply Nat.ltb_lt.
Qed.

Lemma members_nodup field k entries :
  List.NoDup (List.map Db.documentId entries) ->
  List.NoDup (members field k entries).
Proof.
  unfold members. induction entries as [|e entries IH]; simpl; [constructor|].
  intros Hnd. apply List.NoDup_cons_iff in Hnd as [Hn Hnd].
  destruct (holds_value field k e); simpl; [|auto].
  constructor; [|auto]. intros Hin. apply Hn.
  apply in_map_iff in Hin as (e' & He & Hin). apply filter_In in Hin as [Hin _].
  apply in_map_iff. eauto.
Qed.

Lemma nodup_distinct (ids : list string) :
  List.NoDup ids -> 1 < List.length ids -> distinct_identities ids.
Proof.
  destruct ids as [|a [|b ids]]; simpl; try lia. intros Hnd _.
  exists a, b. repeat split; [now left | right; now left|].
  apply List.NoDup_cons_iff in Hnd as [Hn _]. intros ->. apply Hn. now left.
Qed.

(** What [findDuplicatesForField] reports. *)
Lemma findDuplicatesForField_groups uid field w dups w' g :
  Service.findDuplicatesForField uid field w = (inr dups, w') ->
  In g dups ->
  w' = w
  /\ Service.count g = List.length (Service.documentIds g)
  /\ 1 < Service.count g
  /\ Service.documentIds g
     = members field (Service.uuid g) (Db.rows (store w) uid).
Proof.
  rewrite findDuplicatesForField_run.
  destruct (Db.read_fault _ _); [discriminate|].
  destruct (Service.group_entries _ _ _) as [e|groups] eqn:Eg; [discriminate|].
  intros [= <- <-] Hin.
  apply duplicates_of_in in Hin as (k & ids & Hin & Hlen & ->). simpl.
  apply (proj1 (in_entries _ _)) in Hin.
  pose proof (group_entries_grouped field _ [] [] groups (grouped_nil field) Eg)
    as Hg. simpl in Hg.
  destruct (grouped_in _ _ _ _ _ Hg Hin) as [-> _]. auto.
Qed.

(* ===================================================================== *)
(** ** The status scan *)
(* ===================================================================== *)

Lemma check_field_run uid attrName attr w report :
  exists report',
    Migrations.check_field uid attrName attr (w, report) = (inr tt, (w, report'))
    /\ Migrations.contentTypes report'
       = Migrations.contentTypes report ++ [info_of (store w) (uid, attrName, attr)].
Proof.
  unfold Migrations.check_field, info_of.
  unfold bind at 1. unfold try_catch. unfold bind at 1. unfold on_world at 1.
  cbn [fst snd]. rewrite findMany_all.
  destruct (Db.read_fault (store w) uid) as [msg|].
  - unfold bind, on_locals, ret. cbn [fst snd]. eexists. split; reflexivity.
  - unfold bind, on_locals, ret. cbn [fst snd]. eexists. split; reflexivity.
Qed.

Lemma check_attributes_run uid w attrs : forall report,
  exists report',
    for_each attrs
      (fun na => let '(attrName, attr) := na in
                 when (is_uuid_attribute attr)
                      (Migrations.check_field uid attrName attr))
      (w, report)
    = (inr tt, (w, report'))
    /\ Migrations.contentTypes report'
       = Migrations.contentTypes report
         ++ List.map (info_of (store w))
              (List.map (fun na => (uid, fst na, snd na))
                 (List.filter (fun na => is_uuid_attribute (snd na)) attrs)).
Proof.
  induction attrs as [|[a attr] attrs IH]; intros report; simpl.
  - eexists. split; [reflexivity|]. now rewrite app_nil_r.
  - unfold bind. destruct (is_uuid_attribute attr); cbn [when].
    + destruct (check_field_run uid a attr w report) as (r1 & -> & E1).
      destruct (IH r1) as (r2 & -> & E2). eexists. split; [reflexivity|].
      rewrite E2, E1. simpl. now rewrite <- app_assoc.
    + unfold ret. destruct (IH report) as (r2 & -> & E2). eauto.
Qed.

Lemma check_types_run w types : forall report,
  exists report',
    for_each types
      (fun uc =>
         let '(uid, contentType) := uc in
         when (String.prefix "api::" uid)
           (for_each (Js.entries (attributes contentType))
              (fun na => let '(attrName, attr) := na in
                         when (is_uuid_attribute attr)
                              (Migrations.check_field uid attrName attr))))
      (w, report)
    = (inr tt, (w, report'))
    /\ Migrations.contentTypes report'
       = Migrations.contentTypes report
         ++ List.map (info_of (store w))
              (List.flat_map
                 (fun uc =>
                    if String.prefix "api::" (fst uc)
                    then List.map (fun na => (fst uc, fst na, snd na))
                           (List.filter (fun na => is_uuid_attribute (snd na))
                                        (Js.entries (attributes (snd uc))))
                    else [])
                 types).
Proof.
  induction types as [|[uid ct] types IH]; intros report; simpl.
  - eexists. split; [reflexivity|]. now rewrite app_nil_r.
  - unfold bind. destruct (String.prefix "api::" uid); cbn [when].
    + destruct (check_attributes_run uid w (Js.entries (attributes ct)) report)
        as (r1 & -> & E1).
      destruct (IH r1) as (r2 & -> & E2). eexists. split; [reflexivity|].
      rewrite E2, E1. rewrite List.map_app. now rewrite <- app_assoc.
    + unfold ret. destruct (IH report) as (r2 & -> & E2). eauto.
Qed.

(** [checkMigrationStatus] only reads, never throws, and reports every
    monitored field in order. *)
Lemma checkMigrationStatus_run schemas w :
  exists status,
    Migrations.checkMigrationStatus schemas w = (inr status, w)
    /\ Migrations.contentTypes status
       = List.map (info_of (store w)) (monitored schemas).
Proof.
  unfold Migrations.checkMigrationStatus, with_locals, bind.
  destruct (check_types_run w (Js.entries schemas)
              {| Migrations.needsMigration := false;
                 Migrations.contentTypes := []; Migrations.totalFields := 0;
                 Migrations.totalEntries := 0; Migrations.status_issues := [] |})
    as (r & -> & E).
  unfold locals. cbn [fst snd]. eexists. split; [reflexivity|exact E].
Qed.

(** The scan of the entries of a field. *)
Lemma scan_grouped attrName entries : forall scanned s,
  grouped attrName scanned (Migrations.by_uuid s) ->
  grouped attrName (scanned ++ entries)
          (Migrations.by_uuid (fold_left (Migrations.scan_entry attrName) entries s)).
Proof.
  intros scanned s H.
  apply (fold_left_invariant (Migrations.scan_entry attrName)
           (fun done s => grouped attrName done (Migrations.by_uuid s)));
    [exact H|].
  clear. intros done e s Hg. unfold Migrations.scan_entry.
  destruct (Js.truthy (Db.data e !! attrName)) eqn:Ht; cbn [negb].
  - destruct (negb (Uuid.validateUuid _)); simpl; now apply grouped_push.
  - simpl. now apply grouped_skip.
Qed.

Lemma duplicate_issues_in groups u c ids :
  In (Migrations.DuplicateIssue u c ids) (Migrations.duplicate_issues groups)
  <-> In (u, ids) groups /\ 1 < List.length ids /\ c = List.length ids.
Proof.
  unfold Migrations.duplicate_issues, Migrations.duplicate_groups.
  rewrite in_map_iff. split.
  - intros ([k l] & [= <- <- <-] & Hin). apply filter_In in Hin as [Hin Hlen].
    simpl in *. apply Nat.ltb_lt in Hlen. auto.
  - intros (Hin & Hlen & ->). exists (u, ids). split; [reflexivity|].
    apply filter_In. split; [exact Hin|]. simpl. now apply Nat.ltb_lt.
Qed.

Lemma invalid_issues_only attrName entries : forall s,
  (forall i, In i (Migrations.invalid_issues s) ->
             exists d v, i = Migrations.InvalidIssue d v) ->
  forall i, In i (Migrations.invalid_issues
                    (fold_left (Migrations.scan_entry attrName) entries s)) ->
            exists d v, i = Migrations.InvalidIssue d v.
Proof.
  induction entries as [|e entries IH]; intros s H; [exact H|].
  simpl. apply IH. intros i. unfold Migrations.scan_entry.
  destruct (Js.truthy (Db.data e !! attrName)); cbn [negb].
  - destruct (negb (Uuid.validateUuid _)); simpl; [|apply H].
    intros Hin. apply in_app_or in Hin as [Hin | [<- | []]]; eauto.
  - simpl. apply H.
Qed.

(** The duplicate issues of a scanned field. *)
Lemma scanned_info_duplicates uid attrName attr entries u c ids :
  In (Migrations.DuplicateIssue u c ids)
     (Migrations.issues (Migrations.scanned_info uid attrName attr entries)) ->
  c = List.length ids /\ 1 < c /\ ids = members attrName u entries.
Proof.
  unfold Migrations.scanned_info. cbn [Migrations.issues]. intros Hin.
  apply in_app_or in Hin as [Hin | Hin].
  - apply (invalid_issues_only attrName entries) in Hin as (d & v & [=]).
    intros i [].
  - apply duplicate_issues_in in Hin as (Hin & Hlen & ->).
    pose proof (scan_grouped attrName entries []
                  {| Migrations.empties := 0; Migrations.invalids := 0;
                     Migrations.invalid_issues := []; Migrations.by_uuid := [] |}
                  (grouped_nil attrName)) as Hg.
    destruct (grouped_in _ _ _ _ _ Hg Hin) as [-> _]. auto.
Qed.

(** C8: every duplicate group reported by [findDuplicatesForField]
    (diagnose) and every duplicate issue of [checkMigrationStatus] has at
    least two distinct Record Identities. It lists every Record Identity
    once and counts them, so that the stored rows of one Record Identity
    count once: a value that only the rows of one Record Identity hold
    is never reported. *)
Theorem duplicate_groups_are_distinct
        (schemas : Js.object ContentType) (uid field : string) (w : World) :
  groups_are_distinct uid field w
  /\ issues_are_distinct schemas w
  /\ (forall dups w' g,
         Service.findDuplicatesForField uid field w = (inr dups, w') ->
         In g dups ->
         List.NoDup (Service.documentIds g)
         /\ Service.count g = List.length (Service.documentIds g)
         /\ forall d,
              ~ (forall r, In r (Db.stored (store w) uid) ->
                           holds_value field (Service.uuid g) r = true ->
                           Db.documentId r = d))
  /\ (forall status w' info u c ids,
         Migrations.checkMigrationStatus schemas w = (inr status, w') ->
         In info (Migrations.contentTypes status) ->
         In (Migrations.DuplicateIssue u c ids) (Migrations.issues info) ->
         List.NoDup ids
         /\ c = List.length ids
         /\ forall d,
              ~ (forall r, In r (Db.stored (store w) (Migrations.uid info)) ->
                           holds_value (Migrations.field info) u r = true ->
                           Db.documentId r = d)).
Proof.
  assert (forall f v st u ids,
             ids = members f v (Db.rows st u) -> 1 < List.length ids ->
             List.NoDup ids
             /\ distinct_identities ids
             /\ forall d,
                  ~ (forall r, In r (Db.stored st u) ->
                               holds_value f v r = true -> Db.documentId r = d))
    as Hgroup.
  { intros f v st u ids -> Hlen.
    pose proof (members_nodup f v _ (rows_nodup st u)) as Hnd.
    split; [exact Hnd|]. split; [now apply nodup_distinct|].
    intros d Hone.
    destruct (nodup_distinct _ Hnd Hlen) as (a & b & Ha & Hb & Hab).
    unfold members in Ha, Hb.
    apply in_map_iff in Ha as (r1 & <- & H1). apply filter_In in H1 as [H1 V1].
    apply in_map_iff in Hb as (r2 & <- & H2). apply filter_In in H2 as [H2 V2].
    apply Hab.
    rewrite (Hone r1 (rows_stored _ _ _ H1) V1).
    now rewrite (Hone r2 (rows_stored _ _ _ H2) V2). }
  assert (forall dups w' g,
             Service.findDuplicatesForField uid field w = (inr dups, w') ->
             In g dups ->
             Service.count g = List.length (Service.documentIds g)
             /\ List.NoDup (Service.documentIds g)
             /\ distinct_identities (Service.documentIds g)
             /\ forall d,
                  ~ (forall r, In r (Db.stored (store w) uid) ->
                               holds_value field (Service.uuid g) r = true ->
                               Db.documentId r = d)) as Hfound.
  { intros dups w' g Hrun Hin.
    destruct (findDuplicatesForField_groups _ _ _ _ _ _ Hrun Hin)
      as (_ & Hc & Hlen & Hids).
    split; [exact Hc|].
    apply (Hgroup field (Service.uuid g) (store w) uid); [exact Hids|].
    now rewrite <- Hc. }
  assert (forall status w' info u c ids,
             Migrations.checkMigrationStatus schemas w = (inr status, w') ->
             In info (Migrations.contentTypes status) ->
             In (Migrations.DuplicateIssue u c ids) (Migrations.issues info) ->
             c = List.length ids
             /\ List.NoDup ids
             /\ distinct_identities ids
             /\ forall d,
                  ~ (forall r, In r (Db.stored (store w) (Migrations.uid info)) ->
                               holds_value (Migrations.field info) u r = true ->
                               Db.documentId r = d)) as Hissues.
  { intros status w' info u c ids Hrun Hinfo Hissue.
    destruct (checkMigrationStatus_run schemas w) as (status0 & E & Hct).
    rewrite E in Hrun. injection Hrun as <- <-. rewrite Hct in Hinfo.
    apply in_map_iff in Hinfo as ([[uid0 a] attr] & <- & _).
    unfold info_of in *.
    destruct (Db.read_fault (store w) uid0); [destruct Hissue|].
    apply scanned_info_duplicates in Hissue as (Hc & Hlen & Hids).
    split; [exact Hc|]. cbn [Migrations.scanned_info Migrations.uid
                             Migrations.field].
    apply (Hgroup a u (store w) uid0); [exact Hids|]. now rewrite <- Hc. }
  split; [|split; [|split]].
  - intros dups w' Hrun g Hin. now destruct (Hfound dups w' g Hrun Hin) as (_ & _ & H & _).
  - intros status w' Hrun info u c ids Hinfo Hissue.
    now destruct (Hissues status w' info u c ids Hrun Hinfo Hissue)
      as (_ & _ & H & _).
  - intros dups w' g Hrun Hin.
    destruct (Hfound dups w' g Hrun Hin) as (Hc & Hnd & _ & Hone). auto.
  - intros status w' info u c ids Hrun Hinfo Hissue.
    destruct (Hissues status w' info u c ids Hrun Hinfo Hissue)
      as (Hc & Hnd & _ & Hone). auto.
Qed.

(** The draft and the published row of the record [d1] hold the same
    value, which the record [d2] holds as well: the group has the two
    Record Identities, and [d1] counts once. *)
Lemma revisions_count_once :
  Service.findDuplicatesForField Scenario.article "uuid"
    (Scenario.world (Scenario.sound [Scenario.row 1 "d1" (Some Scenario.uuid0);
                                     Scenario.row 2 "d1" (Some Scenario.uuid0);
                                     Scenario.row 3 "d2" (Some Scenario.uuid0)]))
  = (inr [{| Service.uuid := Scenario.uuid0; Service.count := 2;
             Service.documentIds := ["d1"; "d2"] |}],
     Scenario.world (Scenario.sound [Scenario.row 1 "d1" (Some Scenario.uuid0);
                                     Scenario.row 2 "d1" (Some Scenario.uuid0);
                                     Scenario.row 3 "d2" (Some Scenario.uuid0)])).
Proof. vm_compute. reflexivity. Qed.

(* ===================================================================== *)
(** ** The duplicate repair of the service *)
(* ===================================================================== *)

Lemma accepts_writes_write uid d field value st :
  accepts_writes st -> accepts_writes (Db.write uid d field value st).
Proof. intros H. exact H. Qed.

Lemma commit_entropy dry uid field d value w :
  random (entropy (commit dry uid field d value w)) = random (entropy w)
  /\ drawn (entropy (commit dry uid field d value w)) = S (drawn (entropy w))
  /\ clock (entropy (commit dry uid field d value w)) = clock (entropy w)
  /\ has_v7 (entropy (commit dry uid field d value w)) = has_v7 (entropy w).
Proof. unfold commit. destruct dry; repeat split. Qed.

Lemma commit_accepts dry uid field d value w :
  accepts_writes (store w) ->
  accepts_writes (store (commit dry uid field d value w)).
Proof. unfold commit. destruct dry; intros H; exact H. Qed.

Lemma commit_dry_store uid field d value w :
  store (commit true uid field d value w) = store w.
Proof. reflexivity. Qed.

(** A write that the datastore accepts. *)
Lemma update_run uid d field value w :
  Db.write_fault (store w) (Db.tables (store w)) uid d field value = None ->
  Documents.update uid d field value w
  = (inr tt, set_store (Db.write uid d field value (store w)) w).
Proof. intros H. unfold Documents.update. now rewrite H. Qed.

Section Repair.
Variables (uid field : string) (dry : bool).

(** The inner loop body of [fixDuplicatesForField]. *)
Lemma fix_member_run g keep d w fixes :
  dry = true \/ accepts_writes (store w) ->
  Service.fix_member uid field dry g keep d (w, fixes)
  = (inr tt,
     (commit dry uid field d (Uuid.v4 (random (entropy w) (drawn (entropy w)))) w,
      Plan.added (Plan.members (random (entropy w)) (drawn (entropy w))
                               (Service.uuid g) keep [d]) fixes)).
Proof.
  intros Hok. unfold Service.fix_member.
  unfold bind at 1. unfold on_world at 1, uuidv4 at 1. cbn [fst snd].
  unfold bind at 1. unfold on_locals at 1. cbn [fst snd].
  unfold bind at 1. unfold commit.
  destruct dry; cbn [negb when].
  - unfold ret, on_locals. cbn [fst snd]. unfold Plan.added, Service.count_fixed,
      Service.push_change. simpl. now rewrite Nat.add_1_r.
  - unfold on_world. cbn [fst snd].
    rewrite update_run by (destruct Hok as [?|H]; [discriminate|apply H]).
    unfold on_locals. cbn [fst snd]. unfold Plan.added, Service.count_fixed,
      Service.push_change. simpl. now rewrite Nat.add_1_r.
Qed.

Lemma added_added p1 p2 fixes :
  Plan.added p2 (Plan.added p1 fixes) = Plan.added (p1 ++ p2) fixes.
Proof.
  unfold Plan.added. simpl. rewrite List.length_app, Nat.add_assoc.
  now rewrite <- app_assoc.
Qed.

Lemma added_nil fixes : Plan.added [] fixes = fixes.
Proof.
  unfold Plan.added. destruct fixes. simpl.
  now rewrite Nat.add_0_r, app_nil_r.
Qed.

Lemma commit_all_app writes1 writes2 w :
  commit_all dry uid field (writes1 ++ writes2) w
  = commit_all dry uid field writes2 (commit_all dry uid field writes1 w).
Proof. unfold commit_all. now rewrite fold_left_app. Qed.

Lemma commit_all_entropy writes : forall w,
  random (entropy (commit_all dry uid field writes w)) = random (entropy w)
  /\ drawn (entropy (commit_all dry uid field writes w))
     = drawn (entropy w) + List.length writes
  /\ clock (entropy (commit_all dry uid field writes w)) = clock (entropy w)
  /\ has_v7 (entropy (commit_all dry uid field writes w)) = has_v7 (entropy w).
Proof.
  induction writes as [|[d v] writes IH]; intros w; simpl.
  - repeat split. lia.
  - destruct (IH (commit dry uid field d v w)) as (H1 & H2 & H3 & H4).
    destruct (commit_entropy dry uid field d v w) as (E1 & E2 & E3 & E4).
    unfold commit_all in *. simpl.
    rewrite H1, H2, H3, H4, E1, E2, E3, E4. repeat split. lia.
Qed.

Lemma commit_all_accepts writes : forall w,
  accepts_writes (store w) ->
  accepts_writes (store (commit_all dry uid field writes w)).
Proof.
  induction writes as [|[d v] writes IH]; intros w H; [exact H|].
  apply IH. now apply commit_accepts.
Qed.

(** The inner loop over the members after the first. *)
Lemma fix_members_run g keep rest : forall w fixes,
  dry = true \/ accepts_writes (store w) ->
  for_each rest (Service.fix_member uid field dry g keep) (w, fixes)
  = (inr tt,
     (commit_all dry uid field
        (Plan.writes (Plan.members (random (entropy w)) (drawn (entropy w))
                                   (Service.uuid g) keep rest)) w,
      Plan.added (Plan.members (random (entropy w)) (drawn (entropy w))
                               (Service.uuid g) keep rest) fixes)).
Proof.
  induction rest as [|d rest IH]; intros w fixes Hok.
  - simpl. now rewrite added_nil.
  - simpl for_each. unfold bind. rewrite fix_member_run by exact Hok.
    rewrite IH.
    2:{ destruct Hok as [?|H]; [now left|right; now apply commit_accepts]. }
    destruct (commit_entropy dry uid field d
                (Uuid.v4 (random (entropy w) (drawn (entropy w)))) w)
      as (E1 & E2 & _).
    rewrite E1, E2, added_added. reflexivity.
Qed.

Lemma fix_group_run g w fixes :
  dry = true \/ accepts_writes (store w) ->
  Service.fix_group uid field dry g (w, fixes)
  = (inr tt,
     (commit_all dry uid field
        (Plan.writes (Plan.group (random (entropy w)) (drawn (entropy w)) g)) w,
      Plan.added (Plan.group (random (entropy w)) (drawn (entropy w)) g) fixes)).
Proof.
  intros Hok. unfold Service.fix_group, Plan.group.
  destruct (Service.documentIds g) as [|keep rest].
  - simpl. now rewrite added_nil.
  - now apply fix_members_run.
Qed.

(** The loop over the duplicate groups. *)
Lemma fix_groups_run dups : forall w fixes,
  dry = true \/ accepts_writes (store w) ->
  for_each dups (Service.fix_group uid field dry) (w, fixes)
  = (inr tt,
     (commit_all dry uid field
        (Plan.writes (Plan.groups (random (entropy w)) (drawn (entropy w)) dups)) w,
      Plan.added (Plan.groups (random (entropy w)) (drawn (entropy w)) dups) fixes)).
Proof.
  induction dups as [|g dups IH]; intros w fixes Hok.
  - simpl. now rewrite added_nil.
  - simpl for_each. unfold bind. rewrite fix_group_run by exact Hok.
    rewrite IH.
    2:{ destruct Hok as [?|H]; [now left|right; now apply commit_all_accepts]. }
    destruct (commit_all_entropy
                (Plan.writes (Plan.group (random (entropy w)) (drawn (entropy w)) g)) w)
      as (E1 & E2 & _).
    rewrite E1, E2, added_added. simpl Plan.groups.
    unfold Plan.writes. rewrite !List.length_map.
    rewrite List.map_app, commit_all_app. reflexivity.
Qed.

(** [fixDuplicatesForField] as a whole: the groups are found, the changes
    are the planned ones, and the committed run has written them. *)
Lemma fixDuplicatesForField_run w :
  dry = true \/ accepts_writes (store w) ->
  Service.fixDuplicatesForField uid field dry w
  = match Service.findDuplicatesForField uid field w with
    | (inl e, _) => (inl e, w)
    | (inr dups, _) =>
        let plan := Plan.groups (random (entropy w)) (drawn (entropy w)) dups in
        (inr (Plan.added plan {| Service.found := List.length dups;
                                 Service.fixed := 0; Service.changes := [] |}),
         commit_all dry uid field (Plan.writes plan) w)
    end.
Proof.
  intros Hok. unfold Service.fixDuplicatesForField. unfold bind at 1.
  rewrite findDuplicatesForField_run.
  destruct (Db.read_fault _ _); [reflexivity|].
  destruct (Service.group_entries _ _ _) as [e|groups]; [reflexivity|].
  unfold with_locals, bind. rewrite fix_groups_run by exact Hok.
  reflexivity.
Qed.

End Repair.

(* ===================================================================== *)
(** ** The bulk fix of [runMigration], category by category *)
(* ===================================================================== *)

Lemma migration_added_nil category r : MigrationPlan.added category [] r = r.
Proof.
  unfold MigrationPlan.added. destruct r, category; simpl;
    now rewrite ?Nat.add_0_r, app_nil_r.
Qed.

Lemma migration_added_added category p1 p2 r :
  MigrationPlan.added category p2 (MigrationPlan.added category p1 r)
  = MigrationPlan.added category (p1 ++ p2) r.
Proof.
  unfold MigrationPlan.added. destruct category; simpl;
    rewrite ?List.length_app, ?Nat.add_0_r, ?Nat.add_assoc, <- ?app_assoc;
    reflexivity.
Qed.

Section Bulk.
Variables (uid field : string) (dry : bool).

Lemma fix_empty_entry_run entry w r :
  dry = true \/ accepts_writes (store w) ->
  Migrations.fix_empty_entry uid field dry entry (w, r)
  = (inr tt,
     (commit dry uid field (Db.documentId entry)
             (Uuid.v4 (random (entropy w) (drawn (entropy w)))) w,
      MigrationPlan.added Migrations.empty_fix
        (MigrationPlan.empty (random (entropy w)) (drawn (entropy w)) uid field
                             [Db.documentId entry]) r)).
Proof.
  intros Hok. unfold Migrations.fix_empty_entry.
  unfold bind at 1. unfold on_world at 1, uuidv4 at 1. cbn [fst snd].
  unfold bind at 1. unfold on_locals at 1. cbn [fst snd].
  unfold bind at 1. unfold commit.
  destruct dry; cbn [negb when].
  - unfold ret, on_locals. cbn [fst snd].
    unfold MigrationPlan.added, Migrations.count_empty, Migrations.push_change.
    simpl. now rewrite !Nat.add_0_r, Nat.add_1_r.
  - unfold on_world. cbn [fst snd].
    rewrite update_run by (destruct Hok as [?|H]; [discriminate|apply H]).
    unfold on_locals. cbn [fst snd].
    unfold MigrationPlan.added, Migrations.count_empty, Migrations.push_change.
    simpl. now rewrite !Nat.add_0_r, Nat.add_1_r.
Qed.

Lemma fix_empty_entries_run entries : forall w r,
  dry = true \/ accepts_writes (store w) ->
  for_each entries (Migrations.fix_empty_entry uid field dry) (w, r)
  = (inr tt,
     (commit_all dry uid field
        (MigrationPlan.writes
           (MigrationPlan.empty (random (entropy w)) (drawn (entropy w)) uid field
                                (List.map Db.documentId entries))) w,
      MigrationPlan.added Migrations.empty_fix
        (MigrationPlan.empty (random (entropy w)) (drawn (entropy w)) uid field
                             (List.map Db.documentId entries)) r)).
Proof.
  induction entries as [|e entries IH]; intros w r Hok.
  - simpl. now rewrite migration_added_nil.
  - simpl for_each. unfold bind. rewrite fix_empty_entry_run by exact Hok.
    rewrite IH.
    2:{ destruct Hok as [?|H]; [now left|right; now apply commit_accepts]. }
    destruct (commit_entropy dry uid field (Db.documentId e)
                (Uuid.v4 (random (entropy w) (drawn (entropy w)))) w)
      as (E1 & E2 & _).
    rewrite E1, E2, migration_added_added. reflexivity.
Qed.

Lemma fix_invalid_issue_run d v w r :
  dry = true \/ accepts_writes (store w) ->
  Migrations.fix_invalid_issue uid field dry d v (w, r)
  = (inr tt,
     (commit dry uid field d (Uuid.v4 (random (entropy w) (drawn (entropy w)))) w,
      MigrationPlan.added Migrations.invalid_fix
        (MigrationPlan.invalid (random (entropy w)) (drawn (entropy w)) uid field
                               [Migrations.InvalidIssue d v]) r)).
Proof.
  intros Hok. unfold Migrations.fix_invalid_issue.
  unfold bind at 1. unfold on_world at 1, uuidv4 at 1. cbn [fst snd].
  unfold bind at 1. unfold on_locals at 1. cbn [fst snd]. unfold commit.
  destruct dry; cbn [negb].
  - unfold on_locals. cbn [fst snd].
    unfold MigrationPlan.added, Migrations.count_invalid, Migrations.push_change.
    simpl. now rewrite !Nat.add_0_r, Nat.add_1_r.
  - unfold try_catch, bind, on_world. cbn [fst snd].
    rewrite update_run by (destruct Hok as [?|H]; [discriminate|apply H]).
    unfold on_locals. cbn [fst snd].
    unfold MigrationPlan.added, Migrations.count_invalid, Migrations.push_change.
    simpl. now rewrite !Nat.add_0_r, Nat.add_1_r.
Qed.

Lemma fix_invalid_issues_run issues : forall w r,
  dry = true \/ accepts_writes (store w) ->
  for_each issues
    (fun issue =>
       match issue with
       | Migrations.InvalidIssue d v =>
           Migrations.fix_invalid_issue uid field dry d v
       | Migrations.DuplicateIssue _ _ _ => ret tt
       end) (w, r)
  = (inr tt,
     (commit_all dry uid field
        (MigrationPlan.writes
           (MigrationPlan.invalid (random (entropy w)) (drawn (entropy w))
                                  uid field issues)) w,
      MigrationPlan.added Migrations.invalid_fix
        (MigrationPlan.invalid (random (entropy w)) (drawn (entropy w))
                               uid field issues) r)).
Proof.
  induction issues as [|[d v|u c ids] issues IH]; intros w r Hok.
  - simpl. now rewrite migration_added_nil.
  - simpl for_each. unfold bind. rewrite fix_invalid_issue_run by exact Hok.
    rewrite IH.
    2:{ destruct Hok as [?|H]; [now left|right; now apply commit_accepts]. }
    destruct (commit_entropy dry uid field d
                (Uuid.v4 (random (entropy w) (drawn (entropy w)))) w)
      as (E1 & E2 & _).
    rewrite E1, E2, migration_added_added. reflexivity.
  - simpl for_each. unfold bind, ret at 1. now rewrite IH.
Qed.

Lemma fix_duplicate_member_run u keep d w r :
  dry = true \/ accepts_writes (store w) ->
  Migrations.fix_duplicate_member uid field dry u keep d (w, r)
  = (inr tt,
     (commit dry uid field d (Uuid.v4 (random (entropy w) (drawn (entropy w)))) w,
      MigrationPlan.added Migrations.duplicate_fix
        (MigrationPlan.members (random (entropy w)) (drawn (entropy w)) uid field
                               u keep [d]) r)).
Proof.
  intros Hok. unfold Migrations.fix_duplicate_member.
  unfold bind at 1. unfold on_world at 1, uuidv4 at 1. cbn [fst snd].
  unfold bind at 1. unfold on_locals at 1. cbn [fst snd]. unfold commit.
  destruct dry; cbn [negb].
  - unfold on_locals. cbn [fst snd].
    unfold MigrationPlan.added, Migrations.count_duplicate, Migrations.push_change.
    simpl. now rewrite !Nat.add_0_r, Nat.add_1_r.
  - unfold try_catch, bind, on_world. cbn [fst snd].
    rewrite update_run by (destruct Hok as [?|H]; [discriminate|apply H]).
    unfold on_locals. cbn [fst snd].
    unfold MigrationPlan.added, Migrations.count_duplicate, Migrations.push_change.
    simpl. now rewrite !Nat.add_0_r, Nat.add_1_r.
Qed.

Lemma fix_duplicate_members_run u keep rest : forall w r,
  dry = true \/ accepts_writes (store w) ->
  for_each rest (Migrations.fix_duplicate_member uid field dry u keep) (w, r)
  = (inr tt,
     (commit_all dry uid field
        (MigrationPlan.writes
           (MigrationPlan.members (random (entropy w)) (drawn (entropy w))
                                  uid field u keep rest)) w,
      MigrationPlan.added Migrations.duplicate_fix
        (MigrationPlan.members (random (entropy w)) (drawn (entropy w))
                               uid field u keep rest) r)).
Proof.
  induction rest as [|d rest IH]; intros w r Hok.
  - simpl. now rewrite migration_added_nil.
  - simpl for_each. unfold bind. rewrite fix_duplicate_member_run by exact Hok.
    rewrite IH.
    2:{ destruct Hok as [?|H]; [now left|right; now apply commit_accepts]. }
    destruct (commit_entropy dry uid field d
                (Uuid.v4 (random (entropy w) (drawn (entropy w)))) w)
      as (E1 & E2 & _).
    rewrite E1, E2, migration_added_added. reflexivity.
Qed.

Lemma fix_duplicate_issues_run issues : forall w r,
  dry = true \/ accepts_writes (store w) ->
  for_each issues
    (fun issue =>
       match issue with
       | Migrations.DuplicateIssue u _ (keepDocId :: fixDocIds) =>
           for_each fixDocIds
                    (Migrations.fix_duplicate_member uid field dry u keepDocId)
       | _ => ret tt
       end) (w, r)
  = (inr tt,
     (commit_all dry uid field
        (MigrationPlan.writes
           (MigrationPlan.duplicates (random (entropy w)) (drawn (entropy w))
                                     uid field issues)) w,
      MigrationPlan.added Migrations.duplicate_fix
        (MigrationPlan.duplicates (random (entropy w)) (drawn (entropy w))
                                  uid field issues) r)).
Proof.
  induction issues as [|i issues IH]; intros w r Hok.
  - simpl. now rewrite migration_added_nil.
  - simpl for_each. unfold bind.
    assert ((match i with
             | Migrations.DuplicateIssue u _ (keepDocId :: fixDocIds) =>
                 for_each fixDocIds
                   (Migrations.fix_duplicate_member uid field dry u keepDocId)
             | _ => ret tt
             end) (w, r)
            = (inr tt,
               (commit_all dry uid field
                  (MigrationPlan.writes
                     (MigrationPlan.issue (random (entropy w)) (drawn (entropy w))
                                          uid field i)) w,
                MigrationPlan.added Migrations.duplicate_fix
                  (MigrationPlan.issue (random (entropy w)) (drawn (entropy w))
                                       uid field i) r))) as ->.
    { destruct i as [d v|u c [|keep rest]]; simpl;
        rewrite ?migration_added_nil; try reflexivity.
      now apply fix_duplicate_members_run. }
    rewrite IH.
    2:{ destruct Hok as [?|H]; [now left|right; now apply commit_all_accepts]. }
    destruct (commit_all_entropy uid field dry
                (MigrationPlan.writes
                   (MigrationPlan.issue (random (entropy w)) (drawn (entropy w))
                                        uid field i)) w)
      as (E1 & E2 & _).
    rewrite E1, E2, migration_added_added. simpl MigrationPlan.duplicates.
    unfold MigrationPlan.writes. rewrite !List.length_map.
    rewrite List.map_app, commit_all_app. reflexivity.
Qed.

End Bulk.

Lemma with_errors_nil r : Outcome.with_errors [] r = r.
Proof. unfold Outcome.with_errors. destruct r. simpl. now rewrite app_nil_r. Qed.

Section Field.
Variables (dry fixEmpty fixInvalid fixDuplicates : bool).

(** The empty category: the query of the empty entries and the loop, inside
    one [try]. *)
Lemma fix_empty_run info w r :
  dry = true \/ accepts_writes (store w) ->
  Migrations.fix_empty dry info (w, r)
  = (inr tt,
     match Db.read_fault (store w) (Migrations.uid info) with
     | None =>
         let pe := MigrationPlan.empty (random (entropy w)) (drawn (entropy w))
                     (Migrations.uid info) (Migrations.field info)
                     (MigrationPlan.empty_targets (store w) (Migrations.uid info)
                                                  (Migrations.field info)) in
         (Outcome.run dry info pe w,
          MigrationPlan.added Migrations.empty_fix pe r)
     | Some msg =>
         (w, Migrations.push_error
               ("Failed to fix empty UUIDs in " +:+ Migrations.uid info +:+ "."
                +:+ Migrations.field info +:+ ": " +:+ msg) r)
     end).
Proof.
  intros Hok. unfold Migrations.fix_empty, try_catch.
  unfold bind at 1. unfold on_world at 1. cbn [fst snd].
  unfold Documents.findMany, Documents.query.
  destruct (Db.read_fault (store w) (Migrations.uid info)) as [msg|].
  - reflexivity.
  - cbn zeta. rewrite fix_empty_entries_run by exact Hok. reflexivity.
Qed.

(** The three categories for one monitored field. *)
Lemma fix_field_run info w r :
  dry = true \/ accepts_writes (store w) ->
  Migrations.fix_field dry fixEmpty fixInvalid fixDuplicates info (w, r)
  = (inr tt, Outcome.field dry fixEmpty fixInvalid fixDuplicates info (w, r)).
Proof.
  intros Hok. unfold Migrations.fix_field, Outcome.field.
  cbn [fst snd].
  assert (forall plan w0, dry = true \/ accepts_writes (store w0) ->
                          dry = true \/ accepts_writes
                                          (store (Outcome.run dry info plan w0)))
    as Hrun.
  { intros plan w0 [?|H]; [now left|right]. now apply commit_all_accepts. }
  (* the empty category *)
  unfold bind at 1.
  assert (when (fixEmpty && Migrations.positive_count (Migrations.emptyCount info))
               (Migrations.fix_empty dry info) (w, r)
          = (inr tt,
             (Outcome.run dry info (Outcome.empty_plan fixEmpty info w) w,
              Outcome.with_errors (Outcome.empty_errors fixEmpty info w)
                (MigrationPlan.added Migrations.empty_fix
                   (Outcome.empty_plan fixEmpty info w) r)))) as ->.
  { unfold Outcome.empty_plan, Outcome.empty_errors, Outcome.fixes_empty.
    destruct (fixEmpty && _); cbn [when].
    - rewrite fix_empty_run by exact Hok.
      destruct (Db.read_fault _ _).
      + unfold Outcome.run. simpl commit_all.
        now rewrite migration_added_nil.
      + cbn zeta. now rewrite with_errors_nil.
    - unfold ret, Outcome.run. simpl commit_all.
      now rewrite migration_added_nil, with_errors_nil. }
  (* the invalid category *)
  unfold bind at 1.
  set (w1 := Outcome.run dry info (Outcome.empty_plan fixEmpty info w) w).
  set (r1 := Outcome.with_errors _ _).
  assert (when fixInvalid (Migrations.fix_invalid dry info) (w1, r1)
          = (inr tt,
             (Outcome.run dry info (Outcome.invalid_plan fixInvalid info w1) w1,
              MigrationPlan.added Migrations.invalid_fix
                (Outcome.invalid_plan fixInvalid info w1) r1))) as ->.
  { unfold Outcome.invalid_plan. destruct fixInvalid; cbn [when].
    - unfold Migrations.fix_invalid.
      rewrite fix_invalid_issues_run by (apply Hrun, Hok). reflexivity.
    - unfold ret, Outcome.run. simpl commit_all.
      now rewrite migration_added_nil. }
  (* the duplicate category *)
  set (w2 := Outcome.run dry info (Outcome.invalid_plan fixInvalid info w1) w1).
  set (r2 := MigrationPlan.added Migrations.invalid_fix _ r1).
  unfold Outcome.duplicates_plan. destruct fixDuplicates; cbn [when].
  - unfold Migrations.fix_duplicates.
    rewrite fix_duplicate_issues_run by (apply Hrun, Hrun, Hok). reflexivity.
  - unfold ret, Outcome.run. simpl commit_all.
    now rewrite migration_added_nil.
Qed.

Lemma field_accepts info s :
  accepts_writes (store (fst s)) ->
  accepts_writes
    (store (fst (Outcome.field dry fixEmpty fixInvalid fixDuplicates info s))).
Proof.
  intros H. unfold Outcome.field, Outcome.run. cbn [fst].
  now repeat apply commit_all_accepts.
Qed.

(** The loop of [runMigration] over the monitored fields. *)
Lemma fix_fields_run infos : forall w r,
  dry = true \/ accepts_writes (store w) ->
  for_each infos (Migrations.fix_field dry fixEmpty fixInvalid fixDuplicates)
           (w, r)
  = (inr tt, Outcome.fields dry fixEmpty fixInvalid fixDuplicates infos (w, r)).
Proof.
  induction infos as [|info infos IH]; intros w r Hok; [reflexivity|].
  simpl for_each. unfold bind. rewrite fix_field_run by exact Hok.
  destruct (Outcome.field dry fixEmpty fixInvalid fixDuplicates info (w, r))
    as [w1 r1] eqn:E.
  rewrite IH.
  - unfold Outcome.fields. simpl. now rewrite E.
  - destruct Hok as [?|H]; [now left|right].
    change w1 with (fst (w1, r1)). rewrite <- E. now apply field_accepts.
Qed.

End Field.

(** [runMigration] when no write is rejected: the status is read, and the
    monitored fields are fixed one after the other. *)
Lemma runMigration_run schemas o w :
  default true (Migrations.opt_dryRun o) = true \/ accepts_writes (store w) ->
  Migrations.runMigration schemas o w
  = (let out := Outcome.fields (default true (Migrations.opt_dryRun o))
                  (default true (Migrations.opt_fixEmpty o))
                  (default true (Migrations.opt_fixInvalid o))
                  (default true (Migrations.opt_fixDuplicates o))
                  (List.map (info_of (store w)) (monitored schemas))
                  (w, Outcome.initial (default true (Migrations.opt_dryRun o))) in
     (inr (Migrations.set_total (snd out)), fst out)).
Proof.
  intros Hok. unfold Migrations.runMigration. unfold bind at 1.
  destruct (checkMigrationStatus_run schemas w) as (status & -> & ->).
  unfold with_locals. unfold bind at 1.
  rewrite fix_fields_run by exact Hok.
  fold (Outcome.initial (default true (Migrations.opt_dryRun o))).
  destruct (Outcome.fields _ _ _ _ _ _) as [w1 r1].
  reflexivity.
Qed.

(* ===================================================================== *)
(** ** The monitored fields of well-formed schemas *)
(* ===================================================================== *)

Lemma nodup_filter {A} (p : A -> bool) (l : list A) :
  List.NoDup l -> List.NoDup (List.filter p l).
Proof.
  induction l as [|x l IH]; simpl; intros H; [constructor|].
  apply List.NoDup_cons_iff in H as [Hx H].
  destruct (p x); [|auto]. constructor; [|auto].
  intros Hin. apply Hx. now apply filter_In in Hin.
Qed.

Lemma nodup_map_fst_filter {A B} (p : A * B -> bool) (l : list (A * B)) :
  List.NoDup (List.map fst l) -> List.NoDup (List.map fst (List.filter p l)).
Proof.
  induction l as [|x l IH]; simpl; intros H; [constructor|].
  apply List.NoDup_cons_iff in H as [Hx H].
  destruct (p x); simpl; [|auto]. constructor; [|auto].
  intros Hin. apply Hx. apply in_map_iff in Hin as (y & <- & Hy).
  apply filter_In in Hy as [Hy _]. now apply in_map.
Qed.



Lemma uuid_attributes_nodup ct :
  List.NoDup (List.map fst (attributes ct)) ->
  List.NoDup (List.map fst (List.filter (fun ka => is_uuid_attribute (snd ka))
                                        (Js.entries (attributes ct)))).
Proof. intros H. now apply nodup_map_fst_filter, entries_keys_nodup. Qed.


Lemma in_set_inv {V} (o : Js.object V) k v kv :
  In kv (Js.set o k v) -> kv = (k, v) \/ In kv o.
Proof.
  induction o as [|[k' v'] o IH]; simpl.
  - intros [<-|[]]. now left.
  - destruct (String.eqb k' k) eqn:E; simpl.
    + apply String.eqb_eq in E. subst k'. intros [<-|H]; auto.
    + intros [<-|H]; auto. destruct (IH H); auto.
Qed.

Lemma findUuidModels_spec types : forall acc,
  List.NoDup (List.map fst acc) ->
  (forall kv, In kv acc -> List.NoDup (snd kv)) ->
  (forall uid ct, In (uid, ct) types ->
                  List.NoDup (List.map fst (attributes ct))) ->
  let models :=
    fold_left
      (fun acc kc =>
         let '(key, contentType) := kc in
         if negb (String.prefix "api" key) then acc
         else
           let uuidAttributes :=
             List.map fst (List.filter (fun ka => is_uuid_attribute (snd ka))
                                       (Js.entries (attributes contentType))) in
           if (0 <? List.length uuidAttributes)%nat
           then Js.set acc key uuidAttributes
           else acc)
      types acc in
  List.NoDup (List.map fst models)
  /\ forall kv, In kv models -> List.NoDup (snd kv).
Proof.
  induction types as [|[uid ct] types IH]; intros acc Hk Hv Ha; [now split|].
  simpl. apply IH.
  - destruct (negb _); [exact Hk|]. destruct (0 <? _)%nat; [|exact Hk].
    now apply set_keys_nodup.
  - intros kv. destruct (negb _); [apply Hv|]. destruct (0 <? _)%nat; [|apply Hv].
    intros Hin. apply in_set_inv in Hin as [->|Hin]; [|now apply Hv].
    simpl. apply uuid_attributes_nodup, (Ha uid). now left.
  - intros uid' ct' Hin. apply (Ha uid'). now right.
Qed.


(* ===================================================================== *)
(** ** Dry-run fidelity *)
(* ===================================================================== *)

(** A write leaves the other fields and the other content types as they
    are. *)
Lemma keys_write_other uid uid' d field field' value st :
  (uid', field') <> (uid, field) ->
  List.map (key field') (Db.rows (Db.write uid d field value st) uid')
  = List.map (key field') (Db.rows st uid').
Proof.
  intros Hne. destruct (String.eqb_spec uid' uid) as [->|Hu].
  - rewrite rows_write_same, List.map_map. apply List.map_ext. intros r.
    destruct (String.eqb (Db.documentId r) d); [|reflexivity].
    unfold key, Db.set_field. simpl.
    rewrite lookup_insert_ne by congruence. reflexivity.
  - now rewrite rows_write_other.
Qed.


Lemma commit_all_cons dry uid field d value writes w :
  commit_all dry uid field ((d, value) :: writes) w
  = commit_all dry uid field writes (commit dry uid field d value w).
Proof. reflexivity. Qed.


Lemma commit_all_dry_store uid field writes : forall w,
  store (commit_all true uid field writes w) = store w.
Proof.
  induction writes as [|[d v] writes IH]; intros w; [reflexivity|].
  now rewrite commit_all_cons, IH.
Qed.









Section Agreement.
Variables (fixEmpty fixInvalid fixDuplicates : bool).







End Agreement.














(* ===================================================================== *)
(** ** Dry-run fidelity of the bulk fixes *)
(* ===================================================================== *)




(* ===================================================================== *)
(** ** The rows after a duplicate repair *)
(* ===================================================================== *)

Lemma rewrite_row_cons field d v writes r :
  rewrite_row field ((d, v) :: writes) r
  = rewrite_row field writes
      (if String.eqb (Db.documentId r) d then Db.set_field field v r else r).
Proof. reflexivity. Qed.

Lemma rewrite_row_documentId field writes : forall r,
  Db.documentId (rewrite_row field writes r) = Db.documentId r.
Proof.
  induction writes as [|[d v] writes IH]; intros r; [reflexivity|].
  rewrite rewrite_row_cons, IH. now destruct (String.eqb _ _).
Qed.

Lemma rewrite_row_untouched field writes : forall r,
  ~ In (Db.documentId r) (List.map fst writes) ->
  rewrite_row field writes r = r.
Proof.
  induction writes as [|[d v] writes IH]; intros r Hn; [reflexivity|].
  rewrite rewrite_row_cons. simpl in Hn.
  destruct (String.eqb_spec (Db.documentId r) d) as [E|_];
    [exfalso; apply Hn; now left|].
  apply IH. intros H. apply Hn. now right.
Qed.

Lemma rewrite_row_written field writes : forall r v,
  List.NoDup (List.map fst writes) ->
  In (Db.documentId r, v) writes ->
  Db.data (rewrite_row field writes r) !! field = Some (Js.Str v).
Proof.
  induction writes as [|[d v0] writes IH]; intros r v Hnd Hin; [destruct Hin|].
  simpl in Hnd. apply List.NoDup_cons_iff in Hnd as [Hd Hnd].
  rewrite rewrite_row_cons. destruct Hin as [[= -> ->]|Hin].
  - rewrite String.eqb_refl, rewrite_row_untouched by exact Hd.
    simpl. apply lookup_insert_eq.
  - destruct (String.eqb_spec (Db.documentId r) d) as [<-|_].
    + exfalso. apply Hd. apply in_map_iff. now exists (Db.documentId r, v).
    + now apply IH.
Qed.

(** The rows of the content type after the writes of a committed run. *)
Lemma rows_commit_all uid field writes : forall w,
  Db.rows (store (commit_all false uid field writes w)) uid
  = List.map (rewrite_row field writes) (Db.rows (store w) uid).
Proof.
  induction writes as [|[d v] writes IH]; intros w.
  - simpl. now rewrite List.map_id.
  - rewrite commit_all_cons, IH. unfold commit. cbn [store set_store advance].
    rewrite rows_write_same, List.map_map. reflexivity.
Qed.

(** A record no write is addressed to keeps its rows. *)
Lemma commit_all_keeps uid field writes w keep r :
  ~ In keep (List.map fst writes) ->
  Db.documentId r = keep ->
  In r (Db.rows (store w) uid)
  <-> In r (Db.rows (store (commit_all false uid field writes w)) uid).
Proof.
  intros Hn Hk. rewrite rows_commit_all. split.
  - intros Hin. apply in_map_iff. exists r. split; [|exact Hin].
    apply rewrite_row_untouched. now rewrite Hk.
  - intros Hin. apply in_map_iff in Hin as (r0 & E & Hin).
    assert (Db.documentId r0 = keep) as Hk0.
    { rewrite <- Hk, <- E. symmetry. apply rewrite_row_documentId. }
    rewrite rewrite_row_untouched in E by (now rewrite Hk0). now subst r0.
Qed.

(** A record written once holds the value written. *)
Lemma commit_all_writes uid field writes w doc v r :
  List.NoDup (List.map fst writes) ->
  In (doc, v) writes ->
  In r (Db.rows (store (commit_all false uid field writes w)) uid) ->
  Db.documentId r = doc ->
  Db.data r !! field = Some (Js.Str v).
Proof.
  intros Hnd Hw Hin Hd. rewrite rows_commit_all in Hin.
  apply in_map_iff in Hin as (r0 & <- & Hin).
  rewrite rewrite_row_documentId in Hd. subst doc.
  now apply rewrite_row_written.
Qed.

(** *** The members of the groups *)

Lemma holds_value_inj field k k' r :
  holds_value field k r = true -> holds_value field k' r = true -> k = k'.
Proof.
  unfold holds_value. intros H H'.
  apply andb_true_iff in H as [_ H], H' as [_ H'].
  apply String.eqb_eq in H, H'. congruence.
Qed.

Lemma members_disjoint field k k' rows d :
  List.NoDup (List.map Db.documentId rows) ->
  In d (members field k rows) -> In d (members field k' rows) -> k = k'.
Proof.
  unfold members. intros Hnd H H'.
  apply in_map_iff in H as (r & Er & Hr), H' as (r' & Er' & Hr').
  apply filter_In in Hr as [Hr Hv], Hr' as [Hr' Hv'].
  assert (r = r') as <-
    by (apply (nodup_map_injective Db.documentId rows); congruence).
  exact (holds_value_inj _ _ _ _ Hv Hv').
Qed.

(** The groups of distinct values share no Record Identity when every
    record is stored in one row. *)
Lemma groups_nodup field rows keys :
  List.NoDup (List.map Db.documentId rows) ->
  List.NoDup keys ->
  List.NoDup (List.concat (List.map (fun k => members field k rows) keys)).
Proof.
  intros Hrows. induction keys as [|k keys IH]; simpl; intros Hk; [constructor|].
  apply List.NoDup_cons_iff in Hk as [Hn Hk].
  apply List.NoDup_app; [now apply members_nodup | now apply IH |].
  intros d Hd Hd'. apply in_concat in Hd' as (ids & Hids & Hd').
  apply in_map_iff in Hids as (k' & <- & Hk').
  rewrite (members_disjoint _ _ _ _ _ Hrows Hd Hd') in Hn. contradiction.
Qed.

Lemma rest_in_concat idss d : In d (rest_of idss) -> In d (List.concat idss).
Proof.
  unfold rest_of. intros H. apply in_flat_map in H as (ids & Hids & Hd).
  apply in_concat. exists ids. split; [exact Hids|].
  destruct ids; [destruct Hd | now right].
Qed.

Lemma rest_nodup idss :
  List.NoDup (List.concat idss) -> List.NoDup (rest_of idss).
Proof.
  unfold rest_of. induction idss as [|ids idss IH]; simpl; intros H;
    [constructor|].
  apply nodup_app_inv in H as (H1 & H2 & H3).
  apply List.NoDup_app; [|now apply IH|].
  - destruct ids; [constructor|]. now apply List.NoDup_cons_iff in H1.
  - intros d Hd Hd'. apply (H3 d); [now apply rest_in_concat|].
    destruct ids; [destruct Hd | now right].
Qed.

Lemma first_not_in_rest idss keep rest :
  List.NoDup (List.concat idss) -> In (keep :: rest) idss ->
  ~ In keep (rest_of idss).
Proof.
  unfold rest_of. induction idss as [|ids idss IH]; simpl; intros H Hin;
    [destruct Hin|].
  apply nodup_app_inv in H as (H1 & H2 & H3). intros Hk.
  apply in_app_or in Hk. destruct Hin as [->|Hin].
  - destruct Hk as [Hk|Hk].
    + simpl in Hk. now apply List.NoDup_cons_iff in H1.
    + apply (H3 keep); [now apply rest_in_concat | now left].
  - destruct Hk as [Hk|Hk].
    + apply (H3 keep).
      * apply in_concat. exists (keep :: rest). split; [exact Hin | now left].
      * destruct ids; [destruct Hk | now right].
    + now apply IH.
Qed.

(** *** The planned changes *)

Lemma repaired_by_writes uid field w writes idss keep rest doc new :
  List.NoDup (List.concat idss) ->
  List.map fst writes = rest_of idss ->
  In (keep :: rest) idss ->
  In (doc, new) writes ->
  (exists i, drawn (entropy w) <= i < drawn (entropy w) + List.length writes
             /\ new = Uuid.v4 (random (entropy w) i)) ->
  repaired uid field w (commit_all false uid field writes w) keep doc new.
Proof.
  intros Hnd Hids Hg Hw Hi. split; [|split].
  - intros r Hr. apply (commit_all_keeps uid field writes w keep r); [|exact Hr].
    rewrite Hids. now apply (first_not_in_rest idss keep rest).
  - intros r Hin Hd. apply (commit_all_writes uid field writes w doc); auto.
    rewrite Hids. now apply rest_nodup.
  - destruct (commit_all_entropy uid field false writes w) as (_ & -> & _).
    exact Hi.
Qed.

Lemma plan_members_in rnd u keep rest : forall n c,
  In c (Plan.members rnd n u keep rest) ->
  Service.kept c = keep
  /\ exists i, n <= i < n + List.length rest
               /\ Service.newUuid c = Uuid.v4 (rnd i).
Proof.
  induction rest as [|d rest IH]; intros n c; simpl; [intros []|].
  intros [<-|Hin]; simpl.
  - split; [reflexivity|]. exists n. split; [lia|reflexivity].
  - destruct (IH _ _ Hin) as (Hk & i & Hi & Hv). split; [exact Hk|].
    exists i. split; [lia|exact Hv].
Qed.

Lemma plan_members_ids rnd u keep rest : forall n,
  List.map Service.documentId (Plan.members rnd n u keep rest) = rest.
Proof.
  induction rest as [|d rest IH]; intros n; simpl; [reflexivity|].
  now rewrite IH.
Qed.

Lemma plan_group_length rnd n g :
  List.length (Plan.group rnd n g) = List.length (List.tl (Service.documentIds g)).
Proof.
  unfold Plan.group. destruct (Service.documentIds g) as [|keep rest];
    [reflexivity|].
  rewrite <- (List.length_map Service.documentId), plan_members_ids.
  reflexivity.
Qed.

Lemma plan_groups_ids rnd dups : forall n,
  List.map Service.documentId (Plan.groups rnd n dups)
  = rest_of (List.map Service.documentIds dups).
Proof.
  unfold rest_of. induction dups as [|g dups IH]; intros n; simpl;
    [reflexivity|].
  rewrite List.map_app, IH. f_equal. unfold Plan.group.
  destruct (Service.documentIds g) as [|keep rest]; [reflexivity|].
  apply plan_members_ids.
Qed.

Lemma plan_groups_in rnd dups : forall n c,
  In c (Plan.groups rnd n dups) ->
  (exists rest, In (Service.kept c :: rest) (List.map Service.documentIds dups))
  /\ exists i, n <= i < n + List.length (Plan.groups rnd n dups)
               /\ Service.newUuid c = Uuid.v4 (rnd i).
Proof.
  induction dups as [|g dups IH]; intros n c; simpl; [intros []|].
  intros Hin. rewrite List.length_app. apply in_app_or in Hin as [Hin|Hin].
  - pose proof (plan_group_length rnd n g) as Hlen. unfold Plan.group in *.
    destruct (Service.documentIds g) as [|keep rest] eqn:Eg; [destruct Hin|].
    destruct (plan_members_in _ _ _ _ _ _ Hin) as (Hk & i & Hi & Hv).
    split; [exists rest; left; now rewrite Hk|].
    exists i. simpl in Hlen. split; [lia|exact Hv].
  - destruct (IH _ _ Hin) as ((rest & Hg) & i & Hi & Hv).
    split; [exists rest; now right|]. exists i. split; [lia|exact Hv].
Qed.

Lemma mplan_members_in rnd uid field u keep rest : forall n c,
  In c (MigrationPlan.members rnd n uid field u keep rest) ->
  Migrations.keptDocumentId c = Some keep
  /\ exists i, n <= i < n + List.length rest
               /\ Migrations.newValue c = Uuid.v4 (rnd i).
Proof.
  induction rest as [|d rest IH]; intros n c; simpl; [intros []|].
  intros [<-|Hin]; simpl.
  - split; [reflexivity|]. exists n. split; [lia|reflexivity].
  - destruct (IH _ _ Hin) as (Hk & i & Hi & Hv). split; [exact Hk|].
    exists i. split; [lia|exact Hv].
Qed.

Lemma mplan_members_ids rnd uid field u keep rest : forall n,
  List.map Migrations.documentId
           (MigrationPlan.members rnd n uid field u keep rest) = rest.
Proof.
  induction rest as [|d rest IH]; intros n; simpl; [reflexivity|].
  now rewrite IH.
Qed.

Lemma mplan_issue_ids rnd n uid field i :
  List.map Migrations.documentId (MigrationPlan.issue rnd n uid field i)
  = List.tl (ids_of i).
Proof.
  destruct i as [d v|u c [|keep rest]]; try reflexivity.
  apply mplan_members_ids.
Qed.

Lemma mplan_duplicates_ids rnd uid field issues : forall n,
  List.map Migrations.documentId
           (MigrationPlan.duplicates rnd n uid field issues)
  = rest_of (List.map ids_of issues).
Proof.
  unfold rest_of. induction issues as [|i issues IH]; intros n; simpl;
    [reflexivity|].
  now rewrite List.map_app, IH, mplan_issue_ids.
Qed.

Lemma mplan_duplicates_in rnd uid field issues : forall n c,
  In c (MigrationPlan.duplicates rnd n uid field issues) ->
  exists keep,
    Migrations.keptDocumentId c = Some keep
    /\ (exists rest, In (keep :: rest) (List.map ids_of issues))
    /\ exists i, n <= i
                 < n + List.length (MigrationPlan.duplicates rnd n uid field issues)
                 /\ Migrations.newValue c = Uuid.v4 (rnd i).
Proof.
  induction issues as [|i issues IH]; intros n c; simpl; [intros []|].
  intros Hin. rewrite List.length_app. apply in_app_or in Hin as [Hin|Hin].
  - pose proof (f_equal (@List.length _) (mplan_issue_ids rnd n uid field i))
      as Hlen. rewrite List.length_map in Hlen.
    destruct i as [d v|u cnt [|keep rest]]; try (destruct Hin).
    simpl in Hin, Hlen.
    destruct (mplan_members_in _ _ _ _ _ _ _ _ Hin) as (Hk & j & Hj & Hv).
    exists keep. split; [exact Hk|]. split; [exists rest; now left|].
    exists j. split; [simpl; lia|exact Hv].
  - destruct (IH _ _ Hin) as (keep & Hk & (rest & Hg) & j & Hj & Hv).
    exists keep. split; [exact Hk|]. split; [exists rest; now right|].
    exists j. split; [lia|exact Hv].
Qed.

(** *** The groups found share no Record Identity *)

Lemma groups_disjoint field rows (groups : list (string * list string))
      (p : string * list string -> bool) :
  List.NoDup (List.map Db.documentId rows) ->
  List.NoDup (List.map fst groups) ->
  (forall k ids, In (k, ids) groups -> ids = members field k rows) ->
  List.NoDup (List.concat (List.map snd (List.filter p groups))).
Proof.
  intros Hrows Hkeys Hin.
  rewrite (List.map_ext_in snd (fun g => members field (fst g) rows)).
  - rewrite <- (List.map_map fst (fun k => members field k rows)).
    apply groups_nodup; [exact Hrows|]. now apply nodup_map_fst_filter.
  - intros [k ids] H. apply filter_In in H as [H _]. simpl. now apply Hin.
Qed.

Lemma findDuplicatesForField_disjoint uid field w dups w1 :
  Service.findDuplicatesForField uid field w = (inr dups, w1) ->
  List.NoDup (List.map Db.documentId (Db.rows (store w) uid)) ->
  List.NoDup (List.concat (List.map Service.documentIds dups)).
Proof.
  rewrite findDuplicatesForField_run.
  destruct (Db.read_fault _ _); [discriminate|].
  destruct (Service.group_entries _ _ _) as [e|groups] eqn:Eg; [discriminate|].
  intros [= <- <-] Hnd.
  pose proof (group_entries_grouped field _ [] [] groups (grouped_nil field) Eg)
    as Hg. simpl in Hg.
  unfold Service.duplicates_of. rewrite List.map_map. cbn [Service.documentIds].
  apply (groups_disjoint field (Db.rows (store w) uid) (Js.entries groups));
    [exact Hnd | apply entries_keys_nodup, Hg |].
  intros k ids Hin. apply (proj1 (in_entries _ _)) in Hin.
  now destruct (grouped_in _ _ _ _ _ Hg Hin).
Qed.

Lemma concat_empty {A} (l : list (list A)) :
  (forall x, In x l -> x = []) -> List.concat l = [].
Proof.
  induction l as [|x l IH]; simpl; intros H; [reflexivity|].
  rewrite (H x) by (now left). apply IH. intros y Hy. apply H. now right.
Qed.

Lemma scanned_info_disjoint uid field attr rows :
  List.NoDup (List.map Db.documentId rows) ->
  List.NoDup
    (List.concat
       (List.map ids_of
                 (Migrations.issues (Migrations.scanned_info uid field attr rows)))).
Proof.
  intros Hnd. unfold Migrations.scanned_info. cbn [Migrations.issues].
  rewrite List.map_app, List.concat_app, concat_empty.
  - simpl. unfold Migrations.duplicate_issues, Migrations.duplicate_groups.
    rewrite List.map_map. cbn [ids_of].
    pose proof (scan_grouped field rows []
                  {| Migrations.empties := 0; Migrations.invalids := 0;
                     Migrations.invalid_issues := []; Migrations.by_uuid := [] |}
                  (grouped_nil field)) as Hg.
    simpl in Hg.
    apply (groups_disjoint field rows); [exact Hnd | apply Hg |].
    intros k ids Hin. now destruct (grouped_in _ _ _ _ _ Hg Hin).
  - intros ids Hin. apply in_map_iff in Hin as (i & <- & Hin).
    apply (invalid_issues_only field rows) in Hin as (d & v & ->);
      [reflexivity|].
    intros i' [].
Qed.

(** *** The repair of the service and of the migration *)

(** [fixDuplicatesForField], committed: every change of the change-log is
    a repaired member of its group. *)
Lemma fixDuplicatesForField_repairs uid field w :
  accepts_writes (store w) ->
  List.NoDup (List.map Db.documentId (Db.rows (store w) uid)) ->
  match Service.fixDuplicatesForField uid field false w with
  | (inr fixes, w') =>
      forall c, In c (Service.changes fixes) ->
                repaired uid field w w' (Service.kept c) (Service.documentId c)
                         (Service.newUuid c)
  | (inl _, w') => w' = w
  end.
Proof.
  intros Hacc Hnd. rewrite fixDuplicatesForField_run by (now right).
  destruct (Service.findDuplicatesForField uid field w) as [[e|dups] w1] eqn:Ef;
    [reflexivity|].
  cbv zeta. unfold Plan.added. cbn [Service.changes app]. intros c Hc.
  destruct (plan_groups_in _ _ _ _ Hc) as ((rest & Hg) & i & Hi & Hv).
  apply (repaired_by_writes uid field w _ (List.map Service.documentIds dups)
                            (Service.kept c) rest).
  - exact (findDuplicatesForField_disjoint _ _ _ _ _ Ef Hnd).
  - unfold Plan.writes. rewrite List.map_map. apply plan_groups_ids.
  - exact Hg.
  - unfold Plan.writes. apply in_map_iff. exists c. split; [reflexivity|exact Hc].
  - exists i. unfold Plan.writes. rewrite List.length_map.
    split; [exact Hi|exact Hv].
Qed.

(** The duplicate branch of [runMigration], committed, on the status of
    the field read from the store [st]. *)
Lemma fix_duplicates_repairs uid field attr st w r :
  accepts_writes (store w) ->
  List.NoDup (List.map Db.documentId (Db.rows st uid)) ->
  exists plan w',
    Migrations.fix_duplicates false (info_of st (uid, field, attr)) (w, r)
    = (inr tt, (w', MigrationPlan.added Migrations.duplicate_fix plan r))
    /\ forall c, In c plan ->
         exists keep,
           Migrations.keptDocumentId c = Some keep
           /\ repaired uid field w w' keep (Migrations.documentId c)
                       (Migrations.newValue c).
Proof.
  intros Hacc Hnd. unfold info_of. destruct (Db.read_fault st uid) as [msg|].
  - exists [], w. split; [|intros c []].
    unfold Migrations.fix_duplicates, Migrations.failed_info.
    cbn [Migrations.issues for_each]. now rewrite migration_added_nil.
  - unfold Migrations.fix_duplicates.
    pose proof (scanned_info_disjoint uid field attr (Db.rows st uid) Hnd) as Hd.
    change (Migrations.uid (Migrations.scanned_info uid field attr (Db.rows st uid)))
      with uid.
    change (Migrations.field
              (Migrations.scanned_info uid field attr (Db.rows st uid)))
      with field.
    set (issues := Migrations.issues _) in *.
    rewrite fix_duplicate_issues_run by (now right).
    eexists _, _. split; [reflexivity|]. intros c Hc.
    destruct (mplan_duplicates_in _ _ _ _ _ _ Hc)
      as (keep & Hk & (rest & Hg) & i & Hi & Hv).
    exists keep. split; [exact Hk|].
    apply (repaired_by_writes uid field w _ (List.map ids_of issues) keep rest).
    + exact Hd.
    + unfold MigrationPlan.writes. rewrite List.map_map.
      apply mplan_duplicates_ids.
    + exact Hg.
    + unfold MigrationPlan.writes. apply in_map_iff. exists c.
      split; [reflexivity|exact Hc].
    + exists i. unfold MigrationPlan.writes. rewrite List.length_map.
      split; [exact Hi|exact Hv].
Qed.

(* ===================================================================== *)
(** ** Uniqueness of the values after a repair *)
(* ===================================================================== *)

Lemma clash_true field r1 r2 :
  clash field r1 r2 = true ->
  exists v, value_of field r1 = Some v /\ value_of field r2 = Some v
            /\ Db.documentId r1 <> Db.documentId r2.
Proof.
  unfold clash.
  destruct (value_of field r1) as [a|], (value_of field r2) as [b|];
    try discriminate.
  intros H. apply andb_true_iff in H as [Hv Hd].
  apply String.eqb_eq in Hv. subst b.
  apply negb_true_iff, String.eqb_neq in Hd. eauto.
Qed.











(** *** The fields of [runMigration], one after the other *)

Lemma rewrite_row_app field writes1 writes2 r :
  rewrite_row field (writes1 ++ writes2) r
  = rewrite_row field writes2 (rewrite_row field writes1 r).
Proof. unfold rewrite_row. apply fold_left_app. Qed.

Section BulkFields.
Variables (fixEmpty fixInvalid fixDuplicates : bool).







End BulkFields.

(** *** What depends on the Record Identities and the values only *)


Lemma value_of_key field r1 r2 :
  key field r1 = key field r2 -> value_of field r1 = value_of field r2.
Proof. unfold key, value_of. now intros [= _ ->]. Qed.

Lemma clash_key field r1 r2 r1' r2' :
  key field r1 = key field r1' -> key field r2 = key field r2' ->
  clash field r1 r2 = clash field r1' r2'.
Proof.
  intros E1 E2. unfold clash.
  rewrite (value_of_key _ _ _ E1), (value_of_key _ _ _ E2).
  unfold key in E1, E2. injection E1 as -> _. injection E2 as -> _.
  reflexivity.
Qed.

Lemma in_keys field r rows1 rows2 :
  List.map (key field) rows1 = List.map (key field) rows2 ->
  In r rows1 -> exists r', In r' rows2 /\ key field r = key field r'.
Proof.
  intros E Hin. apply (in_map (key field)) in Hin. rewrite E in Hin.
  apply in_map_iff in Hin as (r' & E' & Hin). eauto.
Qed.

Lemma duplicate_free_keys field rows1 rows2 :
  List.map (key field) rows1 = List.map (key field) rows2 ->
  (forall r1 r2, In r1 rows1 -> In r2 rows1 -> clash field r1 r2 = false) ->
  forall r1 r2, In r1 rows2 -> In r2 rows2 -> clash field r1 r2 = false.
Proof.
  intros E H r1 r2 H1 H2. symmetry in E.
  destruct (in_keys _ _ _ _ E H1) as (r1' & H1' & E1).
  destruct (in_keys _ _ _ _ E H2) as (r2' & H2' & E2).
  rewrite (clash_key _ _ _ _ _ E1 E2). now apply H.
Qed.



(** *** Uniqueness after [runMigration] *)









(* ===================================================================== *)
(** ** Uniqueness of the values after a create and after an update *)
(* ===================================================================== *)

Section CreateGuard.
Variable config : Bootstrap.Config.
Hypothesis checking : Bootstrap.validateUniqueness config = true.



Lemma value_of_data field r v :
  value_of field r = Some v -> Db.data r !! field = Some (Js.Str v).
Proof.
  unfold value_of. destruct (Db.data r !! field) as [[|s]|]; try discriminate.
  destruct (Js.truthy_str s); [|discriminate]. now intros [= ->].
Qed.






End CreateGuard.

Section CreateLoop.
Variable config : Bootstrap.Config.
Hypothesis checking : Bootstrap.validateUniqueness config = true.





End CreateLoop.

Section UpdateUnique.
Variable config : Bootstrap.Config.
Hypothesis checking : Bootstrap.validateUniqueness config = true.

(** A loop of reading steps that returns has passed every step. *)
Lemma for_each_reader_all {A} (body : A -> M World unit) (l : list A) w w1 :
  (forall x, reader (body x)) ->
  for_each l body w = (inr tt, w1) ->
  forall x, In x l -> fst (body x w) = inr tt.
Proof.
  intros Hr. induction l as [|y l IH]; intros Hloop x Hin; [destruct Hin|].
  rewrite for_each_cons in Hloop.
  pose proof (proj1 (Hr y) w) as Hy.
  destruct (body y w) as [[e|[]] w2] eqn:Ey; [discriminate|].
  simpl in Hy. subst w2. destruct Hin as [<-|Hin].
  - now rewrite Ey.
  - now apply IH.
Qed.

(** The rows of other records do not hold a value the check let
    through. *)
Lemma isUuidExists_other_none uid field s d w :
  Js.truthy_str d = true ->
  fst (Bootstrap.isUuidExists config uid field s (Some d) w) = inr false ->
  forall r, In r (Db.rows (store w) uid) ->
            Db.data r !! field = Some (Js.Str s) -> Db.documentId r = d.
Proof.
  intros Hd. unfold Bootstrap.isUuidExists, Bootstrap.checkUuidExists.
  rewrite checking. cbn [negb]. rewrite (or_else_fixed d Hd).
  unfold bind, Documents.findFirst, Documents.query.
  destruct (Db.read_fault _ _); [discriminate|].
  destruct (find _ _) as [r0|] eqn:Ef; simpl; [discriminate|].
  intros _ r Hin Hv. pose proof (find_none _ _ Ef r Hin) as Hm.
  unfold Db.matches in Hm. simpl in Hm.
  rewrite Hv, String.eqb_refl, andb_true_r in Hm. simpl in Hm.
  now apply negb_false_iff, String.eqb_eq in Hm.
Qed.

(** What a passed turn of the loop of [beforeUpdate] has checked. *)
Lemma beforeUpdate_field_checked uid data d field w :
  Js.truthy_str d = true ->
  fst (Bootstrap.beforeUpdate_field config uid data d field w) = inr tt ->
  forall s, data !! field = Some (Js.Str s) -> Js.truthy_str s = true ->
  forall r, In r (Db.rows (store w) uid) ->
            Db.data r !! field = Some (Js.Str s) -> Db.documentId r = d.
Proof.
  intros Hd Hpass s Hs Ht. rewrite beforeUpdate_field_run, Hs in Hpass.
  assert (Js.truthy (Some (Js.Str s)) = true) as Htruthy by exact Ht.
  rewrite Htruthy, checking in Hpass. cbn [andb Js.show] in Hpass.
  destruct (negb (Uuid.validateUuid (Some (Js.Str s)))); [discriminate|].
  pose proof (isUuidExists_other_none uid field s d w Hd) as Hnone.
  destruct (Bootstrap.isUuidExists config uid field s (Some d) w)
    as [[e|[|]] w1]; try discriminate.
  now apply Hnone.
Qed.

Lemma value_of_merge_absent field data r :
  data !! field = None ->
  value_of field (Lifecycle.merge data r) = value_of field r.
Proof.
  intros H. unfold value_of, Lifecycle.merge. cbn [Db.data].
  now rewrite lookup_union_r.
Qed.



End UpdateUnique.

(** *** Uniqueness after [autofix] *)







(** *** The identifiers of the repairs *)








(* ===================================================================== *)
(** ** The duplicate repair, member by member *)
(* ===================================================================== *)









(* ===================================================================== *)
(** ** Uniqueness after the operations *)
(* ===================================================================== *)



Lemma scenario_well_formed : well_formed Scenario.schemas.
Proof.
  split.
  - vm_compute. repeat constructor; simpl; intuition discriminate.
  - intros uid ct Hin. vm_compute in Hin.
    destruct Hin as [Hin|[]]. injection Hin as <- <-.
    vm_compute. repeat constructor; simpl; intuition discriminate.
Qed.


(* ===================================================================== *)
(** ** The layout of the generated identifiers *)
(* ===================================================================== *)

Lemma hex_digit_is_hex n : (n < 16)%N -> Uuid.is_hex (Uuid.hex_digit n) = true.
Proof.
  intros H.
  assert (forallb (fun k => Uuid.is_hex (Uuid.hex_digit (N.of_nat k))) (seq 0 16)
          = true) as Hall by reflexivity.
  rewrite forallb_forall in Hall. rewrite <- (N2Nat.id n).
  apply Hall, in_seq. lia.
Qed.

Lemma stamp_length version x : List.length (Uuid.stamp version x) = 32.
Proof. unfold Uuid.stamp. now rewrite List.length_map, List.length_seq. Qed.

Lemma variant_bound y : (N.lor 8 (N.land y 3) < 16)%N.
Proof.
  assert (N.land y 3 < 4)%N as H.
  { change 3%N with (N.ones 2). rewrite N.land_ones. now apply N.mod_lt. }
  assert (N.land y 3 = 0 \/ N.land y 3 = 1 \/ N.land y 3 = 2 \/ N.land y 3 = 3)%N
    as Hn by lia.
  destruct Hn as [-> | [-> | [-> | ->]]]; reflexivity.
Qed.

Lemma stamp_bound version x n :
  (version < 16)%N -> In n (Uuid.stamp version x) -> (n < 16)%N.
Proof.
  intros Hv Hin. unfold Uuid.stamp in Hin.
  apply in_map_iff in Hin as (i & <- & _).
  do 17 (destruct i as [|i];
         [solve [apply nibble_bound | exact Hv | apply variant_bound]|]).
  apply nibble_bound.
Qed.

Lemma stamp_version version x : nth 12 (Uuid.stamp version x) 0%N = version.
Proof. reflexivity. Qed.

(** The rendering of 32 hexadecimal digits with a version digit in its
    place has the standard layout. *)
Lemma render_valid ns :
  List.length ns = 32 ->
  (forall n, In n ns -> (n < 16)%N) ->
  nth 12 ns 0%N = 4%N \/ nth 12 ns 0%N = 7%N ->
  Uuid.validate_string (Uuid.render ns) = true.
Proof.
  intros Hlen Hb Hv.
  do 32 (destruct ns as [|? ns]; [discriminate|]).
  destruct ns; [|discriminate]. clear Hlen.
  cbn [nth] in Hv.
  assert (Uuid.is_version (Uuid.hex_digit n11) = true) as Hver
    by (destruct Hv as [->| ->]; reflexivity).
  repeat match goal with
         | n : N |- _ =>
             lazymatch goal with
             | H : Uuid.is_hex (Uuid.hex_digit n) = true |- _ => fail
             | _ => assert (Uuid.is_hex (Uuid.hex_digit n) = true)
                      by (apply hex_digit_is_hex, Hb; simpl; tauto)
             end
         end.
  clear Hb Hv. unfold Uuid.validate_string, Uuid.render.
  cbn [firstn skipn Uuid.hex_of]. cbv [append].
  cbn [String.length Nat.eqb andb Uuid.layout_from Uuid.layout_ok].
  repeat match goal with
         | H : Uuid.is_hex _ = true |- _ => rewrite H; clear H
         end.
  rewrite Hver. reflexivity.
Qed.

Lemma v4_valid random : Uuid.validate_string (Uuid.v4 random) = true.
Proof.
  unfold Uuid.v4. apply render_valid.
  - apply stamp_length.
  - intros n. now apply stamp_bound.
  - left. apply stamp_version.
Qed.

Lemma v7_valid now random : Uuid.validate_string (Uuid.v7 now random) = true.
Proof.
  unfold Uuid.v7. apply render_valid.
  - apply stamp_length.
  - intros n. now apply stamp_bound.
  - right. apply stamp_version.
Qed.

(* ===================================================================== *)
(** ** Well-formed values: [ensureUuid] and [beforeCreate] *)
(* ===================================================================== *)

Lemma valid_truthy v : Uuid.validateUuid v = true -> Js.truthy v = true.
Proof.
  destruct v as [[|s]|]; try discriminate. simpl.
  unfold Uuid.validate_string. intros H. apply andb_true_iff in H as [H _].
  destruct s; [discriminate|reflexivity].
Qed.

Lemma valid_shown v :
  Uuid.validateUuid v = true -> v = Some (Js.Str (Js.show v)).
Proof. destruct v as [[|s]|]; try discriminate. reflexivity. Qed.

(** X1: [ensureUuid] always returns a well-formed identifier: a well-formed
    value is returned as it is and nothing is generated, any other value
    is replaced by the next generated identifier; applied to its own
    result it returns it again. *)
Theorem ensureUuid_valid value w :
  exists v w',
    Service.ensureUuid value w = (inr v, w')
    /\ Uuid.validate_string v = true
    /\ (Uuid.validateUuid value = true -> value = Some (Js.Str v) /\ w' = w)
    /\ (Uuid.validateUuid value = false ->
        v = Uuid.v4 (random (entropy w) (drawn (entropy w))) /\ w' = advance w)
    /\ Service.ensureUuid (Some (Js.Str v)) w' = (inr v, w').
Proof.
  assert (forall s w0, Uuid.validate_string s = true ->
                       Service.ensureUuid (Some (Js.Str s)) w0 = (inr s, w0))
    as Hkeep.
  { intros s w0 Hs. unfold Service.ensureUuid.
    rewrite (valid_truthy (Some (Js.Str s)) Hs). simpl. now rewrite Hs. }
  destruct (Uuid.validateUuid value) eqn:Hv.
  - destruct value as [[|s]|]; try discriminate. simpl in Hv.
    exists s, w. split; [now apply Hkeep|]. split; [exact Hv|].
    split; [now split|]. split; [discriminate|now apply Hkeep].
  - exists (Uuid.v4 (random (entropy w) (drawn (entropy w)))), (advance w).
    split.
    { unfold Service.ensureUuid. rewrite Hv, orb_true_r. reflexivity. }
    split; [apply v4_valid|]. split; [discriminate|].
    split; [now split|]. apply Hkeep, v4_valid.
Qed.

(** *** Every generated identifier is well-formed *)

Lemma generateUuid_valid config version w v w' :
  Bootstrap.generateUuid config version w = (inr v, w') ->
  Uuid.validate_string v = true.
Proof.
  unfold Bootstrap.generateUuid, uuidv7, uuidv4.
  destruct (String.eqb _ "v7"); [destruct (has_v7 (entropy w))|];
    intros [= <- _]; auto using v4_valid, v7_valid.
Qed.

Lemma candidate_valid config w : Uuid.validate_string (candidate config w 0) = true.
Proof.
  pose proof (generateUuid_candidate config w) as H.
  exact (generateUuid_valid _ _ _ _ _ H).
Qed.

Lemma attempts_valid config uid field n : forall w v w',
  Bootstrap.attempts config uid field n w = (inr v, w') ->
  Uuid.validate_string v = true.
Proof.
  induction n as [|n IH]; intros w v w'; [discriminate|].
  rewrite attempts_step.
  destruct (negb (Bootstrap.validateUniqueness config)).
  - intros [= <- _]. apply candidate_valid.
  - destruct (Bootstrap.isUuidExists _ _ _ _ _ _) as [[e|b] w1]; [discriminate|].
    destruct (negb b); [intros [= <- _]; apply candidate_valid|apply IH].
Qed.

Lemma regenerate_valid config uid field w data w' data' :
  regenerate config uid field (w, data) = (inr tt, (w', data')) ->
  exists u, data' = <[field := Js.Str u]> data /\ Uuid.validate_string u = true.
Proof.
  unfold regenerate, Bootstrap.generateUniqueUuid. cbn [fst snd].
  destruct (Bootstrap.attempts config uid field _ w) as [[e|u] w1] eqn:E;
    [discriminate|].
  intros [= <- <-]. exists u. split; [reflexivity|].
  exact (attempts_valid _ _ _ _ _ _ _ E).
Qed.

(** One turn of the loop of [beforeCreate] with [autoGenerate] on: the
    value of the field is well-formed afterwards, and the other keys of
    the payload are as before. *)
Lemma beforeCreate_field_format config uid current field w data w' data' :
  Bootstrap.autoGenerate config = true ->
  Bootstrap.beforeCreate_field config uid current field (w, data)
  = (inr tt, (w', data')) ->
  Uuid.validateUuid (data' !! field) = true
  /\ forall f, f <> field -> data' !! f = data !! f.
Proof.
  intros Hauto.
  assert (forall w0, regenerate config uid field (w0, data) = (inr tt, (w', data')) ->
                     Uuid.validateUuid (data' !! field) = true
                     /\ forall f, f <> field -> data' !! f = data !! f) as Hreg.
  { intros w0 H. apply regenerate_valid in H as (u & -> & Hu). split.
    - now rewrite lookup_insert_eq.
    - intros f Hf. now rewrite lookup_insert_ne by congruence. }
  unfold Bootstrap.beforeCreate_field.
  unfold bind at 1. unfold locals at 1. cbv beta iota zeta. cbn [snd].
  rewrite Hauto, andb_true_r.
  destruct (Js.truthy (data !! field)) eqn:Ht;
    [|cbn [negb orb]; rewrite regenerate_run; apply Hreg].
  destruct (Uuid.validateUuid (data !! field)) eqn:Hv;
    [|cbn [negb orb]; rewrite regenerate_run; apply Hreg].
  cbn [negb orb andb].
  assert (forall w0 : World,
             (@inr Error unit tt, (w0, data)) = (inr tt, (w', data')) ->
                     Uuid.validateUuid (data' !! field) = true
                     /\ forall f, f <> field -> data' !! f = data !! f) as Hkeep.
  { intros w0 [= _ <-]. now split. }
  destruct (Bootstrap.validateUniqueness config); [|apply Hkeep].
  unfold bind at 1. unfold on_world at 1. cbn [fst snd].
  destruct (Bootstrap.checkUuidExists config uid field (Js.show (data !! field))
                                      None w) as [[e|[[|] owner]] w1];
    [discriminate| |apply Hkeep].
  destruct current as [d|], owner as [d'|];
    try (rewrite regenerate_run; apply Hreg); [|apply Hkeep].
  destruct (String.eqb d' d); [apply Hkeep|rewrite regenerate_run; apply Hreg].
Qed.

Lemma beforeCreate_fields_format config uid current fields :
  Bootstrap.autoGenerate config = true ->
  forall w data w' data',
    for_each fields (Bootstrap.beforeCreate_field config uid current) (w, data)
    = (inr tt, (w', data')) ->
    (forall f, In f fields -> Uuid.validateUuid (data' !! f) = true)
    /\ (forall f, ~ In f fields -> data' !! f = data !! f).
Proof.
  intros Hauto. induction fields as [|x fields IH]; intros w data w' data'.
  - intros [= _ <-]. split; [intros f []|reflexivity].
  - rewrite for_each_cons.
    destruct (Bootstrap.beforeCreate_field config uid current x (w, data))
      as [[e|[]] [w1 data1]] eqn:Ex; [discriminate|].
    intros Hrest.
    destruct (beforeCreate_field_format _ _ _ _ _ _ _ _ Hauto Ex) as [Hx Hother].
    destruct (IH _ _ _ _ Hrest) as [Hin Hout]. split.
    + intros f [<-|Hf]; [|now apply Hin].
      destruct (in_dec string_dec x fields) as [Hl|Hl]; [now apply Hin|].
      now rewrite Hout.
    + intros f Hf. rewrite Hout by (intros H; apply Hf; now right).
      apply Hother. intros ->. apply Hf. now left.
Qed.

(** X2: After [beforeCreate] with [autoGenerate] on, every monitored field of
    the payload holds a well-formed identifier, and the hook has changed
    no other key of the payload; a content type that is not monitored is
    left alone. *)
Theorem beforeCreate_format config models event w data w' :
  Bootstrap.autoGenerate config = true ->
  Bootstrap.beforeCreate config models event w = (inr data, w') ->
  let fields := default [] (Js.get models (Bootstrap.model_uid event)) in
  (forall f, In f fields -> Uuid.validateUuid (data !! f) = true)
  /\ (forall f, ~ In f fields -> data !! f = Bootstrap.params_data event !! f).
Proof.
  intros Hauto. unfold Bootstrap.beforeCreate.
  destruct (Js.get models (Bootstrap.model_uid event)) as [fields|].
  - unfold with_locals. unfold bind at 1.
    destruct (for_each fields _ _) as [[e|[]] [w1 data1]] eqn:E; [discriminate|].
    unfold locals. cbn [fst snd]. intros [= <- _]. cbn [default].
    exact (beforeCreate_fields_format _ _ _ _ Hauto _ _ _ _ E).
  - intros [= <- _]. split; [intros f []|reflexivity].
Qed.


(** A legacy value that is not well-formed is replaced; the title stays. *)
Lemma beforeCreate_format_witness :
  match fst (Bootstrap.beforeCreate
               Scenario.defaults Scenario.models
               (Scenario.creation {["title" := Js.Str "a"; "uuid" := Js.Str "legacy-1"]})
               (Scenario.world
                  (Scenario.sound [Scenario.row 1 "d1" (Some Scenario.uuid0)]))) with
  | inr data => Uuid.validateUuid (data !! "uuid") = true
  | inl _ => False
  end.
Proof.
  destruct (Bootstrap.beforeCreate _ _ _ _) as [[e|data] w'] eqn:E.
  - vm_compute in E. discriminate E.
  - cbn [fst].
    apply (beforeCreate_format Scenario.defaults _ _ _ _ _ eq_refl E).
    vm_compute. now left.
Defined.

(* ===================================================================== *)
(** ** The duplicate check of the service *)
(* ===================================================================== *)

Lemma find_some_iff {A} (p : A -> bool) (l : list A) :
  (exists x, List.find p l = Some x) <-> exists x, In x l /\ p x = true.
Proof.
  split.
  - intros (x & H). apply List.find_some in H. now exists x.
  - intros (x & Hin & Hp). destruct (List.find p l) as [y|] eqn:E.
    + now exists y.
    + now rewrite (List.find_none _ _ E x Hin) in Hp.
Qed.

Lemma checkDuplicate_filters_hold field uuid exclude r :
  Db.matches (Db.FieldEq field uuid
              :: match Js.or_else exclude None with
                 | Some d => [Db.DocumentIdNe d]
                 | None => []
                 end) r = true
  <-> Db.data r !! field = Some (Js.Str uuid)
      /\ forall d, Js.or_else exclude None = Some d -> Db.documentId r <> d.
Proof.
  unfold Db.matches. cbn [forallb Db.holds].
  destruct (Db.data r !! field) as [[|s]|] eqn:E.
  - cbn. split; [discriminate | intros [H _]; discriminate].
  - destruct (String.eqb_spec s uuid) as [->|Hne].
    + cbn [andb]. destruct (Js.or_else exclude None) as [d|].
      * cbn [forallb Db.holds]. rewrite andb_true_r.
        destruct (String.eqb_spec (Db.documentId r) d) as [Hd|Hd]; cbn.
        -- split; [discriminate|]. intros [_ H]. now destruct (H d eq_refl).
        -- split; [|reflexivity]. intros _. split; [reflexivity|].
           intros d' [= <-]. exact Hd.
      * cbn. split; [|reflexivity]. intros _. split; [reflexivity|]. discriminate.
    + cbn [andb]. split; [discriminate|]. intros [[= H] _]. now destruct Hne.
  - cbn. split; [discriminate | intros [H _]; discriminate].
Qed.


(** X3: [checkDuplicate] of the service never changes the world. A malformed
    identifier is answered [{ exists: false, valid: false }] without a
    query, even when the datastore would reject it. For a well-formed one
    the rejection of the query is thrown; otherwise [exists] tells whether
    a row holds the identifier in the field, rows of the excluded document
    apart, and the answer is the one the hooks get from [isUuidExists]
    when they check uniqueness. *)
Theorem checkDuplicate_answer (config : Bootstrap.Config)
        (contentType field uuid : string) (exclude : option string) (w : World) :
  snd (Service.checkDuplicate contentType field uuid exclude w) = w
  /\ (Uuid.validate_string uuid = false ->
      fst (Service.checkDuplicate contentType field uuid exclude w)
      = inr {| Service.check_exists := false; Service.check_valid := false |})
  /\ (Uuid.validate_string uuid = true ->
      match Db.read_fault (store w) contentType with
      | Some msg =>
          fst (Service.checkDuplicate contentType field uuid exclude w)
          = inl (DatastoreError msg)
      | None =>
          exists b,
            fst (Service.checkDuplicate contentType field uuid exclude w)
            = inr {| Service.check_exists := b; Service.check_valid := true |}
            /\ (b = true <->
                exists r, In r (Db.rows (store w) contentType)
                          /\ Db.data r !! field = Some (Js.Str uuid)
                          /\ forall d, Js.or_else exclude None = Some d ->
                                       Db.documentId r <> d)
            /\ (Bootstrap.validateUniqueness config = true ->
                fst (Bootstrap.isUuidExists config contentType field uuid
                                            exclude w) = inr b)
      end).
Proof.
  unfold Service.checkDuplicate.
  destruct (Uuid.validate_string uuid) eqn:Hv; cbn [negb].
  - unfold bind, Documents.findFirst, Documents.query, ret.
    destruct (Db.read_fault (store w) contentType) as [msg|] eqn:Hr.
    + split; [reflexivity|]. split; [discriminate|]. intros _. reflexivity.
    + cbn [fst snd]. split; [reflexivity|]. split; [discriminate|]. intros _.
      set (filters := Db.FieldEq field uuid :: _).
      exists (match List.find (Db.matches filters) (Db.rows (store w) contentType)
              with Some _ => true | None => false end).
      split; [reflexivity|]. split.
      * assert ((exists r, In r (Db.rows (store w) contentType)
                           /\ Db.data r !! field = Some (Js.Str uuid)
                           /\ forall d, Js.or_else exclude None = Some d ->
                                        Db.documentId r <> d)
                <-> exists r, List.find (Db.matches filters)
                                        (Db.rows (store w) contentType) = Some r)
          as ->.
        { rewrite find_some_iff. split; intros (r & Hin & H); exists r;
            (split; [exact Hin|]); now apply checkDuplicate_filters_hold. }
        destruct (List.find _ _) as [r|].
        -- split; [intros _|reflexivity]. now exists r.
        -- split; [discriminate|]. intros (r & Hr'). discriminate.
      * intros Hu. unfold Bootstrap.isUuidExists, Bootstrap.checkUuidExists.
        rewrite Hu. cbn [negb]. unfold bind, Documents.findFirst, Documents.query, ret.
        rewrite Hr. cbn [fst]. fold filters.
        now destruct (List.find _ _).
  - unfold ret. cbn [fst snd]. split; [reflexivity|]. split; [reflexivity|].
    discriminate.
Qed.

(* ===================================================================== *)
(** ** The status report *)
(* ===================================================================== *)

Lemma check_field_checked uid attrName attr w report :
  Migrations.check_field uid attrName attr (w, report)
  = (inr tt, (w, checked (store w) report (uid, attrName, attr))).
Proof.
  unfold Migrations.check_field, checked, info_of, bind, try_catch, on_world,
    on_locals, ret.
  cbn [fst snd]. rewrite findMany_all.
  destruct (Db.read_fault (store w) uid) as [msg|]; cbn [fst snd].
  - cbn. rewrite Nat.add_0_r, orb_false_r. reflexivity.
  - cbn. rewrite app_nil_r. reflexivity.
Qed.

Lemma check_attributes_checked uid w attrs : forall report,
  for_each attrs
    (fun na => let '(attrName, attr) := na in
               when (is_uuid_attribute attr)
                    (Migrations.check_field uid attrName attr))
    (w, report)
  = (inr tt,
     (w, fold_left (checked (store w))
           (List.map (fun na => (uid, fst na, snd na))
              (List.filter (fun na => is_uuid_attribute (snd na)) attrs))
           report)).
Proof.
  induction attrs as [|[attrName attr] attrs IH]; intros report.
  - reflexivity.
  - rewrite for_each_cons. cbn [List.filter snd fst]. unfold when at 1.
    destruct (is_uuid_attribute attr).
    + rewrite check_field_checked. rewrite IH. reflexivity.
    + unfold ret. rewrite IH. reflexivity.
Qed.

Lemma check_types_checked w types : forall report,
  for_each types
    (fun uc =>
       let '(uid, contentType) := uc in
       when (String.prefix "api::" uid)
         (for_each (Js.entries (attributes contentType))
            (fun na => let '(attrName, attr) := na in
                       when (is_uuid_attribute attr)
                            (Migrations.check_field uid attrName attr))))
    (w, report)
  = (inr tt,
     (w, fold_left (checked (store w))
           (List.flat_map
              (fun uc =>
                 if String.prefix "api::" (fst uc)
                 then List.map (fun na => (fst uc, fst na, snd na))
                        (List.filter (fun na => is_uuid_attribute (snd na))
                                     (Js.entries (attributes (snd uc))))
                 else [])
              types)
           report)).
Proof.
  induction types as [|[uid ct] types IH]; intros report.
  - reflexivity.
  - rewrite for_each_cons. cbn [List.flat_map fst snd]. unfold when at 1.
    destruct (String.prefix "api::" uid).
    + rewrite check_attributes_checked, IH, fold_left_app. reflexivity.
    + unfold ret. rewrite IH. reflexivity.
Qed.

Lemma checkMigrationStatus_checked schemas w :
  Migrations.checkMigrationStatus schemas w
  = (inr (fold_left (checked (store w)) (monitored schemas) unchecked), w).
Proof.
  unfold Migrations.checkMigrationStatus, with_locals, bind.
  rewrite check_types_checked. reflexivity.
Qed.

Lemma checked_fold st ms : forall report,
  let status := fold_left (checked st) ms report in
  Migrations.contentTypes status
  = Migrations.contentTypes report ++ List.map (info_of st) ms
  /\ Migrations.totalFields status = Migrations.totalFields report + List.length ms
  /\ Migrations.needsMigration status
     = Migrations.needsMigration report
       || existsb Migrations.has_issues (List.map (info_of st) ms)
  /\ Migrations.totalEntries status
     = Migrations.totalEntries report
       + list_sum (List.map (fun i => default 0 (Migrations.entryCount i))
                            (List.map (info_of st) ms))
  /\ List.length (Migrations.status_issues status)
     = List.length (Migrations.status_issues report)
       + List.length (List.filter (fun i => match Migrations.error i with
                                            | Some _ => true | None => false end)
                                  (List.map (info_of st) ms)).
Proof.
  induction ms as [|m ms IH]; intros report; cbn zeta.
  - cbn. rewrite app_nil_r, orb_false_r, !Nat.add_0_r. auto.
  - cbn [fold_left List.map existsb List.filter].
    destruct (IH (checked st report m)) as (H1 & H2 & H3 & H4 & H5).
    rewrite H1, H2, H3, H4, H5. cbn [checked Migrations.contentTypes
      Migrations.totalFields Migrations.needsMigration Migrations.totalEntries
      Migrations.status_issues].
    rewrite <- app_assoc, orb_assoc, length_app. cbn [app List.length].
    split; [reflexivity|]. split; [lia|]. split; [reflexivity|].
    split; [unfold list_sum; cbn [fold_right]; lia|].
    destruct (Migrations.error (info_of st m)); cbn [List.length]; lia.
Qed.

Lemma scan_counts attrName entries : forall s,
  let s' := fold_left (Migrations.scan_entry attrName) entries s in
  Migrations.empties s'
  = Migrations.empties s
    + List.length (List.filter
                     (fun r => negb (Js.truthy (Db.data r !! attrName))) entries)
  /\ Migrations.invalids s'
     = Migrations.invalids s
       + List.length (List.filter
                        (fun r => Js.truthy (Db.data r !! attrName)
                                  && negb (Uuid.validateUuid (Db.data r !! attrName)))
                        entries)
  /\ List.length (Migrations.invalid_issues s')
     = List.length (Migrations.invalid_issues s)
       + List.length (List.filter
                        (fun r => Js.truthy (Db.data r !! attrName)
                                  && negb (Uuid.validateUuid (Db.data r !! attrName)))
                        entries).
Proof.
  induction entries as [|e entries IH]; intros s; cbn zeta.
  - cbn. lia.
  - cbn [fold_left List.filter].
    destruct (IH (Migrations.scan_entry attrName s e)) as (H1 & H2 & H3).
    rewrite H1, H2, H3. unfold Migrations.scan_entry.
    destruct (Js.truthy (Db.data e !! attrName)); cbn [negb andb].
    + destruct (Uuid.validateUuid (Db.data e !! attrName)); cbn [negb];
        cbn [Migrations.empties Migrations.invalids Migrations.invalid_issues
             List.length]; rewrite ?length_app; cbn [List.length]; lia.
    + cbn [Migrations.empties Migrations.invalids Migrations.invalid_issues
           List.length]. lia.
Qed.

Lemma filter_length_zero {A} (p : A -> bool) (l : list A) :
  List.length (List.filter p l) = 0 <-> forall x, In x l -> p x = false.
Proof.
  induction l as [|a l IH]; cbn [List.filter].
  - split; [intros _ x []|reflexivity].
  - destruct (p a) eqn:E; cbn [List.length].
    + split; [discriminate|]. intros H. rewrite (H a) in E; [discriminate|now left].
    + rewrite IH. split.
      * intros H x [<-|Hx]; auto.
      * intros H x Hx. apply H. now right.
Qed.

Lemma duplicate_total_fold l : forall a,
  fold_left (fun n (g : string * list string) => n + (List.length (snd g) - 1)) l a
  = a + fold_left (fun n (g : string * list string) =>
                     n + (List.length (snd g) - 1)) l 0.
Proof.
  induction l as [|g l IH]; intros a; cbn [fold_left].
  - lia.
  - rewrite IH, (IH (0 + _)). lia.
Qed.

Lemma duplicate_total_zero m :
  Migrations.duplicate_total m = 0
  <-> forall g, In g m -> List.length (snd g) <= 1.
Proof.
  unfold Migrations.duplicate_total, Migrations.duplicate_groups.
  induction m as [|g m IH]; cbn [List.filter].
  - cbn. split; [intros _ g []|reflexivity].
  - destruct (Nat.ltb_spec 1 (List.length (snd g))) as [Hlt|Hle].
    + cbn [fold_left]. rewrite duplicate_total_fold. split.
      * lia.
      * intros H. specialize (H g (or_introl eq_refl)). lia.
    + rewrite IH. split.
      * intros H x [<-|Hx]; auto.
      * intros H x Hx. apply H. now right.
Qed.

Lemma holds_value_data field k r :
  holds_value field k r = true <-> Db.data r !! field = Some (Js.Str k) /\ k <> "".
Proof.
  unfold holds_value, Js.truthy, Js.show.
  destruct (Db.data r !! field) as [[|s]|]; cbn.
  - split; [discriminate | intros [H _]; discriminate].
  - destruct (String.eqb_spec s ""), (String.eqb_spec s k); cbn; subst.
    + split; [discriminate|]. now intros [_ H].
    + split; [discriminate|]. intros [[= H] _]. contradiction.
    + split; [now split|reflexivity].
    + split; [discriminate|]. intros [[= H] _]. contradiction.
  - split; [discriminate | intros [H _]; discriminate].
Qed.

Lemma members_cons field k r rows :
  members field k (r :: rows)
  = (if holds_value field k r then [Db.documentId r] else [])
    ++ members field k rows.
Proof.
  unfold members. cbn [List.filter].
  now destruct (holds_value field k r).
Qed.

Lemma members_empty field k rows :
  members field k rows = []
  <-> forall r, In r rows -> holds_value field k r = false.
Proof.
  unfold members. rewrite <- filter_length_zero, length_zero_iff_nil.
  split; [intros H; now apply map_eq_nil in H | now intros ->].
Qed.

(** When every row holds a non-empty value, no value has two members
    exactly when the values of the rows are pairwise distinct. *)
Lemma members_single field rows :
  (forall r, In r rows -> Js.truthy (Db.data r !! field) = true) ->
  (forall k, List.length (members field k rows) <= 1)
  <-> List.NoDup (List.map (fun r => Db.data r !! field) rows).
Proof.
  induction rows as [|r rows IH]; intros Ht.
  - cbn. split; [constructor|lia].
  - assert (holds_value field (Js.show (Db.data r !! field)) r = true) as Hr.
    { unfold holds_value. rewrite (Ht r (or_introl eq_refl)), String.eqb_refl.
      reflexivity. }
    assert (forall x, In x rows -> Js.truthy (Db.data x !! field) = true) as Ht'.
    { intros x Hx. apply Ht. now right. }
    cbn [List.map]. split.
    + intros H. constructor.
      * intros Hin. apply in_map_iff in Hin as (r' & Heq & Hin).
        specialize (H (Js.show (Db.data r !! field))).
        rewrite members_cons, Hr, length_app in H. cbn [List.length] in H.
        assert (members field (Js.show (Db.data r !! field)) rows = []) as Hm
          by (apply length_zero_iff_nil; lia).
        rewrite members_empty in Hm. specialize (Hm r' Hin).
        unfold holds_value in Hm. rewrite Heq in Hm.
        rewrite (Ht r (or_introl eq_refl)), String.eqb_refl in Hm. discriminate.
      * apply IH; [exact Ht'|]. intros k. specialize (H k).
        rewrite members_cons, length_app in H. lia.
    + intros H k. inversion H as [|? ? Hnin Hnd]; subst.
      rewrite members_cons, length_app.
      destruct (holds_value field k r) eqn:Hk; cbn [List.length].
      * assert (members field k rows = []) as ->; [|cbn; lia].
        apply members_empty. intros r' Hin.
        destruct (holds_value field k r') eqn:Hk'; [|reflexivity].
        destruct Hnin. apply in_map_iff. exists r'. split; [|exact Hin].
        apply holds_value_data in Hk as [-> _].
        now apply holds_value_data in Hk' as [-> _].
      * apply (proj2 (IH Ht') Hnd).
Qed.

Lemma scan_invalid_issues attrName entries : forall s d v,
  In (Migrations.InvalidIssue d v)
     (Migrations.invalid_issues
        (fold_left (Migrations.scan_entry attrName) entries s))
  <-> In (Migrations.InvalidIssue d v) (Migrations.invalid_issues s)
      \/ exists r, In r entries /\ Db.documentId r = d
                   /\ Db.data r !! attrName = Some (Js.Str v)
                   /\ v <> "" /\ Uuid.validate_string v = false.
Proof.
  induction entries as [|e entries IH]; intros s d v; cbn [fold_left].
  - split; [now left | intros [H|(r & [] & _)]; exact H].
  - rewrite IH. clear IH.
    assert (In (Migrations.InvalidIssue d v)
               (Migrations.invalid_issues (Migrations.scan_entry attrName s e))
            <-> In (Migrations.InvalidIssue d v) (Migrations.invalid_issues s)
                \/ (Db.documentId e = d
                    /\ Db.data e !! attrName = Some (Js.Str v)
                    /\ v <> "" /\ Uuid.validate_string v = false)) as ->.
    { unfold Migrations.scan_entry.
      destruct (Db.data e !! attrName) as [[|x]|] eqn:E; cbn [Js.truthy negb].
      - cbn. split; [now left | intros [H|(_ & H & _)]; [exact H|discriminate]].
      - destruct (String.eqb_spec x "") as [->|Hx]; cbn [negb].
        + cbn. split; [now left|].
          intros [H|(_ & [= <-] & H & _)]; [exact H|contradiction].
        + unfold Uuid.validateUuid.
          destruct (Uuid.validate_string x) eqn:Hv; cbn [negb];
            cbn [Migrations.invalid_issues].
          * split; [now left|].
            intros [H|(_ & [= <-] & _ & H)]; [exact H|congruence].
          * rewrite in_app_iff. cbn [In Js.show]. split.
            -- intros [H|[[= <- <-]|[]]]; [now left|right]. repeat split; auto.
            -- intros [H|(<- & [= <-] & _)]; [now left|right; now left].
      - cbn. split; [now left | intros [H|(_ & H & _)]; [exact H|discriminate]]. }
    split.
    + intros [[H|H]|(r & Hin & H)].
      * now left.
      * right. exists e. split; [now left|exact H].
      * right. exists r. split; [now right|exact H].
    + intros [H|(r & [<-|Hin] & H)].
      * left. now left.
      * left. now right.
      * right. now exists r.
Qed.

Lemma scanned_info_invalid uid attrName attr rows d v :
  In (Migrations.InvalidIssue d v)
     (Migrations.issues (Migrations.scanned_info uid attrName attr rows))
  <-> exists r, In r rows /\ Db.documentId r = d
                /\ Db.data r !! attrName = Some (Js.Str v)
                /\ v <> "" /\ Uuid.validate_string v = false.
Proof.
  cbn [Migrations.scanned_info Migrations.issues]. rewrite in_app_iff.
  unfold Migrations.scan. rewrite scan_invalid_issues.
  cbn [Migrations.invalid_issues In]. unfold Migrations.duplicate_issues.
  rewrite in_map_iff. split.
  - intros [[[]|H]|(g & Hg & _)]; [exact H|discriminate].
  - intros H. left. now right.
Qed.

Lemma scan_is_grouped attrName rows :
  grouped attrName rows (Migrations.by_uuid (Migrations.scan attrName rows)).
Proof.
  unfold Migrations.scan.
  apply (scan_grouped attrName rows []). apply grouped_nil.
Qed.

(** A field that was read has no issue exactly when it is clean. *)
Lemma scanned_clean st uid attrName attr :
  Migrations.has_issues
    (Migrations.scanned_info uid attrName attr (Db.rows st uid)) = false
  <-> clean st uid attrName.
Proof.
  unfold clean. set (rows := Db.rows st uid).
  pose proof (scan_counts attrName rows
                {| Migrations.empties := 0; Migrations.invalids := 0;
                   Migrations.invalid_issues := []; Migrations.by_uuid := [] |})
    as (He & Hi & _).
  cbn [Migrations.empties Migrations.invalids Nat.add] in He, Hi.
  pose proof (scan_is_grouped attrName rows) as Hg.
  unfold Migrations.has_issues.
  cbn [Migrations.scanned_info Migrations.emptyCount Migrations.invalidCount
       Migrations.duplicateCount].
  fold (Migrations.scan attrName rows) in He, Hi. rewrite He, Hi.
  rewrite !orb_false_iff, !Nat.ltb_ge, !Nat.le_0_r.
  rewrite !filter_length_zero, duplicate_total_zero.
  split.
  - intros [[Ht Hv] Hd].
    assert (forall r, In r rows -> Js.truthy (Db.data r !! attrName) = true) as Ht'.
    { intros r Hr. specialize (Ht r Hr). now apply negb_false_iff in Ht. }
    split.
    + intros r Hr. specialize (Hv r Hr). rewrite (Ht' r Hr) in Hv.
      now apply negb_false_iff in Hv.
    + apply members_single; [exact Ht'|]. intros k.
      destruct (members attrName k rows) as [|a l] eqn:Em; [cbn; lia|].
      rewrite <- Em.
      apply (Hd (k, members attrName k rows)).
      apply (grouped_found _ _ _ _ Hg). now rewrite Em.
  - intros [Hv Hn].
    assert (forall r, In r rows -> Js.truthy (Db.data r !! attrName) = true) as Ht'.
    { intros r Hr. apply valid_truthy. now apply Hv. }
    split; [split|].
    + intros r Hr. now rewrite (Ht' r Hr).
    + intros r Hr. now rewrite (Hv r Hr), andb_false_r.
    + intros [k ids] Hin. destruct (grouped_in _ _ _ _ _ Hg Hin) as [-> _].
      cbn [snd]. now apply members_single.
Qed.

(** X4: [checkMigrationStatus] never throws and never changes the world, also
    when the datastore rejects its queries. It reports the monitored
    fields in order; [totalFields] counts them, [totalEntries] adds up the
    entries of the fields that were read, [needsMigration] tells whether a
    field that was read has a positive count, and [issues] has one line
    for each field that was not read. *)
Theorem checkMigrationStatus_report
        (schemas : Js.object ContentType) (w : World) :
  exists status,
    Migrations.checkMigrationStatus schemas w = (inr status, w)
    /\ Migrations.contentTypes status
       = List.map (info_of (store w)) (monitored schemas)
    /\ Migrations.totalFields status
       = List.length (Migrations.contentTypes status)
    /\ Migrations.needsMigration status
       = existsb Migrations.has_issues (Migrations.contentTypes status)
    /\ Migrations.totalEntries status
       = list_sum (List.map (fun i => default 0 (Migrations.entryCount i))
                            (Migrations.contentTypes status))
    /\ List.length (Migrations.status_issues status)
       = List.length
           (List.filter (fun i => match Migrations.error i with
                                  | Some _ => true | None => false end)
                        (Migrations.contentTypes status)).
Proof.
  exists (fold_left (checked (store w)) (monitored schemas) unchecked).
  split; [apply checkMigrationStatus_checked|].
  destruct (checked_fold (store w) (monitored schemas) unchecked)
    as (H1 & H2 & H3 & H4 & H5).
  cbn [unchecked Migrations.contentTypes Migrations.totalFields
       Migrations.needsMigration Migrations.totalEntries
       Migrations.status_issues app Nat.add orb List.length] in *.
  rewrite H1. repeat split; try assumption.
  now rewrite H2, length_map.
Qed.

(** X5: The counts of a field in the status report: a field whose query was
    rejected carries the message and no count; a field that was read
    counts its entries, those with a missing, null or empty value and
    those with a malformed one, and lists an invalid issue for exactly
    the latter. *)
Theorem checkMigrationStatus_counts
        (schemas : Js.object ContentType) (w : World) :
  exists status,
    Migrations.checkMigrationStatus schemas w = (inr status, w)
    /\ Forall
         (fun info =>
            let rows := Db.rows (store w) (Migrations.uid info) in
            let value r := Db.data r !! Migrations.field info in
            match Db.read_fault (store w) (Migrations.uid info) with
            | Some msg =>
                Migrations.error info = Some msg
                /\ Migrations.entryCount info = None
                /\ Migrations.emptyCount info = None
                /\ Migrations.invalidCount info = None
                /\ Migrations.duplicateCount info = None
                /\ Migrations.issues info = []
            | None =>
                Migrations.error info = None
                /\ Migrations.entryCount info = Some (List.length rows)
                /\ Migrations.emptyCount info
                   = Some (List.length
                             (List.filter (fun r => negb (Js.truthy (value r)))
                                          rows))
                /\ Migrations.invalidCount info
                   = Some (List.length
                             (List.filter
                                (fun r => Js.truthy (value r)
                                          && negb (Uuid.validateUuid (value r)))
                                rows))
                /\ forall d v,
                     In (Migrations.InvalidIssue d v) (Migrations.issues info)
                     <-> exists r, In r rows /\ Db.documentId r = d
                                   /\ value r = Some (Js.Str v)
                                   /\ v <> "" /\ Uuid.validate_string v = false
            end)
         (Migrations.contentTypes status).
Proof.
  destruct (checkMigrationStatus_run schemas w) as (status & Hrun & Hct).
  exists status. split; [exact Hrun|]. rewrite Hct.
  apply List.Forall_forall. intros info Hin.
  apply in_map_iff in Hin as ([[uid field] attr] & <- & _).
  unfold info_of.
  destruct (Db.read_fault (store w) uid) as [msg|] eqn:Hr.
  - cbn [Migrations.failed_info Migrations.uid]. rewrite Hr. cbn. auto 10.
  - cbn [Migrations.scanned_info Migrations.uid Migrations.field
         Migrations.error Migrations.entryCount Migrations.emptyCount
         Migrations.invalidCount]. rewrite Hr.
    pose proof (scan_counts field (Db.rows (store w) uid)
                  {| Migrations.empties := 0; Migrations.invalids := 0;
                     Migrations.invalid_issues := []; Migrations.by_uuid := [] |})
      as (He & Hi & _).
    cbn [Migrations.empties Migrations.invalids Nat.add] in He, Hi.
    fold (Migrations.scan field (Db.rows (store w) uid)) in He, Hi.
    rewrite He, Hi. repeat split; try reflexivity.
    + apply (scanned_info_invalid uid field attr).
    + apply (scanned_info_invalid uid field attr).
Qed.

Lemma needsMigration_clean schemas st :
  Migrations.needsMigration
    (fold_left (checked st) (monitored schemas) unchecked) = false
  <-> forall uid field attr,
        In (uid, field, attr) (monitored schemas) ->
        Db.read_fault st uid = None ->
        clean st uid field.
Proof.
  destruct (checked_fold st (monitored schemas) unchecked) as (_ & _ & -> & _).
  cbn [unchecked Migrations.needsMigration orb].
  rewrite <- not_true_iff_false, existsb_exists. split.
  - intros H uid field attr Hin Hr.
    apply (scanned_clean st uid field attr).
    apply not_true_iff_false. intros Hi. apply H.
    exists (info_of st (uid, field, attr)). split.
    + apply in_map_iff. now exists (uid, field, attr).
    + unfold info_of. now rewrite Hr.
  - intros H (info & Hin & Hi).
    apply in_map_iff in Hin as ([[uid field] attr] & <- & Hin).
    unfold info_of in Hi.
    destruct (Db.read_fault st uid) as [msg|] eqn:Hr; [discriminate|].
    specialize (H uid field attr Hin Hr).
    apply (scanned_clean st uid field attr) in H. congruence.
Qed.

(** X6: The status report asks for a migration exactly when a monitored field
    that could be read is not clean: some row holds no well-formed
    identifier in it, or two rows hold the same one. *)
Theorem checkMigrationStatus_clean
        (schemas : Js.object ContentType) (w : World) :
  exists status,
    Migrations.checkMigrationStatus schemas w = (inr status, w)
    /\ (Migrations.needsMigration status = false
        <-> forall uid field attr,
              In (uid, field, attr) (monitored schemas) ->
              Db.read_fault (store w) uid = None ->
              clean (store w) uid field).
Proof.
  exists (fold_left (checked (store w)) (monitored schemas) unchecked).
  split; [apply checkMigrationStatus_checked|]. apply needsMigration_clean.
Qed.

(* ===================================================================== *)
(** ** Computations that return, and what they keep *)
(* ===================================================================== *)

Lemma total_ret {S A} (a : A) : total (ret (S := S) a).
Proof. intros s. now exists a. Qed.

Lemma total_bind {S A B} (m : M S A) (k : A -> M S B) :
  total m -> (forall a, total (k a)) -> total (bind m k).
Proof.
  intros Hm Hk s. unfold bind. destruct (Hm s) as (a & Ha).
  destruct (m s) as [[e|a'] s']; cbn [fst] in Ha; [discriminate|].
  apply Hk.
Qed.

Lemma total_try_catch {S A} (m : M S A) (h : Error -> M S A) :
  (forall e, total (h e)) -> total (try_catch m h).
Proof.
  intros Hh s. unfold try_catch. destruct (m s) as [[e|a] s'].
  - apply Hh.
  - now exists a.
Qed.

Lemma total_for_each {S A} (l : list A) (body : A -> M S unit) :
  (forall x, total (body x)) -> total (for_each l body).
Proof.
  intros Hb. induction l as [|x l IH]; cbn [for_each].
  - apply total_ret.
  - apply total_bind; [apply Hb | intros _; exact IH].
Qed.

Lemma total_when {S} (c : bool) (m : M S unit) : total m -> total (when c m).
Proof. intros Hm. destruct c; [exact Hm | apply total_ret]. Qed.

Lemma total_on_locals {W L} (f : L -> L) : total (on_locals (W := W) f).
Proof. intros s. now exists tt. Qed.


Lemma total_on_world {W L A} (m : M W A) :
  total m -> total (on_world (L := L) m).
Proof.
  intros Hm s. unfold on_world. destruct (Hm (fst s)) as (a & Ha).
  destruct (m (fst s)) as [r w']. now exists a.
Qed.


Lemma total_uuidv4 : total uuidv4.
Proof. intros w. now eexists. Qed.

Lemma invariant_ret {S A} (P : S -> Prop) (a : A) : invariant P (ret a).
Proof. intros s Hs. exact Hs. Qed.

Lemma invariant_throw {S A} (P : S -> Prop) (e : Error) :
  invariant P (throw (A := A) e).
Proof. intros s Hs. exact Hs. Qed.

Lemma invariant_bind {S A B} (P : S -> Prop) (m : M S A) (k : A -> M S B) :
  invariant P m -> (forall a, invariant P (k a)) -> invariant P (bind m k).
Proof.
  intros Hm Hk s Hs. unfold bind. specialize (Hm s Hs).
  destruct (m s) as [[e|a] s']; cbn [snd] in *; [exact Hm|].
  now apply Hk.
Qed.

Lemma invariant_try_catch {S A} (P : S -> Prop) (m : M S A) (h : Error -> M S A) :
  invariant P m -> (forall e, invariant P (h e)) -> invariant P (try_catch m h).
Proof.
  intros Hm Hh s Hs. unfold try_catch. specialize (Hm s Hs).
  destruct (m s) as [[e|a] s']; cbn [snd] in *; [|exact Hm].
  now apply Hh.
Qed.

Lemma invariant_for_each {S A} (P : S -> Prop) (l : list A)
      (body : A -> M S unit) :
  (forall x, invariant P (body x)) -> invariant P (for_each l body).
Proof.
  intros Hb. induction l as [|x l IH]; cbn [for_each].
  - apply invariant_ret.
  - apply invariant_bind; [apply Hb | intros _; exact IH].
Qed.

Lemma invariant_when {S} (P : S -> Prop) (c : bool) (m : M S unit) :
  invariant P m -> invariant P (when c m).
Proof. intros Hm. destruct c; [exact Hm | apply invariant_ret]. Qed.

Lemma invariant_locals {W L} (P : W * L -> Prop) : invariant P locals.
Proof. intros s Hs. exact Hs. Qed.

Lemma invariant_on_locals {W L} (P : W * L -> Prop) (f : L -> L) :
  (forall w l, P (w, l) -> P (w, f l)) -> invariant P (on_locals f).
Proof. intros Hf [w l] Hs. now apply Hf. Qed.

Lemma invariant_on_world {W L A} (P : W * L -> Prop) (m : M W A) :
  (forall w l, P (w, l) -> P (snd (m w), l)) -> invariant P (on_world m).
Proof.
  intros Hm [w l] Hs. unfold on_world. cbn [fst snd].
  specialize (Hm w l Hs). now destruct (m w).
Qed.

(** The queries leave the world as it is. *)
Lemma query_reads {A} uid (f : list Db.Row -> A) w :
  snd (Documents.query uid f w) = w.
Proof. unfold Documents.query. now destruct (Db.read_fault (store w) uid). Qed.

(** A generated identifier leaves the store as it is. *)
Lemma uuidv4_store w : store (snd (uuidv4 w)) = store w.
Proof. reflexivity. Qed.

(* ===================================================================== *)
(** ** The bulk migration returns *)
(* ===================================================================== *)

Lemma total_fix_invalid_issue uid field dry d v :
  total (Migrations.fix_invalid_issue uid field dry d v).
Proof.
  unfold Migrations.fix_invalid_issue.
  apply total_bind; [apply total_on_world, total_uuidv4|]. intros newUuid.
  apply total_bind; [apply total_on_locals|]. intros _.
  destruct (negb dry); [|apply total_on_locals].
  apply total_try_catch. intros e. apply total_on_locals.
Qed.

Lemma total_fix_duplicate_member uid field dry u keep d :
  total (Migrations.fix_duplicate_member uid field dry u keep d).
Proof.
  unfold Migrations.fix_duplicate_member.
  apply total_bind; [apply total_on_world, total_uuidv4|]. intros newUuid.
  apply total_bind; [apply total_on_locals|]. intros _.
  destruct (negb dry); [|apply total_on_locals].
  apply total_try_catch. intros e. apply total_on_locals.
Qed.

Lemma total_fix_field dry fixEmpty fixInvalid fixDuplicates info :
  total (Migrations.fix_field dry fixEmpty fixInvalid fixDuplicates info).
Proof.
  unfold Migrations.fix_field.
  apply total_bind.
  { apply total_when, total_try_catch. intros e. apply total_on_locals. }
  intros _. apply total_bind.
  { apply total_when, total_for_each. intros [d v|u c ids].
    - apply total_fix_invalid_issue.
    - apply total_ret. }
  intros _. apply total_when, total_for_each. intros [d v|u c [|keep rest]];
    try apply total_ret.
  apply total_for_each. intros d. apply total_fix_duplicate_member.
Qed.

Lemma accounted_update dry st uid d field value w r :
  dry = false -> accounted dry st (w, r) ->
  accounted dry st (snd (Documents.update uid d field value w), r).
Proof.
  intros -> (H1 & H2 & _). repeat split; try assumption; discriminate.
Qed.

Ltac accounted_leaf :=
  match goal with
  | |- invariant _ _ =>
      intros [w r] (H1 & H2 & H3); cbn [fst snd] in *;
      unfold bind, on_world, on_locals, try_catch, when, ret, uuidv4;
      cbn [fst snd]
  end.

Lemma accounted_fix_empty_entry dry st uid field entry :
  invariant (accounted dry st) (Migrations.fix_empty_entry uid field dry entry).
Proof.
  unfold Migrations.fix_empty_entry. accounted_leaf.
  destruct dry; cbn [negb fst snd].
  - destruct (H3 eq_refl) as [Hs He].
    unfold accounted. cbn. rewrite length_app. cbn. repeat split; try lia; auto.
  - unfold Documents.update. cbn [store advance].
    destruct (Db.write_fault _ _ _ _ _ _); cbn [fst snd];
      unfold accounted; cbn; rewrite length_app; cbn;
      (split; [exact H1|]); (split; [lia|discriminate]).
Qed.

Lemma accounted_fix_invalid_issue dry st uid field d v :
  invariant (accounted dry st) (Migrations.fix_invalid_issue uid field dry d v).
Proof.
  unfold Migrations.fix_invalid_issue. accounted_leaf.
  destruct dry; cbn [negb fst snd].
  - destruct (H3 eq_refl) as [Hs He].
    unfold accounted. cbn. rewrite length_app. cbn. repeat split; try lia; auto.
  - unfold Documents.update. cbn [store advance].
    destruct (Db.write_fault _ _ _ _ _ _); cbn [fst snd];
      unfold accounted; cbn; rewrite length_app; cbn;
      (split; [exact H1|]); (split; [lia|discriminate]).
Qed.

Lemma accounted_fix_duplicate_member dry st uid field u keep d :
  invariant (accounted dry st)
            (Migrations.fix_duplicate_member uid field dry u keep d).
Proof.
  unfold Migrations.fix_duplicate_member. accounted_leaf.
  destruct dry; cbn [negb fst snd].
  - destruct (H3 eq_refl) as [Hs He].
    unfold accounted. cbn. rewrite length_app. cbn. repeat split; try lia; auto.
  - unfold Documents.update. cbn [store advance].
    destruct (Db.write_fault _ _ _ _ _ _); cbn [fst snd];
      unfold accounted; cbn; rewrite length_app; cbn;
      (split; [exact H1|]); (split; [lia|discriminate]).
Qed.

Lemma accounted_push_error dry st msg :
  invariant (accounted dry st) (on_locals (Migrations.push_error msg)).
Proof. apply invariant_on_locals. intros w l H. exact H. Qed.

Lemma accounted_fix_field dry st fixEmpty fixInvalid fixDuplicates info :
  invariant (accounted dry st)
            (Migrations.fix_field dry fixEmpty fixInvalid fixDuplicates info).
Proof.
  unfold Migrations.fix_field.
  apply invariant_bind.
  { apply invariant_when. unfold Migrations.fix_empty.
    apply invariant_try_catch.
    - apply invariant_bind.
      + apply invariant_on_world. intros w l H.
        unfold Documents.findMany. now rewrite query_reads.
      + intros entries. apply invariant_for_each. intros entry.
        apply accounted_fix_empty_entry.
    - intros e. apply accounted_push_error. }
  intros _. apply invariant_bind.
  { apply invariant_when, invariant_for_each. intros [d v|u c ids].
    - apply accounted_fix_invalid_issue.
    - apply invariant_ret. }
  intros _. apply invariant_when, invariant_for_each.
  intros [d v|u c [|keep rest]]; try apply invariant_ret.
  apply invariant_for_each. intros d. apply accounted_fix_duplicate_member.
Qed.

Lemma runMigration_accounted schemas o w :
  exists r w',
    Migrations.runMigration schemas o w = (inr (Migrations.set_total r), w')
    /\ accounted (default true (Migrations.opt_dryRun o)) (store w) (w', r).
Proof.
  unfold Migrations.runMigration.
  set (dry := default true (Migrations.opt_dryRun o)).
  set (fe := default true (Migrations.opt_fixEmpty o)).
  set (fi := default true (Migrations.opt_fixInvalid o)).
  set (fd := default true (Migrations.opt_fixDuplicates o)).
  unfold bind at 1. rewrite checkMigrationStatus_checked.
  set (status := fold_left _ _ _).
  set (r0 := {| Migrations.dryRun := dry |}).
  unfold with_locals, bind.
  pose proof (total_for_each (Migrations.contentTypes status)
                (Migrations.fix_field dry fe fi fd)
                (total_fix_field dry fe fi fd) (w, r0)) as (u & Hu).
  pose proof (invariant_for_each (accounted dry (store w))
                (Migrations.contentTypes status)
                (Migrations.fix_field dry fe fi fd)
                (accounted_fix_field dry (store w) fe fi fd) (w, r0)) as Hacc.
  destruct (for_each _ _ (w, r0)) as [[e|[]] [w' r]]; [discriminate|].
  cbn [fst snd] in *.
  exists r, w'. split; [reflexivity|]. apply Hacc.
  unfold accounted. cbn. repeat split; auto.
Qed.

(** X8: [runMigration] never throws, whatever the datastore rejects: the
    failures go to [errors]. Its result echoes the [dryRun] flag, its
    [totalFixed] is the sum of the three counters and never exceeds the
    number of changes listed. A dry run, which is the default, leaves the
    store as it is and counts every change it lists. *)
Theorem runMigration_returns
        (schemas : Js.object ContentType) (o : Migrations.Options) (w : World) :
  exists r w',
    Migrations.runMigration schemas o w = (inr r, w')
    /\ Migrations.dryRun r = default true (Migrations.opt_dryRun o)
    /\ Migrations.totalFixed r
       = Some (Migrations.fixed_empty r + Migrations.fixed_invalid r
               + Migrations.fixed_duplicates r)
    /\ Migrations.fixed_empty r + Migrations.fixed_invalid r
       + Migrations.fixed_duplicates r <= List.length (Migrations.changes r)
    /\ (default true (Migrations.opt_dryRun o) = true ->
        store w' = store w
        /\ Migrations.fixed_empty r + Migrations.fixed_invalid r
           + Migrations.fixed_duplicates r = List.length (Migrations.changes r)).
Proof.
  destruct (runMigration_accounted schemas o w) as (r & w' & Hrun & H1 & H2 & H3).
  exists (Migrations.set_total r), w'. split; [exact Hrun|].
  cbn [fst snd] in *.
  cbn [Migrations.set_total Migrations.dryRun Migrations.totalFixed
       Migrations.fixed_empty Migrations.fixed_invalid
       Migrations.fixed_duplicates Migrations.changes].
  split; [exact H1|]. split; [reflexivity|]. split; [exact H2|exact H3].
Qed.

(* ===================================================================== *)
(** ** The import returns *)
(* ===================================================================== *)

Lemma total_import_entry uid field dry overwrite entry :
  total (Migrations.import_entry uid field dry overwrite entry).
Proof.
  unfold Migrations.import_entry.
  destruct (Js.or_else _ _) as [d|]; [|apply total_on_locals].
  destruct (Migrations.truthy_string _) as [u|]; [|apply total_on_locals].
  apply total_try_catch. intros e. apply total_on_locals.
Qed.

Lemma import_accounted_entry dry st uid field overwrite entry :
  invariant (import_accounted dry st)
            (Migrations.import_entry uid field dry overwrite entry).
Proof.
  unfold Migrations.import_entry.
  destruct (Js.or_else _ _) as [d|];
    [|apply invariant_on_locals; intros w l H; exact H].
  destruct (Migrations.truthy_string _) as [u|];
    [|apply invariant_on_locals; intros w l H; exact H].
  intros [w r] (H1 & H2 & H3). cbn [fst snd] in *.
  unfold try_catch, bind, on_world, on_locals, when, ret. cbn [fst snd].
  unfold Documents.findFirst, Documents.query.
  destruct (Db.read_fault (store w) uid); cbn [fst snd].
  { exact (conj H1 (conj H2 H3)). }
  destruct (List.find _ _) as [row|]; cbn [fst snd].
  2: { exact (conj H1 (conj H2 H3)). }
  destruct (Js.truthy (Db.data row !! field) && negb overwrite); cbn [fst snd].
  { exact (conj H1 (conj H2 H3)). }
  destruct dry; cbn [negb fst snd].
  - destruct (H3 eq_refl) as [Hs He].
    unfold import_accounted. cbn. rewrite length_app. cbn.
    repeat split; try lia; auto.
  - unfold Documents.update.
    destruct (Db.write_fault _ _ _ _ _ _); cbn [fst snd];
      unfold import_accounted; cbn; rewrite length_app; cbn;
      (split; [exact H1|]); (split; [lia|discriminate]).
Qed.

Lemma import_entry_counts uid field dry overwrite entry s :
  let s' := snd (Migrations.import_entry uid field dry overwrite entry s) in
  Migrations.imported (snd s') + Migrations.skipped (snd s')
  <= Migrations.imported (snd s) + Migrations.skipped (snd s) + 1.
Proof.
  destruct s as [w r]. unfold Migrations.import_entry.
  destruct (Js.or_else _ _) as [d|]; [|cbn; lia].
  destruct (Migrations.truthy_string _) as [u|]; [|cbn; lia].
  unfold try_catch, bind, on_world, on_locals, when, ret. cbn [fst snd].
  unfold Documents.findFirst, Documents.query.
  destruct (Db.read_fault (store w) uid); cbn [fst snd]; [cbn; lia|].
  destruct (List.find _ _) as [row|]; cbn [fst snd]; [|cbn; lia].
  destruct (Js.truthy (Db.data row !! field) && negb overwrite); cbn [fst snd];
    [cbn; lia|].
  destruct dry; cbn [negb fst snd]; [cbn; lia|].
  unfold Documents.update.
  destruct (Db.write_fault _ _ _ _ _ _); cbn; lia.
Qed.

(** A loop adds to a measure of the state at most what its turns add. *)
Lemma for_each_weighted {S A} (f : S -> nat) (g : A -> nat)
      (body : A -> M S unit) (l : list A) :
  (forall x s, f (snd (body x s)) <= f s + g x) ->
  forall s, f (snd (for_each l body s)) <= f s + list_sum (List.map g l).
Proof.
  intros Hb. induction l as [|x l IH]; intros s.
  - cbn. lia.
  - rewrite for_each_cons. specialize (Hb x s).
    cbn [List.map]. unfold list_sum. cbn [fold_right].
    fold (list_sum (List.map g l)).
    destruct (body x s) as [[e|[]] s1]; cbn [snd] in *; [lia|].
    specialize (IH s1). lia.
Qed.

Lemma list_sum_ones {A} (l : list A) :
  list_sum (List.map (fun _ => 1) l) = List.length l.
Proof. induction l as [|x l IH]; [reflexivity|]. cbn. now rewrite <- IH. Qed.

Lemma list_sum_flat_map {A B} (G : A -> list B) (l : list A) :
  list_sum (List.map (fun x => List.length (G x)) l)
  = List.length (List.flat_map G l).
Proof.
  induction l as [|x l IH]; [reflexivity|].
  cbn [List.map List.flat_map]. rewrite length_app, <- IH. reflexivity.
Qed.

Lemma total_import_type dry overwrite (uc : string * Migrations.TypeMappings) :
  total (let '(uid, ctData) := uc in
         for_each (Js.entries (Migrations.fields ctData))
           (fun fe => let '(field, entries) := fe in
                      for_each entries
                               (Migrations.import_entry uid field dry overwrite))).
Proof.
  destruct uc as [uid ctData]. apply total_for_each. intros [field entries].
  apply total_for_each. intros entry. apply total_import_entry.
Qed.


(** X9: [importMappings] never throws on a file of the exported shape,
    whatever the datastore rejects. Without [mappings] it reports the one
    error and touches nothing. Otherwise imports and skips together are at
    most the entries of the file, and imports at most the changes listed;
    a dry run, which is the default, leaves the store as it is and counts
    an import for every change. *)
Theorem importMappings_returns
        (importData : option (Js.object Migrations.TypeMappings))
        (o : Migrations.ImportOptions) (w : World) :
  exists r w',
    Migrations.importMappings importData o w = (inr r, w')
    /\ Migrations.import_dryRun r
       = default true (Migrations.import_opt_dryRun o)
    /\ Migrations.imported r <= List.length (Migrations.import_changes r)
    /\ (default true (Migrations.import_opt_dryRun o) = true ->
        store w' = store w
        /\ Migrations.imported r = List.length (Migrations.import_changes r))
    /\ match importData with
       | None =>
           w' = w /\ Migrations.imported r = 0 /\ Migrations.skipped r = 0
           /\ Migrations.import_changes r = []
           /\ Migrations.import_errors r
              = ["Invalid import data: missing mappings"]
       | Some mappings =>
           Migrations.imported r + Migrations.skipped r
           <= List.length (import_entries mappings)
       end.
Proof.
  unfold Migrations.importMappings.
  set (dry := default true (Migrations.import_opt_dryRun o)).
  set (overwrite := default false (Migrations.import_opt_overwrite o)).
  set (r0 := {| Migrations.import_dryRun := dry |}).
  destruct importData as [mappings|].
  2: { unfold with_locals, bind, on_locals, locals. cbn [fst snd].
       eexists _, _. split; [reflexivity|]. cbn.
       repeat split; auto; lia. }
  set (body := fun uc : string * Migrations.TypeMappings => _).
  unfold with_locals, bind.
  assert (forall x, invariant (import_accounted dry (store w)) (body x)) as Hinv.
  { intros [uid ctData]. apply invariant_for_each. intros [field entries].
    apply invariant_for_each. intros entry. apply import_accounted_entry. }
  pose proof (total_for_each (Js.entries mappings) body
                (total_import_type dry overwrite) (w, r0)) as (u & Hu).
  pose proof (invariant_for_each _ (Js.entries mappings) body Hinv (w, r0)) as Hacc.
  pose proof (for_each_weighted
                (fun s => Migrations.imported (snd s) + Migrations.skipped (snd s))
                (fun uc => List.length
                             (List.flat_map snd
                                (Js.entries (Migrations.fields (snd uc)))))
                body (Js.entries mappings)) as Hcount.
  specialize (Hcount ltac:(
    intros [uid ctData] s; unfold body; cbn [snd];
    rewrite <- list_sum_flat_map;
    apply (for_each_weighted
             (fun s => Migrations.imported (snd s) + Migrations.skipped (snd s))
             (fun fe => List.length (snd fe)));
    intros [field entries] s1; cbn [snd];
    rewrite <- list_sum_ones;
    apply (for_each_weighted
             (fun s => Migrations.imported (snd s) + Migrations.skipped (snd s))
             (fun _ => 1));
    intros entry s2; apply import_entry_counts) (w, r0)).
  rewrite list_sum_flat_map in Hcount. fold (import_entries mappings) in Hcount.
  destruct (for_each _ body (w, r0)) as [[e|[]] [w' r]]; [discriminate|].
  cbn [fst snd] in *.
  destruct Hacc as (H1 & H2 & H3).
  { unfold import_accounted. cbn. repeat split; auto. }
  cbn [fst snd] in *.
  exists r, w'. split; [reflexivity|]. split; [exact H1|]. split; [exact H2|].
  split; [exact H3|]. exact Hcount.
Qed.

(* ===================================================================== *)
(** ** The controller *)
(* ===================================================================== *)

Lemma answer_run {A} (m : M World A) message w :
  Controller.answer m message w
  = (inr match fst (m w) with
         | inr a => Controller.Body a
         | inl _ => Controller.InternalServerError message
         end, snd (m w)).
Proof.
  unfold Controller.answer, try_catch, bind, ret.
  now destruct (m w) as [[e|a] w'].
Qed.

Lemma findDuplicatesForField_reads uid field w :
  snd (Service.findDuplicatesForField uid field w) = w.
Proof.
  rewrite findDuplicatesForField_run.
  destruct (Db.read_fault (store w) uid); [reflexivity|].
  now destruct (Service.group_entries _ _ _).
Qed.

(** A loop whose body leaves the world as it is leaves it as it is,
    whether it ends or throws. *)
Lemma for_each_world {L A} (body : A -> M (World * L) unit) w l :
  (forall x s, fst s = w -> fst (snd (body x s)) = w) ->
  forall s, fst s = w -> fst (snd (for_each l body s)) = w.
Proof.
  intros Hb. induction l as [|x l IH]; intros s Hs.
  - exact Hs.
  - rewrite for_each_cons. specialize (Hb x s Hs).
    destruct (body x s) as [[e|[]] s']; cbn [snd] in *.
    + exact Hb.
    + now apply IH.
Qed.

Lemma diagnose_reads contentTypes w :
  snd (Service.diagnose contentTypes w) = w.
Proof.
  unfold Service.diagnose, with_locals.
  set (body := fun uf : string * list string => _).
  set (r0 := {| Service.scannedModels := 0 |}).
  assert (fst (snd (for_each (Js.entries (Service.getUuidModels contentTypes))
                             body (w, r0))) = w) as H.
  { apply for_each_world; [|reflexivity].
    intros [uid fields] s Hs. unfold body, bind at 1, on_locals at 1.
    cbn [fst snd].
    apply for_each_world; [|exact Hs].
    intros field s' Hs'. unfold bind, on_world, on_locals.
    pose proof (findDuplicatesForField_reads uid field (fst s')) as Hf.
    destruct (Service.findDuplicatesForField uid field (fst s')) as [[e|dups] w'].
    - cbn [fst snd] in *. congruence.
    - cbn [fst snd] in *. congruence. }
  unfold bind. destruct (for_each _ body (w, r0)) as [[e|[]] s']; exact H.
Qed.

Lemma sum_or_zero_fold {A} (f : A -> option nat) l : forall a,
  fold_left (fun sum ct => sum + default 0 (f ct)) l a
  = a + Controller.sum_or_zero f l.
Proof.
  unfold Controller.sum_or_zero.
  induction l as [|x l IH]; intros a; cbn [fold_left].
  - lia.
  - rewrite IH, (IH (0 + _)). lia.
Qed.

Lemma sum_or_zero_positive {A} (f : A -> option nat) l :
  0 < Controller.sum_or_zero f l
  <-> exists x, In x l /\ 0 < default 0 (f x).
Proof.
  induction l as [|x l IH].
  - cbn. split; [lia | intros (x & [] & _)].
  - unfold Controller.sum_or_zero. cbn [fold_left].
    rewrite sum_or_zero_fold. split.
    + intros H. destruct (Nat.eq_dec (default 0 (f x)) 0) as [Hz|Hz].
      * destruct (proj1 IH) as (y & Hy & Hp); [lia|].
        exists y. split; [now right|exact Hp].
      * exists x. split; [now left|lia].
    + intros (y & [<-|Hy] & Hp); [lia|].
      assert (0 < Controller.sum_or_zero f l) by (apply IH; now exists y). lia.
Qed.

Lemma info_of_has_issues st m :
  Migrations.has_issues (info_of st m) = true
  <-> 0 < default 0 (Migrations.emptyCount (info_of st m))
          + default 0 (Migrations.invalidCount (info_of st m))
          + default 0 (Migrations.duplicateCount (info_of st m)).
Proof.
  destruct m as [[uid field] attr]. unfold info_of.
  destruct (Db.read_fault st uid).
  - cbn. split; [discriminate|lia].
  - unfold Migrations.has_issues.
    cbn [Migrations.scanned_info Migrations.emptyCount Migrations.invalidCount
         Migrations.duplicateCount default].
    rewrite !orb_true_iff, !Nat.ltb_lt. unfold id. lia.
Qed.

(** X7: [getStats] always answers with a body, also when the datastore
    rejects the queries, and leaves the world as it is. Its flag
    [needsMigration] is set exactly when one of the three issue counters
    is positive; the entries are those of the status report. *)
Theorem getStats_consistent (contentTypes : Js.object ContentType) (w : World) :
  exists stats status,
    Controller.getStats contentTypes w = (inr (Controller.Body stats), w)
    /\ Migrations.checkMigrationStatus contentTypes w = (inr status, w)
    /\ Controller.stats_totalEntries stats = Migrations.totalEntries status
    /\ Controller.stats_models stats = Service.getUuidModels contentTypes
    /\ (Controller.stats_needsMigration stats = true
        <-> 0 < Controller.stats_empty (Controller.stats_issues stats)
                + Controller.stats_invalid (Controller.stats_issues stats)
                + Controller.stats_duplicates (Controller.stats_issues stats)).
Proof.
  unfold Controller.getStats. rewrite answer_run. unfold bind at 1 2.
  rewrite checkMigrationStatus_checked. cbn [fst snd ret].
  eexists _, _. split; [reflexivity|]. split; [reflexivity|].
  cbn [Controller.stats_totalEntries Controller.stats_models
       Controller.stats_needsMigration Controller.stats_issues
       Controller.stats_empty Controller.stats_invalid
       Controller.stats_duplicates].
  split; [reflexivity|]. split; [reflexivity|].
  destruct (checked_fold (store w) (monitored contentTypes) unchecked)
    as (H1 & _ & H3 & _).
  cbn [unchecked Migrations.contentTypes Migrations.needsMigration app orb]
    in H1, H3.
  rewrite H1, H3, existsb_exists.
  set (infos := List.map (info_of (store w)) (monitored contentTypes)).
  assert (forall i, In i infos ->
            (Migrations.has_issues i = true
             <-> 0 < default 0 (Migrations.emptyCount i)
                     + default 0 (Migrations.invalidCount i)
                     + default 0 (Migrations.duplicateCount i))) as Hinfo.
  { intros i Hi. apply in_map_iff in Hi as (m & <- & _).
    apply info_of_has_issues. }
  pose proof (sum_or_zero_positive Migrations.emptyCount infos) as He.
  pose proof (sum_or_zero_positive Migrations.invalidCount infos) as Hi.
  pose proof (sum_or_zero_positive Migrations.duplicateCount infos) as Hd.
  split.
  - intros (i & Hin & Hh). apply (Hinfo i Hin) in Hh.
    destruct (Nat.eq_dec (default 0 (Migrations.emptyCount i)) 0) as [Hz|Hz].
    + destruct (Nat.eq_dec (default 0 (Migrations.invalidCount i)) 0) as [Hz'|Hz'].
      * assert (0 < Controller.sum_or_zero Migrations.duplicateCount infos)
          by (apply Hd; exists i; split; [exact Hin|lia]). lia.
      * assert (0 < Controller.sum_or_zero Migrations.invalidCount infos)
          by (apply Hi; exists i; split; [exact Hin|lia]). lia.
    + assert (0 < Controller.sum_or_zero Migrations.emptyCount infos)
        by (apply He; exists i; split; [exact Hin|lia]). lia.
  - intros H.
    destruct (Nat.eq_dec (Controller.sum_or_zero Migrations.emptyCount infos) 0)
      as [Hz|Hz].
    + destruct (Nat.eq_dec (Controller.sum_or_zero Migrations.invalidCount infos) 0)
        as [Hz'|Hz'].
      * destruct (proj1 Hd) as (i & Hin & Hp); [lia|].
        exists i. split; [exact Hin|]. apply (Hinfo i Hin). lia.
      * destruct (proj1 Hi) as (i & Hin & Hp); [lia|].
        exists i. split; [exact Hin|]. apply (Hinfo i Hin). lia.
    + destruct (proj1 He) as (i & Hin & Hp); [lia|].
      exists i. split; [exact Hin|]. apply (Hinfo i Hin). lia.
Qed.


(* ===================================================================== *)
(** ** When the diagnosis throws *)
(* ===================================================================== *)

Lemma group_entry_outcome field groups e :
  (forall k, In k (List.map fst groups) -> Js.inherited k = false) ->
  match Service.group_entry field groups e with
  | inl err => err = push_error /\ inherited_value field e = true
  | inr groups' =>
      inherited_value field e = false
      /\ forall k, In k (List.map fst groups') -> Js.inherited k = false
  end.
Proof.
  intros Hk. unfold Service.group_entry, inherited_value.
  destruct (Js.truthy (Db.data e !! field)); cbn [negb andb].
  - set (key := Js.show (Db.data e !! field)).
    destruct (Js.get groups key) as [ids|] eqn:Hg.
    + assert (Js.inherited key = false) as Hi.
      { apply Hk. apply get_in in Hg. apply in_map_iff. now exists (key, ids). }
      split; [exact Hi|]. intros k. rewrite set_keys, Hg. apply Hk.
    + destruct (Js.inherited key) eqn:Hi.
      * now split.
      * split; [reflexivity|]. intros k. rewrite set_keys, Hg, in_app_iff.
        intros [H|[<-|[]]]; [now apply Hk|exact Hi].
  - now split.
Qed.

Lemma group_entries_outcome field rows : forall groups,
  (forall k, In k (List.map fst groups) -> Js.inherited k = false) ->
  match Service.group_entries field rows groups with
  | inl err =>
      err = push_error /\ exists r, In r rows /\ inherited_value field r = true
  | inr _ => forall r, In r rows -> inherited_value field r = false
  end.
Proof.
  induction rows as [|e rows IH]; intros groups Hk; cbn [Service.group_entries].
  - intros r [].
  - pose proof (group_entry_outcome field groups e Hk) as He.
    destruct (Service.group_entry field groups e) as [err|groups'].
    + destruct He as [-> He]. split; [reflexivity|]. exists e. split; [now left|exact He].
    + destruct He as [He Hk']. specialize (IH groups' Hk').
      destruct (Service.group_entries field rows groups') as [err|groups''].
      * destruct IH as [-> (r & Hr & Hi)]. split; [reflexivity|].
        exists r. split; [now right|exact Hi].
      * intros r [<-|Hr]; [exact He|now apply IH].
Qed.

(** A value that names an inherited property is no identifier. *)
Lemma inherited_invalid v : Js.inherited v = true -> Uuid.validate_string v = false.
Proof.
  unfold Js.inherited. intros H. apply existsb_exists in H as (k & Hin & Hk).
  apply String.eqb_eq in Hk. subst k.
  cbn [Js.object_prototype_names In] in Hin.
  repeat (destruct Hin as [<-|Hin]; [reflexivity|]). destruct Hin.
Qed.

Lemma inherited_value_data field r :
  inherited_value field r = true
  <-> exists v, Db.data r !! field = Some (Js.Str v) /\ Js.inherited v = true.
Proof.
  unfold inherited_value. destruct (Db.data r !! field) as [[|v]|]; cbn.
  - split; [discriminate|intros (v & H & _); discriminate].
  - destruct (String.eqb_spec v "") as [->|Hv]; cbn.
    + split; [discriminate|]. intros (v & [= <-] & H). discriminate.
    + split; [intros H; now exists v|]. now intros (v' & [= <-] & H).
  - split; [discriminate|intros (v & H & _); discriminate].
Qed.

Lemma findDuplicatesForField_outcome uid field w :
  match Db.read_fault (store w) uid with
  | Some msg =>
      Service.findDuplicatesForField uid field w = (inl (DatastoreError msg), w)
  | None =>
      (Service.findDuplicatesForField uid field w = (inl push_error, w)
       /\ exists r, In r (Db.rows (store w) uid)
                    /\ inherited_value field r = true)
      \/ ((exists dups,
              Service.findDuplicatesForField uid field w = (inr dups, w))
          /\ forall r, In r (Db.rows (store w) uid) ->
                       inherited_value field r = false)
  end.
Proof.
  rewrite findDuplicatesForField_run.
  destruct (Db.read_fault (store w) uid) as [msg|]; [reflexivity|].
  pose proof (group_entries_outcome field (Db.rows (store w) uid) []) as H.
  destruct (Service.group_entries field (Db.rows (store w) uid) []) as [e|groups].
  - left. destruct H as [-> H]; [intros k []|]. now split.
  - right. split; [now eexists|]. apply H. intros k [].
Qed.

(** X11: [findDuplicatesForField] leaves the world as it is. It throws what
    the datastore rejects the query with; it throws a [TypeError] exactly
    when some entry holds, in the field, a value that names a property
    every object inherits, such as [constructor]; otherwise it returns.
    The scan of the status check lists such an entry as an invalid
    issue. *)
Theorem findDuplicatesForField_throws (uid field : string) (w : World) :
  snd (Service.findDuplicatesForField uid field w) = w
  /\ (forall r v attr,
         In r (Db.rows (store w) uid) ->
         Db.data r !! field = Some (Js.Str v) -> Js.inherited v = true ->
         In (Migrations.InvalidIssue (Db.documentId r) v)
            (Migrations.issues
               (Migrations.scanned_info uid field attr (Db.rows (store w) uid))))
  /\ match Db.read_fault (store w) uid with
     | Some msg =>
         fst (Service.findDuplicatesForField uid field w)
         = inl (DatastoreError msg)
     | None =>
         (fst (Service.findDuplicatesForField uid field w)
          = inl (TypeError "uuidGroups[uuidValue].push is not a function")
          <-> exists r v, In r (Db.rows (store w) uid)
                          /\ Db.data r !! field = Some (Js.Str v)
                          /\ Js.inherited v = true)
         /\ ((exists dups,
                 fst (Service.findDuplicatesForField uid field w) = inr dups)
             <-> forall r v, In r (Db.rows (store w) uid) ->
                             Db.data r !! field = Some (Js.Str v) ->
                             Js.inherited v = false)
     end.
Proof.
  split; [apply findDuplicatesForField_reads|]. split.
  { intros r v attr Hr Hv Hi. apply scanned_info_invalid. exists r.
    split; [exact Hr|]. split; [reflexivity|]. split; [exact Hv|].
    split; [|now apply inherited_invalid]. intros ->. discriminate. }
  pose proof (findDuplicatesForField_outcome uid field w) as H.
  destruct (Db.read_fault (store w) uid) as [msg|].
  - now rewrite H.
  - destruct H as [[-> (r & Hr & Hi)]|[(dups & ->) Hn]]; cbn [fst].
    + split.
      * split; [|reflexivity]. intros _.
        apply inherited_value_data in Hi as (v & Hv & Hi). now exists r, v.
      * split; [intros (dups & H); discriminate|].
        intros H. apply inherited_value_data in Hi as (v & Hv & Hi).
        rewrite (H r v Hr Hv) in Hi. discriminate.
    + split.
      * split; [discriminate|]. intros (r & v & Hr & Hv & Hi).
        specialize (Hn r Hr).
        assert (inherited_value field r = true)
          by (apply inherited_value_data; now exists v).
        congruence.
      * split; [|intros _; now exists dups]. intros _ r v Hr Hv.
        destruct (Js.inherited v) eqn:Hi; [|reflexivity].
        specialize (Hn r Hr).
        assert (inherited_value field r = true)
          by (apply inherited_value_data; now exists v).
        congruence.
Qed.

Lemma diagnose_fields_outcome uid w fields : forall report,
  match for_each fields
          (fun field =>
             dups <- on_world (Service.findDuplicatesForField uid field) ;;
             on_locals (fun report =>
               {| Service.scannedModels := Service.scannedModels report;
                  Service.totalDuplicates :=
                    Service.totalDuplicates report
                    + Service.sum_of (fun group => Service.count group - 1) dups;
                  Service.diagnosis_details :=
                    Service.set_detail uid field
                      {| Service.duplicateGroups := List.length dups;
                         Service.affectedEntries :=
                           Service.sum_of Service.count dups;
                         Service.duplicates := dups |}
                      (Service.diagnosis_details report) |}))
          (w, report) with
  | (inr _, (w', report')) =>
      w' = w
      /\ Service.scannedModels report' = Service.scannedModels report
      /\ forall field, In field fields ->
            exists dups,
              Service.findDuplicatesForField uid field w = (inr dups, w)
  | (inl e, (w', _)) =>
      w' = w
      /\ exists field, In field fields
                       /\ Service.findDuplicatesForField uid field w = (inl e, w)
  end.
Proof.
  induction fields as [|field fields IH]; intros report.
  - cbn. split; [reflexivity|]. split; [reflexivity|]. intros f [].
  - rewrite for_each_cons. unfold bind at 1, on_world at 1, on_locals at 1.
    cbn [fst snd].
    pose proof (findDuplicatesForField_reads uid field w) as Hr.
    destruct (Service.findDuplicatesForField uid field w) as [[e|dups] w1] eqn:Ef;
      cbn [snd] in Hr; subst w1.
    + split; [reflexivity|]. exists field. split; [now left|exact Ef].
    + cbn [fst snd]. specialize (IH {|
        Service.scannedModels := Service.scannedModels report;
        Service.totalDuplicates :=
          Service.totalDuplicates report
          + Service.sum_of (fun group => Service.count group - 1) dups;
        Service.diagnosis_details :=
          Service.set_detail uid field
            {| Service.duplicateGroups := List.length dups;
               Service.affectedEntries := Service.sum_of Service.count dups;
               Service.duplicates := dups |}
            (Service.diagnosis_details report) |}).
      destruct (for_each fields _ _) as [[e|u] [w' report']].
      * destruct IH as [-> (f & Hf & He)]. split; [reflexivity|].
        exists f. split; [now right|exact He].
      * destruct IH as (-> & Hs & Hall). split; [reflexivity|].
        split; [exact Hs|]. intros f [<-|Hf]; [now exists dups|now apply Hall].
Qed.

Lemma diagnose_models_outcome w models : forall report,
  match for_each models
          (fun uf =>
             let '(uid, fields) := uf in
             on_locals (fun report =>
               {| Service.scannedModels := S (Service.scannedModels report);
                  Service.totalDuplicates := Service.totalDuplicates report;
                  Service.diagnosis_details :=
                    Js.set (Service.diagnosis_details report) uid [] |}) ;;;
             for_each fields
               (fun field =>
                  dups <- on_world (Service.findDuplicatesForField uid field) ;;
                  on_locals (fun report =>
                    {| Service.scannedModels := Service.scannedModels report;
                       Service.totalDuplicates :=
                         Service.totalDuplicates report
                         + Service.sum_of (fun group => Service.count group - 1)
                                          dups;
                       Service.diagnosis_details :=
                         Service.set_detail uid field
                           {| Service.duplicateGroups := List.length dups;
                              Service.affectedEntries :=
                                Service.sum_of Service.count dups;
                              Service.duplicates := dups |}
                           (Service.diagnosis_details report) |})))
          (w, report) with
  | (inr _, (w', report')) =>
      w' = w
      /\ Service.scannedModels report'
         = Service.scannedModels report + List.length models
      /\ forall uid fields field,
            In (uid, fields) models -> In field fields ->
            exists dups,
              Service.findDuplicatesForField uid field w = (inr dups, w)
  | (inl e, (w', _)) =>
      w' = w
      /\ exists uid fields field,
            In (uid, fields) models /\ In field fields
            /\ Service.findDuplicatesForField uid field w = (inl e, w)
  end.
Proof.
  induction models as [|[uid fields] models IH]; intros report.
  - cbn. split; [reflexivity|]. split; [lia|]. intros ? ? ? [].
  - rewrite for_each_cons. unfold bind at 1, on_locals at 1. cbn [fst snd].
    pose proof (diagnose_fields_outcome uid w fields
                  {| Service.scannedModels := S (Service.scannedModels report);
                     Service.totalDuplicates := Service.totalDuplicates report;
                     Service.diagnosis_details :=
                       Js.set (Service.diagnosis_details report) uid [] |}) as Hf.
    destruct (for_each fields _ _) as [[e|u] [w1 report1]].
    + destruct Hf as [-> (f & Hin & He)]. split; [reflexivity|].
      exists uid, fields, f. split; [now left|now split].
    + destruct Hf as (-> & Hs & Hall). specialize (IH report1).
      destruct (for_each models _ _) as [[e|u'] [w' report']].
      * destruct IH as [-> (uid' & fields' & f & Hin & Hf & He)].
        split; [reflexivity|]. exists uid', fields', f.
        split; [now right|now split].
      * destruct IH as (-> & Hs' & Hall'). split; [reflexivity|].
        split; [rewrite Hs', Hs; cbn; lia|].
        intros uid' fields' f [[= <- <-]|Hin] Hf; [now apply Hall|].
        now apply (Hall' uid' fields').
Qed.

Lemma in_autofix_fields schemas uid field :
  In (uid, field) (autofix_fields schemas)
  <-> exists fields, In (uid, fields) (Js.entries (Service.getUuidModels schemas))
                     /\ In field fields.
Proof.
  unfold autofix_fields. rewrite in_flat_map. split.
  - intros ([uid' fields] & Hin & Hp). apply in_map_iff in Hp as (f & [= <- <-] & Hf).
    now exists fields.
  - intros (fields & Hin & Hf). exists (uid, fields). split; [exact Hin|].
    apply in_map_iff. now exists field.
Qed.

(** X12: [diagnose] leaves the world as it is, whether it returns or throws.
    It returns exactly when [findDuplicatesForField] returns for every
    monitored field, and then it has scanned every monitored content
    type; otherwise it throws what the first failing field throws: the
    rejection of a query, or the [TypeError] of a stored value that names
    an inherited property. *)
Theorem diagnose_outcome (contentTypes : Js.object ContentType) (w : World) :
  snd (Service.diagnose contentTypes w) = w
  /\ match fst (Service.diagnose contentTypes w) with
     | inr report =>
         Service.scannedModels report
         = List.length (Js.entries (Service.getUuidModels contentTypes))
         /\ forall uid field,
              In (uid, field) (autofix_fields contentTypes) ->
              Db.read_fault (store w) uid = None
              /\ forall r v, In r (Db.rows (store w) uid) ->
                             Db.data r !! field = Some (Js.Str v) ->
                             Js.inherited v = false
     | inl e =>
         exists uid field,
           In (uid, field) (autofix_fields contentTypes)
           /\ match Db.read_fault (store w) uid with
              | Some msg => e = DatastoreError msg
              | None =>
                  e = TypeError "uuidGroups[uuidValue].push is not a function"
                  /\ exists r v, In r (Db.rows (store w) uid)
                                 /\ Db.data r !! field = Some (Js.Str v)
                                 /\ Js.inherited v = true
              end
     end.
Proof.
  split; [apply diagnose_reads|].
  unfold Service.diagnose, with_locals, bind.
  pose proof (diagnose_models_outcome w
                (Js.entries (Service.getUuidModels contentTypes))
                {| Service.scannedModels := 0; Service.totalDuplicates := 0;
                   Service.diagnosis_details := [] |}) as H.
  destruct (for_each _ _ _) as [[e|u] [w' report]]; cbn [fst snd locals].
  - destruct H as [-> (uid & fields & field & Hin & Hf & He)].
    exists uid, field. split; [apply in_autofix_fields; now exists fields|].
    pose proof (findDuplicatesForField_outcome uid field w) as Ho.
    destruct (Db.read_fault (store w) uid) as [msg|]; cbv beta iota in Ho.
    + rewrite Ho in He. now injection He.
    + destruct Ho as [[Ho (r & Hr & Hi)]|[(dups & Ho) _]];
        rewrite Ho in He; [|discriminate He].
      split; [now injection He|].
      apply inherited_value_data in Hi as (v & Hv & Hi). now exists r, v.
  - destruct H as (-> & Hs & Hall). split; [exact Hs|].
    intros uid field Hin. apply in_autofix_fields in Hin as (fields & Hin & Hf).
    destruct (Hall uid fields field Hin Hf) as (dups & Hd).
    pose proof (findDuplicatesForField_outcome uid field w) as Ho.
    destruct (Db.read_fault (store w) uid) as [msg|]; cbv beta iota in Ho;
      [rewrite Ho in Hd; discriminate Hd|].
    split; [reflexivity|].
    destruct Ho as [[Ho _]|[_ Hn]]; [rewrite Ho in Hd; discriminate Hd|].
    intros r v Hr Hv. destruct (Js.inherited v) eqn:Hi; [|reflexivity].
    assert (inherited_value field r = true)
      by (apply inherited_value_data; now exists v).
    rewrite (Hn r Hr) in H. discriminate.
Qed.

(* ===================================================================== *)
(** ** The missing values *)
(* ===================================================================== *)

Section GenerateMissing.
Variable dry : bool.









Lemma missing_field_world s p :
  fst (missing_field dry s p) = filling dry (fst s) p.
Proof. reflexivity. Qed.










End GenerateMissing.














(* ===================================================================== *)
(** ** The dry run of [generateMissing] *)
(* ===================================================================== *)








(* ===================================================================== *)
(** ** The configuration the validator accepts *)
(* ===================================================================== *)

Lemma check_version_accepts c :
  ConfigSchema.check_version c = inr tt ->
  ConfigSchema.or_else (ConfigSchema.defaultVersion c) (ConfigSchema.Text "v4")
  = ConfigSchema.Text
      (default "v4"
         (Js.or_else match ConfigSchema.defaultVersion c with
                     | ConfigSchema.Text s => Some s
                     | _ => None
                     end None))
  /\ In (default "v4"
           (Js.or_else match ConfigSchema.defaultVersion c with
                       | ConfigSchema.Text s => Some s
                       | _ => None
                       end None)) ["v4"; "v7"].
Proof.
  unfold ConfigSchema.check_version, ConfigSchema.or_else.
  destruct (ConfigSchema.defaultVersion c) as [| |b|n|s]; cbn.
  - intros _. split; [reflexivity|now left].
  - intros _. split; [reflexivity|now left].
  - destruct b; [discriminate|]. intros _. split; [reflexivity|now left].
  - destruct (Z.eqb n 0); [|discriminate]. intros _. split; [reflexivity|now left].
  - unfold Js.truthy_str.
    destruct (String.eqb_spec s "") as [->|Hs]; cbn.
    + intros _. split; [reflexivity|now left].
    + destruct (String.eqb_spec s "v4") as [->|H4]; cbn.
      * intros _. split; [reflexivity|now left].
      * destruct (String.eqb_spec s "v7") as [->|H7]; cbn; [|discriminate].
        intros _. split; [reflexivity|right; now left].
Qed.

Lemma check_level_accepts c :
  ConfigSchema.check_level c = inr tt ->
  ConfigSchema.or_else (ConfigSchema.logLevel c) (ConfigSchema.Text "info")
  = ConfigSchema.Text
      (default "info"
         (Js.or_else match ConfigSchema.logLevel c with
                     | ConfigSchema.Text s => Some s
                     | _ => None
                     end None))
  /\ In (default "info"
           (Js.or_else match ConfigSchema.logLevel c with
                       | ConfigSchema.Text s => Some s
                       | _ => None
                       end None)) ["debug"; "info"; "warn"; "error"].
Proof.
  unfold ConfigSchema.check_level, ConfigSchema.or_else.
  destruct (ConfigSchema.logLevel c) as [| |b|n|s]; cbn.
  - intros _. split; [reflexivity|right; now left].
  - intros _. split; [reflexivity|right; now left].
  - destruct b; [discriminate|]. intros _. split; [reflexivity|right; now left].
  - destruct (Z.eqb n 0); [|discriminate]. intros _.
    split; [reflexivity|right; now left].
  - unfold Js.truthy_str.
    destruct (String.eqb_spec s "") as [->|Hs]; cbn.
    + intros _. split; [reflexivity|right; now left].
    + destruct (String.eqb_spec s "debug") as [->|H1]; cbn;
        [intros _; split; [reflexivity|now left]|].
      destruct (String.eqb_spec s "info") as [->|H2]; cbn;
        [intros _; split; [reflexivity|right; now left]|].
      destruct (String.eqb_spec s "warn") as [->|H3]; cbn;
        [intros _; split; [reflexivity|right; right; now left]|].
      destruct (String.eqb_spec s "error") as [->|H4]; cbn; [|discriminate].
      intros _. split; [reflexivity|right; right; right; now left].
Qed.

Lemma check_attempts_accepts c :
  ConfigSchema.check_attempts c = inr tt ->
  ConfigSchema.or_else (ConfigSchema.maxRetryAttempts c) (ConfigSchema.Num 3)
  = ConfigSchema.Num
      (Z.of_nat match match ConfigSchema.maxRetryAttempts c with
                      | ConfigSchema.Num n => Some (Z.to_nat n)
                      | _ => None
                      end with
                | Some (S n) => S n
                | _ => 3
                end)
  /\ 1 <= match match ConfigSchema.maxRetryAttempts c with
                | ConfigSchema.Num n => Some (Z.to_nat n)
                | _ => None
                end with
          | Some (S n) => S n
          | _ => 3
          end.
Proof.
  unfold ConfigSchema.check_attempts, ConfigSchema.or_else.
  destruct (ConfigSchema.maxRetryAttempts c) as [| |b|n|s]; try discriminate.
  - intros _. cbn. split; [reflexivity|lia].
  - destruct (Z.ltb_spec n 1) as [Hlt|Hge]; [discriminate|]. intros _.
    cbn [ConfigSchema.truthy].
    destruct (Z.eqb_spec n 0) as [->|Hn]; [lia|]. cbn [negb].
    destruct (Z.to_nat n) as [|k] eqn:Ek; [lia|].
    split; [|lia]. f_equal. lia.
Qed.

Lemma check_booleans_accepts options :
  ConfigSchema.check_booleans options = inr tt ->
  forall option v, In (option, v) options ->
                   v = ConfigSchema.Undefined \/ exists b, v = ConfigSchema.Bool b.
Proof.
  induction options as [|[o x] options IH]; cbn [ConfigSchema.check_booleans].
  - intros _ ? ? [].
  - destruct x as [| |b|n|s]; try discriminate; intros H option v [[= <- <-]|Hin];
      try (now apply (IH H option)).
    + now left.
    + right. now exists b.
Qed.

(** X15: For settings the validator accepts, the configuration the bootstrap
    computes is the typed one of the hooks: the version is [v4] or [v7],
    the number of attempts is at least one, the log level is one of the
    four, and the three flags are booleans. The shipped defaults are
    accepted. *)
Theorem validator_accepts (c : ConfigSchema.Settings) :
  ConfigSchema.validator c = inr tt ->
  let config := Bootstrap.config_of (ConfigSchema.typed c) in
  ConfigSchema.effective c = ConfigSchema.of_config config
  /\ In (Bootstrap.defaultVersion config) ["v4"; "v7"]
  /\ 1 <= Bootstrap.maxRetryAttempts config
  /\ In (Bootstrap.logLevel config) ["debug"; "info"; "warn"; "error"].
Proof.
  unfold ConfigSchema.validator.
  destruct (ConfigSchema.check_version c) as [m|[]] eqn:Ev; [discriminate|].
  destruct (ConfigSchema.check_attempts c) as [m|[]] eqn:Ea; [discriminate|].
  destruct (ConfigSchema.check_level c) as [m|[]] eqn:El; [discriminate|].
  intros Hb. pose proof (check_booleans_accepts _ Hb) as Hbool.
  destruct (check_version_accepts c Ev) as [Hv1 Hv2].
  destruct (check_attempts_accepts c Ea) as [Ha1 Ha2].
  destruct (check_level_accepts c El) as [Hl1 Hl2].
  cbv zeta. unfold ConfigSchema.effective, ConfigSchema.of_config,
              Bootstrap.config_of, ConfigSchema.typed.
  cbn [Bootstrap.raw_defaultVersion Bootstrap.raw_autoGenerate
       Bootstrap.raw_validateUniqueness Bootstrap.raw_maxRetryAttempts
       Bootstrap.raw_logLevel Bootstrap.raw_autoMigrate
       Bootstrap.defaultVersion Bootstrap.autoGenerate
       Bootstrap.validateUniqueness Bootstrap.maxRetryAttempts
       Bootstrap.logLevel Bootstrap.autoMigrate].
  split; [|split; [exact Hv2|split; [exact Ha2|exact Hl2]]].
  rewrite Hv1, Ha1, Hl1. f_equal.
  - destruct (Hbool "autoGenerate" (ConfigSchema.autoGenerate c))
      as [->|(b & ->)]; [now left|reflexivity|now destruct b].
  - destruct (Hbool "validateUniqueness" (ConfigSchema.validateUniqueness c))
      as [->|(b & ->)]; [right; now left|reflexivity|now destruct b].
  - destruct (Hbool "autoMigrate" (ConfigSchema.autoMigrate c))
      as [->|(b & ->)]; [right; right; right; now left|reflexivity|].
    now destruct b.
Qed.

Lemma validator_accepts_witness :
  let config :=
    Bootstrap.config_of (ConfigSchema.typed ConfigSchema.default_settings) in
  ConfigSchema.effective ConfigSchema.default_settings
  = ConfigSchema.of_config config
  /\ In (Bootstrap.defaultVersion config) ["v4"; "v7"]
  /\ 1 <= Bootstrap.maxRetryAttempts config
  /\ In (Bootstrap.logLevel config) ["debug"; "info"; "warn"; "error"].
Proof. apply validator_accepts. reflexivity. Defined.

(* ===================================================================== *)
(** ** The translation keys of the admin panel *)
(* ===================================================================== *)

Lemma append_inj (p a b : string) : p +:+ a = p +:+ b -> a = b.
Proof.
  induction p as [|c p IH]; cbn; [auto|]. intros [= H]. now apply IH.
Qed.

Lemma get_entries {V} (o : Js.object V) k :
  List.NoDup (List.map fst o) -> Js.get (Js.entries o) k = Js.get o k.
Proof.
  intros Hnd. destruct (Js.get o k) as [v|] eqn:E.
  - apply in_get; [now apply entries_keys_nodup|].
    apply in_entries. now apply get_in.
  - destruct (Js.get (Js.entries o) k) as [v|] eqn:E'; [|reflexivity].
    apply get_in in E'. apply (proj1 (in_entries o (k, v))) in E'.
    apply (in_get _ _ _ Hnd) in E'. congruence.
Qed.

Lemma prefixed_lookup pluginId (l : list (string * string)) : forall acc k,
  List.NoDup (List.map fst l) ->
  Js.get (fold_left (fun prefixed kv =>
                       Js.set prefixed (pluginId +:+ "." +:+ fst kv) (snd kv))
                    l acc)
         (pluginId +:+ "." +:+ k)
  = match Js.get l k with
    | Some v => Some v
    | None => Js.get acc (pluginId +:+ "." +:+ k)
    end.
Proof.
  induction l as [|[k0 v0] l IH]; intros acc k Hnd; [reflexivity|].
  inversion Hnd as [|? ? Hk0 Hnd']; subst.
  cbn [fold_left fst snd Js.get]. rewrite (IH _ _ Hnd').
  destruct (String.eqb_spec k0 k) as [->|Hne].
  - assert (Js.get l k = None) as -> by now apply get_none_keys.
    apply get_set_same.
  - destruct (Js.get l k); [reflexivity|].
    apply get_set_other. intros E. apply Hne. symmetry.
    apply (append_inj "."), (append_inj pluginId). exact E.
Qed.

Lemma prefixed_keys pluginId (l : list (string * string)) : forall acc kv,
  In kv (fold_left (fun prefixed kv =>
                      Js.set prefixed (pluginId +:+ "." +:+ fst kv) (snd kv))
                   l acc) ->
  In kv acc \/ exists k, In k (List.map fst l)
                         /\ fst kv = pluginId +:+ "." +:+ k.
Proof.
  induction l as [|[k0 v0] l IH]; intros acc kv H; [now left|].
  cbn [fold_left fst snd] in H. destruct (IH _ _ H) as [Hin|(k & Hk & E)].
  - apply in_set_inv in Hin as [->|Hin]; [|now left].
    right. exists k0. split; [now left|reflexivity].
  - right. exists k. split; [now right|exact E].
Qed.

Lemma prefixed_nodup pluginId (l : list (string * string)) : forall acc,
  List.NoDup (List.map fst acc) ->
  List.NoDup
    (List.map fst
       (fold_left (fun prefixed kv =>
                     Js.set prefixed (pluginId +:+ "." +:+ fst kv) (snd kv))
                  l acc)).
Proof.
  induction l as [|[k0 v0] l IH]; intros acc H; [exact H|].
  cbn [fold_left]. apply IH. now apply set_keys_nodup.
Qed.

(** X16: [prefixPluginTranslations] keeps every translation under the key
    with the plugin id and a dot in front, and adds no other key: the
    prefixed object answers the prefixed key as the data answer the key,
    every key of it is a prefixed key of the data, and no key is listed
    twice. *)
Theorem prefixPluginTranslations_lookup
        (data : Js.object string) (pluginId : string) :
  List.NoDup (List.map fst data) ->
  (forall k, Js.get (Admin.prefixPluginTranslations data pluginId)
                    (pluginId +:+ "." +:+ k)
             = Js.get data k)
  /\ (forall key v,
         Js.get (Admin.prefixPluginTranslations data pluginId) key = Some v ->
         exists k, key = pluginId +:+ "." +:+ k /\ Js.get data k = Some v)
  /\ List.NoDup (List.map fst (Admin.prefixPluginTranslations data pluginId)).
Proof.
  intros Hnd. unfold Admin.prefixPluginTranslations.
  assert (forall k,
             Js.get (fold_left
                       (fun prefixed kv =>
                          Js.set prefixed (pluginId +:+ "." +:+ fst kv) (snd kv))
                       (Js.entries data) [])
                    (pluginId +:+ "." +:+ k)
             = Js.get data k) as Hlookup.
  { intros k. rewrite prefixed_lookup by now apply entries_keys_nodup.
    rewrite get_entries by exact Hnd. now destruct (Js.get data k). }
  split; [exact Hlookup|]. split.
  - intros key v Hget. pose proof (get_in _ _ _ Hget) as Hin.
    apply prefixed_keys in Hin as [[]|(k & _ & E)]. cbn [fst] in E. subst key.
    exists k. split; [reflexivity|]. now rewrite <- Hlookup.
  - apply prefixed_nodup. constructor.
Qed.

Lemma prefixPluginTranslations_lookup_witness :
  (forall k, Js.get (Admin.prefixPluginTranslations
                       [("form.label", "UUID"); ("form.description", "Generated")]
                       "field-uuid")
                    ("field-uuid" +:+ "." +:+ k)
             = Js.get [("form.label", "UUID"); ("form.description", "Generated")] k)
  /\ (forall key v,
         Js.get (Admin.prefixPluginTranslations
                   [("form.label", "UUID"); ("form.description", "Generated")]
                   "field-uuid") key = Some v ->
         exists k, key = "field-uuid" +:+ "." +:+ k
                   /\ Js.get [("form.label", "UUID");
                              ("form.description", "Generated")] k = Some v)
  /\ List.NoDup
       (List.map fst
          (Admin.prefixPluginTranslations
             [("form.label", "UUID"); ("form.description", "Generated")]
             "field-uuid")).
Proof.
  apply prefixPluginTranslations_lookup.
  repeat constructor; simpl; intuition discriminate.
Defined.

(* ===================================================================== *)
(** ** The monitored fields *)
(* ===================================================================== *)

Lemma set_fresh {V} (o : Js.object V) k v :
  Js.get o k = None -> Js.set o k v = o ++ [(k, v)].
Proof.
  induction o as [|[k' v'] o IH]; cbn; [reflexivity|].
  destruct (String.eqb k' k); [discriminate|]. intros H. now rewrite IH.
Qed.

(** The uuid attributes of a content type, as [findUuidModels] lists
    them. *)
Lemma findUuidModels_members types : forall acc uid fields,
  List.NoDup (List.map fst types) ->
  (forall k, In k (List.map fst types) -> Js.get acc k = None) ->
  In (uid, fields)
     (fold_left
        (fun acc kc =>
           let '(key, contentType) := kc in
           if negb (String.prefix "api" key) then acc
           else
             let uuidAttributes :=
               List.map fst (List.filter (fun ka => is_uuid_attribute (snd ka))
                                         (Js.entries (attributes contentType))) in
             if (0 <? List.length uuidAttributes)%nat
             then Js.set acc key uuidAttributes
             else acc)
        types acc)
  <-> In (uid, fields) acc
      \/ exists ct, In (uid, ct) types /\ String.prefix "api" uid = true
                    /\ fields
                       = List.map fst
                           (List.filter (fun ka => is_uuid_attribute (snd ka))
                                        (Js.entries (attributes ct)))
                    /\ fields <> [].
Proof.
  induction types as [|[key ct] types IH]; intros acc uid fields Hnd Hfresh.
  - cbn. split; [now left|]. intros [H|(ct & [] & _)]. exact H.
  - inversion Hnd as [|? ? Hkey Hnd']; subst. cbn [fold_left].
    match goal with |- context [fold_left ?G types _] => set (F := G) in * end.
    set (attrs := List.map fst
                    (List.filter (fun ka => is_uuid_attribute (snd ka))
                                 (Js.entries (attributes ct)))).
    assert (forall acc', (forall k, In k (List.map fst types) ->
                                    Js.get acc' k = None) ->
              (In (uid, fields) acc' <->
               In (uid, fields) acc
               \/ (uid = key /\ String.prefix "api" uid = true
                   /\ fields = attrs /\ fields <> [])) ->
              In (uid, fields) (fold_left F types acc')
              <-> In (uid, fields) acc
                  \/ exists ct0,
                       In (uid, ct0) ((key, ct) :: types)
                       /\ String.prefix "api" uid = true
                       /\ fields
                          = List.map fst
                              (List.filter (fun ka => is_uuid_attribute (snd ka))
                                           (Js.entries (attributes ct0)))
                       /\ fields <> []) as Hstep.
    { intros acc' Hf' Hacc'. rewrite (IH acc' uid fields Hnd' Hf'), Hacc'.
      split.
      - intros [[H|(-> & Hp & Hf & Hne)]|(ct' & Hin & H)].
        + now left.
        + right. exists ct. split; [now left|]. now split.
        + right. exists ct'. split; [now right|exact H].
      - intros [H|(ct' & [[= <- <-]|Hin] & Hp & Hf & Hne)].
        + left. now left.
        + left. right. now split.
        + right. exists ct'. now split. }
    fold attrs.
    destruct (String.prefix "api" key) eqn:Hp; cbn [negb].
    + cbv zeta. destruct (Nat.ltb_spec 0 (List.length attrs)) as [Hlen|Hlen].
      * apply Hstep.
        -- intros k Hk. rewrite get_set_other.
           ++ apply Hfresh. now right.
           ++ intros ->. contradiction.
        -- rewrite set_fresh by (apply Hfresh; now left).
           rewrite in_app_iff. cbn [In]. split.
           ++ intros [H|[[= <- <-]|[]]]; [now left|right].
              split; [reflexivity|]. split; [exact Hp|]. split; [reflexivity|].
              intros E. rewrite E in Hlen. cbn in Hlen. lia.
           ++ intros [H|(-> & _ & -> & _)]; [now left|right; now left].
      * apply Hstep.
        -- intros k Hk. apply Hfresh. now right.
        -- split; [now left|]. intros [H|(_ & _ & -> & Hne)]; [exact H|].
           destruct attrs; [contradiction|cbn in Hlen; lia].
    + apply Hstep.
      * intros k Hk. apply Hfresh. now right.
      * split; [now left|]. intros [H|(-> & Hp' & _)]; [exact H|congruence].
Qed.

Lemma prefix_api uid :
  String.prefix "api::" uid = true -> String.prefix "api" uid = true.
Proof.
  destruct uid as [|a [|b [|c uid]]]; cbn; try discriminate;
    repeat match goal with
           | |- context [if ?x then _ else _] => destruct x
           end; try discriminate; try reflexivity.
  intros _. now destruct uid.
Qed.

Lemma in_monitored schemas uid field attr :
  In (uid, field, attr) (monitored schemas)
  <-> exists ct, In (uid, ct) schemas /\ String.prefix "api::" uid = true
                 /\ In (field, attr) (attributes ct)
                 /\ is_uuid_attribute attr = true.
Proof.
  unfold monitored. rewrite in_flat_map. split.
  - intros ([uid' ct] & Hin & H). cbn [fst snd] in H.
    destruct (String.prefix "api::" uid') eqn:Hp; [|destruct H].
    apply in_map_iff in H as ([f a] & [= <- <- <-] & Hf).
    apply filter_In in Hf as [Hf Hu]. exists ct.
    split; [now apply in_entries|]. split; [exact Hp|].
    split; [now apply in_entries|exact Hu].
  - intros (ct & Hin & Hp & Hf & Hu). exists (uid, ct).
    split; [now apply in_entries|]. cbn [fst snd]. rewrite Hp.
    apply in_map_iff. exists (field, attr). split; [reflexivity|].
    apply filter_In. split; [now apply in_entries|exact Hu].
Qed.

(** X17: [findUuidModels], and with it [getUuidModels], lists under a content
    type whose uid starts with [api] its uuid attributes, in the order of
    [Object.keys], when it has one, and lists nothing else. Every field
    the status check reports on is listed. *)
Theorem findUuidModels_lists (schemas : Js.object ContentType) :
  well_formed schemas ->
  (forall uid fields,
      Js.get (Bootstrap.findUuidModels schemas) uid = Some fields
      <-> exists ct,
            In (uid, ct) schemas /\ String.prefix "api" uid = true
            /\ fields <> []
            /\ fields
               = List.map fst
                   (List.filter (fun ka => is_uuid_attribute (snd ka))
                                (Js.entries (attributes ct))))
  /\ (forall uid fields field,
         Js.get (Bootstrap.findUuidModels schemas) uid = Some fields ->
         In field fields
         <-> exists ct attr, In (uid, ct) schemas
                             /\ In (field, attr) (attributes ct)
                             /\ is_uuid_attribute attr = true)
  /\ Service.getUuidModels schemas = Bootstrap.findUuidModels schemas
  /\ forall w status w' info,
       Migrations.checkMigrationStatus schemas w = (inr status, w') ->
       In info (Migrations.contentTypes status) ->
       exists fields,
         Js.get (Bootstrap.findUuidModels schemas) (Migrations.uid info)
         = Some fields
         /\ In (Migrations.field info) fields.
Proof.
  intros [Hnd Hattrs].
  assert (forall uid fields,
             In (uid, fields) (Bootstrap.findUuidModels schemas)
             <-> exists ct,
                   In (uid, ct) schemas /\ String.prefix "api" uid = true
                   /\ fields
                      = List.map fst
                          (List.filter (fun ka => is_uuid_attribute (snd ka))
                                       (Js.entries (attributes ct)))
                   /\ fields <> []) as Hmem.
  { intros uid fields. unfold Bootstrap.findUuidModels.
    rewrite findUuidModels_members.
    - split.
      + intros [[]|(ct & Hin & H)]. exists ct. split; [|exact H].
        now apply in_entries.
      + intros (ct & Hin & H). right. exists ct. split; [|exact H].
        now apply in_entries.
    - now apply entries_keys_nodup.
    - reflexivity. }
  assert (List.NoDup (List.map fst (Bootstrap.findUuidModels schemas))) as Hmnd.
  { unfold Bootstrap.findUuidModels.
    apply (findUuidModels_spec (Js.entries schemas) []).
    - constructor.
    - intros kv [].
    - intros uid ct Hin. apply (Hattrs uid ct). now apply in_entries. }
  assert (forall ct field,
             In field (List.map fst
                         (List.filter (fun ka => is_uuid_attribute (snd ka))
                                      (Js.entries (attributes ct))))
             <-> exists attr, In (field, attr) (attributes ct)
                              /\ is_uuid_attribute attr = true) as Hfields.
  { intros ct field. rewrite in_map_iff. split.
    - intros ([f a] & <- & Hin). apply filter_In in Hin as [Hin Hu].
      exists a. split; [now apply in_entries|exact Hu].
    - intros (attr & Hin & Hu). exists (field, attr). split; [reflexivity|].
      apply filter_In. split; [now apply in_entries|exact Hu]. }
  assert (forall uid fields,
             Js.get (Bootstrap.findUuidModels schemas) uid = Some fields
             <-> exists ct,
                   In (uid, ct) schemas /\ String.prefix "api" uid = true
                   /\ fields <> []
                   /\ fields
                      = List.map fst
                          (List.filter (fun ka => is_uuid_attribute (snd ka))
                                       (Js.entries (attributes ct)))) as Hget.
  { intros uid fields. split.
    - intros H. apply get_in, Hmem in H as (ct & Hin & Hp & Hf & Hne).
      now exists ct.
    - intros (ct & Hin & Hp & Hne & Hf). apply in_get; [exact Hmnd|].
      apply Hmem. now exists ct. }
  split; [exact Hget|]. split; [|split; [reflexivity|]].
  - intros uid fields field H. apply Hget in H as (ct & Hin & Hp & Hne & ->).
    rewrite Hfields. split.
    + intros (attr & H). now exists ct, attr.
    + intros (ct' & attr & Hin' & H). exists attr.
      assert (ct' = ct) as <-; [|exact H].
      assert (Js.get schemas uid = Some ct') as E1 by now apply in_get.
      assert (Js.get schemas uid = Some ct) as E2 by now apply in_get.
      congruence.
  - intros w status w' info Hrun Hin.
    destruct (checkMigrationStatus_run schemas w) as (status0 & Hrun0 & Hct).
    rewrite Hrun0 in Hrun. injection Hrun as <- <-. rewrite Hct in Hin.
    apply in_map_iff in Hin as ([[uid field] attr] & <- & Hin).
    apply in_monitored in Hin as (ct & Hin & Hp & Hf & Hu).
    assert (Migrations.uid (info_of (store w) (uid, field, attr)) = uid
            /\ Migrations.field (info_of (store w) (uid, field, attr)) = field)
      as [-> ->].
    { unfold info_of. now destruct (Db.read_fault (store w) uid). }
    eexists. split.
    + apply Hget. exists ct. split; [exact Hin|].
      split; [now apply prefix_api|]. split; [|reflexivity].
      intros E.
      assert (In field (List.map fst
                          (List.filter (fun ka => is_uuid_attribute (snd ka))
                                       (Js.entries (attributes ct))))) as Hx
        by (apply Hfields; now exists attr).
      rewrite E in Hx. destruct Hx.
    + apply Hfields. now exists attr.
Qed.

Lemma findUuidModels_lists_witness :
  Js.get (Bootstrap.findUuidModels Scenario.schemas) Scenario.article
  = Some ["uuid"].
Proof.
  apply (proj1 (findUuidModels_lists Scenario.schemas scenario_well_formed)).
  exists {| attributes := [("title", Scenario.plain);
                           ("uuid", Scenario.uuid_attribute ∅)] |}.
  split; [now left|]. split; [reflexivity|]. split; [discriminate|].
  vm_compute. reflexivity.
Defined.

(* ===================================================================== *)
(** ** The auto-migration at startup *)
(* ===================================================================== *)

(** X18: The auto-migration never throws. It leaves the world as it is unless
    [autoMigrate] is set, a content type is monitored by the bootstrap and
    some monitored field that could be read is not clean; in that case
    its effect is that of the committed [runMigration] with the default
    options. *)
Theorem autoMigration_outcome (config : Bootstrap.Config)
        (contentTypes : Js.object ContentType) (w : World) :
  exists w',
    Startup.autoMigration config contentTypes w = (inr tt, w')
    /\ (Bootstrap.autoMigrate config = false -> w' = w)
    /\ (Bootstrap.findUuidModels contentTypes = [] -> w' = w)
    /\ ((forall uid field attr,
            In (uid, field, attr) (monitored contentTypes) ->
            Db.read_fault (store w) uid = None ->
            clean (store w) uid field) -> w' = w)
    /\ (Bootstrap.autoMigrate config = true ->
        Bootstrap.findUuidModels contentTypes <> [] ->
        forall uid field attr,
          In (uid, field, attr) (monitored contentTypes) ->
          Db.read_fault (store w) uid = None ->
          ~ clean (store w) uid field ->
          w' = snd (Migrations.runMigration contentTypes
                      (Options.migration false) w)).
Proof.
  unfold Startup.autoMigration.
  destruct (Bootstrap.autoMigrate config) eqn:Ha; cbn [andb].
  2: { exists w. split; [reflexivity|]. repeat split; auto. discriminate. }
  destruct (Nat.ltb_spec 0 (List.length (List.map fst
              (Js.entries (Bootstrap.findUuidModels contentTypes)))))
    as [Hlen|Hlen].
  2: { exists w. split; [reflexivity|]. repeat split; auto.
       intros _ Hne. exfalso.
       destruct (Bootstrap.findUuidModels contentTypes) as [|m ms] eqn:Em;
         [now apply Hne|].
       rewrite List.length_map in Hlen.
       pose proof (Permutation_length (entries_permutation (m :: ms))) as Hp.
       cbn [List.length] in Hp. lia. }
  unfold try_catch, bind at 1. rewrite checkMigrationStatus_checked.
  set (status := fold_left _ _ _).
  destruct (Migrations.needsMigration status) eqn:Hn.
  2: { exists w. split; [reflexivity|]. repeat split; auto.
       intros _ _ uid field attr Hm Hread Hdirty. exfalso. apply Hdirty.
       unfold status in Hn.
       exact (proj1 (needsMigration_clean contentTypes (store w)) Hn
                    uid field attr Hm Hread). }
  unfold bind.
  destruct (runMigration_accounted contentTypes
              {| Migrations.opt_dryRun := Some false;
                 Migrations.opt_fixEmpty := None;
                 Migrations.opt_fixInvalid := None;
                 Migrations.opt_fixDuplicates := None |} w)
    as (r & w' & Hrun & _).
  rewrite Hrun. cbn [ret]. exists w'. split; [reflexivity|].
  split; [discriminate|]. split; [|split].
  - intros E. rewrite E in Hlen. cbn in Hlen. lia.
  - intros Hclean. apply needsMigration_clean in Hclean.
    unfold status in Hn. congruence.
  - intros _ _ uid field attr _ _ _. unfold Options.migration. now rewrite Hrun.
Qed.

(* ===================================================================== *)
(** ** The first free identifier *)
(* ===================================================================== *)

Section FirstFree.
Variable config : Bootstrap.Config.
Variables uid field : string.
Hypothesis Hunique : Bootstrap.validateUniqueness config = true.

Lemma isUuidExists_held u w :
  Db.read_fault (store w) uid = None ->
  exists b,
    Bootstrap.isUuidExists config uid field u None w = (inr b, w)
    /\ (b = true <-> exists r, In r (Db.rows (store w) uid)
                               /\ Db.data r !! field = Some (Js.Str u)).
Proof.
  intros Hr. unfold Bootstrap.isUuidExists, Bootstrap.checkUuidExists.
  rewrite Hunique. cbn [negb Js.or_else].
  unfold bind, Documents.findFirst, Documents.query, ret. rewrite Hr.
  cbn [fst]. eexists. split; [reflexivity|].
  destruct (List.find _ _) as [r|] eqn:E.
  - split; [intros _|reflexivity]. apply List.find_some in E as [Hin Hm].
    exists r. split; [exact Hin|].
    apply (checkDuplicate_filters_hold field u None r) in Hm. apply Hm.
  - split; [discriminate|]. intros (r & Hin & Hd).
    pose proof (List.find_none _ _ E r Hin) as Hn.
    assert (Db.matches [Db.FieldEq field u] r = true) as Hm.
    { apply (checkDuplicate_filters_hold field u None r). split; [exact Hd|].
      discriminate. }
    cbn [Js.or_else] in Hm. congruence.
Qed.

Lemma candidate_advance w i :
  candidate config (advance w) i = candidate config w (S i).
Proof. unfold candidate. now rewrite later_advance. Qed.

Lemma taken_advance w i :
  taken config uid field (advance w) i <-> taken config uid field w (S i).
Proof. unfold taken. now rewrite candidate_advance, store_advance. Qed.

Lemma attempts_first_free n : forall w,
  Db.read_fault (store w) uid = None ->
  match Bootstrap.attempts config uid field n w with
  | (inr v, w') =>
      exists i, i < n /\ v = candidate config w i
                /\ ~ taken config uid field w i
                /\ (forall j, j < i -> taken config uid field w j)
                /\ w' = later (S i) w
  | (inl e, w') =>
      e = Bootstrap.exhausted config uid field
      /\ (forall i, i < n -> taken config uid field w i)
      /\ w' = later n w
  end.
Proof.
  induction n as [|n IH]; intros w Hr.
  - cbn. split; [reflexivity|]. split; [lia|reflexivity].
  - rewrite attempts_step, Hunique. cbn [negb].
    destruct (isUuidExists_held (candidate config w 0) (advance w))
      as (b & -> & Hb); [now rewrite store_advance|].
    rewrite store_advance in Hb.
    destruct b; cbn [negb].
    + specialize (IH (advance w)). rewrite store_advance in IH.
      specialize (IH Hr).
      assert (taken config uid field w 0) as H0 by now apply Hb.
      destruct (Bootstrap.attempts config uid field n (advance w))
        as [[e|v] w'].
      * destruct IH as (-> & Hall & ->). split; [reflexivity|]. split.
        -- intros [|i] Hi; [exact H0|]. apply taken_advance, Hall. lia.
        -- now rewrite later_advance.
      * destruct IH as (i & Hi & -> & Hfree & Hbefore & ->).
        exists (S i). split; [lia|]. split; [apply candidate_advance|].
        split; [now rewrite <- taken_advance|]. split.
        -- intros [|j] Hj; [exact H0|]. apply taken_advance, Hbefore. lia.
        -- now rewrite later_advance.
    + exists 0. split; [lia|]. split; [reflexivity|]. split.
      * intros H. apply Hb in H. discriminate.
      * split; [lia|reflexivity].
Qed.

End FirstFree.

(** X19: With the uniqueness check on and a datastore that answers,
    [generateUniqueUuid] returns the first of its candidates that no row
    holds in the field, a well-formed identifier, after drawing it and
    the candidates before it; it throws the application error exactly
    when every one of the [maxRetryAttempts] candidates is held. The
    store stays as it is. *)
Theorem generateUniqueUuid_first_free
        (config : Bootstrap.Config) (uid field : string) (w : World) :
  Bootstrap.validateUniqueness config = true ->
  Db.read_fault (store w) uid = None ->
  match Bootstrap.generateUniqueUuid config uid field w with
  | (inr v, w') =>
      exists i, i < Bootstrap.maxRetryAttempts config
                /\ v = candidate config w i
                /\ Uuid.validate_string v = true
                /\ (forall r, In r (Db.rows (store w) uid) ->
                              Db.data r !! field <> Some (Js.Str v))
                /\ (forall j, j < i -> taken config uid field w j)
                /\ w' = later (S i) w
  | (inl e, w') =>
      e = Bootstrap.exhausted config uid field
      /\ (forall i, i < Bootstrap.maxRetryAttempts config ->
                    taken config uid field w i)
      /\ w' = later (Bootstrap.maxRetryAttempts config) w
  end.
Proof.
  intros Hu Hr. unfold Bootstrap.generateUniqueUuid.
  pose proof (attempts_first_free config uid field Hu
                (Bootstrap.maxRetryAttempts config) w Hr) as H.
  destruct (Bootstrap.attempts config uid field _ w) as [[e|v] w'] eqn:E.
  - exact H.
  - destruct H as (i & Hi & Hv & Hfree & Hbefore & Hw).
    exists i. split; [exact Hi|]. split; [exact Hv|].
    split; [exact (attempts_valid _ _ _ _ _ _ _ E)|].
    split; [|split; [exact Hbefore|exact Hw]].
    intros r Hin Hd. apply Hfree. exists r. split; [exact Hin|]. now rewrite <- Hv.
Qed.

Lemma generateUniqueUuid_first_free_witness :
  let w := Scenario.world
             (Scenario.sound [Scenario.row 1 "d1" (Some Scenario.uuid0)]) in
  match Bootstrap.generateUniqueUuid Scenario.defaults Scenario.article "uuid" w
  with
  | (inr v, w') =>
      exists i, i < Bootstrap.maxRetryAttempts Scenario.defaults
                /\ v = candidate Scenario.defaults w i
                /\ Uuid.validate_string v = true
                /\ (forall r, In r (Db.rows (store w) Scenario.article) ->
                              Db.data r !! "uuid" <> Some (Js.Str v))
                /\ (forall j, j < i ->
                              taken Scenario.defaults Scenario.article "uuid" w j)
                /\ w' = later (S i) w
  | (inl e, w') =>
      e = Bootstrap.exhausted Scenario.defaults Scenario.article "uuid"
      /\ (forall i, i < Bootstrap.maxRetryAttempts Scenario.defaults ->
                    taken Scenario.defaults Scenario.article "uuid" w i)
      /\ w' = later (Bootstrap.maxRetryAttempts Scenario.defaults) w
  end.
Proof. apply generateUniqueUuid_first_free; reflexivity. Defined.

(* ===================================================================== *)
(** ** Export and import *)
(* ===================================================================== *)








Section ImportSnapshot.
Variables (dry overwrite : bool).





End ImportSnapshot.



(* ===================================================================== *)
(** ** The status after the migration *)
(* ===================================================================== *)

Lemma mplan_empty_ids rnd uid field targets : forall n,
  List.map Migrations.documentId (MigrationPlan.empty rnd n uid field targets)
  = targets.
Proof.
  induction targets as [|d targets IH]; intros n; [reflexivity|].
  cbn. now rewrite IH.
Qed.

















(* ===================================================================== *)
(** ** The dry run and the counts of the status *)
(* ===================================================================== *)

Lemma mplan_empty_length rnd uid field targets n :
  List.length (MigrationPlan.empty rnd n uid field targets) = List.length targets.
Proof.
  rewrite <- (length_map Migrations.documentId). now rewrite mplan_empty_ids.
Qed.

Lemma mplan_invalid_app rnd uid field issues1 : forall issues2 n,
  MigrationPlan.invalid rnd n uid field (issues1 ++ issues2)
  = MigrationPlan.invalid rnd n uid field issues1
    ++ MigrationPlan.invalid rnd
         (n + List.length (MigrationPlan.invalid rnd n uid field issues1))
         uid field issues2.
Proof.
  induction issues1 as [|[d v|u k ids] issues1 IH]; intros issues2 n.
  - cbn. now rewrite Nat.add_0_r.
  - cbn. rewrite IH. do 3 f_equal. lia.
  - cbn. apply IH.
Qed.

Lemma mplan_invalid_length rnd uid field issues : forall n,
  (forall i, In i issues -> exists d v, i = Migrations.InvalidIssue d v) ->
  List.length (MigrationPlan.invalid rnd n uid field issues)
  = List.length issues.
Proof.
  induction issues as [|i issues IH]; intros n H; [reflexivity|].
  destruct (H i (or_introl eq_refl)) as (d & v & ->). cbn.
  rewrite IH; [reflexivity|]. intros j Hj. apply H. now right.
Qed.

Lemma mplan_invalid_none rnd uid field m : forall n,
  MigrationPlan.invalid rnd n uid field (Migrations.duplicate_issues m) = [].
Proof.
  unfold Migrations.duplicate_issues.
  induction (Migrations.duplicate_groups m) as [|g l IH]; intros n;
    [reflexivity|]. cbn. apply IH.
Qed.

Lemma mplan_duplicates_length rnd uid field issues n :
  List.length (MigrationPlan.duplicates rnd n uid field issues)
  = List.length (rest_of (List.map ids_of issues)).
Proof.
  rewrite <- (length_map Migrations.documentId). now rewrite mplan_duplicates_ids.
Qed.

Lemma rest_of_app l1 l2 : rest_of (l1 ++ l2) = rest_of l1 ++ rest_of l2.
Proof. unfold rest_of. apply flat_map_app. Qed.

Lemma rest_of_invalid issues :
  (forall i, In i issues -> exists d v, i = Migrations.InvalidIssue d v) ->
  rest_of (List.map ids_of issues) = [].
Proof.
  induction issues as [|i issues IH]; intros H; [reflexivity|].
  destruct (H i (or_introl eq_refl)) as (d & v & ->). cbn.
  apply IH. intros j Hj. apply H. now right.
Qed.

Lemma rest_of_duplicates m :
  List.length (rest_of (List.map ids_of (Migrations.duplicate_issues m)))
  = Migrations.duplicate_total m.
Proof.
  unfold Migrations.duplicate_issues, Migrations.duplicate_total.
  induction (Migrations.duplicate_groups m) as [|g l IH]; [reflexivity|].
  cbn [List.map rest_of List.flat_map ids_of fold_left].
  rewrite duplicate_total_fold, length_app.
  unfold rest_of in IH. rewrite IH.
  destruct (snd g) as [|a ids]; cbn; lia.
Qed.

Lemma empty_targets_length st uid field :
  List.length (MigrationPlan.empty_targets st uid field)
  = List.length
      (List.filter (fun r => negb (Js.truthy (Db.data r !! field)))
                   (Db.rows st uid)).
Proof.
  unfold MigrationPlan.empty_targets. rewrite length_map. f_equal.
  apply List.filter_ext. intros r. unfold Db.matches. cbn [forallb Db.holds].
  rewrite andb_true_r. unfold Js.truthy.
  destruct (Db.data r !! field) as [[|s]|]; try reflexivity.
  now rewrite negb_involutive.
Qed.

(** The changes of the dry run for a monitored field are as many as the
    status counts issues of the field. *)
Lemma dry_field_counts st m s :
  store (fst s) = st ->
  let info := info_of st m in
  let s' := Outcome.field true true true true info s in
  store (fst s') = st
  /\ Migrations.fixed_empty (snd s')
     = Migrations.fixed_empty (snd s) + default 0 (Migrations.emptyCount info)
  /\ Migrations.fixed_invalid (snd s')
     = Migrations.fixed_invalid (snd s)
       + default 0 (Migrations.invalidCount info)
  /\ Migrations.fixed_duplicates (snd s')
     = Migrations.fixed_duplicates (snd s)
       + default 0 (Migrations.duplicateCount info)
  /\ Migrations.errors (snd s') = Migrations.errors (snd s).
Proof.
  intros Hst. cbv zeta. unfold Outcome.field, Outcome.run. cbn [fst snd].
  rewrite !commit_all_dry_store.
  unfold MigrationPlan.added, Outcome.with_errors.
  cbn [Migrations.fixed_empty Migrations.fixed_invalid
       Migrations.fixed_duplicates Migrations.errors].
  rewrite !Nat.add_0_r.
  destruct m as [[uid field] attr]. unfold info_of.
  destruct (Db.read_fault st uid) as [msg|] eqn:Hr.
  - unfold Outcome.empty_plan, Outcome.empty_errors, Outcome.invalid_plan,
      Outcome.duplicates_plan, Outcome.fixes_empty.
    cbn. rewrite app_nil_r. repeat split; try lia; exact Hst.
  - set (rows := Db.rows st uid).
    set (info := Migrations.scanned_info uid field attr rows).
    destruct (scan_counts field rows
                {| Migrations.empties := 0; Migrations.invalids := 0;
                   Migrations.invalid_issues := []; Migrations.by_uuid := [] |})
      as (He & Hi & Hl).
    cbn [Migrations.empties Migrations.invalids Migrations.invalid_issues
         List.length Nat.add] in He, Hi, Hl.
    fold (Migrations.scan field rows) in He, Hi, Hl.
    assert (forall i, In i (Migrations.invalid_issues (Migrations.scan field rows)) ->
                      exists d v, i = Migrations.InvalidIssue d v) as Hinv.
    { apply invalid_issues_only. intros i []. }
    split; [exact Hst|]. split; [|split; [|split]].
    + f_equal. unfold Outcome.empty_plan, Outcome.fixes_empty.
      cbn [andb]. unfold info.
      cbn [Migrations.scanned_info Migrations.emptyCount Migrations.uid
           Migrations.field Migrations.positive_count default].
      rewrite Hst, Hr, He.
      destruct (Nat.ltb_spec 0 (List.length
                   (List.filter (fun r => negb (Js.truthy (Db.data r !! field)))
                                rows))) as [Hp|Hz].
      * unfold id. now rewrite mplan_empty_length, empty_targets_length.
      * cbn [List.length]. unfold id. lia.
    + f_equal. unfold Outcome.invalid_plan. unfold info.
      cbn [Migrations.scanned_info Migrations.issues Migrations.invalidCount
           Migrations.uid Migrations.field default].
      rewrite mplan_invalid_app, mplan_invalid_none, app_nil_r.
      rewrite mplan_invalid_length by exact Hinv. unfold id. congruence.
    + f_equal. unfold Outcome.duplicates_plan. unfold info.
      cbn [Migrations.scanned_info Migrations.issues Migrations.duplicateCount
           Migrations.uid Migrations.field default].
      rewrite mplan_duplicates_length, List.map_app, rest_of_app,
        rest_of_invalid by exact Hinv.
      cbn [app]. apply rest_of_duplicates.
    + unfold Outcome.empty_errors. unfold info at 2.
      cbn [Migrations.scanned_info Migrations.uid]. rewrite Hst, Hr.
      destruct (Outcome.fixes_empty true info); apply app_nil_r.
Qed.

Lemma dry_fields_counts st ms : forall s,
  store (fst s) = st ->
  let s' := Outcome.fields true true true true (List.map (info_of st) ms) s in
  store (fst s') = st
  /\ Migrations.fixed_empty (snd s')
     = Migrations.fixed_empty (snd s)
       + Controller.sum_or_zero Migrations.emptyCount (List.map (info_of st) ms)
  /\ Migrations.fixed_invalid (snd s')
     = Migrations.fixed_invalid (snd s)
       + Controller.sum_or_zero Migrations.invalidCount
                                (List.map (info_of st) ms)
  /\ Migrations.fixed_duplicates (snd s')
     = Migrations.fixed_duplicates (snd s)
       + Controller.sum_or_zero Migrations.duplicateCount
                                (List.map (info_of st) ms)
  /\ Migrations.errors (snd s') = Migrations.errors (snd s).
Proof.
  induction ms as [|m ms IH]; intros s Hst; cbv zeta.
  - cbn. rewrite !Nat.add_0_r. auto.
  - cbn [List.map]. unfold Outcome.fields. cbn [fold_left].
    fold (Outcome.fields true true true true (List.map (info_of st) ms)
            (Outcome.field true true true true (info_of st m) s)).
    destruct (dry_field_counts st m s Hst) as (Hs1 & He1 & Hi1 & Hd1 & Hr1).
    destruct (IH _ Hs1) as (Hs & He & Hi & Hd & Hr).
    unfold Controller.sum_or_zero. cbn [fold_left].
    rewrite !sum_or_zero_fold.
    split; [exact Hs|]. split; [rewrite He, He1; lia|].
    split; [rewrite Hi, Hi1; lia|]. split; [rewrite Hd, Hd1; lia|congruence].
Qed.

(** X22: The dry run of [runMigration] with the default options announces,
    in the invalid and in the duplicate category, as many fixes as the
    status check counts issues on the same store: these two categories
    are fixed from the issues of the status scan. They are the counters
    of [getStats]. The dry run leaves the store as it is. *)
Theorem runMigration_dry_counts (schemas : Js.object ContentType) (w : World) :
  exists status result w',
    Migrations.checkMigrationStatus schemas w = (inr status, w)
    /\ Migrations.runMigration schemas (Options.migration true) w
       = (inr result, w')
    /\ store w' = store w
    /\ Migrations.fixed_invalid result
       = Controller.sum_or_zero Migrations.invalidCount
                                (Migrations.contentTypes status)
    /\ Migrations.fixed_duplicates result
       = Controller.sum_or_zero Migrations.duplicateCount
                                (Migrations.contentTypes status).
Proof.
  destruct (checkMigrationStatus_run schemas w) as (status & Hstatus & Hct).
  rewrite runMigration_run by (now left).
  cbn [Options.migration Migrations.opt_dryRun Migrations.opt_fixEmpty
       Migrations.opt_fixInvalid Migrations.opt_fixDuplicates default].
  cbv zeta.
  destruct (dry_fields_counts (store w) (monitored schemas)
              (w, Outcome.initial true) eq_refl) as (Hs & _ & Hi & Hd & _).
  eexists status, _, _. split; [exact Hstatus|]. split; [reflexivity|].
  rewrite Hct. cbn [Migrations.set_total Migrations.fixed_invalid
                    Migrations.fixed_duplicates].
  split; [exact Hs|]. split; [exact Hi|exact Hd].
Qed.

(* ===================================================================== *)
(** ** [diagnose] after [autofix] *)
(* ===================================================================== *)









(* ===================================================================== *)
(** ** The two duplicate detectors agree *)
(* ===================================================================== *)

Lemma grouped_permutation field rows groups1 groups2 :
  grouped field rows groups1 -> grouped field rows groups2 ->
  Permutation groups1 groups2.
Proof.
  intros H1 H2. apply Permutation.NoDup_Permutation.
  - apply (List.NoDup_map_inv fst), H1.
  - apply (List.NoDup_map_inv fst), H2.
  - intros [k ids]. split; intros Hin.
    + destruct (grouped_in _ _ _ _ _ H1 Hin) as [-> Hne].
      now apply (grouped_found _ _ _ _ H2).
    + destruct (grouped_in _ _ _ _ _ H2 Hin) as [-> Hne].
      now apply (grouped_found _ _ _ _ H1).
Qed.

Lemma permutation_filter {A} (f : A -> bool) l l' :
  Permutation l l' -> Permutation (List.filter f l) (List.filter f l').
Proof.
  induction 1 as [|x l l' _ IH|x y l|l l' l'' _ IH1 _ IH2]; cbn [List.filter].
  - constructor.
  - destruct (f x); [now constructor|exact IH].
  - destruct (f x), (f y); try reflexivity. apply perm_swap.
  - now transitivity (List.filter f l').
Qed.

Lemma sum_permutation {A} (f : A -> nat) l l' :
  Permutation l l' ->
  forall a, fold_left (fun n g => n + f g) l a
            = fold_left (fun n g => n + f g) l' a.
Proof.
  induction 1 as [|x l l' _ IH|x y l|l l' l'' _ IH1 _ IH2]; intros a;
    cbn [fold_left].
  - reflexivity.
  - apply IH.
  - f_equal. lia.
  - now rewrite IH1.
Qed.

Lemma sum_of_duplicates l : forall a,
  fold_left (fun sum group => sum + (Service.count group - 1))
            (List.map (fun g : string * list string =>
                         {| Service.uuid := fst g;
                            Service.count := List.length (snd g);
                            Service.documentIds := snd g |}) l) a
  = fold_left (fun n (g : string * list string) =>
                 n + (List.length (snd g) - 1)) l a.
Proof.
  induction l as [|g l IH]; intros a; [reflexivity|].
  cbn [List.map fold_left Service.count]. apply IH.
Qed.

Lemma duplicate_issues_only m :
  List.filter is_duplicate_issue (Migrations.duplicate_issues m)
  = Migrations.duplicate_issues m.
Proof.
  unfold Migrations.duplicate_issues.
  induction (Migrations.duplicate_groups m) as [|g l IH]; [reflexivity|].
  cbn [List.map List.filter is_duplicate_issue]. now rewrite IH.
Qed.

Lemma invalid_issues_none l :
  (forall i, In i l -> exists d v, i = Migrations.InvalidIssue d v) ->
  List.filter is_duplicate_issue l = [].
Proof.
  induction l as [|i l IH]; intros H; [reflexivity|].
  destruct (H i (or_introl eq_refl)) as (d & v & ->).
  cbn [List.filter is_duplicate_issue]. apply IH. intros j Hj. apply H. now right.
Qed.

(** X24: The duplicate detector of the service and the one of the status check
    agree on a field: the groups [findDuplicatesForField] returns are the
    duplicate issues of the status check, up to their order, and what
    [diagnose] adds to [totalDuplicates] for the field is the
    [duplicateCount] of the status check. *)
Theorem detectors_agree (uid field : string) (attr : Attribute) (w w' : World)
        (dups : list Service.DuplicateGroup) :
  Service.findDuplicatesForField uid field w = (inr dups, w') ->
  Permutation
    (List.map as_issue dups)
    (List.filter is_duplicate_issue
       (Migrations.issues
          (Migrations.scanned_info uid field attr (Db.rows (store w) uid))))
  /\ Migrations.duplicateCount
       (Migrations.scanned_info uid field attr (Db.rows (store w) uid))
     = Some (Service.sum_of (fun group => Service.count group - 1) dups).
Proof.
  rewrite findDuplicatesForField_run.
  destruct (Db.read_fault _ _); [discriminate|].
  destruct (Service.group_entries _ _ _) as [e|groups] eqn:Eg; [discriminate|].
  intros [= <- <-].
  pose proof (group_entries_grouped field _ [] [] groups (grouped_nil field) Eg)
    as Hg. cbn [app] in Hg.
  pose proof (scan_is_grouped field (Db.rows (store w) uid)) as Hs.
  assert (Permutation (Js.entries groups)
            (Migrations.by_uuid (Migrations.scan field (Db.rows (store w) uid))))
    as Hperm.
  { transitivity groups; [apply entries_permutation|].
    exact (grouped_permutation _ _ _ _ Hg Hs). }
  cbn [Migrations.scanned_info Migrations.issues Migrations.duplicateCount].
  split.
  - rewrite List.filter_app, duplicate_issues_only, invalid_issues_none.
    + cbn [app]. unfold Service.duplicates_of, Migrations.duplicate_issues,
        Migrations.duplicate_groups.
      rewrite List.map_map. apply Permutation_map. now apply permutation_filter.
    + apply (invalid_issues_only field (Db.rows (store w) uid)). intros i [].
  - f_equal. unfold Migrations.duplicate_total, Service.sum_of,
      Service.duplicates_of, Migrations.duplicate_groups.
    rewrite sum_of_duplicates. symmetry.
    apply sum_permutation. now apply permutation_filter.
Qed.

Lemma detectors_agree_witness :
  let w := Scenario.world
             (Scenario.sound [Scenario.row 1 "d1" (Some Scenario.some_uuid);
                              Scenario.row 2 "d2" (Some "7");
                              Scenario.row 3 "d3" (Some Scenario.some_uuid);
                              Scenario.row 4 "d4" (Some "7");
                              Scenario.row 5 "d5" (Some "7")]) in
  Migrations.duplicateCount
    (Migrations.scanned_info Scenario.article "uuid" (Scenario.uuid_attribute ∅)
                             (Db.rows (store w) Scenario.article))
  = Some 3.
Proof.
  cbv zeta.
  exact (proj2 (detectors_agree Scenario.article "uuid" (Scenario.uuid_attribute ∅)
                  (Scenario.world
                     (Scenario.sound
                        [Scenario.row 1 "d1" (Some Scenario.some_uuid);
                         Scenario.row 2 "d2" (Some "7");
                         Scenario.row 3 "d3" (Some Scenario.some_uuid);
                         Scenario.row 4 "d4" (Some "7");
                         Scenario.row 5 "d5" (Some "7")]))
                  _ _ eq_refl)).
Defined.

(* ===================================================================== *)
(** ** The write-time guard in front of the import *)
(* ===================================================================== *)

Section GuardedImport.
Variables (config : Bootstrap.Config) (models : Js.object (list string)).
Variables (uid field : string) (fields : list string).
Hypothesis listed : Js.get models uid = Some fields.
Hypothesis member : In field fields.

(** What the guard has checked when it lets a write to the monitored
    field of an entry through. *)
Lemma verdict_passed st d u :
  Js.truthy_str d = true -> Js.truthy_str u = true ->
  (exists r, In r (Db.rows st uid) /\ Db.documentId r = d) ->
  Lifecycle.verdict config models st uid d field u = None ->
  Uuid.validate_string u = true
  /\ (Bootstrap.validateUniqueness config = true ->
      forall r, In r (Db.rows st uid) ->
                Db.data r !! field = Some (Js.Str u) -> Db.documentId r = d).
Proof.
  intros Hd Hu (r0 & Hr0 & Hd0). unfold Lifecycle.verdict.
  assert (existsb (fun r => String.eqb (Db.documentId r) d) (Db.rows st uid)
          = true) as ->.
  { apply existsb_exists. exists r0. split; [exact Hr0|].
    now apply String.eqb_eq. }
  set (w := {| store := st; entropy := Lifecycle.no_entropy |}).
  destruct (fst (Bootstrap.beforeUpdate config models
                   (Lifecycle.pending uid d field u) w)) as [e|[]] eqn:Eh;
    [discriminate|]. intros _.
  assert (fst (Bootstrap.beforeUpdate_field config uid {[field := Js.Str u]}
                                            d field w) = inr tt) as Hpass.
  { unfold Bootstrap.beforeUpdate, Lifecycle.pending in Eh.
    cbn [Bootstrap.model_uid Bootstrap.params_data Bootstrap.params_where] in Eh.
    rewrite listed in Eh.
    unfold bind, Bootstrap.getDocumentIdFromWhere in Eh.
    cbn [Bootstrap.where_documentId] in Eh.
    rewrite (or_else_fixed d Hd) in Eh. unfold ret in Eh.
    destruct (for_each fields _ w) as [[e|[]] w1] eqn:Eloop;
      [discriminate|].
    apply (for_each_reader_all _ fields w w1); [|exact Eloop|exact member].
    intros x. apply reader_beforeUpdate_field. }
  split.
  - rewrite beforeUpdate_field_run, lookup_singleton_eq in Hpass.
    change (Js.truthy (Some (Js.Str u))) with (Js.truthy_str u) in Hpass.
    rewrite Hu in Hpass. cbn [andb Uuid.validateUuid] in Hpass.
    destruct (Uuid.validate_string u); [reflexivity|discriminate].
  - intros Hcheck r Hr Hv.
    apply (beforeUpdate_field_checked config Hcheck uid {[field := Js.Str u]}
                                      d field w Hd Hpass u);
      [apply lookup_singleton_eq|exact Hu|exact Hr|exact Hv].
Qed.

Lemma value_of_set_field f u r :
  Js.truthy_str u = true -> value_of f (Db.set_field f u r) = Some u.
Proof.
  intros Hu. unfold value_of, Db.set_field. cbn [Db.data].
  now rewrite lookup_insert_eq, Hu.
Qed.

(** A write the guard let through keeps what the field was free of. *)
Lemma write_checked_unique rows d u :
  Js.truthy_str u = true ->
  (forall r, In r rows -> Db.data r !! field = Some (Js.Str u) ->
             Db.documentId r = d) ->
  (forall r1 r2, In r1 rows -> In r2 rows -> clash field r1 r2 = false) ->
  forall r1 r2,
    In r1 (List.map (fun r => if String.eqb (Db.documentId r) d
                              then Db.set_field field u r else r) rows) ->
    In r2 (List.map (fun r => if String.eqb (Db.documentId r) d
                              then Db.set_field field u r else r) rows) ->
    clash field r1 r2 = false.
Proof.
  intros Hu Hchecked Hfree r1' r2' H1 H2.
  apply in_map_iff in H1 as (r1 & <- & H1), H2 as (r2 & <- & H2).
  destruct (clash field _ _) eqn:Ec; [exfalso|reflexivity].
  apply clash_true in Ec as (v & V1 & V2 & Hne).
  destruct (String.eqb_spec (Db.documentId r1) d) as [E1|E1],
           (String.eqb_spec (Db.documentId r2) d) as [E2|E2];
    cbn [Db.set_field Db.documentId] in Hne.
  - congruence.
  - rewrite (value_of_set_field field u r1 Hu) in V1. injection V1 as <-.
    apply E2. apply (Hchecked r2 H2). now apply value_of_data.
  - rewrite (value_of_set_field field u r2 Hu) in V2. injection V2 as <-.
    apply E1. apply (Hchecked r1 H1). now apply value_of_data.
  - specialize (Hfree r1 r2 H1 H2). unfold clash in Hfree.
    rewrite V1, V2, String.eqb_refl in Hfree. cbn [andb] in Hfree.
    apply negb_false_iff, String.eqb_eq in Hfree. contradiction.
Qed.

Variable w0 : World.

(** The update of a document on an installation. *)
Lemma update_guarded x d f u w (l : Migrations.ImportResult) :
  Js.truthy_str d = true -> Js.truthy_str u = true ->
  import_guarded config models uid field w0 (w, l) ->
  import_guarded config models uid field w0
                 (snd (Documents.update x d f u w), l).
Proof.
  intros Hd Hu (Hsub & Hkept & Hfree). cbn [fst] in *.
  destruct Hsub as [st Hst]. unfold Documents.update. rewrite Hst.
  cbn [Lifecycle.subscribed Db.write_fault Db.tables].
  set (st' := {| Db.tables := Db.tables st; Db.read_fault := Db.read_fault st;
                 Db.write_fault := Db.write_fault st |}).
  assert (forall r, In r (Db.rows (store w) uid) -> In r (Db.rows st' uid))
    as Hrows by now rewrite Hst.
  assert (forall r, In r (Db.rows st' uid) -> In r (Db.rows (store w) uid))
    as Hrows' by now rewrite Hst.
  destruct (Lifecycle.verdict config models st' x d f u) as [e|] eqn:Ev.
  { cbn [snd fst]. split; [now exists st|]. now split. }
  destruct (Db.write_fault st (Db.tables st) x d f u) as [e|].
  { cbn [snd fst]. split; [now exists st|]. now split. }
  cbn [snd fst]. unfold set_store, import_guarded. cbn [fst].
  split; [now exists (Db.write x d f u st)|].
  unfold kept_or_valid, duplicate_free at 2. cbn [store]. rewrite <- Hst.
  destruct (String.eqb_spec x uid) as [->|Hx].
  2: { rewrite rows_write_other by congruence. now split. }
  destruct (String.eqb_spec f field) as [->|Hf].
  2: { split.
       - intros r' Hr'. rewrite rows_write_same in Hr'.
         apply in_map_iff in Hr' as (r1 & <- & Hr1).
         destruct (Hkept r1 Hr1) as (r & Hr & Hdoc & Hval).
         exists r. split; [exact Hr|].
         destruct (String.eqb (Db.documentId r1) d); [|now split].
         cbn [Db.set_field Db.documentId Db.data].
         rewrite lookup_insert_ne by congruence. now split.
       - intros Hcheck H0.
         apply (duplicate_free_keys field (Db.rows (store w) uid));
           [|now apply Hfree].
         symmetry. apply keys_write_other. congruence. }
  split.
  - intros r' Hr'. rewrite rows_write_same in Hr'.
    apply in_map_iff in Hr' as (r1 & <- & Hr1).
    destruct (Hkept r1 Hr1) as (r & Hr & Hdoc & Hval).
    exists r. split; [exact Hr|].
    destruct (String.eqb_spec (Db.documentId r1) d) as [E|_]; [|now split].
    cbn [Db.set_field Db.documentId Db.data]. split; [exact Hdoc|]. right.
    rewrite lookup_insert_eq. cbn [Uuid.validateUuid].
    apply (verdict_passed st' d u Hd Hu); [|exact Ev].
    exists r1. split; [now apply Hrows|exact E].
  - intros Hcheck H0. rewrite rows_write_same.
    destruct (existsb (fun r => String.eqb (Db.documentId r) d)
                      (Db.rows (store w) uid)) eqn:Ex.
    + apply existsb_exists in Ex as (r1 & Hr1 & E1).
      apply String.eqb_eq in E1.
      apply (write_checked_unique (Db.rows (store w) uid) d u Hu);
        [|now apply Hfree].
      intros r Hr Hv.
      apply (proj2 (verdict_passed st' d u Hd Hu
                      (ex_intro _ r1 (conj (Hrows r1 Hr1) E1)) Ev)
                   Hcheck r); [now apply Hrows|exact Hv].
    + rewrite (List.map_ext_in _ id), List.map_id; [now apply Hfree|].
      intros r Hr. destruct (String.eqb (Db.documentId r) d) eqn:E;
        [|reflexivity].
      assert (existsb (fun r => String.eqb (Db.documentId r) d)
                      (Db.rows (store w) uid) = true) as Hex.
      { apply existsb_exists. now exists r. }
      congruence.
Qed.

Lemma truthy_string_truthy v u :
  Migrations.truthy_string v = Some u -> Js.truthy_str u = true.
Proof.
  unfold Migrations.truthy_string. destruct v as [[|s]|]; try discriminate.
  destruct (Js.truthy_str s) eqn:E; [|discriminate]. now intros [= <-].
Qed.

Lemma import_entry_guarded x f dry overwrite entry :
  invariant (import_guarded config models uid field w0)
            (Migrations.import_entry x f dry overwrite entry).
Proof.
  unfold Migrations.import_entry.
  destruct (Js.or_else _ _) as [d|] eqn:Ed;
    [|apply invariant_on_locals; intros w l H; exact H].
  destruct (Migrations.truthy_string _) as [u|] eqn:Eu;
    [|apply invariant_on_locals; intros w l H; exact H].
  apply or_else_truthy in Ed. apply truthy_string_truthy in Eu.
  intros [w r] H. cbn [fst snd] in *.
  unfold try_catch, bind, on_world, on_locals, when, ret. cbn [fst snd].
  unfold Documents.findFirst, Documents.query.
  destruct (Db.read_fault (store w) x); cbn [fst snd]; [exact H|].
  destruct (List.find _ _) as [row|]; cbn [fst snd]; [|exact H].
  destruct (Js.truthy (Db.data row !! f) && negb overwrite); cbn [fst snd];
    [exact H|].
  destruct dry; cbn [negb fst snd]; [exact H|].
  pose proof (update_guarded x d f u w r Ed Eu H) as Hup.
  destruct (Documents.update x d f u w) as [[e|[]] w1]; cbn [fst snd] in *;
    exact Hup.
Qed.

(** [importMappings] on an installation. *)
Lemma importMappings_guarded_run importData o :
  subscribed_world config models w0 ->
  import_guarded config models uid field w0
    (snd (Migrations.importMappings importData o w0),
     {| Migrations.import_dryRun := true; Migrations.imported := 0;
        Migrations.skipped := 0; Migrations.import_errors := [];
        Migrations.import_changes := [] |}).
Proof.
  intros Hsub. unfold Migrations.importMappings, with_locals.
  set (l0 := {| Migrations.import_dryRun := default true _ |}).
  assert (import_guarded config models uid field w0 (w0, l0)) as H0.
  { split; [exact Hsub|]. split; [|auto].
    intros r' Hr'. exists r'. split; [exact Hr'|]. split; [reflexivity|].
    now left. }
  assert (forall m : M (World * Migrations.ImportResult) Migrations.ImportResult,
             invariant (import_guarded config models uid field w0) m ->
             import_guarded config models uid field w0
               ((let '(r, s') := m (w0, l0) in (r, fst s')).2,
                {| Migrations.import_dryRun := true; Migrations.imported := 0;
                   Migrations.skipped := 0; Migrations.import_errors := [];
                   Migrations.import_changes := [] |})) as Hrun.
  { intros m Hm. specialize (Hm _ H0).
    destruct (m (w0, l0)) as [r [w1 l1]]. exact Hm. }
  apply Hrun. destruct importData as [mappings|].
  - apply invariant_bind; [|intros _; apply invariant_locals].
    apply invariant_for_each. intros [x ctData].
    apply invariant_for_each. intros [f entries].
    apply invariant_for_each. intros entry. apply import_entry_guarded.
  - apply invariant_bind; [|intros _; apply invariant_locals].
    apply invariant_on_locals. intros w l H. exact H.
Qed.

End GuardedImport.

(** C10 (counterexample): on an installation of the plugin no committed
    import gives a record, in a monitored field, a value that fails the
    format validator: the write-time guard rejects the write. *)
Lemma import_unchecked_counterexample : ~ import_unchecked.
Proof.
  intros [(config & models & st & ent & mappings & uid & fields & field & r'
           & H) _].
  cbv zeta in H. destruct H as (Hl & Hm & Hr' & Hbad & Hchanged).
  destruct (importMappings_guarded_run config models uid field fields Hl Hm
              {| store := Lifecycle.subscribed config models st;
                 entropy := ent |}
              (Some mappings) committed_import (ex_intro _ st eq_refl))
    as (_ & Hkept & _).
  destruct (Hkept r' Hr') as (r & Hr & Hd & [Hsame|Hvalid]).
  - now apply (Hchanged r Hr Hd).
  - cbn [fst] in Hvalid. congruence.
Qed.

(** C10 (amended): [importMappings] makes no format validation and no
    uniqueness check of its own, but on an installation of the plugin
    every value it writes passes the write-time guard, which the update
    of the Document Service invokes. After an import every entry holds,
    in a monitored field, the value it held or a well-formed one; and
    with [validateUniqueness] on, a field that was free of duplicates
    stays so. A rejected entry is recorded in [errors] and is not counted
    as imported. With [validateUniqueness] off, a committed import turns
    a field that was free of duplicates into one where two distinct
    Record Identities hold the same value. A field that is not monitored
    takes whatever the file brings. *)
Theorem importMappings_guarded :
  (forall config models st ent importData options uid fields field,
      Js.get models uid = Some fields -> In field fields ->
      let w := {| store := Lifecycle.subscribed config models st;
                  entropy := ent |} in
      let w' := snd (Migrations.importMappings importData options w) in
      (forall r', In r' (Db.rows (store w') uid) ->
         exists r, In r (Db.rows (store w) uid)
                   /\ Db.documentId r = Db.documentId r'
                   /\ (Db.data r' !! field = Db.data r !! field
                       \/ Uuid.validateUuid (Db.data r' !! field) = true))
      /\ (Bootstrap.validateUniqueness config = true ->
          duplicate_free (store w) uid field ->
          duplicate_free (store w') uid field))
  /\ (let rows := [Scenario.row 1 "d1" (Some Scenario.uuid0);
                   Scenario.row 2 "d2" (Some Scenario.uuid1)] in
      let snapshot (value : string) : Js.object Migrations.TypeMappings :=
        [(Scenario.article,
          {| Migrations.fields :=
               [("uuid", [{| Migrations.mapping_documentId := Some "d2";
                             Migrations.mapping_uuid := Some (Js.Str value) |}])]
          |})] in
      let guarded := Scenario.world (Scenario.guarded Scenario.defaults rows) in
      let unchecked := Scenario.world (Scenario.guarded Scenario.unchecked rows) in
      let malformed :=
        Migrations.importMappings (Some (snapshot "not-a-uuid"))
                                  committed_import guarded in
      let taken :=
        Migrations.importMappings (Some (snapshot Scenario.uuid0))
                                  committed_import guarded in
      let stored :=
        Migrations.importMappings (Some (snapshot Scenario.uuid0))
                                  committed_import unchecked in
      let aside :=
        Migrations.importMappings
          (Some [(Scenario.article,
                  {| Migrations.fields :=
                       [("title",
                         [{| Migrations.mapping_documentId := Some "d2";
                             Migrations.mapping_uuid :=
                               Some (Js.Str "not-a-uuid") |}])] |})])
          committed_import guarded in
      (exists r, fst malformed = inr r
                 /\ Migrations.imported r = 0
                 /\ Migrations.import_errors r
                    = ["Failed to import api::article.article.d2: "
                       +:+ message_of (Bootstrap.invalid_format "uuid"
                                                                "not-a-uuid")])
      /\ Db.rows (store (snd malformed)) Scenario.article = rows
      /\ (exists r, fst taken = inr r
                    /\ Migrations.imported r = 0
                    /\ Migrations.import_errors r
                       = ["Failed to import api::article.article.d2: "
                          +:+ message_of (Bootstrap.already_exists
                                            "uuid" Scenario.uuid0)])
      /\ Db.rows (store (snd taken)) Scenario.article = rows
      /\ (exists r, fst stored = inr r
                    /\ Migrations.imported r = 1
                    /\ Migrations.import_errors r = [])
      /\ Db.rows (store (snd stored)) Scenario.article
         = [Scenario.row 1 "d1" (Some Scenario.uuid0);
            Scenario.row 2 "d2" (Some Scenario.uuid0)]
      /\ duplicate_free (store unchecked) Scenario.article "uuid"
      /\ ~ duplicate_free (store (snd stored)) Scenario.article "uuid"
      /\ (exists r, fst aside = inr r
                    /\ Migrations.imported r = 1
                    /\ Migrations.import_errors r = [])
      /\ Db.rows (store (snd aside)) Scenario.article
         = [Scenario.row 1 "d1" (Some Scenario.uuid0);
            Db.set_field "title" "not-a-uuid"
                         (Scenario.row 2 "d2" (Some Scenario.uuid1))]).
Proof.
  split.
  - intros config models st ent importData options uid fields field Hl Hm.
    cbv zeta.
    destruct (importMappings_guarded_run config models uid field fields Hl Hm
                {| store := Lifecycle.subscribed config models st;
                   entropy := ent |}
                importData options (ex_intro _ st eq_refl))
      as (_ & Hkept & Hfree).
    split; [exact Hkept|exact Hfree].
  - cbv zeta. split.
    { eexists. split; [vm_compute; reflexivity|].
      split; vm_compute; reflexivity. }
    split; [vm_compute; reflexivity|]. split.
    { eexists. split; [vm_compute; reflexivity|].
      split; vm_compute; reflexivity. }
    split; [vm_compute; reflexivity|]. split.
    { eexists. split; [vm_compute; reflexivity|].
      split; vm_compute; reflexivity. }
    split; [vm_compute; reflexivity|]. split.
    { apply duplicate_freeb_spec. vm_compute. reflexivity. }
    split.
    { intros Hfree. apply duplicate_freeb_spec in Hfree.
      vm_compute in Hfree. discriminate Hfree. }
    split.
    { eexists. split; [vm_compute; reflexivity|].
      split; vm_compute; reflexivity. }
    vm_compute. reflexivity.
Qed.

(** The default installation with two articles, and an import that
    brings a malformed value for the second. *)
Lemma importMappings_guarded_witness :
  let w := {| store := Lifecycle.subscribed Scenario.defaults Scenario.models
                         (Scenario.sound
                            [Scenario.row 1 "d1" (Some Scenario.uuid0);
                             Scenario.row 2 "d2" (Some Scenario.uuid1)]);
              entropy := Scenario.counting |} in
  let w' :=
    snd (Migrations.importMappings
           (Some [(Scenario.article,
                   {| Migrations.fields :=
                        [("uuid",
                          [{| Migrations.mapping_documentId := Some "d2";
                              Migrations.mapping_uuid :=
                                Some (Js.Str "not-a-uuid") |}])] |})])
           committed_import w) in
  duplicate_free (store w') Scenario.article "uuid".
Proof.
  cbv zeta.
  apply (proj1 importMappings_guarded
               Scenario.defaults Scenario.models
               (Scenario.sound [Scenario.row 1 "d1" (Some Scenario.uuid0);
                                Scenario.row 2 "d2" (Some Scenario.uuid1)])
               Scenario.counting
               (Some [(Scenario.article,
                       {| Migrations.fields :=
                            [("uuid",
                              [{| Migrations.mapping_documentId := Some "d2";
                                  Migrations.mapping_uuid :=
                                    Some (Js.Str "not-a-uuid") |}])] |})])
               committed_import Scenario.article ["uuid"] "uuid").
  - vm_compute. reflexivity.
  - now left.
  - reflexivity.
  - apply duplicate_freeb_spec. vm_compute. reflexivity.
Defined.
(* ===================================================================== *)
(** ** The write-time guard in front of the repair *)
(* ===================================================================== *)

Section GuardedRepair.
Variables (config : Bootstrap.Config) (models : Js.object (list string)).
Variables (uid field : string) (fields : list string).
Hypothesis listed : Js.get models uid = Some fields.
Hypothesis member : In field fields.
Hypothesis checking : Bootstrap.validateUniqueness config = true.
Variable w0 : World.














End GuardedRepair.



